(* ===== verification/_CoqProject ===== *)
-Q . S2P
Prelude.v
CLib.v
Double.v
TextUtil.v
MqttTopic.v
JsonUtil.v
State.v
StateFile.v
Metrics.v
Http.v
Config.v
Placeholders.v
Log.v
Shim.v
Threads.v
ThreadPool.v
Mailbox.v
Prog.v
HttpClient.v
Webhook.v
Mqtt.v
Paho.v
Publisher.v
Server.v
Connection.v
Messages.v
Pipeline.v
Listen.v
Loop.v
Main.v
Console.v
