(* ===== verification/Prelude.v ===== *)
(** * nshmqtt: a verification development

    nshmqtt is an HTTP-to-MQTT gateway and MQTT-to-Prometheus bridge in C++.  An HTTP
    request POST /event/<topic> publishes its body; PUT, GET or DELETE of
    /metric/<name> changes one number of the current state, saves the state file and
    mirrors the change as a retained message; MQTT messages the service subscribes
    to update the same state or are forwarded to a webhook; /metrics, /metrics-state
    and a textfile show the state to Prometheus; /health shows it to a health check.
    This library models the code under src/ function by function and proves what it
    does.  Nothing is assumed: there are no axioms, and code outside the repository
    (the kernel, Paho, libcurl, the clock) appears as arguments: results that events
    carry, lists of results that are consumed, or one function answering every call.

    ** The parts of the program and the files

    Text and data (each function of the source is one function here):
    - [Prelude] byte strings, <cctype> and <string>, lists that split in two ([merges]),
      shared tactics and hints;
    - [CLib] strtol and std::to_string; [Double] binary64 values, strtod and the nine
      digits of "%.9g"; both are library behaviour the source relies on;
    - [TextUtil] text_util.cpp: escaping, trimming, numbers, booleans,
      constant-time comparison;
    - [MqttTopic] mqtt_topic.cpp: topic filters;
    - [JsonUtil] json_util.cpp: the index-based JSON reader, flattening;
    - [Metrics] metrics.cpp: counters, Prometheus names, the rendered bodies;
    - [Placeholders] event_placeholders.cpp: the twelve substitution passes;
    - [Config] config.cpp, config.h: the struct, the file, the environment overlay;
    - [Http] http.cpp: reading with deadlines, parsing, serialising.

    State and threads ([Threads] has runs, invariants, liveness by a well-founded order):
    - [State] state.cpp: [StateStore] as a map, the text of its file, loading it;
      [StateFile] the same save as single file operations, for crashes and overlaps;
    - [ThreadPool] thread_pool.cpp: accept thread, workers, condition variable;
    - [Mailbox] the bounded queue with one worker that webhook.cpp and mqtt.cpp share;
      [Webhook] webhook.cpp and webhook_json.cpp on top of it, posting through
      [HttpClient], httpclient.cpp over the libcurl calls it makes;
    - [Mqtt] mqtt.cpp: publish queue, connection workers, callbacks, stop; [Paho] one
      of those connections over the Paho calls it makes, from start to destroy;
    - [Log] log.h: the logger, its two streams, and a reader of them (the callers carry
      their calls of it: an operation, an act or a field [logged]);
    - [Shim] docker/fortify_shim.cpp: the timed wait of the container image and its
      forwards;
    - [Publisher] what the HTTP side may rely on when it calls the broker client: a
      class with its laws, and [Mqtt] as the instance.

    The service ([Prog]: a handler is a finite program over operations):
    - [Server] server.cpp 409-762: authorization, handlers, routing, over the shared
      store, counters, state file, textfile and any [Publisher];
    - [Connection] server.cpp 764-842: one connection from first byte to close;
    - [Messages] main.cpp 437-489: the handler of arriving messages, and histories of
      requests and messages;
    - [Pipeline] the broker client, the message handler, the HTTP threads and the
      webhook client as one system;
    - [Listen] server.cpp 84-401, 882-924: signals, sockets, listeners, and undoing
      them, over logged system calls;
    - [Loop] server.cpp 844-880, 926-1010: poll and accept, the textfile, the end;
    - [Main] main.cpp: command line, health check client, start and stop; [Console]
      what that prints: help, errors, and the log of a start.

    They meet as in the code: [Main.serve_command] runs [Config.load_config],
    [StateStore.load], [Mqtt.start_checked], [Listen.init] and [Loop.run]; the loop
    submits descriptors to [ThreadPool], whose handler is [Connection]'s
    [Server.handle_connection]; that reads with [Http], routes with [Server.route]
    and publishes through [Publisher], that is [Mqtt.publish_enqueue]; [Mqtt]'s inbox
    delivers to [Messages.on_message], which enqueues for [Webhook]; [Pipeline] is that
    last way as a step relation.

    ** How state and operations correspond

    Some states carry histories that no code reads: what the broker sent, what a queue
    refused with its length then, the jobs Paho's publish call took and those whose
    completion it reported ([Mqtt]: arrived, refused, handed, acked; [Webhook]: posts, dropped).
    They are filled from the events, the answers of the environment, or by the branch
    that acts; the theorems tie results to them.

    A mutex-protected operation is one step (one [op] of [Server], one event of
    [ThreadPool], [Mailbox] or [Mqtt]); what lies between two critical sections can be
    interleaved ([Server.many_exec], the [exec] functions).  A condition variable is
    modelled with its lost and spurious wake-ups: waiting, being woken and testing the
    predicate again are separate steps.  Errors are values: [option], sums, or the
    source's error text.  A [std::string] is a list of bytes; where the source passes
    [c_str()] the model cuts at the first NUL.  A double is an exact binary64 value.
    [long] is 64 bits, [int] 32; counters wrap at 2^64.

    ** What the theorems show

    The numbered ones are the main claims (claim ids are in the theorems' comments).
    - Access: where tokens are configured, without one nothing changes, in any interleaving
      ([Connection]: auth_required), and what the peer sees of the connection is the same
      for any state, configuration and version (no_leak_without_token).
    - Requests: a request is served as it was sent however it is cut into segments
      (request_served); each connection is closed once, and counted and answered as what
      arrived of it asks (connection_accounting); a worker is held only by a peer that
      does not read the reply due (worker_held_only_by_write); replies parse and tell the truth about the
      broker ([Server]: json_replies_parse, event_truthful, route_changes_state).
    - State: what a restart finds ([Messages]: restart_recovers, on [State]:
      save_load_roundtrip and [StateFile]: save_atomic_alone), what a message does
      (message_effect).
    - Broker: a publish answered Ok was taken by Paho's publish call and, beyond QoS 0,
      acknowledged, one answered Failed was never taken ([Publisher]: publish_contract,
      [Mqtt]: publish_ok_delivered); no job runs twice or is forgotten (jobs_run_once,
      stop_settles_jobs).
    - One connection uses Paho's handle as its documentation asks, waits after every failed
      attempt as long as the back-off says, ends when told to (connection_protocol), and does
      what the pool's model says (connection_refines).
    - Threads: connections accepted are handled exactly once before the process ends
      ([ThreadPool]: pool_conserves_fds, pool_shutdown_drains; [Loop]:
      accepted_are_handled); every webhook job is delivered, dropped or still queued
      ([Webhook]: webhook_ledger), and delivered while the client runs
      (webhook_drains); every message the broker sent is POSTed at most
      once, in order, and lost only to a queue that was full or a client stopped
      ([Pipeline]: webhook_end_to_end), and while both clients run what the queues took
      is POSTed in the end, whatever the schedule (messages_delivered, by a well-founded order on the
      work left); a POST succeeds exactly on a 2xx response and
      gives back what it took ([HttpClient]: http_post_correct); a timed wait in the
      container ends when it should ([Shim]: clockwait_deadline).
    - Logs: single-line messages can be read back ([Log]: log_roundtrip), a metric name
      can forge lines ([Server]: log_lines_can_be_forged), the log of a start and of
      the broker connections does not depend on secrets ([Console]: secrets_not_logged), and a request, a message and
      a webhook delivery log what failed (route_changes_state, message_effect,
      webhook_ledger).
    - Process: no descriptor or socket file is left behind unless the file system refuses
      the removal, no foreign file removed ([Listen]: init_undone,
      removes_only_dead_sockets), start-up is all or nothing
      and the health check works ([Main]).
    - Text: parse and print agree ([Http], [JsonUtil], [Config], [Metrics],
      [Placeholders], [MqttTopic]), against printers or declarative rules; a JSON object flattens to the same leaves
      however it is spaced and escaped (flatten_json_object_correct).
    - Behaviour that is not what the comments say, proved as it is: overlapping saves
      lose state ([StateFile]), overlapping writes leave store and retained message different, a late
      echo of a PUT undoes a DELETE, [stop] can miss its wake-up, a stored subnormal
      number makes the state file unreadable.

    ** Bounds and fuel

    Recursion is structural wherever the code's loop consumes something: bytes, events,
    answers of the system, rounds.  [JsonUtil.flatten_impl] has fuel, one more than the
    length of the text, and flatten_terminates shows that more never changes the
    result: nesting consumes a byte.  [Placeholders] bounds its passes by the text.
    Programs ([Prog]) are finite trees, so a run by a list of answers is total; where
    the answers given do not finish a loop the model says [None], and the termination
    theorems state which answers do.

    ** Not modelled

    The message of a failing [WebhookClient::start] (it cannot fail); what Paho, libcurl
    and the kernel do inside a call; inet_pton and getenv (answers of the environment); the
    memory order of the atomics, which are read as
    sequentially consistent. *)

From Stdlib Require Export Ascii String ZArith NArith Lia Bool.
From stdpp Require Export base gmap strings list sorting numbers option.


(** ** Byte strings

    A [std::string] is a sequence of bytes that may contain any byte, NUL
    included.  It is a list of [ascii] (eight bits), so that the list library
    applies; [B] turns a literal into one. *)

Abbreviation bytes := (list ascii).

Definition B (s : string) : bytes := list_ascii_of_string s.
Arguments B s%_string_scope : simpl never.

Definition code (c : ascii) : N := N_of_ascii c.
Definition chr (n : N) : ascii := ascii_of_N n.

(** Characters that cannot be written readably as literals. *)
Definition c_nul : ascii := "000"%char.
Definition c_bs : ascii := "008"%char.
Definition c_tab : ascii := "009"%char.
Definition c_lf : ascii := "010"%char.
Definition c_ff : ascii := "012"%char.
Definition c_cr : ascii := "013"%char.
Definition c_quote : ascii := "034"%char.
Definition c_backslash : ascii := "092"%char.

Definition crlf : bytes := [c_cr; c_lf].

(** ** <cctype>, in the "C" locale (the program never calls [setlocale]) *)

Definition in_range (lo hi : ascii) (c : ascii) : bool :=
  (code lo <=? code c)%N && (code c <=? code hi)%N.

Definition isspace (c : ascii) : bool :=
  in_range c_tab c_cr c || Ascii.eqb c " ".
Definition isdigit (c : ascii) : bool := in_range "0" "9" c.
Definition isupper (c : ascii) : bool := in_range "A" "Z" c.
Definition islower (c : ascii) : bool := in_range "a" "z" c.
Definition tolower (c : ascii) : ascii :=
  if isupper c then chr (code c + 32) else c.

(** Value of a hexadecimal digit, upper or lower case. *)
Definition hex_val (c : ascii) : option Z :=
  if isdigit c then Some (Z.of_N (code c) - 48)%Z
  else if in_range "a" "f" c then Some (Z.of_N (code c) - 97 + 10)%Z
  else if in_range "A" "F" c then Some (Z.of_N (code c) - 65 + 10)%Z
  else None.

(** The digit tables [kHexDigits[]] of the source, lower case. *)
Definition hex_digit (n : N) : ascii :=
  if (n <? 10)%N then chr (48 + n) else chr (87 + n).

(** ** <string>: the operations the program uses *)

Fixpoint starts_with (p s : bytes) : bool :=
  match p, s with
  | [], _ => true
  | a :: p', b :: s' => Ascii.eqb a b && starts_with p' s'
  | _ :: _, [] => false
  end.

(** [find_from needle rest i]: [rest] is the suffix of the string at [i]. *)
Fixpoint find_from (needle rest : bytes) (i : nat) : option nat :=
  if starts_with needle rest then Some i
  else match rest with
       | [] => None
       | _ :: rest' => find_from needle rest' (S i)
       end.

(** [s.find(needle, pos)]; [None] is [npos].  The needle is never empty. *)
Definition find (needle s : bytes) (pos : nat) : option nat :=
  find_from needle (drop pos s) pos.

Definition contains (needle s : bytes) : bool :=
  bool_decide (is_Some (find needle s 0)).

(** [s.substr(pos, n)] and [s.substr(pos)], for [pos <= s.size()]. *)
Definition substr (s : bytes) (pos n : nat) : bytes := take n (drop pos s).

(** [c_str()]: what a C function reading up to the first NUL sees. *)
Fixpoint c_str (s : bytes) : bytes :=
  match s with
  | [] => []
  | c :: s' => if Ascii.eqb c c_nul then [] else c :: c_str s'
  end.

Fixpoint drop_while (p : ascii -> bool) (s : bytes) : bytes :=
  match s with
  | c :: s' => if p c then drop_while p s' else s
  | [] => []
  end.

Fixpoint take_while (p : ascii -> bool) (s : bytes) : bytes :=
  match s with
  | c :: s' => if p c then c :: take_while p s' else []
  | [] => []
  end.

(** The two index loops of [trim]: advance [start] over [p], then pull [end]
    back over [p]. *)
Definition trim_by (p : ascii -> bool) (s : bytes) : bytes :=
  reverse (drop_while p (reverse (drop_while p s))).

(** Splits on a separator, keeping empty pieces; never returns []. *)
Fixpoint split_on (sep : ascii) (s : bytes) : list bytes :=
  match s with
  | [] => [[]]
  | c :: s' =>
      if Ascii.eqb c sep then [] :: split_on sep s'
      else match split_on sep s' with
           | l :: ls => (c :: l) :: ls
           | [] => [[c]]
           end
  end.

(** Joining the pieces with the separator. *)
Fixpoint join (sep : ascii) (l : list bytes) : bytes :=
  match l with
  | [] => []
  | [x] => x
  | x :: l' => x ++ sep :: join sep l'
  end.

(** ** Early returns

    [unwrap x := o else r in k] and [ensure b else r in k] are the guards
    [if (!...) return r;] of the source. *)

Declare Scope cpp_scope.
Delimit Scope cpp_scope with cpp.
Notation "'unwrap' x ':=' o 'else' r 'in' k" :=
  (match o with Some x => k | None => r end)
    (at level 10, x pattern, o at level 100, r at level 100, k at level 200)
    : cpp_scope.
Notation "'ensure' b 'else' r 'in' k" :=
  (if b then k else r)
    (at level 10, b at level 100, r at level 100, k at level 200,
     only parsing) : cpp_scope.
#[global] Open Scope cpp_scope.

(** ** Tactics *)

(** Case analysis on a byte: 256 closed goals. *)
Ltac byte_cases c :=
  let b0 := fresh in let b1 := fresh in let b2 := fresh in let b3 := fresh in
  let b4 := fresh in let b5 := fresh in let b6 := fresh in let b7 := fresh in
  destruct c as [b0 b1 b2 b3 b4 b5 b6 b7];
  destruct b0, b1, b2, b3, b4, b5, b6, b7.

(** The same by computation: a decidable fact about bytes is checked on the
    table of all 256. *)
Definition all_bytes : list ascii := map ascii_of_nat (seq 0 256).

Lemma byte_forall (P : ascii -> bool) :
  forallb P all_bytes = true -> forall c, P c = true.
Proof.
  intros H c. rewrite forallb_forall in H. apply H.
  rewrite <- (ascii_nat_embedding c). apply in_map, in_seq.
  pose proof (nat_ascii_bounded c). lia.
Qed.

(** Decide an equality test between bytes wherever it occurs. *)
Ltac char_eq :=
  match goal with
  | |- context [Ascii.eqb ?a ?b] => destruct (Ascii.eqb_spec a b)
  | H : context [Ascii.eqb ?a ?b] |- _ => destruct (Ascii.eqb_spec a b)
  end.

(** Split every test of the goal, keeping the equations. *)
Ltac split_ifs :=
  repeat (case_match; simplify_eq/=; try done).

(** A concrete byte is not in a concrete list. *)
Ltac not_in := let H := fresh in intros H; apply list_elem_of_In in H; vm_compute in H; intuition discriminate.

(** [Forall] over a list written out, one element at a time. *)
Tactic Notation "each" tactic3(tac) :=
  repeat (apply list.Forall_cons_2; [tac|]); apply list.Forall_nil; exact I.

(** Invariant preservation and side conditions that hold by computation; the
    component files add their lemmas. *)
Create HintDb nsh discriminated.

(** ** Lemmas on bytes *)

Lemma code_inj a b : code a = code b -> a = b.
Proof.
  unfold code. intros H. rewrite <- (ascii_N_embedding a), H.
  apply ascii_N_embedding.
Qed.

Lemma code_bound a : (code a < 256)%N.
Proof. apply N_ascii_bounded. Qed.

Lemma code_chr n : (n < 256)%N -> code (chr n) = n.
Proof. apply N_ascii_embedding. Qed.

Lemma in_range_spec lo hi c :
  in_range lo hi c = true <-> (code lo <= code c <= code hi)%N.
Proof. unfold in_range. rewrite andb_true_iff, !N.leb_le. done. Qed.

Lemma in_range_false lo hi c :
  in_range lo hi c = false <-> (code c < code lo \/ code hi < code c)%N.
Proof. unfold in_range. rewrite andb_false_iff, !N.leb_gt. done. Qed.

(** A range test says nothing about a byte outside the range. *)
Lemma in_range_ne lo hi c d :
  in_range lo hi c = true -> in_range lo hi d = false -> Ascii.eqb c d = false.
Proof. intros H1 H2. apply Ascii.eqb_neq. intros ->. congruence. Qed.

(** ** Lemmas on strings *)

Lemma starts_with_spec p s : starts_with p s = true <-> exists t, s = p ++ t.
Proof.
  revert s. induction p as [|a p IH]; intros [|b s]; simpl.
  - split; [exists []; done | done].
  - split; [by eexists | done].
  - split; [done | by intros [t Ht]].
  - rewrite andb_true_iff, Ascii.eqb_eq, IH. split.
    + intros [-> [t ->]]. by exists t.
    + intros [t [= -> ->]]. eauto.
Qed.

Lemma starts_with_app p s : starts_with p (p ++ s) = true.
Proof. apply starts_with_spec. by exists s. Qed.

Lemma starts_with_false p s : starts_with p s = false <-> forall t, s <> p ++ t.
Proof.
  rewrite <- not_true_iff_false, starts_with_spec.
  split; [intros H t ->; eauto | intros H [t ->]; by eapply H].
Qed.

Lemma find_from_shift needle rest i :
  find_from needle rest i = (fun k => i + k) <$> find_from needle rest 0.
Proof.
  revert i. induction rest as [|c rest IH]; intros i; simpl.
  - case_match; simpl; [|done]. by rewrite Nat.add_0_r.
  - case_match; simpl; [by rewrite Nat.add_0_r|].
    rewrite (IH (S i)), (IH 1). destruct (find_from needle rest 0); simpl; [|done].
    f_equal. lia.
Qed.

(** A hit: the needle occurs at the returned index and at no earlier one. *)
Lemma find_from_Some needle rest i k :
  find_from needle rest i = Some k <->
  i <= k /\ starts_with needle (drop (k - i) rest) = true /\
  k - i <= length rest /\
  forall j, i <= j < k -> starts_with needle (drop (j - i) rest) = false.
Proof.
  revert i. induction rest as [|c rest IH]; intros i; simpl.
  - destruct (starts_with needle []) eqn:E; split.
    + intros [= <-]. rewrite Nat.sub_diag. split_and!; [lia|done|lia|lia].
    + intros (Hle & _ & Hl & _). f_equal. lia.
    + done.
    + intros (Hle & H & _). rewrite drop_nil in H. congruence.
  - destruct (starts_with needle (c :: rest)) eqn:E; split.
    + intros [= <-]. rewrite Nat.sub_diag. split_and!; [lia|done|lia|lia].
    + intros (Hle & _ & _ & Hmin). f_equal. destruct (decide (i = k)); [done|].
      specialize (Hmin i). rewrite Nat.sub_diag in Hmin. simpl in Hmin.
      rewrite Hmin in E; [done|lia].
    + rewrite IH. intros (Hle & Hs & Hl & Hmin).
      replace (k - i) with (S (k - S i)) by lia. split_and!; [lia|done|lia|].
      intros j Hj. destruct (decide (j = i)) as [->|Hne].
      * by rewrite Nat.sub_diag.
      * replace (j - i) with (S (j - S i)) by lia. simpl. apply Hmin. lia.
    + rewrite IH. intros (Hle & Hs & Hl & Hmin).
      destruct (decide (i = k)) as [->|Hne].
      { rewrite Nat.sub_diag in Hs. simpl in Hs. congruence. }
      replace (k - i) with (S (k - S i)) in * by lia. simpl in *.
      split_and!; [lia|done|lia|]. intros j Hj. specialize (Hmin j).
      replace (j - i) with (S (j - S i)) in Hmin by lia. apply Hmin. lia.
Qed.

Lemma find_from_None needle rest i :
  find_from needle rest i = None <->
  forall j, starts_with needle (drop j rest) = false.
Proof.
  revert i. induction rest as [|c rest IH]; intros i; simpl.
  - split.
    + case_match; [done|]. intros _ j. by rewrite drop_nil.
    + intros H. specialize (H 0). rewrite drop_0 in H. by rewrite H.
  - split.
    + case_match; [done|]. rewrite IH. intros Hn [|j]; [done|]. simpl. apply Hn.
    + intros H. pose proof (H 0) as H0. simpl in H0. rewrite H0. apply IH.
      intros j. apply (H (S j)).
Qed.

(** Searching for one byte that does not occur in the prefix. *)
Lemma find_from_char c pre rest i :
  c ∉ pre -> find_from [c] (pre ++ c :: rest) i = Some (i + length pre).
Proof.
  revert i. induction pre as [|a pre IH]; intros i Hn; simpl.
  - rewrite Ascii.eqb_refl. simpl. f_equal. lia.
  - apply not_elem_of_cons in Hn as [Hne Hn].
    destruct (Ascii.eqb_spec c a); [congruence|]. simpl.
    rewrite IH by done. f_equal. lia.
Qed.

Lemma find_from_char_None c s i : c ∉ s -> find_from [c] s i = None.
Proof.
  revert i. induction s as [|a s IH]; intros i Hn; simpl; [done|].
  apply not_elem_of_cons in Hn as [Hne Hn].
  destruct (Ascii.eqb_spec c a); [congruence|]. simpl. by apply IH.
Qed.

Lemma c_str_id s : c_nul ∉ s -> c_str s = s.
Proof.
  induction s as [|c s IH]; intros Hn; simpl; [done|].
  apply not_elem_of_cons in Hn as [Hne Hn].
  destruct (Ascii.eqb_spec c c_nul); [congruence|]. by rewrite IH.
Qed.

Lemma c_str_app_nul s t : c_nul ∉ s -> c_str (s ++ c_nul :: t) = s.
Proof.
  induction s as [|c s IH]; intros Hn; simpl; [done|].
  apply not_elem_of_cons in Hn as [Hne Hn].
  destruct (Ascii.eqb_spec c c_nul); [congruence|]. by rewrite IH.
Qed.

Lemma drop_while_head p s :
  match s with [] => True | c :: _ => p c = false end -> drop_while p s = s.
Proof. destruct s; simpl; [done|]. by intros ->. Qed.

Lemma take_drop_while p s : take_while p s ++ drop_while p s = s.
Proof. induction s as [|c s IH]; simpl; [done|]. case_match; simpl; congruence. Qed.

Lemma take_while_app p s t :
  Forall (fun c => p c = true) s ->
  take_while p (s ++ t) = s ++ take_while p t.
Proof. induction 1 as [|c s Hc _ IH]; simpl; [done|]. by rewrite Hc, IH. Qed.

Lemma drop_while_app p s t :
  Forall (fun c => p c = true) s -> drop_while p (s ++ t) = drop_while p t.
Proof. induction 1 as [|c s Hc _ IH]; simpl; [done|]. by rewrite Hc. Qed.

Lemma take_while_Forall p s : Forall (fun c => p c = true) (take_while p s).
Proof. induction s as [|c s IH]; simpl; [done|]. case_match; auto. Qed.

Lemma trim_by_id p s :
  Forall (fun c => p c = false) s -> trim_by p s = s.
Proof.
  intros H. unfold trim_by. rewrite (drop_while_head p s).
  - rewrite drop_while_head; [apply reverse_involutive|].
    apply Forall_reverse in H. destruct (reverse s); [done|by inv H].
  - destruct s; [done|by inv H].
Qed.

(** ** Lemmas: splitting *)

Lemma split_on_nonempty sep s : split_on sep s <> [].
Proof. destruct s; simpl; [done|]. repeat case_match; done. Qed.

Lemma join_cons sep x l : l <> [] -> join sep (x :: l) = x ++ sep :: join sep l.
Proof. by destruct l. Qed.

(** Joining the pieces gives the string back: no byte is lost. *)
Lemma join_split_on sep s : join sep (split_on sep s) = s.
Proof.
  induction s as [|c s IH]; [done|]. simpl.
  pose proof (split_on_nonempty sep s) as Hne.
  char_eq; subst.
  - rewrite join_cons by done. by rewrite IH.
  - destruct (split_on sep s) as [|l ls]; [done|].
    destruct ls; simpl in *; by rewrite <- IH.
Qed.

Lemma split_on_no_sep sep s : Forall (fun l => sep ∉ l) (split_on sep s).
Proof.
  induction s as [|c s IH]; simpl.
  - apply Forall_singleton. apply not_elem_of_nil.
  - char_eq.
    + apply Forall_cons; [apply not_elem_of_nil|done].
    + destruct (split_on sep s) as [|l ls]; inv IH.
      * apply Forall_singleton. apply not_elem_of_cons.
        split; [congruence|apply not_elem_of_nil].
      * apply Forall_cons; [|done]. apply not_elem_of_cons. split; [congruence|done].
Qed.

(** ** Order-preserving merges *)

(** [merges l a b]: [a] and [b] are the two parts of [l], each in the order of [l]. *)
Inductive merges {A : Type} : list A -> list A -> list A -> Prop :=
| merges_nil : merges [] [] []
| merges_left x l a b : merges l a b -> merges (x :: l) (x :: a) b
| merges_right x l a b : merges l a b -> merges (x :: l) a (x :: b).

Section Merges.
Context {A : Type}.
Implicit Types l a b : list A.

Lemma merges_all l : merges l l [].
Proof. induction l; by constructor. Qed.

Lemma merges_none l : merges l [] l.
Proof. induction l; by constructor. Qed.

Lemma merges_app l a b l' a' b' : merges l a b -> merges l' a' b' -> merges (l ++ l') (a ++ a') (b ++ b').
Proof. induction 1; intros H'; cbn; [done|constructor; auto..]. Qed.

Lemma merges_app_left l a b x : merges l a b -> merges (l ++ x) (a ++ x) b.
Proof. intros H. rewrite <- (app_nil_r b). apply merges_app; [done|apply merges_all]. Qed.

Lemma merges_app_right l a b x : merges l a b -> merges (l ++ x) a (b ++ x).
Proof. intros H. rewrite <- (app_nil_r a). apply merges_app; [done|apply merges_none]. Qed.

Lemma merges_complete l a : merges l a [] -> a = l.
Proof. revert a. induction l as [|x l IH]; intros a H; inv H; [done|]. f_equal. by apply IH. Qed.

Lemma merges_sublist l a b : merges l a b -> a `sublist_of` l.
Proof. induction 1; by constructor. Qed.

(** A part split again: what is left out is one part or the other. *)
Lemma merges_split l a r b d :
  merges l a r -> merges a b d -> exists lost, merges l b lost /\ merges lost r d.
Proof.
  intros H. revert b d. induction H as [|x l a r H IH|x l a r H IH]; intros b d Hb.
  - inv Hb. exists []. by split; constructor.
  - inv Hb; edestruct IH as (lost & H1 & H2); try eassumption.
    + exists lost. split; [by constructor|done].
    + exists (x :: lost). split; by constructor.
  - destruct (IH b d Hb) as (lost & H1 & H2). exists (x :: lost). by split; constructor.
Qed.

End Merges.

Lemma merges_map {A B : Type} (f : A -> list B) (l a b : list A) :
  merges l a b -> merges (concat (map f l)) (concat (map f a)) (concat (map f b)).
Proof.
  induction 1 as [|x l a b H IH|x l a b H IH]; cbn; [constructor|..].
  - exact (merges_app _ _ _ _ _ _ (merges_all (f x)) IH).
  - exact (merges_app _ _ _ _ _ _ (merges_none (f x)) IH).
Qed.
