(* ===== verification/CLib.v ===== *)
(** * The C and C++ number/text conversions the program calls

    [std::to_string], [strtol] and the digit functions under them.  [long] is
    64 bits wide (LP64): [strtol] clamps to its range and reports ERANGE. *)

From S2P Require Import Prelude.

Local Open Scope Z_scope.

(** ** Digits *)

Definition digit_val (c : ascii) : Z := Z.of_N (code c) - 48.
Definition digit_chr (n : Z) : ascii := chr (48 + Z.to_N n).

(** Value of a digit string read left to right in [base]. *)
Definition digits_val (base : Z) (s : bytes) : Z :=
  fold_left (fun a c => a * base + digit_val c) s 0.

(** Decimal digits of [n >= 0], most significant first, no leading zero. *)
Fixpoint dec_aux (fuel : nat) (n : Z) : bytes :=
  match fuel with
  | O => []
  | S f => if n <? 10 then [digit_chr n]
           else dec_aux f (n / 10) ++ [digit_chr (n mod 10)]
  end.

(** [log2 n + 1] divisions by ten are enough: [dec_aux_fuel] below. *)
Definition dec_fuel (n : Z) : nat := S (Z.to_nat (Z.log2 n)).
Definition dec (n : Z) : bytes := dec_aux (dec_fuel n) n.

(** [std::to_string] on integers. *)
Definition to_string (z : Z) : bytes :=
  if z <? 0 then "-"%char :: dec (- z) else dec z.

(** ** strtol *)

Definition LONG_MAX : Z := 2 ^ 63 - 1.
Definition LONG_MIN : Z := - 2 ^ 63.

(** An optional sign. *)
Definition read_sign (s : bytes) : bool * bytes :=
  match s with
  | c :: r => if Ascii.eqb c "-" then (true, r)
              else if Ascii.eqb c "+" then (false, r) else (false, s)
  | [] => (false, [])
  end.

(** Digits of a base up to ten. *)
Definition digit_in (base : Z) (c : ascii) : bool :=
  isdigit c && (digit_val c <? base).

(** [strtol(s, &end, base)] for [base] 8 or 10 on a C string:
    [None] when nothing is converted ([end == s]), otherwise the value, whether
    [errno] was set (ERANGE) and the text at [end]. *)
Definition strtol (base : Z) (s : bytes) : option (Z * bool * bytes) :=
  let '(neg, s2) := read_sign (drop_while isspace s) in
  let ds := take_while (digit_in base) s2 in
  let rest := drop_while (digit_in base) s2 in
  if decide (ds = []) then None
  else
    let v := (if neg then -1 else 1) * digits_val base ds in
    if LONG_MAX <? v then Some (LONG_MAX, true, rest)
    else if v <? LONG_MIN then Some (LONG_MIN, true, rest)
    else Some (v, false, rest).

(** The full-match idiom around it: [errno != 0 || end == text || *end != 0]
    rejects.  The text is a C string, so it stops at the first NUL. *)
Definition strtol_full (base : Z) (text : bytes) : option Z :=
  match strtol base (c_str text) with
  | Some (v, false, []) => Some v
  | _ => None
  end.

(** ** Lemmas: digits *)

Lemma digit_val_chr n : 0 <= n < 10 -> digit_val (digit_chr n) = n.
Proof. intros H. unfold digit_val, digit_chr. rewrite code_chr; lia. Qed.

Lemma isdigit_chr n : 0 <= n < 10 -> isdigit (digit_chr n) = true.
Proof.
  intros H. apply in_range_spec. unfold digit_chr. rewrite code_chr by lia.
  change (code "0") with 48%N. change (code "9") with 57%N. lia.
Qed.

Lemma isdigit_val c : isdigit c = true -> 0 <= digit_val c < 10.
Proof.
  intros H%in_range_spec. change (code "0") with 48%N in H.
  change (code "9") with 57%N in H. unfold digit_val. lia.
Qed.

Lemma isdigit_not_space c : isdigit c = true -> isspace c = false.
Proof. byte_cases c; done. Qed.

Lemma digit_in_10 c : digit_in 10 c = isdigit c.
Proof.
  unfold digit_in. destruct (isdigit c) eqn:E; [|done].
  apply isdigit_val in E. rewrite andb_true_l. apply Z.ltb_lt. lia.
Qed.

Lemma digits_val_snoc base s c :
  digits_val base (s ++ [c]) = digits_val base s * base + digit_val c.
Proof. unfold digits_val. by rewrite fold_left_app. Qed.

Lemma digits_val_app base s t :
  digits_val base (s ++ t)
  = digits_val base s * base ^ Z.of_nat (length t) + digits_val base t.
Proof.
  revert s. induction t as [|c t IH] using rev_ind; intros s.
  - rewrite app_nil_r. simpl. change (digits_val base []) with 0. lia.
  - rewrite app_assoc, !digits_val_snoc, IH, length_app. simpl.
    replace (Z.of_nat (length t + 1)) with (Z.succ (Z.of_nat (length t))) by lia.
    rewrite Z.pow_succ_r by lia. ring.
Qed.

Lemma digits_val_nonneg s :
  Forall (fun c => isdigit c = true) s -> 0 <= digits_val 10 s.
Proof.
  induction s as [|c s IH] using rev_ind; intros H; [done|].
  apply Forall_app in H as [H1 H2]. inv H2. rewrite digits_val_snoc.
  pose proof (isdigit_val c ltac:(done)). specialize (IH H1). lia.
Qed.

(** Enough fuel: [n < 2^fuel] divisions suffice. *)
Lemma dec_aux_spec fuel n :
  0 <= n < 2 ^ Z.of_nat fuel ->
  Forall (fun c => isdigit c = true) (dec_aux fuel n) /\
  digits_val 10 (dec_aux fuel n) = n /\ (fuel <> 0%nat -> dec_aux fuel n <> []).
Proof.
  revert n. induction fuel as [|f IH]; intros n Hn.
  { simpl in *. split_and!; [done| |done]. change (digits_val 10 []) with 0. lia. }
  simpl. destruct (Z.ltb_spec n 10) as [Hlt|Hge].
  - split_and!; [| |done].
    + apply Forall_singleton, isdigit_chr. lia.
    + unfold digits_val. simpl. rewrite digit_val_chr; lia.
  - pose proof (Z.mod_pos_bound n 10 ltac:(lia)) as Hm.
    pose proof (Z.div_mod n 10 ltac:(lia)) as Hd.
    destruct (IH (n / 10)) as (H1 & H2 & _).
    { split; [apply Z.div_pos; lia|]. apply Z.div_lt_upper_bound; [lia|].
      replace (Z.of_nat (S f)) with (Z.succ (Z.of_nat f)) in Hn by lia.
      rewrite Z.pow_succ_r in Hn by lia. lia. }
    split_and!.
    + apply Forall_app. split; [done|]. by apply Forall_singleton, isdigit_chr.
    + rewrite digits_val_snoc, H2, digit_val_chr by done. lia.
    + intros _ Heq. by apply app_eq_nil in Heq as [_ ?].
Qed.

Lemma dec_fuel_enough n : 0 <= n -> n < 2 ^ Z.of_nat (dec_fuel n).
Proof.
  intros H. unfold dec_fuel. rewrite Nat2Z.inj_succ, Z2Nat.id by apply Z.log2_nonneg.
  destruct (decide (n = 0)) as [->|Hne]; [done|].
  apply Z.log2_spec. lia.
Qed.

Lemma dec_spec n :
  0 <= n ->
  Forall (fun c => isdigit c = true) (dec n) /\ digits_val 10 (dec n) = n /\ dec n <> [].
Proof.
  intros H. destruct (dec_aux_spec (dec_fuel n) n) as (H1 & H2 & H3).
  { split; [done|]. by apply dec_fuel_enough. }
  split_and!; [done..|]. apply H3. unfold dec_fuel. lia.
Qed.

Lemma dec_digits n : 0 <= n -> Forall (fun c => isdigit c = true) (dec n).
Proof. intros H. by destruct (dec_spec n H). Qed.

Lemma dec_nonempty n : 0 <= n -> dec n <> [].
Proof. intros H. by destruct (dec_spec n H) as (_ & _ & ?). Qed.

Lemma digits_val_dec n : 0 <= n -> digits_val 10 (dec n) = n.
Proof. intros H. by destruct (dec_spec n H) as (_ & ? & _). Qed.

(** ** Lemmas: strtol *)

Lemma read_sign_digits s :
  Forall (fun c => isdigit c = true) s -> read_sign s = (false, s).
Proof.
  intros H. destruct s as [|c s]; [done|]. inv H. simpl.
  rewrite (in_range_ne "0" "9" c "-"), (in_range_ne "0" "9" c "+"); done.
Qed.

Lemma strtol_digits ds :
  Forall (fun c => isdigit c = true) ds -> ds <> [] ->
  digits_val 10 ds <= LONG_MAX ->
  strtol 10 ds = Some (digits_val 10 ds, false, []).
Proof.
  intros H Hne Hmax. unfold strtol.
  rewrite (drop_while_head isspace ds).
  2: { destruct ds; [done|]. inv H. by apply isdigit_not_space. }
  rewrite read_sign_digits by done.
  assert (Hd : Forall (fun c => digit_in 10 c = true) ds).
  { eapply Forall_impl; [|exact H]. intros c. by rewrite digit_in_10. }
  rewrite <- (app_nil_r ds), take_while_app, drop_while_app by done. simpl.
  rewrite app_nil_r, decide_False by done.
  rewrite Z.mul_1_l, (proj2 (Z.ltb_ge _ _)) by done.
  pose proof (digits_val_nonneg ds H).
  rewrite (proj2 (Z.ltb_ge _ _)); [done|]. unfold LONG_MIN. lia.
Qed.

(** The clamped value is always a [long]. *)
Lemma strtol_range base s v e r :
  strtol base s = Some (v, e, r) -> LONG_MIN <= v <= LONG_MAX.
Proof.
  unfold strtol. destruct (read_sign _) as [neg s2]. case_decide; [done|].
  destruct (Z.ltb_spec LONG_MAX ((if neg then -1 else 1)
    * digits_val base (take_while (digit_in base) s2))).
  { intros [= <- _ _]. unfold LONG_MIN, LONG_MAX. lia. }
  destruct (Z.ltb_spec ((if neg then -1 else 1)
    * digits_val base (take_while (digit_in base) s2)) LONG_MIN).
  { intros [= <- _ _]. unfold LONG_MIN, LONG_MAX. lia. }
  intros [= <- _ _]. done.
Qed.

Lemma digit_not_nul c : isdigit c = true -> c <> c_nul.
Proof. intros H ->. done. Qed.

Lemma digits_no_nul s : Forall (fun c => isdigit c = true) s -> c_nul ∉ s.
Proof.
  intros H Hin. rewrite Forall_forall in H.
  by apply list_elem_of_In, H in Hin.
Qed.

(** Printing a non-negative [long] and reading it back. *)
Lemma strtol_full_dec n :
  0 <= n <= LONG_MAX -> strtol_full 10 (dec n) = Some n.
Proof.
  intros H. unfold strtol_full.
  rewrite c_str_id by (apply digits_no_nul, dec_digits; lia).
  rewrite strtol_digits; rewrite ?digits_val_dec; try done; try lia;
    [apply dec_digits; lia | apply dec_nonempty; lia].
Qed.
