(* ===== verification/Double.v ===== *)
(** * Doubles and their text forms

    IEEE-754 binary64 values as exact sign/mantissa/exponent triples, the
    [strtod] of the C library (decimal, hexadecimal, infinities and NaNs,
    round to nearest even, ERANGE on overflow and on an inexact result below
    the normal range, as glibc sets it) and the text an [ostringstream] with
    [setprecision(9)] produces ([%.9g]). *)

From S2P Require Import Prelude CLib.

Local Open Scope Z_scope.

(** A double: [Fin neg m e] is [m * 2^e] (negated when [neg]).  [valid] is the
    canonical form every operation below produces. *)
Inductive double :=
| Nan (neg : bool)
| Inf (neg : bool)
| Fin (neg : bool) (m e : Z).

#[export] Instance double_eq_dec : EqDecision double.
Proof. solve_decision. Defined.

Definition normal (v : double) : bool :=
  match v with
  | Fin _ m e => (2 ^ 52 <=? m) && (m <? 2 ^ 53) && (-1074 <=? e) && (e <=? 971)
  | _ => false
  end.

Definition valid (v : double) : bool :=
  match v with
  | Nan _ | Inf _ => true
  | Fin _ m e =>
      normal v || ((m =? 0) && (e =? 0))
      || ((0 <? m) && (m <? 2 ^ 52) && (e =? -1074))
  end.

(** ** Correct rounding of a positive rational [n/d] *)

(** [n/d * b^k]. *)
Definition scale (b n d k : Z) : Z * Z :=
  if 0 <=? k then (n * b ^ k, d) else (n, d * b ^ (- k)).

(** [floor (log_b (n/d))], from [lg x = floor (log_b x)] on integers. *)
Definition flog (b : Z) (lg : Z -> Z) (n d : Z) : Z :=
  let k := lg n - lg d in
  let '(n', d') := scale b n d (- k) in
  if d' <=? n' then k else k - 1.

Definition flog2 : Z -> Z -> Z := flog 2 Z.log2.
Definition log10 (n : Z) : Z := Z.of_nat (length (dec n)) - 1.
Definition flog10 : Z -> Z -> Z := flog 10 log10.

(** Nearest integer to [n/d], ties to even, and whether it is inexact. *)
Definition round_even (n d : Z) : Z * bool :=
  let q := n / d in
  let r := n mod d in
  (if (d <? 2 * r) || ((2 * r =? d) && Z.odd q) then q + 1 else q,
   negb (r =? 0)).

(** 53 bits of mantissa, exponent at least [emin]. *)
Definition round53 (emin n d : Z) : Z * Z * bool :=
  let e := Z.max (flog2 n d - 52) emin in
  let '(n', d') := scale 2 n d (- e) in
  let '(q, inexact) := round_even n' d' in
  if q =? 2 ^ 53 then (2 ^ 52, e + 1, inexact) else (q, e, inexact).

(** The double nearest to [n/d] and whether [errno] becomes ERANGE. *)
Definition rat_to_double (neg : bool) (n d : Z) : double * bool :=
  let '(m, e, inexact) := round53 (-1074) n d in
  if 971 <? e then (Inf neg, true)
  else if m =? 0 then (Fin neg 0 0, true)
  else
    let '(_, e', _) := round53 (flog2 n d - 52) n d in
    (Fin neg m e, inexact && (e' <? -1074)).

(** [m * b^k] for [m >= 0]. *)
Definition pow_to_double (neg : bool) (b m k : Z) : double * bool :=
  if m =? 0 then (Fin neg 0 0, false)
  else let '(n, d) := scale b m 1 k in rat_to_double neg n d.

(** ** strtod *)

(** Case-insensitive prefix test against a lower-case word. *)
Definition starts_with_ci (w s : bytes) : bool :=
  starts_with w (map tolower (take (length w) s)).

Definition isxdigit (c : ascii) : bool := bool_decide (is_Some (hex_val c)).

Definition xdigits_val (s : bytes) : Z :=
  fold_left (fun a c => a * 16 + default 0 (hex_val c)) s 0.

(** Digits, an optional point and more digits. *)
Definition read_digits (p : ascii -> bool) (s : bytes) : bytes * bytes * bytes :=
  let ip := take_while p s in
  let r := drop_while p s in
  match r with
  | "."%char :: r1 => (ip, take_while p r1, drop_while p r1)
  | _ => (ip, [], r)
  end.

(** An optional exponent introduced by the letter [mark] (lower case). *)
Definition read_exp (mark : ascii) (s : bytes) : Z * bytes :=
  match s with
  | c :: r =>
      if Ascii.eqb (tolower c) mark then
        let '(neg, r1) := read_sign r in
        let ds := take_while isdigit r1 in
        if decide (ds = []) then (0, s)
        else ((if neg then -1 else 1) * digits_val 10 ds, drop_while isdigit r1)
      else (0, s)
  | [] => (0, s)
  end.

Definition strtod_dec (neg : bool) (s : bytes) : option (double * bool * bytes) :=
  let '(ip, fp, r) := read_digits isdigit s in
  if decide (ip ++ fp = []) then None
  else
    let '(x, r') := read_exp "e" r in
    Some (pow_to_double neg 10 (digits_val 10 (ip ++ fp)) (x - Z.of_nat (length fp)), r').

(** After ["0x"]; [None] when no hexadecimal digit follows. *)
Definition strtod_hex (neg : bool) (s : bytes) : option (double * bool * bytes) :=
  let '(ip, fp, r) := read_digits isxdigit s in
  if decide (ip ++ fp = []) then None
  else
    let '(x, r') := read_exp "p" r in
    Some (pow_to_double neg 2 (xdigits_val (ip ++ fp)) (x - 4 * Z.of_nat (length fp)), r').

Definition nan_char (c : ascii) : bool :=
  isdigit c || isupper c || islower c || Ascii.eqb c "_".

(** ["nan"] and an optional parenthesised character sequence. *)
Definition skip_nan_payload (s : bytes) : bytes :=
  match s with
  | "("%char :: r =>
      match drop_while nan_char r with
      | ")"%char :: r' => r'
      | _ => s
      end
  | _ => s
  end.

(** [strtod(s, &end)] on a C string: [None] when nothing is converted,
    otherwise value, ERANGE and the text at [end]. *)
Definition strtod (s : bytes) : option (double * bool * bytes) :=
  let '(neg, s2) := read_sign (drop_while isspace s) in
  if starts_with_ci (B"inf") s2 then
    Some (Inf neg, false,
          if starts_with_ci (B"infinity") s2 then drop 8 s2 else drop 3 s2)
  else if starts_with_ci (B"nan") s2 then
    Some (Nan neg, false, skip_nan_payload (drop 3 s2))
  else if starts_with_ci (B"0x") s2 then
    match strtod_hex neg (drop 2 s2) with
    | Some r => Some r
    | None => strtod_dec neg s2
    end
  else strtod_dec neg s2.

(** ** Formatting with nine significant digits *)

Definition sign_text (neg : bool) : bytes := if neg then B"-" else [].

(** Nine significant digits [D] and the decimal exponent [X] of the first. *)
Definition sig9 (n d : Z) : Z * Z :=
  let x := flog10 n d in
  let '(n', d') := scale 10 n d (8 - x) in
  let q := fst (round_even n' d') in
  if q =? 10 ^ 9 then (10 ^ 8, x + 1) else (q, x).

Definition strip_zeros (ds : bytes) : bytes :=
  reverse (drop_while (fun c => Ascii.eqb c "0") (reverse ds)).

Definition frac_text (fp : bytes) : bytes :=
  if decide (fp = []) then [] else "."%char :: fp.

(** At least two digits. *)
Definition exp_text (x : Z) : bytes :=
  "e"%char :: (if x <? 0 then "-"%char else "+"%char) ::
  (if Z.abs x <? 10 then "0"%char :: dec (Z.abs x) else dec (Z.abs x)).

(** [%g] layout of the nine digits [ds] with exponent [x]. *)
Definition layout_g (ds : bytes) (x : Z) : bytes :=
  if (x <? -4) || (9 <=? x) then
    take 1 ds ++ frac_text (strip_zeros (drop 1 ds)) ++ exp_text x
  else if x <? 0 then
    B"0." ++ replicate (Z.to_nat (- x - 1)) "0"%char ++ strip_zeros ds
  else
    take (Z.to_nat (x + 1)) ds ++ frac_text (strip_zeros (drop (Z.to_nat (x + 1)) ds)).

Definition format_g9 (v : double) : bytes :=
  match v with
  | Nan neg => sign_text neg ++ B"nan"
  | Inf neg => sign_text neg ++ B"inf"
  | Fin neg m e =>
      sign_text neg ++
      (if m =? 0 then B"0"
       else let '(n, d) := scale 2 m 1 e in
            let '(q, x) := sig9 n d in layout_g (dec q) x)
  end.

(** ** Lemmas: the bytes of a formatted double *)

Lemma dec_aux_digits fuel n : Forall (fun c => isdigit c = true) (dec_aux fuel n).
Proof.
  revert n. induction fuel as [|f IH]; intros n; simpl; [done|].
  destruct (Z.ltb_spec n 10).
  - apply Forall_singleton. destruct (decide (0 <= n)); [apply isdigit_chr; lia|].
    unfold digit_chr. by replace (Z.to_N n) with 0%N by lia.
  - apply Forall_app. split; [done|].
    apply Forall_singleton, isdigit_chr, Z.mod_pos_bound. lia.
Qed.

Lemma dec_aux_nonempty fuel n : dec_aux (S fuel) n <> [].
Proof. simpl. destruct (n <? 10); [done|]. intros [_ ?]%app_eq_nil. done. Qed.

Definition g9_char (c : ascii) : bool :=
  isdigit c || bool_decide (c ∈ B"-+.einfa").

Lemma digits_g9 s :
  Forall (fun c => isdigit c = true) s -> Forall (fun c => g9_char c = true) s.
Proof.
  intros H. eapply Forall_impl; [|exact H]. intros c Hc. unfold g9_char. by rewrite Hc.
Qed.

Lemma Forall_drop_while (P : ascii -> Prop) p s : Forall P s -> Forall P (drop_while p s).
Proof. induction 1; simpl; [done|]. case_match; [done|by constructor]. Qed.

Lemma strip_zeros_Forall (P : ascii -> Prop) s : Forall P s -> Forall P (strip_zeros s).
Proof. intros H. by apply Forall_reverse, Forall_drop_while, Forall_reverse. Qed.

Lemma frac_text_g9 s :
  Forall (fun c => g9_char c = true) s -> Forall (fun c => g9_char c = true) (frac_text s).
Proof. intros H. unfold frac_text. case_decide; [done|by constructor]. Qed.

Lemma exp_text_g9 x : Forall (fun c => g9_char c = true) (exp_text x).
Proof.
  unfold exp_text. constructor; [done|]. constructor; [by destruct (x <? 0)|].
  apply digits_g9. destruct (Z.abs x <? 10); [constructor; [done|]|]; apply dec_aux_digits.
Qed.

Lemma layout_g_g9 ds x :
  Forall (fun c => g9_char c = true) ds -> Forall (fun c => g9_char c = true) (layout_g ds x).
Proof.
  intros H. unfold layout_g. repeat case_match; repeat apply Forall_app_2;
    auto using Forall_take, frac_text_g9, strip_zeros_Forall, Forall_drop, exp_text_g9.
  - repeat constructor.
  - by apply Forall_replicate.
Qed.

Lemma format_g9_bytes v : Forall (fun c => g9_char c = true) (format_g9 v).
Proof.
  destruct v as [neg|neg|neg m e]; unfold format_g9, sign_text.
  1-2: destruct neg; repeat constructor.
  apply Forall_app_2; [destruct neg; repeat constructor|].
  destruct (m =? 0); [repeat constructor|].
  destruct (scale 2 m 1 e) as [n d]. destruct (sig9 n d) as [q x].
  apply layout_g_g9, digits_g9, dec_aux_digits.
Qed.

Lemma layout_g_nonempty ds x : ds <> [] -> layout_g ds x <> [].
Proof.
  intros H. destruct ds as [|c ds]; [done|]. unfold layout_g.
  destruct (_ || _) eqn:E1; [done|]. apply orb_false_iff in E1 as [_ E1].
  destruct (Z.ltb_spec x 0); [done|].
  replace (Z.to_nat (x + 1)) with (S (Z.to_nat x)) by lia. done.
Qed.

Lemma format_g9_nonempty v : format_g9 v <> [].
Proof.
  destruct v as [neg|neg|neg m e]; unfold format_g9; [by destruct neg..|].
  intros [_ H]%app_eq_nil. destruct (m =? 0); [done|].
  destruct (scale 2 m 1 e) as [n d]. destruct (sig9 n d) as [q x].
  eapply layout_g_nonempty; [|exact H]. apply dec_aux_nonempty.
Qed.
