(* ===== verification/TextUtil.v ===== *)
(** * text_util.cpp: escaping, trimming and scalar parsing *)

From S2P Require Import Prelude CLib Double.

(** ** json_escape *)

(** [snprintf("\\u%04x", c)] for one byte. *)
Definition u_escape (c : ascii) : bytes :=
  [c_backslash; "u"%char; "0"%char; "0"%char;
   hex_digit (code c / 16); hex_digit (code c mod 16)].

(** One iteration of the [switch]. *)
Definition escape_byte (c : ascii) : bytes :=
  if Ascii.eqb c c_quote then [c_backslash; c_quote]
  else if Ascii.eqb c c_backslash then [c_backslash; c_backslash]
  else if Ascii.eqb c c_bs then [c_backslash; "b"%char]
  else if Ascii.eqb c c_ff then [c_backslash; "f"%char]
  else if Ascii.eqb c c_lf then [c_backslash; "n"%char]
  else if Ascii.eqb c c_cr then [c_backslash; "r"%char]
  else if Ascii.eqb c c_tab then [c_backslash; "t"%char]
  else if (code c <? 32)%N then u_escape c
  else [c].

Fixpoint json_escape (s : bytes) : bytes :=
  match s with
  | [] => []
  | c :: s' => escape_byte c ++ json_escape s'
  end.

(** ** sanitize_header_value *)

Fixpoint sanitize_header_value (s : bytes) : bytes :=
  match s with
  | [] => []
  | c :: s' =>
      if Ascii.eqb c c_cr || Ascii.eqb c c_lf || (code c <? 32)%N || (code c =? 127)%N
      then sanitize_header_value s' else c :: sanitize_header_value s'
  end.

(** ** Scalars *)

Definition format_double (v : double) : bytes := format_g9 v.

Definition trim_ws (s : bytes) : bytes := trim_by isspace s.

Definition parse_double (text : bytes) : option double :=
  let trimmed := trim_ws text in
  if decide (trimmed = []) then None
  else match strtod (c_str trimmed) with
       | Some (v, false, []) => Some v
       | _ => None
       end.

Definition parse_int (text : bytes) : option Z :=
  let trimmed := trim_ws text in
  if decide (trimmed = []) then None else strtol_full 10 trimmed.

Definition parse_bool (text : bytes) : option bool :=
  let v := map tolower (trim_ws text) in
  if decide (v ∈ [B"1"; B"true"; B"yes"; B"on"]) then Some true
  else if decide (v ∈ [B"0"; B"false"; B"no"; B"off"]) then Some false
  else None.

(** ** constant_time_equals *)

(** [(i < a.size()) ? a[i] : 0]. *)
Definition byte_or_zero (a : bytes) (i : nat) : N := from_option code 0%N (a !! i).

Definition constant_time_equals (a b : bytes) : bool :=
  let len := Nat.max (length a) (length b) in
  let diff0 := if decide (length a = length b) then 0%N else 1%N in
  let diff :=
    fold_left (fun diff i => N.lor diff (N.lxor (byte_or_zero a i) (byte_or_zero b i)))
              (seq 0 len) diff0 in
  (diff =? 0)%N.

(** ** Lemmas *)

(** Escaped text contains no byte that could end a JSON string or is illegal
    inside one: every quote it contains follows a backslash, and no control
    byte is left. *)
Definition json_safe (c : ascii) : bool := (32 <=? code c)%N.

Lemma escape_byte_safe c : Forall (fun x => json_safe x = true) (escape_byte c).
Proof.
  apply Forall_forall, forallb_forall.
  revert c. by apply (byte_forall (fun c => forallb json_safe (escape_byte c))).
Qed.

Lemma json_escape_safe s : Forall (fun x => json_safe x = true) (json_escape s).
Proof.
  induction s as [|c s IH]; simpl; [done|].
  apply Forall_app. split; [apply escape_byte_safe|done].
Qed.

Lemma json_escape_app s t : json_escape (s ++ t) = json_escape s ++ json_escape t.
Proof. induction s as [|c s IH]; simpl; [done|]. by rewrite IH, app_assoc. Qed.

Lemma or_fold_zero (f : nat -> N) l d :
  fold_left (fun diff i => N.lor diff (f i)) l d = 0%N <->
  d = 0%N /\ Forall (fun i => f i = 0%N) l.
Proof.
  revert d. induction l as [|i l IH]; intros d; simpl.
  - by split; [intros ->|intros [-> _]].
  - rewrite IH, N.lor_eq_0_iff, Forall_cons_iff. tauto.
Qed.

Lemma byte_or_zero_eq a b :
  length a = length b ->
  Forall (fun i => N.lxor (byte_or_zero a i) (byte_or_zero b i) = 0%N)
    (seq 0 (length a)) -> a = b.
Proof.
  intros Hl H. apply list_eq_same_length with (length a); [done..|].
  intros i x y Hi Hx Hy. rewrite Forall_forall in H.
  specialize (H i ltac:(apply in_seq; lia)). apply N.lxor_eq in H.
  unfold byte_or_zero in H. rewrite Hx, Hy in H. by apply code_inj.
Qed.

Lemma constant_time_equals_spec a b : constant_time_equals a b = true <-> a = b.
Proof.
  unfold constant_time_equals. rewrite N.eqb_eq.
  rewrite (or_fold_zero (fun i => N.lxor (byte_or_zero a i) (byte_or_zero b i))).
  case_decide as Hl.
  - rewrite <- Hl, Nat.max_id. split; [intros [_ H]; by apply byte_or_zero_eq|].
    intros ->. split; [done|]. apply Forall_forall. intros i _. apply N.lxor_nilpotent.
  - split; [by intros [? _]|]. intros ->. done.
Qed.

(** Trimming leaves text without white space alone. *)
Lemma trim_ws_id s : Forall (fun c => isspace c = false) s -> trim_ws s = s.
Proof. apply trim_by_id. Qed.
