(* ===== verification/MqttTopic.v ===== *)
(** * mqtt_topic.cpp: topic filters

    The matcher as the loop of the source, the MQTT 3.1.1 rule as a
    declarative specification, and their equivalence. *)

From S2P Require Import Prelude.

Module MqttTopic.

Definition split_levels (s : bytes) : list bytes := split_on "/" s.

Definition HASH : bytes := B"#".
Definition PLUS : bytes := B"+".

(** The [while] loop: [tl] and [fl] are the levels from [ti] and [fi] on. *)
Fixpoint match_loop (tl fl : list bytes) {struct fl} : bool :=
  match fl with
  | [] => bool_decide (tl = [])
  | flevel :: fl' =>
      if decide (flevel = HASH) then bool_decide (fl' = [])
      else match tl with
           | [] => false
           | tlevel :: tl' =>
               if decide (flevel <> PLUS /\ flevel <> tlevel) then false
               else match_loop tl' fl'
           end
  end.

(** A topic whose first level starts with '$' against a leading wildcard. *)
Definition dollar_excluded (tl fl : list bytes) : bool :=
  match tl, fl with
  | (c :: _) :: _, f :: _ =>
      Ascii.eqb c "$" && bool_decide (f = PLUS \/ f = HASH)
  | _, _ => false
  end.

Definition topic_matches_filter (topic filter : bytes) : bool :=
  if decide (filter = [] \/ topic = []) then false
  else
    let tl := split_levels topic in
    let fl := split_levels filter in
    if dollar_excluded tl fl then false else match_loop tl fl.

Fixpoint topic_matches_any (topic : bytes) (filters : list bytes) : bool :=
  match filters with
  | [] => false
  | filter :: rest =>
      if topic_matches_filter topic filter then true
      else topic_matches_any topic rest
  end.

(** ** Specification: the MQTT 3.1.1 matching rule *)

(** One level: '+' accepts any level, anything else only itself. *)
Definition level_ok (t f : bytes) : Prop := f = PLUS \/ f = t.

(** Without '#': level by level.  With '#' as the last level: the levels
    before it match a prefix of the topic, whatever (or nothing) follows. *)
Definition levels_match (tl fl : list bytes) : Prop :=
  (HASH ∉ fl /\ Forall2 level_ok tl fl) \/
  (exists fs ts rest, fl = fs ++ [HASH] /\ HASH ∉ fs /\ tl = ts ++ rest /\
                      Forall2 level_ok ts fs).

Definition leading_wildcard (fl : list bytes) : Prop :=
  exists f rest, fl = f :: rest /\ (f = PLUS \/ f = HASH).

Definition matches_spec (topic filter : bytes) : Prop :=
  topic <> [] /\ filter <> [] /\
  ~ (starts_with (B"$") topic = true /\ leading_wildcard (split_levels filter)) /\
  levels_match (split_levels topic) (split_levels filter).

(** ** Lemmas: matching *)

Lemma match_loop_sound tl fl : match_loop tl fl = true -> levels_match tl fl.
Proof.
  revert tl. induction fl as [|f fl IH]; intros tl; cbn [match_loop].
  - destruct tl; [|done]. intros _. left. split; [apply not_elem_of_nil|done].
  - case_decide as Hf.
    { destruct fl; [|done]. intros _. subst f. right.
      exists [], [], tl. split_and!; [done|apply not_elem_of_nil|done|done]. }
    destruct tl as [|t tl]; [done|]. case_decide as Hc; [done|].
    assert (level_ok t f).
    { unfold level_ok. destruct (decide (f = PLUS)), (decide (f = t)); naive_solver. }
    intros [[H1 H2]|(fs & ts & rest & -> & H1 & -> & H2)]%IH.
    + left. split; [by apply not_elem_of_cons|by constructor].
    + right. exists (f :: fs), (t :: ts), rest.
      split_and!; [done|by apply not_elem_of_cons|done|by constructor].
Qed.

Lemma match_loop_complete tl fl : levels_match tl fl -> match_loop tl fl = true.
Proof.
  intros [[Hn H]|(fs & ts & rest & -> & Hn & -> & H)].
  - induction H as [|t f tl fl Hl _ IH]; [done|]. cbn [match_loop].
    apply not_elem_of_cons in Hn as [Hne Hn].
    rewrite decide_False by done. rewrite decide_False by (unfold level_ok in *; tauto).
    auto.
  - induction H as [|t f ts fs Hl _ IH]; cbn [match_loop app]; [by rewrite decide_True|].
    apply not_elem_of_cons in Hn as [Hne Hn].
    rewrite decide_False by done. rewrite decide_False by (unfold level_ok in *; tauto).
    auto.
Qed.

(** The first byte of the first level is the first byte of the topic. *)
Lemma dollar_excluded_spec topic filter :
  dollar_excluded (split_levels topic) (split_levels filter) = true <->
  starts_with (B"$") topic = true /\ leading_wildcard (split_levels filter).
Proof.
  unfold split_levels, leading_wildcard.
  pose proof (split_on_nonempty "/" filter).
  destruct (split_on "/" filter) as [|f fl]; [done|].
  assert (Hw : (exists f0 rest, f :: fl = f0 :: rest /\ (f0 = PLUS \/ f0 = HASH))
               <-> (f = PLUS \/ f = HASH)) by naive_solver.
  rewrite Hw. unfold B. simpl. destruct topic as [|c topic]; simpl; [naive_solver|].
  rewrite andb_true_r. destruct (Ascii.eqb_spec c "/") as [->|Hne]; simpl.
  { split; [done|]. by intros [? _]. }
  destruct (split_on "/" topic); simpl;
    rewrite andb_true_iff, bool_decide_eq_true, (Ascii.eqb_sym c); done.
Qed.

Lemma topic_matches_filter_iff topic filter :
  topic_matches_filter topic filter = true <-> matches_spec topic filter.
Proof.
  unfold topic_matches_filter, matches_spec.
  case_decide as He; [split; [done|naive_solver]|].
  destruct (dollar_excluded _ _) eqn:E.
  - apply dollar_excluded_spec in E. split; [done|naive_solver].
  - rewrite <- dollar_excluded_spec, E. split.
    + intros H. split_and!; [naive_solver..|by apply match_loop_sound].
    + intros (_ & _ & _ & H). by apply match_loop_complete.
Qed.

(** ** Properties *)

(** C36: [topic_matches_filter] decides the MQTT 3.1.1 matching relation:
    '+' stands for exactly one level, a final '#' for any number of remaining
    levels (none included), a '#' anywhere else matches nothing, and a '$'
    topic is invisible to a filter that begins with a wildcard. *)
Theorem topic_matches_filter_correct topic filter :
  topic_matches_filter topic filter = true <-> matches_spec topic filter.
Proof. apply topic_matches_filter_iff. Qed.

(** A topic list matches exactly when one of its filters does, in any
    order. *)
Theorem topic_matches_any_correct topic filters :
  topic_matches_any topic filters = true <->
  exists filter, filter ∈ filters /\ matches_spec topic filter.
Proof.
  induction filters as [|f fs IH]; simpl.
  - split; [done|]. intros (f & Hf & _). by apply not_elem_of_nil in Hf.
  - destruct (topic_matches_filter topic f) eqn:E.
    + split; [|done]. intros _. exists f. split; [left|by apply topic_matches_filter_iff].
    + rewrite IH. split; intros (g & Hg & Hm); exists g; (split; [|done]).
      * by right.
      * apply elem_of_cons in Hg as [->|Hg]; [|done].
        apply topic_matches_filter_iff in Hm. congruence.
Qed.

End MqttTopic.
