(* ===== verification/JsonUtil.v ===== *)
(** * json_util.cpp: the hand-written JSON reader

    Index-based scanners over one text, as in the source: a scanner takes the
    text and a position and returns a position, [None] standing for [npos].
    A loop that walks the text is a recursion on the suffix at its index. *)

From S2P Require Import Prelude CLib Double TextUtil.

Module JsonUtil.

(** ** Scanners *)

Fixpoint skip_ws_from (rest : bytes) (i : nat) : nat :=
  match rest with
  | c :: rest' => if isspace c then skip_ws_from rest' (S i) else i
  | [] => i
  end.

Definition skip_ws (s : bytes) (i : nat) : nat := skip_ws_from (drop i s) i.

Fixpoint skip_string_from (rest : bytes) (i : nat) : option nat :=
  match rest with
  | [] => None
  | c :: rest' =>
      if Ascii.eqb c c_backslash then
        match rest' with
        | [] => None
        | _ :: rest'' => skip_string_from rest'' (S (S i))
        end
      else if Ascii.eqb c c_quote then Some (S i)
      else skip_string_from rest' (S i)
  end.

(** [s[i]] is the opening quote. *)
Definition skip_json_string (s : bytes) (i : nat) : option nat :=
  skip_string_from (drop (S i) s) (S i).

(** The bracket loop of [skip_json_value]: each round moves [i] forward, so
    [length s] rounds are enough ([skip_nested_fuel]). *)
Fixpoint skip_nested (fuel : nat) (s : bytes) (op cl : ascii) (i depth : nat) : option nat :=
  match fuel with
  | O => None
  | S fuel' =>
      match s !! i, depth with
      | Some c, S depth' =>
          if Ascii.eqb c c_quote then
            match skip_json_string s i with
            | None => None
            | Some i' => skip_nested fuel' s op cl i' depth
            end
          else
            let depth'' := if Ascii.eqb c op then S depth
                           else if Ascii.eqb c cl then depth' else depth in
            skip_nested fuel' s op cl (S i) depth''
      | _, O => Some i
      | None, _ => None
      end
  end.

Definition token_end (c : ascii) : bool :=
  Ascii.eqb c "," || Ascii.eqb c "}" || Ascii.eqb c "]" || isspace c.

Fixpoint skip_token_from (rest : bytes) (i : nat) : nat :=
  match rest with
  | c :: rest' => if token_end c then i else skip_token_from rest' (S i)
  | [] => i
  end.

Definition skip_json_value (s : bytes) (i : nat) : option nat :=
  match s !! i with
  | None => None
  | Some c =>
      if Ascii.eqb c c_quote then skip_json_string s i
      else if Ascii.eqb c "{" || Ascii.eqb c "[" then
        let cl := if Ascii.eqb c "{" then "}"%char else "]"%char in
        skip_nested (S (length s)) s c cl (S i) 1
      else
        let e := skip_token_from (drop i s) i in
        if i <? e then Some e else None
  end.

(** ** json_unescape *)

(** The four digits of a [\uXXXX]. *)
Definition hex4 (a b c d : ascii) : option N :=
  match hex_val a, hex_val b, hex_val c, hex_val d with
  | Some x, Some y, Some z, Some w =>
      Some (Z.to_N (((x * 16 + y) * 16 + z) * 16 + w))
  | _, _, _, _ => None
  end.

(** UTF-8 bytes of a code point below 0x10000, surrogates included. *)
Definition utf8 (cp : N) : bytes :=
  if (cp <? 128)%N then [chr cp]
  else if (cp <? 2048)%N then
    [chr (N.lor 192 (N.shiftr cp 6)); chr (N.lor 128 (N.land cp 63))]
  else
    [chr (N.lor 224 (N.shiftr cp 12)); chr (N.lor 128 (N.land (N.shiftr cp 6) 63));
     chr (N.lor 128 (N.land cp 63))].

Fixpoint json_unescape (s : bytes) : bytes :=
  match s with
  | [] => []
  | c :: r =>
      if negb (Ascii.eqb c c_backslash) then c :: json_unescape r
      else
        match r with
        | [] => []
        | e :: r' =>
            if Ascii.eqb e "b" then c_bs :: json_unescape r'
            else if Ascii.eqb e "f" then c_ff :: json_unescape r'
            else if Ascii.eqb e "n" then c_lf :: json_unescape r'
            else if Ascii.eqb e "r" then c_cr :: json_unescape r'
            else if Ascii.eqb e "t" then c_tab :: json_unescape r'
            else if Ascii.eqb e "u" then
              match r' with
              | h1 :: h2 :: h3 :: h4 :: r'' =>
                  match hex4 h1 h2 h3 h4 with
                  | Some cp => utf8 cp ++ json_unescape r''
                  | None => "u"%char :: json_unescape r'
                  end
              | _ => "u"%char :: json_unescape r'
              end
            else e :: json_unescape r'    (* quote, backslash, slash, others *)
        end
  end.

(** ** tokenize_flat_object *)

Definition char_at (s : bytes) (i : nat) (c : ascii) : bool :=
  bool_decide (s !! i = Some c).

(** The [for (;;)] loop; every round consumes at least one byte. *)
Fixpoint tokenize_loop (fuel : nat) (text : bytes) (i : nat)
    (pairs : list (bytes * bytes)) : option (list (bytes * bytes)) :=
  match fuel with
  | O => None
  | S fuel' =>
      let i := skip_ws text i in
      ensure char_at text i c_quote else None in
      let key_start := S i in
      unwrap after_key := skip_json_string text i else None in
      let raw_key := substr text key_start (after_key - key_start - 1) in
      let i := skip_ws text after_key in
      ensure char_at text i ":" else None in
      let i := skip_ws text (S i) in
      let vstart := i in
      unwrap vend := skip_json_value text i else None in
      let pairs := pairs ++ [(json_unescape raw_key, substr text vstart (vend - vstart))] in
      let i := skip_ws text vend in
      if char_at text i "," then tokenize_loop fuel' text (S i) pairs
      else if char_at text i "}" then Some pairs
      else None
  end.

Definition tokenize_flat_object (text : bytes) : option (list (bytes * bytes)) :=
  let i := skip_ws text 0 in
  ensure char_at text i "{" else None in
  let i := skip_ws text (S i) in
  if char_at text i "}" then Some []
  else tokenize_loop (S (length text)) text i [].

(** ** The three readers *)

(** First pair whose key is [field]; its value must be a number. *)
Fixpoint find_field (field : bytes) (pairs : list (bytes * bytes)) : option bytes :=
  match pairs with
  | [] => None
  | (k, v) :: rest => if decide (k = field) then Some v else find_field field rest
  end.

Definition extract_json_number_field (text field : bytes) : option double :=
  unwrap pairs := tokenize_flat_object text else None in
  unwrap v := find_field field pairs else None in
  parse_double v.

(** [out[kv.first] = v] for each pair in turn: a later duplicate overwrites. *)
Fixpoint fill_numbers (pairs : list (bytes * bytes)) (out : gmap bytes double)
    : option (gmap bytes double) :=
  match pairs with
  | [] => Some out
  | (k, raw) :: rest =>
      unwrap v := parse_double raw else None in
      fill_numbers rest (<[k := v]> out)
  end.

Definition parse_flat_number_object (text : bytes) : option (gmap bytes double) :=
  unwrap pairs := tokenize_flat_object text else None in
  fill_numbers pairs ∅.

(** 1.0 and 0.0. *)
Definition d_one : double := Fin false (2 ^ 52) (-52).
Definition d_zero : double := Fin false 0 0.

(** Classification of one value by its first byte or literal. *)
Definition flatten_value (rec : bytes -> bytes -> option (list (bytes * double)))
    (name raw : bytes) : option (list (bytes * double)) :=
  match raw with
  | [] => None
  | c :: _ =>
      if Ascii.eqb c "{" then rec raw name
      else if Ascii.eqb c "[" || Ascii.eqb c c_quote then Some []
      else if decide (raw = B"true") then Some [(name, d_one)]
      else if decide (raw = B"false") then Some [(name, d_zero)]
      else if decide (raw = B"null") then Some []
      else unwrap v := parse_double raw else None in Some [(name, v)]
  end.

Definition join_name (prefix k : bytes) : bytes :=
  if decide (prefix = []) then k else prefix ++ B"_" ++ k.

(** The loop over the pairs of one level; [rec] is the recursive call. *)
Fixpoint flatten_pairs (rec : bytes -> bytes -> option (list (bytes * double)))
    (prefix : bytes) (pairs : list (bytes * bytes)) : option (list (bytes * double)) :=
  match pairs with
  | [] => Some []
  | (k, raw) :: rest =>
      unwrap leaves := flatten_value rec (join_name prefix k) raw else None in
      unwrap more := flatten_pairs rec prefix rest else None in
      Some (leaves ++ more)
  end.

(** Recursion on nested objects; the value text of a pair is shorter than the
    object it comes from ([flatten_impl_fuel]). *)
Fixpoint flatten_impl (fuel : nat) (text prefix : bytes) : option (list (bytes * double)) :=
  match fuel with
  | O => None
  | S fuel' =>
      unwrap pairs := tokenize_flat_object text else None in
      flatten_pairs (flatten_impl fuel') prefix pairs
  end.

Definition flatten_json_object (text : bytes) : option (list (bytes * double)) :=
  flatten_impl (S (length text)) text [].

(** ** Positions

    [at_pos s i r]: the suffix of [s] at index [i] is [r]. *)

Definition at_pos (s : bytes) (i : nat) (r : bytes) : Prop :=
  exists pre, s = pre ++ r /\ length pre = i.

Lemma at_start s : at_pos s 0 s.
Proof. by exists []. Qed.

Lemma at_drop s i r : at_pos s i r -> drop i s = r.
Proof. intros (pre & -> & <-). by rewrite drop_app_length. Qed.

Lemma at_lookup s i c r : at_pos s i (c :: r) -> s !! i = Some c.
Proof. intros (pre & -> & <-). by apply list_lookup_middle. Qed.

Lemma at_end s i : at_pos s i [] -> s !! i = None.
Proof.
  intros (pre & -> & <-). apply lookup_ge_None. rewrite app_nil_r. done.
Qed.

Lemma at_app s i a r : at_pos s i (a ++ r) -> at_pos s (i + length a) r.
Proof.
  intros (pre & -> & <-). exists (pre ++ a). by rewrite <- app_assoc, length_app.
Qed.

Lemma at_cons s i c r : at_pos s i (c :: r) -> at_pos s (S i) r.
Proof. intros H. rewrite <- Nat.add_1_r. by apply (at_app s i [c]). Qed.

Lemma at_substr s i a r : at_pos s i (a ++ r) -> substr s i (length a) = a.
Proof. intros H. unfold substr. by rewrite (at_drop _ _ _ H), take_app_length. Qed.

Lemma at_length s i r : at_pos s i r -> i + length r = length s.
Proof. intros (pre & -> & <-). by rewrite length_app. Qed.

Lemma at_char s i c r d : at_pos s i (c :: r) -> char_at s i d = Ascii.eqb c d.
Proof.
  intros H. unfold char_at. rewrite (at_lookup _ _ _ _ H).
  destruct (Ascii.eqb_spec c d); [by rewrite bool_decide_true by congruence|].
  rewrite bool_decide_false; congruence.
Qed.

Lemma at_intro s i : i <= length s -> at_pos s i (drop i s).
Proof.
  intros H. exists (take i s). rewrite take_drop, length_take. split; [done|lia].
Qed.

(** ** Bounds of the scanners *)

Lemma skip_ws_from_bounds rest i :
  i <= skip_ws_from rest i <= i + length rest.
Proof.
  revert i. induction rest as [|c rest IH]; intros i; simpl; [lia|].
  case_match; [|lia]. specialize (IH (S i)). lia.
Qed.

Lemma skip_ws_bounds s i : i <= skip_ws s i <= Nat.max i (length s).
Proof.
  unfold skip_ws. pose proof (skip_ws_from_bounds (drop i s) i) as H.
  rewrite length_drop in H. lia.
Qed.

Lemma skip_string_from_bounds rest i j :
  skip_string_from rest i = Some j -> i < j <= i + length rest.
Proof.
  revert i. induction rest as [rest IH] using (induction_ltof1 _ length).
  intros i. destruct rest as [|c rest]; simpl; [done|]. repeat char_eq; subst.
  - destruct rest as [|c' rest]; [done|].
    intros H%IH; [simpl in *; lia|]. unfold ltof. simpl. lia.
  - intros [= <-]. lia.
  - intros H%IH; [lia|]. unfold ltof. simpl. lia.
Qed.

Lemma skip_json_string_bounds s i j :
  skip_json_string s i = Some j -> S i < j <= length s.
Proof.
  unfold skip_json_string. intros H%skip_string_from_bounds.
  rewrite length_drop in H. lia.
Qed.

Lemma skip_nested_bounds fuel s op cl i depth j :
  skip_nested fuel s op cl i depth = Some j -> i <= length s -> i <= j <= length s.
Proof.
  revert i depth. induction fuel as [|f IH]; intros i depth; simpl; [done|].
  destruct (s !! i) as [c|] eqn:E.
  2: { destruct depth; [|done]. intros [= <-]. lia. }
  apply lookup_lt_Some in E. destruct depth; [intros [= <-]; lia|].
  destruct (Ascii.eqb c c_quote).
  - destruct (skip_json_string s i) as [i'|] eqn:E'; [|done].
    apply skip_json_string_bounds in E'. intros H%IH; lia.
  - intros H%IH; lia.
Qed.

Lemma skip_token_from_bounds rest i :
  i <= skip_token_from rest i <= i + length rest.
Proof.
  revert i. induction rest as [|c rest IH]; intros i; simpl; [lia|].
  case_match; [lia|]. specialize (IH (S i)). lia.
Qed.

Lemma skip_json_value_bounds s i j :
  skip_json_value s i = Some j -> i < j <= length s.
Proof.
  unfold skip_json_value. destruct (s !! i) as [c|] eqn:E; [|done].
  apply lookup_lt_Some in E. destruct (Ascii.eqb c c_quote).
  { intros Hj%skip_json_string_bounds. lia. }
  destruct (Ascii.eqb c "{" || Ascii.eqb c "[").
  { intros Hj%skip_nested_bounds; lia. }
  pose proof (skip_token_from_bounds (drop i s) i) as Hb.
  rewrite length_drop in Hb.
  destruct (Nat.ltb_spec i (skip_token_from (drop i s) i)); [|done].
  intros [= <-]. lia.
Qed.

Lemma char_at_lt s i c : char_at s i c = true -> i < length s.
Proof. unfold char_at. rewrite bool_decide_eq_true. apply lookup_lt_Some. Qed.

(** ** Fuel: every round moves the index forward *)

Lemma skip_nested_fuel s op cl f1 f2 i depth :
  length s - i < f1 -> length s - i < f2 ->
  skip_nested f1 s op cl i depth = skip_nested f2 s op cl i depth.
Proof.
  revert f2 i depth. induction f1 as [|f1 IH]; intros [|f2] i depth H1 H2; try lia.
  simpl. destruct (s !! i) as [c|] eqn:E; [|done].
  apply lookup_lt_Some in E. destruct depth; [done|].
  destruct (Ascii.eqb c c_quote).
  - destruct (skip_json_string s i) as [i'|] eqn:E'; [|done].
    apply skip_json_string_bounds in E'. apply IH; lia.
  - apply IH; lia.
Qed.

(** The loop without its fuel, with the source's body as its equation. *)
Definition nested (s : bytes) (op cl : ascii) (i depth : nat) : option nat :=
  skip_nested (S (length s)) s op cl i depth.

Lemma skip_nested_step fuel s op cl i depth c :
  s !! i = Some c ->
  skip_nested (S fuel) s op cl i (S depth) =
  (if Ascii.eqb c c_quote then
     match skip_json_string s i with
     | None => None
     | Some i' => skip_nested fuel s op cl i' (S depth)
     end
   else skip_nested fuel s op cl (S i)
          (if Ascii.eqb c op then S (S depth)
           else if Ascii.eqb c cl then depth else S depth)).
Proof. intros H. cbn [skip_nested]. by rewrite H. Qed.

Lemma nested_step s op cl i depth c r :
  at_pos s i (c :: r) ->
  nested s op cl i (S depth) =
  (if Ascii.eqb c c_quote then
     match skip_json_string s i with
     | None => None
     | Some i' => nested s op cl i' (S depth)
     end
   else nested s op cl (S i)
          (if Ascii.eqb c op then S (S depth)
           else if Ascii.eqb c cl then depth else S depth)).
Proof.
  intros H. unfold nested. pose proof (at_length _ _ _ H) as Hl. simpl in Hl.
  rewrite (skip_nested_step _ _ _ _ _ _ c) by (by eapply at_lookup).
  destruct (Ascii.eqb c c_quote).
  - destruct (skip_json_string s i) as [i'|] eqn:E; [|done].
    apply skip_json_string_bounds in E. apply skip_nested_fuel; lia.
  - apply skip_nested_fuel; lia.
Qed.

Lemma nested_done s op cl i : nested s op cl i 0 = Some i.
Proof. unfold nested. cbn [skip_nested]. by destruct (s !! i). Qed.

(** One round of [tokenize_loop], as the pair it adds and the index after the
    value; the loop is an iteration of it. *)
Definition tokenize_step (text : bytes) (i : nat) : option (bytes * bytes * nat) :=
  let i := skip_ws text i in
  ensure char_at text i c_quote else None in
  unwrap after_key := skip_json_string text i else None in
  let j := skip_ws text after_key in
  ensure char_at text j ":" else None in
  let v := skip_ws text (S j) in
  unwrap vend := skip_json_value text v else None in
  Some (json_unescape (substr text (S i) (after_key - S i - 1)),
        substr text v (vend - v), vend).

Lemma tokenize_loop_step fuel text i pairs :
  tokenize_loop (S fuel) text i pairs =
  match tokenize_step text i with
  | None => None
  | Some (k, v, vend) =>
      let j := skip_ws text vend in
      if char_at text j "," then tokenize_loop fuel text (S j) (pairs ++ [(k, v)])
      else if char_at text j "}" then Some (pairs ++ [(k, v)]) else None
  end.
Proof.
  cbn [tokenize_loop]. unfold tokenize_step. repeat case_match; simplify_eq; done.
Qed.

Lemma tokenize_step_bounds text i k v vend :
  tokenize_step text i = Some (k, v, vend) ->
  i + 3 < vend <= length text /\ v <> [] /\ length v + 3 <= vend.
Proof.
  unfold tokenize_step.
  pose proof (skip_ws_bounds text i) as B1. set (a := skip_ws text i) in *.
  destruct (char_at text a c_quote) eqn:E1; [|done]. apply char_at_lt in E1.
  destruct (skip_json_string text a) as [b|] eqn:E2; [|done].
  apply skip_json_string_bounds in E2.
  pose proof (skip_ws_bounds text b) as B2. set (j := skip_ws text b) in *.
  destruct (char_at text j ":") eqn:E3; [|done]. apply char_at_lt in E3.
  pose proof (skip_ws_bounds text (S j)) as B3. set (w := skip_ws text (S j)) in *.
  destruct (skip_json_value text w) as [e|] eqn:E4; [|done].
  apply skip_json_value_bounds in E4. intros [= _ <- <-].
  assert (Hl : length (substr text w (e - w)) = e - w).
  { unfold substr. rewrite length_take, length_drop. lia. }
  split_and!; [lia|lia| |lia].
  intros Hn. rewrite Hn in Hl. simpl in Hl. lia.
Qed.

Lemma tokenize_loop_fuel text f1 f2 i pairs :
  length text - i < f1 -> length text - i < f2 ->
  tokenize_loop f1 text i pairs = tokenize_loop f2 text i pairs.
Proof.
  revert f2 i pairs. induction f1 as [|f1 IH]; intros [|f2] i pairs H1 H2; try lia.
  rewrite !tokenize_loop_step.
  destruct (tokenize_step text i) as [[[k v] vend]|] eqn:E; [|done].
  apply tokenize_step_bounds in E as (E & _). cbv zeta.
  pose proof (skip_ws_bounds text vend).
  destruct (char_at text _ ",") eqn:E1; [|done].
  apply char_at_lt in E1. apply IH; lia.
Qed.

Lemma tokenize_loop_values fuel text i pairs res :
  tokenize_loop fuel text i pairs = Some res ->
  let good kv := snd kv <> [] /\ length (snd kv : bytes) < length text in
  Forall good pairs -> Forall good res.
Proof.
  intros H good. revert i pairs H.
  induction fuel as [|f IH]; intros i pairs H Hp; [done|].
  rewrite tokenize_loop_step in H.
  destruct (tokenize_step text i) as [[[k v] vend]|] eqn:E; [|done].
  apply tokenize_step_bounds in E as (Hb & Hne & Hl). cbv zeta in H.
  assert (Hg : Forall good (pairs ++ [(k, v)])).
  { apply Forall_app. split; [done|]. apply Forall_singleton. split; simpl; [done|lia]. }
  destruct (char_at text _ ","); [by eapply IH|].
  destruct (char_at text _ "}"); by simplify_eq.
Qed.

Lemma tokenize_values text pairs :
  tokenize_flat_object text = Some pairs ->
  Forall (fun kv => snd kv <> [] /\ length (snd kv) < length text) pairs.
Proof.
  unfold tokenize_flat_object. repeat case_match; try done.
  - by intros [= <-].
  - intros Hl%tokenize_loop_values; [done|constructor].
Qed.

Lemma flatten_value_ext rec1 rec2 name raw :
  rec1 raw name = rec2 raw name -> flatten_value rec1 name raw = flatten_value rec2 name raw.
Proof. intros H. unfold flatten_value. destruct raw; [done|]. by rewrite H. Qed.

Lemma flatten_pairs_ext rec1 rec2 prefix pairs :
  Forall (fun kv => forall name, rec1 kv.2 name = rec2 kv.2 name) pairs ->
  flatten_pairs rec1 prefix pairs = flatten_pairs rec2 prefix pairs.
Proof.
  induction 1 as [|[k raw] rest H _ IH]; [done|]. simpl in *.
  by rewrite (flatten_value_ext rec1 rec2), IH.
Qed.

Lemma flatten_impl_fuel f1 f2 text prefix :
  length text < f1 -> length text < f2 ->
  flatten_impl f1 text prefix = flatten_impl f2 text prefix.
Proof.
  revert f2 text prefix. induction f1 as [|f1 IH]; intros [|f2] text prefix H1 H2; try lia.
  cbn [flatten_impl]. destruct (tokenize_flat_object text) as [pairs|] eqn:E; [|done].
  apply flatten_pairs_ext. eapply Forall_impl; [|by apply tokenize_values].
  intros [k raw] [_ Hl] name. simpl in *. apply IH; lia.
Qed.

(** ** Escaping is undone by unescaping *)

Lemma u_escape_hex4 c :
  (code c <? 32)%N = true ->
  hex4 "0" "0" (hex_digit (code c / 16)) (hex_digit (code c mod 16)) = Some (code c).
Proof.
  intros H. apply (bool_decide_unpack _), Is_true_true.
  pose proof (byte_forall (fun c => implb (code c <? 32)%N (bool_decide
    (hex4 "0" "0" (hex_digit (code c / 16)) (hex_digit (code c mod 16)) = Some (code c))))
    eq_refl c) as Hc. simpl in Hc. by rewrite H in Hc.
Qed.

Lemma utf8_ascii c : (code c <? 32)%N = true -> utf8 (code c) = [c].
Proof.
  intros H%N.ltb_lt. unfold utf8. rewrite (proj2 (N.ltb_lt _ _)) by lia.
  f_equal. apply ascii_N_embedding.
Qed.

Lemma unescape_escape_byte c r :
  json_unescape (escape_byte c ++ r) = c :: json_unescape r.
Proof.
  unfold escape_byte. repeat (char_eq; [by subst|]).
  destruct (code c <? 32)%N eqn:E.
  - unfold u_escape. cbn -[hex4 utf8 N.div N.modulo].
    by rewrite u_escape_hex4, utf8_ascii.
  - cbn. by destruct (Ascii.eqb_spec c c_backslash).
Qed.

Lemma json_unescape_escape s : json_unescape (json_escape s) = s.
Proof.
  induction s as [|c s IH]; [done|]. cbn [json_escape].
  by rewrite unescape_escape_byte, IH.
Qed.

(** *** String bodies: no bare quote, and every backslash with the byte it escapes *)

Fixpoint string_body (s : bytes) : bool :=
  match s with
  | [] => true
  | c :: r =>
      if Ascii.eqb c c_backslash then match r with [] => false | _ :: r' => string_body r' end
      else negb (Ascii.eqb c c_quote) && string_body r
  end.

(** The string with that body between its quotes. *)
Definition raw_string (body : bytes) : bytes := c_quote :: body ++ [c_quote].

Lemma body_ind (P : bytes -> Prop) :
  P [] ->
  (forall c r, string_body r = true -> P r -> P (c_backslash :: c :: r)) ->
  (forall c r, c <> c_backslash -> c <> c_quote -> string_body r = true -> P r -> P (c :: r)) ->
  forall s, string_body s = true -> P s.
Proof.
  intros H0 H1 H2 s. induction s as [s IH] using (induction_ltof1 _ (@length ascii)). unfold ltof in IH.
  destruct s as [|c r]; [done|]. cbn [string_body]. destruct (Ascii.eqb_spec c c_backslash) as [->|Hb].
  - destruct r as [|e r]; [done|]. intros H. apply H1; [done|]. apply IH; [simpl; lia|done].
  - destruct (Ascii.eqb_spec c c_quote) as [|Hq]; [done|]. intros H. apply H2; [done..|]. apply IH; [simpl; lia|done].
Qed.

Lemma string_body_app a b : string_body a = true -> string_body (a ++ b) = string_body b.
Proof.
  revert a. apply body_ind; [done|done|]. intros c r Hb Hq _ IH. cbn [app string_body].
  destruct (Ascii.eqb_spec c c_backslash); [done|]. by destruct (Ascii.eqb_spec c c_quote).
Qed.

Lemma escape_byte_body c : string_body (escape_byte c) = true.
Proof. revert c. apply byte_forall. vm_compute. reflexivity. Qed.

Lemma escape_body s : string_body (json_escape s) = true.
Proof. induction s as [|c s IH]; [done|]. cbn [json_escape]. by rewrite string_body_app by apply escape_byte_body. Qed.

(** The scanner goes through a body without seeing a closing quote. *)
Lemma skip_body body r i :
  string_body body = true -> skip_string_from (body ++ c_quote :: r) i = Some (S (i + length body)).
Proof.
  intros H. revert i. pattern body. revert body H. apply body_ind.
  - intros i. cbn. f_equal. lia.
  - intros c body _ IH i. cbn [app skip_string_from]. rewrite Ascii.eqb_refl, IH. f_equal. simpl. lia.
  - intros c body Hb Hq _ IH i. cbn [app skip_string_from]. destruct (Ascii.eqb_spec c c_backslash); [done|].
    destruct (Ascii.eqb_spec c c_quote); [done|]. rewrite IH. f_equal. simpl. lia.
Qed.

(** ** JSON texts, the reference the scanners are proved against *)

Definition quoted (s : bytes) : bytes := c_quote :: json_escape s ++ [c_quote].
Definition pair_text (kv : bytes * bytes) : bytes := quoted kv.1 ++ ":"%char :: kv.2.
Definition commas (l : list bytes) : bytes := join "," l.
Definition object_text (pairs : list (bytes * bytes)) : bytes :=
  "{"%char :: commas (map pair_text pairs) ++ ["}"%char].

(** Numbers are kept as their text. *)
Inductive json :=
| JNull
| JBool (b : bool)
| JNum (t : bytes)
| JStr (s : bytes)
| JArr (l : list json)
| JObj (l : list (bytes * json)).

Fixpoint print_json (j : json) : bytes :=
  match j with
  | JNull => B"null"
  | JBool b => if b then B"true" else B"false"
  | JNum t => t
  | JStr s => quoted s
  | JArr l => "["%char :: commas (map print_json l) ++ ["]"%char]
  | JObj l => object_text (map (fun kv => (kv.1, print_json kv.2)) l)
  end.

(** Bytes a bare token may hold. *)
Definition tok_char (c : ascii) : bool :=
  negb (token_end c || Ascii.eqb c c_quote || Ascii.eqb c "{" || Ascii.eqb c "[").

Definition bare_token (t : bytes) : bool :=
  bool_decide (t <> []) && forallb tok_char t.

Definition literal (t : bytes) : bool :=
  bool_decide (t ∈ [B"true"; B"false"; B"null"]).

(** Every number of the value is a bare token and no literal. *)
Fixpoint wf_json (j : json) : bool :=
  match j with
  | JNum t => bare_token t && negb (literal t)
  | JArr l => forallb wf_json l
  | JObj l => forallb (fun kv => wf_json kv.2) l
  | _ => true
  end.

(** *** The texts of a value

    White space is allowed between all tokens, and a string may be written with any
    escapes. *)

Definition ws (t : bytes) : Prop := Forall (fun c => isspace c = true) t.

(** Texts of the given kinds, in order, with commas between them and white space around. *)
Fixpoint listed (l : list (bytes -> Prop)) (t : bytes) : Prop :=
  match l with
  | [] => ws t
  | [P] => exists w x w', t = w ++ x ++ w' /\ ws w /\ ws w' /\ P x
  | P :: l => exists w x w' rest, t = w ++ x ++ w' ++ ","%char :: rest /\ ws w /\ ws w' /\ P x /\ listed l rest
  end.

(** A key, in quotes, with its value. *)
Definition member (k : bytes) (P : bytes -> Prop) (t : bytes) : Prop :=
  exists body w w' v, t = raw_string body ++ w ++ ":"%char :: w' ++ v /\
    string_body body = true /\ k = json_unescape body /\ ws w /\ ws w' /\ P v.

Fixpoint text_of (j : json) (t : bytes) : Prop :=
  match j with
  | JNull => t = B"null"
  | JBool b => t = if b then B"true" else B"false"
  | JNum n => t = n /\ bare_token n = true /\ literal n = false
  | JStr s => exists body, t = raw_string body /\ string_body body = true /\ s = json_unescape body
  | JArr l => exists items, t = "["%char :: items ++ ["]"%char] /\ listed (map text_of l) items
  | JObj l =>
      exists members, t = "{"%char :: members ++ ["}"%char] /\
        listed (map (fun kv => member kv.1 (text_of kv.2)) l) members
  end.

(** What flattening promises: the numeric and boolean leaves in object order,
    named by their path; [None] when a number does not parse. *)
Fixpoint leaves (name : bytes) (j : json) : option (list (bytes * double)) :=
  match j with
  | JNull | JStr _ | JArr _ => Some []
  | JBool b => Some [(name, if b then d_one else d_zero)]
  | JNum t => unwrap v := parse_double t else None in Some [(name, v)]
  | JObj l =>
      (fix go (l : list (bytes * json)) : option (list (bytes * double)) :=
         match l with
         | [] => Some []
         | (k, v) :: rest =>
             unwrap x := leaves (join_name name k) v else None in
             unwrap y := go rest else None in
             Some (x ++ y)
         end) l
  end.

Section JsonInd.
  Context (P : json -> Prop).
  Hypothesis HNull : P JNull.
  Hypothesis HBool : forall b, P (JBool b).
  Hypothesis HNum : forall t, P (JNum t).
  Hypothesis HStr : forall s, P (JStr s).
  Hypothesis HArr : forall l, Forall P l -> P (JArr l).
  Hypothesis HObj : forall l, Forall (fun kv => P kv.2) l -> P (JObj l).

Fixpoint json_nested_ind (j : json) : P j :=
    match j with
    | JNull => HNull
    | JBool b => HBool b
    | JNum t => HNum t
    | JStr s => HStr s
    | JArr l =>
        HArr l ((fix go (l : list json) : Forall P l :=
                   match l with
                   | [] => @List.Forall_nil _ P
                   | x :: r => @List.Forall_cons _ P x r (json_nested_ind x) (go r)
                   end) l)
    | JObj l =>
        HObj l ((fix go (l : list (bytes * json)) : Forall (fun kv => P kv.2) l :=
                   match l with
                   | [] => @List.Forall_nil _ (fun kv => P kv.2)
                   | x :: r =>
                       @List.Forall_cons _ (fun kv => P kv.2) x r (json_nested_ind x.2) (go r)
                   end) l)
    end.
End JsonInd.

(** *** Text the bracket loop passes over without changing its depth *)

Definition brackets (op cl : ascii) : Prop :=
  (op = "{" /\ cl = "}")%char \/ (op = "[" /\ cl = "]")%char.

Definition passes (t : bytes) : Prop :=
  forall s op cl i depth r,
    brackets op cl -> at_pos s i (t ++ r) ->
    nested s op cl i (S depth) = nested s op cl (i + length t) (S depth).

Lemma passes_nil : passes [].
Proof. intros s op cl i d r _ _. by rewrite Nat.add_0_r. Qed.

Lemma passes_app a b : passes a -> passes b -> passes (a ++ b).
Proof.
  intros Ha Hb s op cl i d r Hbr H. rewrite <- app_assoc in H.
  rewrite (Ha _ _ _ _ _ _ Hbr H), (Hb _ _ _ _ _ r Hbr).
  - by rewrite length_app, Nat.add_assoc.
  - by apply at_app.
Qed.

Definition plain (c : ascii) : bool :=
  negb (Ascii.eqb c c_quote || Ascii.eqb c "{" || Ascii.eqb c "}"
        || Ascii.eqb c "[" || Ascii.eqb c "]").

Lemma passes_plain c : plain c = true -> passes [c].
Proof.
  intros Hc s op cl i d r Hbr H. unfold plain in Hc.
  rewrite negb_true_iff, !orb_false_iff in Hc. destruct Hc as [[[[H1 H2] H3] H4] H5].
  rewrite (nested_step _ _ _ _ _ _ _ H), H1, Nat.add_1_r.
  destruct Hbr as [[-> ->]|[-> ->]]; by rewrite ?H2, ?H3, ?H4, ?H5.
Qed.

Lemma passes_plains t : Forall (fun c => plain c = true) t -> passes t.
Proof.
  induction 1 as [|c t Hc _ IH]; [apply passes_nil|].
  apply (passes_app [c]); [by apply passes_plain|done].
Qed.

Lemma space_plain c : isspace c = true -> plain c = true.
Proof.
  intros H. assert (Ha : forall c, implb (isspace c) (plain c) = true) by (apply byte_forall; vm_compute; reflexivity).
  specialize (Ha c). by rewrite H in Ha.
Qed.

Lemma passes_ws w : ws w -> passes w.
Proof. intros H. apply passes_plains. eapply list.Forall_impl; [exact H|apply space_plain]. Qed.

Lemma skip_raw s i body r :
  string_body body = true -> at_pos s i (raw_string body ++ r) ->
  skip_json_string s i = Some (i + length (raw_string body)).
Proof.
  intros Hb H. unfold skip_json_string, raw_string in *. cbn [app] in H. rewrite <- app_assoc in H.
  rewrite (at_drop _ _ _ (at_cons _ _ _ _ H)). cbn [app]. rewrite skip_body by done.
  cbn. f_equal. rewrite length_app. simpl. lia.
Qed.

Lemma passes_raw body : string_body body = true -> passes (raw_string body).
Proof.
  intros Hb s op cl i d r Hbr H. rewrite (nested_step _ _ _ _ _ _ _ H).
  by rewrite Ascii.eqb_refl, (skip_raw _ _ _ _ Hb H).
Qed.

Lemma passes_listed l t : Forall (fun P => forall x, P x -> passes x) l -> listed l t -> passes t.
Proof.
  intros H. revert t. induction H as [|P l HP _ IH]; intros t; [apply passes_ws|].
  assert (Hone : forall w x w', ws w -> ws w' -> P x -> passes (w ++ x ++ w')).
  { intros w x w' Hw Hw' Hx. apply passes_app; [by apply passes_ws|]. apply passes_app; [by apply HP|by apply passes_ws]. }
  destruct l as [|Q l]; [intros (w & x & w' & -> & ? & ? & ?); by apply Hone|].
  intros (w & x & w' & rest & -> & Hw & Hw' & Hx & Hr).
  replace (w ++ x ++ w' ++ ","%char :: rest) with ((w ++ x ++ w') ++ [","%char] ++ rest) by by rewrite <- !app_assoc.
  apply passes_app; [by apply Hone|]. apply passes_app; [by apply passes_plain|by apply IH].
Qed.

Lemma passes_member k (P : bytes -> Prop) t : (forall x, P x -> passes x) -> member k P t -> passes t.
Proof.
  intros HP (body & w & w' & v & -> & Hb & _ & Hw & Hw' & Hv). apply passes_app; [by apply passes_raw|].
  apply passes_app; [by apply passes_ws|]. apply (passes_app [":"%char]); [by apply passes_plain|].
  apply passes_app; [by apply passes_ws|by apply HP].
Qed.

(** A bracketed body: up on the opening one, down on the closing one. *)
Lemma passes_bracketed op cl t :
  brackets op cl -> passes t -> passes (op :: t ++ [cl]).
Proof.
  intros Hb Ht s op' cl' i d r Hbr H. cbn [app] in H. rewrite <- app_assoc in H.
  rewrite (nested_step _ _ _ _ _ _ _ H). apply at_cons in H.
  pose proof (at_app _ _ _ _ H) as He. cbn [app] in He.
  cbn [length]. rewrite length_app, Nat.add_1_r, <- Nat.add_succ_comm, <- Nat.add_succ_comm.
  assert (Hnq : Ascii.eqb op c_quote = false /\ Ascii.eqb cl c_quote = false)
    by (destruct Hb as [[-> ->]|[-> ->]]; done).
  destruct Hnq as [-> Hq].
  destruct (decide (op = op')) as [->|Hne].
  - assert (cl = cl') as -> by (destruct Hb as [[-> ->]|[-> ->]],
      Hbr as [[? ->]|[? ->]]; simplify_eq; done).
    rewrite Ascii.eqb_refl, (Ht _ _ _ _ _ _ Hbr H), (nested_step _ _ _ _ _ _ _ He), Hq.
    destruct Hbr as [[-> ->]|[-> ->]]; simpl; f_equal; lia.
  - assert (Ascii.eqb op op' = false /\ Ascii.eqb op cl' = false
            /\ Ascii.eqb cl op' = false /\ Ascii.eqb cl cl' = false) as (-> & -> & E1 & E2)
      by (destruct Hb as [[-> ->]|[-> ->]], Hbr as [[-> ->]|[-> ->]]; simplify_eq; done).
    rewrite (Ht _ _ _ _ _ _ Hbr H), (nested_step _ _ _ _ _ _ _ He), Hq, E1, E2.
    f_equal; lia.
Qed.

(** *** Text one call of [skip_json_value] consumes *)

(** What follows a value inside an object. *)
Definition delimited (r : bytes) : Prop :=
  match r with [] => True | c :: _ => token_end c = true end.

Record value_text (t : bytes) : Prop := {
  vt_head : exists c t', t = c :: t' /\ isspace c = false;
  vt_skip : forall s i r, at_pos s i (t ++ r) -> delimited r ->
            skip_json_value s i = Some (i + length t)
}.

Lemma value_raw body : string_body body = true -> value_text (raw_string body).
Proof.
  intros Hb. split; [by do 2 eexists|]. intros s i r H _. unfold skip_json_value.
  rewrite (at_lookup _ _ _ _ H). by apply (skip_raw _ _ _ r).
Qed.

Lemma value_quoted k : value_text (quoted k).
Proof. apply (value_raw (json_escape k)), escape_body. Qed.

Lemma value_bracketed op cl t :
  brackets op cl -> passes t -> value_text (op :: t ++ [cl]).
Proof.
  intros Hb Ht. split.
  { do 2 eexists. split; [done|]. by destruct Hb as [[-> ->]|[-> ->]]. }
  intros s i r H _. cbn [app] in H. rewrite <- app_assoc in H.
  unfold skip_json_value. rewrite (at_lookup _ _ _ _ H).
  assert (Hop : Ascii.eqb op c_quote = false
                /\ (Ascii.eqb op "{" || Ascii.eqb op "[") = true
                /\ (if Ascii.eqb op "{" then "}"%char else "]"%char) = cl
                /\ Ascii.eqb cl c_quote = false /\ Ascii.eqb cl op = false)
    by (destruct Hb as [[-> ->]|[-> ->]]; done).
  destruct Hop as (-> & -> & -> & E1 & E2). cbv zeta.
  apply at_cons in H. fold (nested s op cl (S i) 1).
  rewrite (Ht _ _ _ _ 0 _ Hb H). apply at_app in H.
  rewrite (nested_step _ _ _ _ _ _ _ H), E1, E2, Ascii.eqb_refl, nested_done.
  f_equal. cbn [length]. rewrite length_app. simpl. lia.
Qed.

Lemma skip_token_app t r i :
  Forall (fun c => token_end c = false) t -> delimited r ->
  skip_token_from (t ++ r) i = i + length t.
Proof.
  intros Ht Hr. revert i. induction Ht as [|c t Hc _ IH]; intros i; simpl.
  - destruct r as [|c r]; simpl in *; [lia|]. rewrite Hr. lia.
  - rewrite Hc, IH. lia.
Qed.

Lemma tok_char_spec c :
  tok_char c = true ->
  token_end c = false /\ Ascii.eqb c c_quote = false /\ Ascii.eqb c "{" = false
  /\ Ascii.eqb c "[" = false /\ isspace c = false /\ plain c = true.
Proof.
  unfold tok_char, token_end, plain.
  rewrite negb_true_iff, !orb_false_iff. intros ((((((H1 & H2) & H3) & H4) & H5) & H6) & H7).
  by rewrite H1, H2, H3, H4, H5, H6, H7.
Qed.

Lemma bare_token_spec t :
  bare_token t = true <-> t <> [] /\ Forall (fun c => tok_char c = true) t.
Proof.
  unfold bare_token. rewrite andb_true_iff, bool_decide_eq_true, forallb_forall.
  by rewrite Forall_forall.
Qed.

Lemma value_token t : bare_token t = true -> value_text t.
Proof.
  intros [Hne Ht]%bare_token_spec. destruct t as [|c t]; [done|].
  pose proof Ht as Hall. inv Ht.
  pose proof (tok_char_spec c ltac:(done)) as (Hte & Hq & Ho & Hs & Hsp & _).
  split; [by do 2 eexists|]. intros s i r H Hr. unfold skip_json_value.
  rewrite (at_lookup _ _ _ _ H), Hq, Ho, Hs, (at_drop _ _ _ H). cbv zeta. simpl orb.
  rewrite skip_token_app; [|eapply Forall_impl; [|exact Hall]; by intros x (? & _)%tok_char_spec|done].
  rewrite (proj2 (Nat.ltb_lt _ _)); [done|]. simpl. lia.
Qed.

Lemma passes_token t : bare_token t = true -> passes t.
Proof.
  intros [_ Ht]%bare_token_spec. apply passes_plains.
  eapply Forall_impl; [|exact Ht]. by intros c (_ & _ & _ & _ & _ & ?)%tok_char_spec.
Qed.

Lemma bare_literals :
  bare_token (B"null") = true /\ bare_token (B"true") = true /\ bare_token (B"false") = true.
Proof. done. Qed.

Lemma text_passes j t : text_of j t -> passes t /\ value_text t.
Proof.
  destruct bare_literals as (Bn & Bt & Bf). revert t.
  induction j as [|b|n|str|l IH|l IH] using json_nested_ind; intros t; cbn [text_of].
  - intros ->. auto using passes_token, value_token.
  - intros ->. destruct b; auto using passes_token, value_token.
  - intros (-> & Hn & _). auto using passes_token, value_token.
  - intros (body & -> & Hb & _). auto using passes_raw, value_raw.
  - intros (items & -> & Hi). assert (Hp : passes items).
    { eapply passes_listed; [|exact Hi]. apply Forall_map. eapply list.Forall_impl; [exact IH|]. intros j Hj x Hx. by apply Hj. }
    split; [apply passes_bracketed|apply value_bracketed]; auto; by right.
  - intros (members & -> & Hi). assert (Hp : passes members).
    { eapply passes_listed; [|exact Hi]. apply Forall_map. eapply list.Forall_impl; [exact IH|]. intros kv Hj x.
      apply passes_member. intros v Hv. by apply Hj. }
    split; [apply passes_bracketed|apply value_bracketed]; auto; by left.
Qed.

(** *** Tokenizing an object *)

Lemma skip_ws_over s i w c r : at_pos s i (w ++ c :: r) -> ws w -> isspace c = false -> skip_ws s i = i + length w.
Proof.
  intros H Hw Hc. unfold skip_ws. rewrite (at_drop _ _ _ H). clear H. revert i.
  induction Hw as [|d w Hd _ IH]; intros i; simpl; [rewrite Hc; lia|]. rewrite Hd, IH. lia.
Qed.

Lemma skip_ws_value s i w t r : at_pos s i (w ++ t ++ r) -> ws w -> value_text t -> skip_ws s i = i + length w.
Proof. intros H Hw [(c & t' & -> & Hc) _]. by eapply skip_ws_over. Qed.

Lemma substr_raw s i body r :
  at_pos s i (raw_string body ++ r) -> substr s (S i) (i + length (raw_string body) - S i - 1) = body.
Proof.
  intros H. unfold raw_string in *. cbn [app] in H. rewrite <- app_assoc in H.
  apply at_cons in H. cbn [length]. rewrite length_app. cbn [length].
  replace (i + S (length body + 1) - S i - 1) with (length body) by lia. by eapply at_substr.
Qed.

(** A pair as the tokenizer returns it: the key unescaped, the value's very text. *)
Definition is_pair (kv : bytes * bytes) : bytes -> Prop := member kv.1 (fun v => v = kv.2 /\ value_text v).

Lemma tokenize_step_member s i w t kv r :
  at_pos s i (w ++ t ++ r) -> ws w -> is_pair kv t -> delimited r ->
  tokenize_step s i = Some (kv.1, kv.2, i + length w + length t).
Proof.
  intros H Hw (body & w1 & w2 & v & -> & Hb & Hk & Hw1 & Hw2 & -> & Hv) Hr. unfold tokenize_step.
  rewrite <- !app_assoc in H.
  assert (Hs : skip_ws s i = i + length w) by (eapply skip_ws_over; [exact H|done|done]).
  rewrite Hs. apply at_app in H. rewrite (at_char _ _ _ _ c_quote H), Ascii.eqb_refl, (skip_raw _ _ _ _ Hb H), (substr_raw _ _ _ _ H).
  apply at_app in H. cbn [app] in H. rewrite (skip_ws_over _ _ _ _ _ H) by done. apply at_app in H.
  rewrite (at_char _ _ _ _ ":" H). cbn match. apply at_cons in H. rewrite <- app_assoc in H.
  rewrite (skip_ws_value _ _ _ _ _ H) by done. apply at_app in H. rewrite (vt_skip _ Hv _ _ _ H Hr).
  rewrite <- Hk, (Nat.add_comm _ (length kv.2)), Nat.add_sub, (at_substr _ _ _ _ H).
  do 2 f_equal. rewrite !length_app. cbn [length]. rewrite length_app. lia.
Qed.

Lemma delimited_ws w c r : ws w -> token_end c = true -> delimited (w ++ c :: r).
Proof. intros [|d w' Hd _] Hc; [done|]. cbn. unfold token_end. by rewrite Hd, !orb_true_r. Qed.

Lemma listed_length {A : Type} (P : A -> bytes -> Prop) l t :
  (forall a x, P a x -> x <> []) -> listed (map P l) t -> length l <= length t.
Proof.
  intros HP. revert t. induction l as [|a l IH]; intros t; [simpl; lia|]. destruct l as [|b l].
  - intros (w & x & w' & -> & _ & _ & Hx). apply HP in Hx. destruct x; [done|]. rewrite !length_app. simpl. lia.
  - intros (w & x & w' & rest & -> & _ & _ & _ & Hr). apply IH in Hr. rewrite !length_app. simpl in *. lia.
Qed.

Lemma tokenize_loop_listed s post pairs : forall fuel i t acc,
  pairs <> [] -> listed (map is_pair pairs) t -> at_pos s i (t ++ "}"%char :: post) -> length pairs <= fuel ->
  tokenize_loop fuel s i acc = Some (acc ++ pairs).
Proof.
  induction pairs as [|kv pairs IH]; intros fuel i t acc Hne Ht H Hf; [done|].
  destruct fuel as [|fuel]; [simpl in Hf; lia|]. rewrite tokenize_loop_step. destruct pairs as [|kv' pairs].
  - destruct Ht as (w & x & w' & -> & Hw & Hw' & Hx). rewrite <- !app_assoc in H.
    rewrite (tokenize_step_member _ _ _ _ _ _ H Hw Hx) by (by apply delimited_ws). cbv zeta.
    do 2 apply at_app in H. rewrite (skip_ws_over _ _ _ _ _ H) by done. apply at_app in H.
    rewrite !(at_char _ _ _ _ _ H). simpl. by destruct kv.
  - destruct Ht as (w & x & w' & rest & -> & Hw & Hw' & Hx & Hr). rewrite <- !app_assoc in H. cbn [app] in H.
    rewrite (tokenize_step_member _ _ _ _ _ _ H Hw Hx) by (by apply delimited_ws). cbv zeta.
    do 2 apply at_app in H. rewrite (skip_ws_over _ _ _ _ _ H) by done. apply at_app in H.
    rewrite (at_char _ _ _ _ _ H). simpl. apply at_cons in H.
    rewrite (IH fuel _ rest _) by (done || (simpl in *; lia)). rewrite <- app_assoc. by destruct kv.
Qed.

Lemma member_head k P t : member k P t -> exists r, t = c_quote :: r.
Proof. intros (body & w & w' & v & -> & _). by eexists. Qed.

Lemma listed_head kv pairs t :
  listed (map is_pair (kv :: pairs)) t -> exists w r, t = w ++ c_quote :: r /\ ws w.
Proof.
  destruct pairs; [intros (w & x & w' & -> & Hw & _ & Hx)|intros (w & x & w' & rest & -> & Hw & _ & Hx & _)];
    apply member_head in Hx as [r ->]; by do 2 eexists.
Qed.

(** White space before the object is skipped; whatever follows the closing brace is not
    looked at. *)
Lemma tokenize_listed w pairs t post :
  ws w -> listed (map is_pair pairs) t ->
  tokenize_flat_object (w ++ ("{"%char :: t ++ ["}"%char]) ++ post) = Some pairs.
Proof.
  intros Hw Ht. unfold tokenize_flat_object.
  assert (H : at_pos (w ++ ("{"%char :: t ++ ["}"%char]) ++ post) 0 (w ++ "{"%char :: t ++ "}"%char :: post)).
  { exists []. split; [|done]. cbn [app]. by rewrite <- app_assoc. }
  set (s := w ++ _ ++ post) in *. clearbody s.
  rewrite (skip_ws_over _ _ _ _ _ H) by done. pose proof (at_length _ _ _ H) as Hl. apply at_app in H.
  rewrite (at_char _ _ _ _ _ H), Ascii.eqb_refl. apply at_cons in H. destruct pairs as [|kv pairs].
  - cbn [map listed] in Ht. rewrite (skip_ws_over _ _ _ _ _ H) by done. apply at_app in H.
    by rewrite (at_char _ _ _ _ _ H).
  - destruct (listed_head kv pairs t Ht) as (w1 & r & Et & Hw1). pose proof H as H'. rewrite Et, <- app_assoc in H'.
    cbn [app] in H'. pose proof (skip_ws_over _ _ _ _ _ H' Hw1 eq_refl) as E1. rewrite E1. apply at_app in H'.
    rewrite (at_char _ _ _ _ _ H'). change (Ascii.eqb c_quote "}") with false. cbn match.
    assert (Hlen : length (kv :: pairs) <= length t).
    { eapply listed_length; [|exact Ht]. intros a x Hx. apply member_head in Hx as [? ->]. done. }
    assert (Hs : tokenize_loop (S (length s)) s (S (0 + length w) + length w1) []
                 = tokenize_loop (S (length s)) s (S (0 + length w)) []); [|rewrite Hs].
    { rewrite !tokenize_loop_step. unfold tokenize_step.
      assert (E2 : skip_ws s (S (0 + length w) + length w1) = S (0 + length w) + length w1)
        by (rewrite (skip_ws_over _ _ [] _ _ H'); [apply Nat.add_0_r|by apply list.Forall_nil|done]).
      by rewrite E1, E2. }
    apply (tokenize_loop_listed s post (kv :: pairs) _ _ t []); [done..|].
    rewrite !length_app in Hl. simpl in Hl. rewrite length_app in Hl. simpl in *. lia.
Qed.

(** An object as the program writes it is one of these texts. *)
Lemma object_text_listed pairs :
  Forall (fun kv => value_text kv.2) pairs -> listed (map is_pair pairs) (commas (map pair_text pairs)).
Proof.
  assert (Hm : forall kv, value_text kv.2 -> is_pair kv (pair_text kv)).
  { intros [k v] Hv. exists (json_escape k), [], [], v. split_and!; try done; [by apply escape_body|by rewrite json_unescape_escape|
      by apply list.Forall_nil|by apply list.Forall_nil]. }
  induction 1 as [|kv pairs Hv _ IH]; [by apply list.Forall_nil|]. destruct pairs as [|kv' pairs].
  - exists [], (pair_text kv), []. split_and!; [|by apply list.Forall_nil|by apply list.Forall_nil|by apply Hm].
    cbn. by rewrite app_nil_r.
  - exists [], (pair_text kv), [], (commas (map pair_text (kv' :: pairs))).
    split_and!; [done|by apply list.Forall_nil|by apply list.Forall_nil|by apply Hm|exact IH].
Qed.

Lemma tokenize_object pairs post :
  Forall (fun kv => value_text kv.2) pairs ->
  tokenize_flat_object (object_text pairs ++ post) = Some pairs.
Proof. intros Hv. apply (tokenize_listed [] pairs); [by apply list.Forall_nil|by apply object_text_listed]. Qed.

(** *** Values the program writes *)

Lemma tok_char_number c : isdigit c || Ascii.eqb c "-" = true -> tok_char c = true.
Proof.
  assert (H : forall c, implb (isdigit c || Ascii.eqb c "-") (tok_char c) = true)
    by (apply byte_forall; vm_compute; reflexivity).
  specialize (H c). intros Hc. by rewrite Hc in H.
Qed.

Lemma value_to_string z : value_text (to_string z).
Proof.
  apply value_token, bare_token_spec. unfold to_string.
  assert (Hd : forall n : Z, (0 <= n)%Z -> Forall (fun c => tok_char c = true) (dec n)).
  { intros n Hn. eapply Forall_impl; [|apply dec_digits, Hn].
    intros c Hc. apply tok_char_number. by rewrite Hc. }
  case_match; split; try done.
  - apply list.Forall_cons_2; [done|]. apply Hd. lia.
  - apply dec_nonempty. lia.
  - apply Hd. lia.
Qed.

Lemma value_bool (b : bool) : value_text (if b then B"true" else B"false").
Proof. destruct b; by apply value_token. Qed.

(** The string between the quotes of a printed value. *)
Definition unquoted (t : bytes) : bytes := json_unescape (substr t 1 (length t - 2)).

Lemma unquoted_quoted s : unquoted (quoted s) = s.
Proof.
  unfold unquoted, quoted, substr. rewrite skipn_cons, drop_0. simpl length.
  rewrite length_app. simpl. replace (length (json_escape s) + 1 - 1) with (length (json_escape s)) by lia.
  by rewrite take_app_length, json_unescape_escape.
Qed.

(** *** Flattening a printed object *)

Fixpoint object_leaves (name : bytes) (l : list (bytes * json)) : option (list (bytes * double)) :=
  match l with
  | [] => Some []
  | (k, v) :: rest =>
      unwrap x := leaves (join_name name k) v else None in
      unwrap y := object_leaves name rest else None in
      Some (x ++ y)
  end.

Lemma leaves_obj name l : leaves name (JObj l) = object_leaves name l.
Proof.
  induction l as [|[k v] l IH]; [done|].
  change (leaves name (JObj ((k, v) :: l)))
    with (unwrap x := leaves (join_name name k) v else None in
          unwrap y := leaves name (JObj l) else None in Some (x ++ y)).
  by rewrite IH.
Qed.

(** The members of an object, as pairs of key and value text. *)
Lemma listed_pairs l t :
  listed (map (fun kv : bytes * json => member kv.1 (text_of kv.2)) l) t ->
  exists pairs, listed (map is_pair pairs) t /\
    Forall2 (fun (kv : bytes * json) p => p.1 = kv.1 /\ text_of kv.2 p.2 /\ length p.2 < length t) l pairs.
Proof.
  assert (Hm : forall kv : bytes * json, forall x, member kv.1 (text_of kv.2) x ->
    exists v, is_pair (kv.1, v) x /\ text_of kv.2 v /\ length v < length x).
  { intros kv x (body & w & w' & v & -> & Hb & Hk & Hw & Hw' & Hv). exists v. split_and!; [|done|].
    - exists body, w, w', v. split_and!; try done. by eapply text_passes.
    - rewrite !length_app. simpl. rewrite !length_app. lia. }
  revert t. induction l as [|kv l IH]; intros t Ht; [by exists []|]. destruct l as [|kv' l].
  - destruct Ht as (w & x & w' & -> & Hw & Hw' & Hx). destruct (Hm kv x Hx) as (v & Hp & Hv & Hlt).
    exists [(kv.1, v)]. split; [by exists w, x, w'|]. constructor; [|done]. rewrite !length_app. split_and!; [done..|simpl; lia].
  - destruct Ht as (w & x & w' & rest & -> & Hw & Hw' & Hx & Hr). destruct (Hm kv x Hx) as (v & Hp & Hv & Hlt).
    destruct (IH rest Hr) as (pairs & Hps & HF). exists ((kv.1, v) :: pairs).
    inversion HF as [|? p ? pairs' Hp1 HF1]; subst. split; [by exists w, x, w', rest|].
    constructor; [rewrite !length_app; split_and!; [done..|simpl; lia]|].
    eapply list.Forall2_impl; [exact HF|]. intros a b (? & ? & ?). rewrite !length_app. simpl. split_and!; [done..|lia].
Qed.

Lemma tok_char_head t : bare_token t = true -> exists c t', t = c :: t' /\ tok_char c = true.
Proof. intros [Hne Ht]%bare_token_spec. destruct t; [done|]. inv Ht. eauto. Qed.

Lemma flatten_value_text j : forall t fuel name,
  text_of j t -> length t < fuel -> flatten_value (flatten_impl fuel) name t = leaves name j.
Proof.
  induction j as [|b|n|str|l IH|l IH] using json_nested_ind; intros t fuel name Ht Hf; cbn [text_of] in Ht.
  - by subst.
  - subst. by destruct b.
  - destruct Ht as (-> & Ht & Hlit). unfold literal in Hlit. rewrite bool_decide_eq_false in Hlit.
    destruct (tok_char_head n Ht) as (c & t' & -> & Hc).
    apply tok_char_spec in Hc as (_ & E1 & E2 & E3 & _).
    unfold flatten_value. rewrite E1, E2, E3. simpl orb. cbn match.
    rewrite !decide_False; [done|intros E; rewrite E in Hlit; set_solver..].
  - by destruct Ht as (body & -> & _).
  - by destruct Ht as (items & -> & _).
  - destruct Ht as (members & -> & Ht). destruct (listed_pairs l members Ht) as (pairs & Hp & HF).
    rewrite leaves_obj. change (flatten_value (flatten_impl fuel) name ("{"%char :: ?p))
      with (flatten_impl fuel ("{"%char :: p) name).
    destruct fuel as [|fuel]; [simpl in Hf; lia|]. cbn [flatten_impl].
    pose proof (tokenize_listed [] pairs members [] ltac:(by apply list.Forall_nil) Hp) as Htok.
    rewrite app_nil_r in Htok. cbn [app] in Htok. rewrite Htok.
    assert (Hlen : length members <= fuel) by (simpl in Hf; rewrite length_app in Hf; lia). clear Htok Hp Ht Hf.
    revert IH. induction HF as [|[k v] [k' x] l pairs (Hk & Hx & Hlt) HF IHF]; intros IH; [done|].
    apply list.Forall_cons in IH as [Hv Hall]. cbn [fst snd] in *. subst k'.
    cbn [flatten_pairs object_leaves]. rewrite (Hv x) by (done || lia). by rewrite IHF.
Qed.

(** What the program would print for a value is one of its texts. *)
Lemma print_json_text_of j : wf_json j = true -> text_of j (print_json j).
Proof.
  assert (Hl : forall {A : Type} (P : A -> bytes -> Prop) (f : A -> bytes) l, Forall (fun a => P a (f a)) l ->
    listed (map P l) (commas (map f l))).
  { intros A P f l. induction 1 as [|a l Ha _ IH]; [by apply list.Forall_nil|]. destruct l as [|b l].
    - exists [], (f a), []. cbn. rewrite app_nil_r. split_and!; [done|by apply list.Forall_nil|by apply list.Forall_nil|done].
    - exists [], (f a), [], (commas (map f (b :: l))). split_and!; [done|by apply list.Forall_nil|by apply list.Forall_nil|done|exact IH]. }
  induction j as [|b|n|str|l IH|l IH] using json_nested_ind; cbn [wf_json print_json text_of]; intros Hwf.
  - done.
  - done.
  - apply andb_true_iff in Hwf as [Hn Hlit%negb_true_iff]. done.
  - exists (json_escape str). split_and!; [done|apply escape_body|by rewrite json_unescape_escape].
  - exists (commas (map print_json l)). split; [done|]. apply Hl. rewrite forallb_forall in Hwf.
    rewrite Forall_forall in IH |- *. intros x Hx. apply IH; auto.
  - eexists. split; [done|]. rewrite map_map. apply (Hl _ (fun kv => member kv.1 (text_of kv.2))).
    rewrite forallb_forall in Hwf. rewrite Forall_forall in IH |- *. intros kv Hx.
    exists (json_escape kv.1), [], [], (print_json kv.2). split_and!; try done; [apply escape_body|by rewrite json_unescape_escape|
      by apply list.Forall_nil|by apply list.Forall_nil|apply IH; auto].
Qed.

(** ** Properties *)

(** Escaping and unescaping are inverse: [json_unescape] gives back every
    byte string [json_escape] was given, control bytes, quotes, backslashes
    and bytes above 127 included. *)
Theorem json_escape_roundtrip s : json_unescape (json_escape s) = s.
Proof. apply json_unescape_escape. Qed.

(** The tokenizer reads back a printed object exactly: the keys, whatever
    bytes they hold, and the value texts, for values that are bare tokens,
    strings, or nested objects and arrays with brackets inside their strings. *)
Theorem tokenize_print_json (l : list (bytes * json)) :
  wf_json (JObj l) = true ->
  tokenize_flat_object (print_json (JObj l))
  = Some (map (fun kv => (kv.1, print_json kv.2)) l).
Proof.
  intros Hw. cbn [print_json]. rewrite <- (app_nil_r (object_text _)) at 1.
  apply tokenize_object, Forall_map, Forall_forall. intros kv Hkv.
  cbn [wf_json] in Hw. rewrite forallb_forall in Hw.
  by apply (text_passes kv.2), print_json_text_of, Hw.
Qed.

(** C35: [flatten_json_object] computes the leaves of the object, however it is written:
    with white space before it and between all its tokens, with any escapes in its keys and
    strings, with objects and arrays nested to any depth, and whatever follows its closing
    brace.  The leaves are its numbers and booleans (1 and 0) in object order, each named
    by the unescaped keys on its path joined by '_'; strings, nulls and arrays contribute
    nothing; the whole call fails exactly when some number outside the arrays does not parse. *)
Theorem flatten_json_object_correct (l : list (bytes * json)) (w t post : bytes)
    (Hw : ws w) (Ht : text_of (JObj l) t) :
  flatten_json_object (w ++ t ++ post) = leaves [] (JObj l).
Proof.
  destruct Ht as (members & -> & Ht). destruct (listed_pairs l members Ht) as (pairs & Hp & HF).
  unfold flatten_json_object. cbn [flatten_impl]. rewrite (tokenize_listed w pairs members post Hw Hp), leaves_obj.
  set (fuel := length _). assert (Hlen : length members < fuel).
  { unfold fuel. rewrite !length_app. simpl. rewrite !length_app. simpl. lia. }
  clearbody fuel. clear Hp Ht. induction HF as [|[k v] [k' x] l pairs (Hk & Hx & Hlt) HF IHF]; [done|].
  cbn [fst snd] in *. subst k'. cbn [flatten_pairs object_leaves].
  rewrite (flatten_value_text v x fuel) by (done || lia). by rewrite IHF.
Qed.

(** Every position a scanner returns is past its start and within the
    text, on any input, so that no [substr] throws, no length computed from
    two positions underflows, and a reported value is never empty. *)
Theorem tokenize_step_in_bounds text i k v vend :
  tokenize_step text i = Some (k, v, vend) ->
  i < vend <= length text /\ v <> [] /\ length v <= length text.
Proof. intros H%tokenize_step_bounds. lia || (split_and!; naive_solver lia). Qed.

(** [flatten_json_object] terminates on every input: any recursion budget
    above the length of the text gives the same answer, because the value
    text of a pair is strictly shorter than the object holding it. *)
Theorem flatten_terminates text prefix fuel :
  length text < fuel ->
  flatten_impl fuel text prefix = flatten_impl (S (length text)) text prefix.
Proof. intros H. apply flatten_impl_fuel; lia. Qed.

(** Data after the closing brace is accepted by [parse_flat_number_object]
    and ignored, although the header promises a failure for it. *)
Theorem trailing_data_accepted (pairs : list (bytes * bytes)) garbage :
  Forall (fun kv => bare_token kv.2 = true) pairs ->
  parse_flat_number_object (object_text pairs ++ garbage)
  = parse_flat_number_object (object_text pairs).
Proof.
  intros H. assert (Hv : Forall (fun kv => value_text kv.2) pairs).
  { eapply Forall_impl; [|exact H]. intros kv. apply value_token. }
  unfold parse_flat_number_object. rewrite tokenize_object by done.
  rewrite <- (app_nil_r (object_text pairs)). by rewrite tokenize_object.
Qed.

(** ** Witnesses *)

(** An object with a quote inside a key, a nested object holding an array
    whose string contains a closing brace, a boolean and a null. *)
Definition sample : list (bytes * json) :=
  [(B"a " ++ c_quote :: B"b", JNum (B"17.3"));
   (B"w", JObj [(B"x", JArr [JNum (B"1"); JStr (B"}")]); (B"on", JBool true)]);
   (B"n", JNull)].

Lemma tokenize_print_json_witness :
  wf_json (JObj sample) = true /\
  tokenize_flat_object (print_json (JObj sample))
  = Some (map (fun kv => (kv.1, print_json kv.2)) sample).
Proof. split; [reflexivity|]. apply tokenize_print_json. reflexivity. Defined.

(** The same object with white space everywhere and an escaped key. *)
Definition sample_text : bytes :=
  B"{ " ++ c_quote :: B"\u0061 \" ++ c_quote :: B"b" ++ c_quote :: B" : 17.3 ," ++ [c_lf] ++ quoted (B"w") ++ B":{"
  ++ quoted (B"x") ++ B": [1, " ++ quoted (B"}") ++ B" ] ," ++ quoted (B"on") ++ B":true } , " ++ quoted (B"n") ++ B":null }".

Ltac spaces := by repeat first [apply list.Forall_nil|apply list.Forall_cons_2].

(** The conjuncts of a text whose parts are given: equations between concrete texts and
    white space; the members' own texts are left. *)
Ltac parts := split_and!; cbn [fst snd]; try lazymatch goal with
  | |- ws _ => spaces
  | |- @eq bytes _ _ => vm_compute; reflexivity
  | |- _ = _ => reflexivity
  | |- text_of (JNum _) _ => by cbn [text_of]; split_and!; vm_compute
  | |- text_of (JBool _) _ => vm_compute; reflexivity
  | |- text_of JNull _ => vm_compute; reflexivity
  end.

Lemma sample_text_of : text_of (JObj sample) sample_text.
Proof.
  eexists (substr sample_text 1 (length sample_text - 2)). split; [vm_compute; reflexivity|].
  exists (B" "), (c_quote :: B"\u0061 \" ++ c_quote :: B"b" ++ c_quote :: B" : 17.3"), (B" "). eexists. parts.
  { exists (B"\u0061 \" ++ c_quote :: B"b"), (B" "), (B" "), (B"17.3"). parts. }
  exists [c_lf], (quoted (B"w") ++ B":{" ++ quoted (B"x") ++ B": [1, " ++ quoted (B"}") ++ B" ] ," ++ quoted (B"on") ++ B":true }"), (B" ").
  eexists. parts.
  - exists (B"w"), [], []. eexists. parts.
    exists (quoted (B"x") ++ B": [1, " ++ quoted (B"}") ++ B" ] ," ++ quoted (B"on") ++ B":true "). parts.
    exists [], (quoted (B"x") ++ B": [1, " ++ quoted (B"}") ++ B" ]"), (B" "). eexists. parts.
    + exists (B"x"), [], (B" "). eexists. parts. exists (B"1, " ++ quoted (B"}") ++ B" "). parts.
      exists [], (B"1"), []. eexists. parts. exists (B" "), (quoted (B"}")), (B" "). parts. exists (B"}"). parts.
    + exists [], (quoted (B"on") ++ B":true"), (B" "). parts. exists (B"on"), [], []. eexists. parts.
  - exists (B" "), (quoted (B"n") ++ B":null"), (B" "). parts. exists (B"n"), [], []. eexists. parts.
Qed.

Lemma flatten_json_object_correct_witness :
  flatten_json_object (B"  " ++ sample_text ++ B" and more") = leaves [] (JObj sample) /\
  match leaves [] (JObj sample) with
  | Some [(_, v); (n, o)] => n = B"w_on" /\ o = d_one /\ Some v = parse_double (B"17.3")
  | _ => False
  end.
Proof.
  split; [|by vm_compute]. apply flatten_json_object_correct; [spaces|exact sample_text_of].
Defined.

Lemma tokenize_step_in_bounds_witness :
  0 < 6 <= 7 /\ B"17" <> [] /\ 2 <= 7.
Proof.
  apply (tokenize_step_in_bounds (quoted (B"a") ++ B":17}") 0 (B"a") (B"17") 6).
  reflexivity.
Defined.

Lemma flatten_terminates_witness :
  flatten_impl 1000 (print_json (JObj sample)) []
  = flatten_impl (S (length (print_json (JObj sample)))) (print_json (JObj sample)) [].
Proof. apply flatten_terminates. apply Nat.ltb_lt. reflexivity. Defined.

Lemma trailing_data_accepted_witness :
  parse_flat_number_object (object_text [(B"a", B"1")] ++ B" not json")
  = parse_flat_number_object (object_text [(B"a", B"1")]) /\
  is_Some (parse_flat_number_object (object_text [(B"a", B"1")])).
Proof.
  split; [|eexists; vm_compute; reflexivity].
  apply trailing_data_accepted. by apply Forall_singleton.
Defined.

End JsonUtil.
