(* ===== verification/State.v ===== *)
(** * state.cpp: the current-state store and its file

    [StateStore] holds one double per name.  The mutex makes [set], [remove],
    [get], [snapshot] and [size] atomic, so each is one function on the map;
    [save] and [load] also touch the file system: [StateFile.v] models the
    individual file operations of [save]. *)

From S2P Require Import Prelude CLib Double TextUtil JsonUtil.
Import JsonUtil.

Module StateStore.

(** [std::map<std::string, double> values_]. *)
Abbreviation store := (gmap bytes double).

(** [operator<] on [std::string]: lexicographic on unsigned bytes. *)
Fixpoint bytes_leb (a b : bytes) : bool :=
  match a, b with
  | [], _ => true
  | _ :: _, [] => false
  | x :: a', y :: b' =>
      if (code x <? code y)%N then true
      else if (code y <? code x)%N then false
      else bytes_leb a' b'
  end.

Definition key_le (x y : bytes * double) : Prop := bytes_leb x.1 y.1 = true.
#[export] Instance key_le_dec x y : Decision (key_le x y).
Proof. unfold key_le. apply _. Defined.

Definition set (values : store) (name : bytes) (value : double) : store :=
  <[name := value]> values.

(** [erase(name) > 0] and the map after it. *)
Definition remove (values : store) (name : bytes) : bool * store :=
  (bool_decide (is_Some (values !! name)), delete name values).

Definition get (values : store) (name : bytes) : option double := values !! name.

(** The map's iteration order is its key order. *)
Definition snapshot (values : store) : list (bytes * double) :=
  merge_sort key_le (map_to_list values).

Definition size (values : store) : nat := base.size values.

(** ** save: the text *)

Fixpoint save_items (first : bool) (items : list (bytes * double)) : bytes :=
  match items with
  | [] => []
  | (name, value) :: rest =>
      (if first then [] else B",") ++
      [c_quote] ++ json_escape name ++ [c_quote; ":"%char] ++ format_double value
      ++ save_items false rest
  end.

Definition save_text (values : store) : bytes :=
  B"{" ++ save_items true (snapshot values) ++ B"}".

(** ** save and load against the file system *)

Inductive save_event := SaveOk | OpenFails | WriteFails | RenameFails.

Definition tmp_path (path : bytes) : bytes := path ++ B".tmp".
Arguments tmp_path : simpl never.

Definition save_error (path : bytes) (e : save_event) : bytes :=
  match e with
  | SaveOk => []
  | OpenFails => B"failed to open state file for writing: " ++ tmp_path path
  | WriteFails => B"failed to write state file: " ++ tmp_path path
  | RenameFails => B"failed to rename state file into place (" ++ tmp_path path
                   ++ B" -> " ++ path ++ B")"
  end.

(** [save] on the content of the file at [path]: the result, the error text
    and the content afterwards. *)
Definition save (e : save_event) (path : bytes) (values : store) (file : option bytes)
    : bool * bytes * option bytes :=
  match e with
  | SaveOk => (true, [], Some (save_text values))
  | _ => (false, save_error path e, file)
  end.

(** What opening and reading the file gives. *)
Inductive read_event := NoFile | ReadFails | Content (text : bytes).

Definition load_shape_error (path : bytes) : bytes :=
  B"state file is not a valid flat {" ++ [c_quote] ++ B"name" ++ [c_quote]
  ++ B": value, ...} object: " ++ path.

(** The new contents of [values_], or the error text. *)
Definition load (r : read_event) (path : bytes) (values : store) : store + bytes :=
  match r with
  | NoFile => inl values
  | ReadFails => inr (B"failed to read state file: " ++ path)
  | Content text =>
      match parse_flat_number_object text with
      | None => inr (load_shape_error path)
      | Some loaded => inl loaded
      end
  end.

(** The value a double comes back as after one save and one load. *)
Definition reload (v : double) : option double := parse_double (format_double v).

(** ** Lemmas: the key order *)

Lemma bytes_leb_refl a : bytes_leb a a = true.
Proof. induction a as [|x a IH]; simpl; [done|]. by rewrite N.ltb_irrefl. Qed.

Lemma bytes_leb_total a b : bytes_leb a b = true \/ bytes_leb b a = true.
Proof.
  revert b. induction a as [|x a IH]; intros [|y b]; simpl; auto.
  destruct (N.ltb_spec (code x) (code y)), (N.ltb_spec (code y) (code x)); auto.
Qed.

Lemma bytes_leb_trans a b c :
  bytes_leb a b = true -> bytes_leb b c = true -> bytes_leb a c = true.
Proof.
  revert b c. induction a as [|x a IH]; intros [|y b] [|z c]; simpl; auto; try done.
  destruct (N.ltb_spec (code x) (code y)), (N.ltb_spec (code y) (code z)),
    (N.ltb_spec (code y) (code x)), (N.ltb_spec (code z) (code y)),
    (N.ltb_spec (code x) (code z)), (N.ltb_spec (code z) (code x));
    try done; try lia; apply IH.
Qed.

Lemma bytes_leb_antisymm a b : bytes_leb a b = true -> bytes_leb b a = true -> a = b.
Proof.
  revert b. induction a as [|x a IH]; intros [|y b]; simpl; auto; try done.
  destruct (N.ltb_spec (code x) (code y)), (N.ltb_spec (code y) (code x));
    try done; try lia.
  intros H1 H2. f_equal; [apply code_inj; lia|auto].
Qed.

#[export] Instance key_le_total : Total key_le.
Proof. intros x y. apply bytes_leb_total. Qed.
#[export] Instance key_le_trans : Transitive key_le.
Proof. intros x y z. apply bytes_leb_trans. Qed.

Lemma snapshot_perm values : snapshot values ≡ₚ map_to_list values.
Proof. apply merge_sort_Permutation. Qed.

Lemma snapshot_sorted values : StronglySorted key_le (snapshot values).
Proof. apply (StronglySorted_merge_sort key_le). Qed.

Lemma snapshot_keys values : NoDup (snapshot values).*1.
Proof. rewrite snapshot_perm. apply NoDup_fst_map_to_list. Qed.

Lemma snapshot_elem values name v :
  (name, v) ∈ snapshot values <-> values !! name = Some v.
Proof. rewrite snapshot_perm. apply elem_of_map_to_list. Qed.

Lemma snapshot_to_map values : list_to_map (snapshot values) = values.
Proof.
  rewrite <- (list_to_map_to_list values) at 2. apply list_to_map_proper;
    [apply snapshot_keys|apply snapshot_perm].
Qed.

Lemma snapshot_length values : length (snapshot values) = size values.
Proof. rewrite snapshot_perm. apply length_map_to_list. Qed.

(** Strictly increasing keys determine the snapshot: it is canonical. *)
Lemma snapshot_unique values l :
  StronglySorted key_le l -> NoDup l.*1 -> list_to_map l = values -> l = snapshot values.
Proof.
  intros Hs Hnd <-.
  assert (Hp : l ≡ₚ snapshot (list_to_map l)).
  { rewrite snapshot_perm. symmetry. by apply map_to_list_to_map. }
  apply (StronglySorted_unique_strong key_le); [|done|apply snapshot_sorted|done].
  intros [k1 v1] [k2 v2] H1 H2 L1 L2. unfold key_le in *. simpl in *.
  assert (k1 = k2) as -> by (by apply bytes_leb_antisymm).
  f_equal. rewrite <- Hp in H2.
  apply (elem_of_list_to_map (M := gmap bytes)) in H1, H2; [|done..]. congruence.
Qed.

(** ** Lemmas: the saved text *)

Definition saved_pairs (values : store) : list (bytes * bytes) :=
  map (fun kv => (kv.1, format_double kv.2)) (snapshot values).

Lemma save_items_commas first items :
  save_items first items =
  (if first || bool_decide (items = []) then [] else B",")
  ++ commas (map pair_text (map (fun kv => (kv.1, format_double kv.2)) items)).
Proof.
  revert first. induction items as [|[k v] items IH]; intros first.
  - rewrite bool_decide_true by done. by rewrite orb_true_r.
  - rewrite bool_decide_false, orb_false_r by done. cbn [save_items map].
    f_equal. rewrite IH. unfold commas, pair_text, quoted. cbn [fst snd].
    destruct items as [|[k' v'] items].
    + rewrite bool_decide_true by done. cbn [orb map join app]. simpl.
      by rewrite app_nil_r, <- !app_assoc.
    + rewrite bool_decide_false by done. 
      rewrite (join_cons _ _ (map _ _)) by discriminate.
      simpl. by rewrite <- !app_assoc.
Qed.

Lemma save_text_object values : save_text values = object_text (saved_pairs values).
Proof.
  unfold save_text, object_text. by rewrite save_items_commas.
Qed.

Lemma g9_tok c : g9_char c = true -> tok_char c = true.
Proof.
  intros H. pose proof (byte_forall (fun c => implb (g9_char c) (tok_char c)) eq_refl c) as Hc.
  simpl in Hc. by rewrite H in Hc.
Qed.

Lemma format_double_token v : bare_token (format_double v) = true.
Proof.
  apply bare_token_spec. split; [apply format_g9_nonempty|].
  eapply Forall_impl; [|apply format_g9_bytes]. apply g9_tok.
Qed.

Lemma parse_saved_text values :
  parse_flat_number_object (save_text values) = fill_numbers (saved_pairs values) ∅.
Proof.
  unfold parse_flat_number_object. rewrite save_text_object.
  rewrite <- (app_nil_r (object_text _)), tokenize_object; [done|].
  apply Forall_map, Forall_forall. intros kv _. apply value_token, format_double_token.
Qed.

Lemma fill_numbers_reload (items : list (bytes * double)) (acc : store) :
  Forall (fun kv => is_Some (reload kv.2)) items -> NoDup items.*1 ->
  fill_numbers (map (fun kv => (kv.1, format_double kv.2)) items) acc
  = Some (omap reload (list_to_map items : store) ∪ acc).
Proof.
  intros H. revert acc. induction H as [|[k v] items [w Hw] _ IH]; intros acc Hnd.
  - cbn [map fill_numbers]. rewrite list_to_map_nil.
    rewrite omap_empty. by rewrite map_empty_union.
  - cbn [map fill_numbers fst snd]. rewrite list_to_map_cons. simpl in Hw.
    fold (reload v). rewrite Hw.
    apply list.NoDup_cons in Hnd as [Hk Hnd]. simpl in Hk. rewrite IH by done. f_equal.
    assert (Hnone : (list_to_map items : store) !! k = None).
    { by apply not_elem_of_list_to_map. }
    rewrite (omap_insert_Some reload _ k v w) by done.
    rewrite <- insert_union_l, insert_union_r; [done|].
    by rewrite lookup_omap, Hnone.
Qed.

Lemma fill_numbers_fails (items : list (bytes * double)) (acc : store) :
  Exists (fun kv => reload kv.2 = None) items ->
  fill_numbers (map (fun kv => (kv.1, format_double kv.2)) items) acc = None.
Proof.
  intros H. revert acc. induction H as [[k v] items Hv|[k v] items _ IH]; intros acc;
    cbn [map fill_numbers fst snd] in *; fold (reload v).
  - by rewrite Hv.
  - destruct (reload v); [apply IH|done].
Qed.

Definition reloadable (values : store) : Prop :=
  map_Forall (fun _ v => is_Some (reload v)) values.

Lemma load_saved_text (path : bytes) (other values : store) :
  reloadable values ->
  load (Content (save_text values)) path other = inl (omap reload values).
Proof.
  intros H. unfold load. rewrite parse_saved_text. unfold saved_pairs.
  rewrite fill_numbers_reload; [|apply Forall_forall|apply snapshot_keys].
  - by rewrite snapshot_to_map, map_union_empty.
  - intros [k v] Hin%list_elem_of_In%snapshot_elem. by apply (H k).
Qed.

Lemma load_saved_text_fails (path : bytes) (other values : store) :
  ~ reloadable values ->
  load (Content (save_text values)) path other = inr (load_shape_error path).
Proof.
  intros H. apply map_not_Forall in H as (k & v & Hk & Hv); [|apply _].
  unfold load. rewrite parse_saved_text. unfold saved_pairs.
  rewrite fill_numbers_fails; [done|]. apply Exists_exists. exists (k, v).
  split; [by apply list_elem_of_In, snapshot_elem|]. simpl.
  destruct (reload v); [|done]. by destruct Hv.
Qed.

(** ** Properties *)

(** C14: the state file round trip.  Loading what [save] wrote gives back
    exactly the stored names, whatever bytes they hold, each with the value
    its printed form parses to; when the printed form of some value does not
    parse, the whole load fails. *)
Theorem save_load_roundtrip (path : bytes) (other values : store) :
  load (Content (save_text values)) path other =
  if decide (reloadable values) then inl (omap reload values)
  else inr (load_shape_error path).
Proof.
  case_decide; [by apply load_saved_text|by apply load_saved_text_fails].
Qed.

(** The snapshot is the map listed once per name in increasing byte order
    of the names, and it is the only such list: two calls on equal maps
    produce equal output. *)
Theorem snapshot_canonical (values : store) :
  StronglySorted key_le (snapshot values) /\ NoDup (snapshot values).*1 /\
  (forall name v, (name, v) ∈ snapshot values <-> get values name = Some v) /\
  (forall l, StronglySorted key_le l -> NoDup l.*1 ->
     list_to_map l = values -> l = snapshot values).
Proof.
  split_and!; [apply snapshot_sorted|apply snapshot_keys| |].
  - intros name v. apply snapshot_elem.
  - intros l. apply snapshot_unique.
Qed.

(** The smallest positive double. *)
Definition d_min : double := Fin false 1 (-1074).

(** A value a client can store makes the service unable to start again.
    The text 0x1p-1074 is accepted as the smallest positive double, but its
    nine-digit form 4.94065646e-324 is inexact below the normal range, so
    [strtod] reports ERANGE and the state file holding it never loads. *)
Theorem stored_subnormal_breaks_load (path name : bytes) (other values : store) :
  parse_double (B"0x1p-1074") = Some d_min /\
  load (Content (save_text (set values name d_min))) path other
  = inr (load_shape_error path).
Proof.
  split; [vm_compute; reflexivity|]. apply load_saved_text_fails. intros H.
  specialize (H name d_min (lookup_insert_eq _ _ _)). cbv beta in H.
  assert (Hn : reload d_min = None) by (vm_compute; reflexivity).
  rewrite Hn in H. exact (is_Some_None H).
Qed.

End StateStore.
