(* ===== verification/StateFile.v ===== *)
(** * The file protocol of StateStore::save, step by step

    [save] opens path.tmp with truncation, writes the text, flushes and
    renames the temporary file over the state file.  Here each system call is
    one step on a small file system with inodes, so that a crash is a state
    between two steps and two concurrent [save] calls (every HTTP worker and
    the subscribe worker call it, without a lock) are an interleaving. *)

From S2P Require Import Prelude CLib Double TextUtil JsonUtil State.
Import StateStore.

Module StateFile.

(** Names point to inodes, inodes hold bytes.  An open descriptor keeps its
    inode when the name is moved. *)
Record fs := Fs { names : gmap bytes nat; inodes : gmap nat bytes }.

Definition content (f : fs) (path : bytes) : option bytes :=
  match names f !! path with
  | Some i => inodes f !! i
  | None => None
  end.

(** [open(path, O_CREAT | O_TRUNC)]: truncates the inode the name has, or
    makes a new empty one. *)
Definition open_trunc (path : bytes) (f : fs) : fs * nat :=
  match names f !! path with
  | Some i => (Fs (names f) (<[i := []]> (inodes f)), i)
  | None =>
      let i := fresh (dom (inodes f)) in
      (Fs (<[path := i]> (names f)) (<[i := []]> (inodes f)), i)
  end.

(** [write] at an offset; a hole left by a truncation reads as NUL bytes. *)
Definition write_at (off : nat) (chunk old : bytes) : bytes :=
  take off old ++ replicate (off - length old) c_nul ++ chunk
  ++ drop (off + length chunk) old.

Definition write (i off : nat) (chunk : bytes) (f : fs) : fs :=
  Fs (names f) (alter (write_at off chunk) i (inodes f)).

(** [rename(src, dst)]; fails when [src] does not exist. *)
Definition rename (src dst : bytes) (f : fs) : option fs :=
  match names f !! src with
  | Some i => Some (Fs (<[dst := i]> (delete src (names f))) (inodes f))
  | None => None
  end.

(** Where one call of [save] stands; [Done ok] is its return value. *)
Inductive pc :=
| Start (text : bytes)
| Writing (ino off : nat) (rest : bytes)
| Renaming
| Done (ok : bool).

(** What happens next: the call succeeds (a write may be short), or fails. *)
Inductive event := EvOpen | EvWrite (n : nat) | EvClose | EvRename | EvFail.

Definition exec (path : bytes) (ev : event) (st : fs * pc) : option (fs * pc) :=
  let '(f, p) := st in
  match p, ev with
  | Start text, EvOpen =>
      let '(f', i) := open_trunc (tmp_path path) f in Some (f', Writing i 0 text)
  | Writing i off rest, EvWrite n =>
      let chunk := take n rest in
      Some (write i off chunk f, Writing i (off + length chunk) (drop n rest))
  | Writing _ _ rest, EvClose => if decide (rest = []) then Some (f, Renaming) else None
  | Renaming, EvRename =>
      match rename (tmp_path path) path f with
      | Some f' => Some (f', Done true)
      | None => Some (f, Done false)
      end
  | Done _, _ => None
  | _, EvFail => Some (f, Done false)
  | _, _ => None
  end.

Definition step (path : bytes) (s s' : fs * pc) : Prop :=
  exists ev, exec path ev s = Some s'.

(** Several calls at once: one of them moves. *)
Definition sys_exec (path : bytes) (k : nat) (ev : event) (s : fs * list pc)
    : option (fs * list pc) :=
  unwrap p := s.2 !! k else None in
  unwrap (f', p') := exec path ev (s.1, p) else None in
  Some (f', <[k := p']> s.2).

Definition sys_step (path : bytes) (s s' : fs * list pc) : Prop :=
  exists k ev, sys_exec path k ev s = Some s'.

(** No two names share an inode and every name has one. *)
Definition fs_ok (f : fs) : Prop :=
  (forall p q i, names f !! p = Some i -> names f !! q = Some i -> p = q) /\
  (forall p i, names f !! p = Some i -> is_Some (inodes f !! i)).

(** ** Lemmas *)

Lemma tmp_path_ne path : tmp_path path <> path.
Proof.
  intros H%(f_equal length). unfold tmp_path in H. rewrite length_app in H.
  simpl in H. lia.
Qed.

Lemma fresh_inode (f : fs) : inodes f !! fresh (dom (inodes f)) = None.
Proof. apply not_elem_of_dom. apply is_fresh. Qed.

Lemma write_at_end (chunk old : bytes) : write_at (length old) chunk old = old ++ chunk.
Proof.
  unfold write_at. rewrite take_ge, Nat.sub_diag, drop_ge by lia.
  simpl. by rewrite app_nil_r.
Qed.

(** After the open: the temporary name has an empty inode that is not the
    state file's, whose content is unchanged. *)
Lemma open_trunc_tmp path f f' i :
  fs_ok f -> open_trunc (tmp_path path) f = (f', i) ->
  names f' !! tmp_path path = Some i /\ inodes f' !! i = Some [] /\
  names f' !! path <> Some i /\ content f' path = content f path.
Proof.
  intros [Hinj Hex] H. unfold open_trunc in H. pose proof (tmp_path_ne path) as Hne.
  destruct (names f !! tmp_path path) as [j|] eqn:E; simplify_eq; unfold content; simpl.
  - assert (Hp : names f !! path <> Some i) by (intros Hp; eauto).
    split_and!; [done|by simplify_map_eq|done|].
    destruct (names f !! path) as [j|] eqn:Ep; [|done].
    rewrite lookup_insert_ne; [done|congruence].
  - assert (Hp : names f !! path <> Some (fresh (dom (inodes f)))).
    { intros Hp. destruct (Hex _ _ Hp) as [x Hx]. by rewrite fresh_inode in Hx. }
    rewrite !lookup_insert_eq, (lookup_insert_ne (names f)) by done.
    split_and!; [done..|]. destruct (names f !! path) as [j|] eqn:Ep; [|done].
    rewrite lookup_insert_ne; [done|congruence].
Qed.

(** What one call guarantees while it runs alone: [old] is the content the
    state file had, [text] the one being saved. *)
Definition running (path text : bytes) (old : option bytes) (st : fs * pc) : Prop :=
  let '(f, p) := st in
  match p with
  | Start t => t = text /\ fs_ok f /\ content f path = old
  | Writing i off rest =>
      exists written, text = written ++ rest /\ off = length written /\
        names f !! tmp_path path = Some i /\ inodes f !! i = Some written /\
        names f !! path <> Some i /\ content f path = old
  | Renaming =>
      exists i, names f !! tmp_path path = Some i /\ inodes f !! i = Some text /\
        content f path = old
  | Done true => content f path = Some text
  | Done false => content f path = old
  end.

Lemma running_step path text old s s' :
  running path text old s -> step path s s' -> running path text old s'.
Proof.
  destruct s as [f p]. intros Hr [ev He].
  destruct p as [t|i off rest| |ok], ev; simpl in He, Hr; simplify_eq.
  - destruct Hr as (-> & Hok & Hc). destruct (open_trunc _ _) as [f' i] eqn:E.
    simplify_eq. apply open_trunc_tmp in E as (H1 & H2 & H3 & H4); [|done].
    exists []. rewrite H4. done.
  - by destruct Hr as (_ & _ & ?).
  - destruct Hr as (w & -> & -> & H1 & H2 & H3 & H4).
    exists (w ++ take n rest). rewrite <- app_assoc, take_drop, length_app. simpl.
    split_and!; [done..| |done|].
    + by rewrite lookup_alter_eq, H2, <- write_at_end.
    + rewrite <- H4. unfold content. simpl. destruct (names f !! path) as [j|] eqn:E; [|done].
      apply lookup_alter_ne. congruence.
  - case_decide as Hrest; simplify_eq.
    destruct Hr as (w & -> & _ & H1 & H2 & _ & H4). exists i. by rewrite app_nil_r.
  - by destruct Hr as (? & _ & _ & _ & _ & _ & ?).
  - unfold rename in He. destruct Hr as (i & H1 & H2 & H3). rewrite H1 in He.
    simplify_eq. unfold running, content. cbn [names inodes].
    by rewrite lookup_insert_eq.
  - by destruct Hr as (? & _ & _ & ?).
Qed.

Lemma running_reachable path text old s s' :
  running path text old s -> rtc (step path) s s' -> running path text old s'.
Proof. intros H Hs. induction Hs; eauto using running_step. Qed.

Lemma running_content path text old f p :
  running path text old (f, p) -> content f path = old \/ content f path = Some text.
Proof.
  destruct p as [t|i off rest| |[]]; simpl; naive_solver.
Qed.

(** ** Properties *)

(** C15: crash safety of one [save] running alone.  At every moment, whatever
    call fails or wherever the process stops, the state file holds either its
    old content or the complete new text; the result [true] means the new
    text is in place, [false] that the old content is. *)
Theorem save_atomic_alone path text f0 f p :
  fs_ok f0 -> rtc (step path) (f0, Start text) (f, p) ->
  (content f path = content f0 path \/ content f path = Some text) /\
  (p = Done true -> content f path = Some text) /\
  (p = Done false -> content f path = content f0 path).
Proof.
  intros Hok Hs.
  assert (Hr : running path text (content f0 path) (f, p)).
  { eapply running_reachable; [|exact Hs]. simpl. done. }
  split; [by eapply running_content|]. split; intros ->; exact Hr.
Qed.

(** A fresh file system where the state file already exists. *)
Definition one_file (path text : bytes) : fs :=
  Fs {[path := 0]} {[0 := text]}.

Lemma one_file_ok path text : fs_ok (one_file path text).
Proof.
  split; simpl.
  - intros p q i Hp Hq. apply lookup_singleton_Some in Hp, Hq. naive_solver.
  - intros p i [<- <-]%lookup_singleton_Some. exists text. by rewrite lookup_singleton_eq.
Qed.

Lemma save_atomic_alone_witness :
  let f0 := one_file (B"s") (B"old") in
  fs_ok f0 /\
  exists f, rtc (step (B"s")) (f0, Start (B"new")) (f, Done true) /\
            content f (B"s") = Some (B"new").
Proof.
  intros f0. split; [apply one_file_ok|].
  assert (Hrun : exists f, rtc (step (B"s")) (f0, Start (B"new")) (f, Done true)).
  { eexists. eapply rtc_l; [exists EvOpen; reflexivity|].
    eapply rtc_l; [exists (EvWrite 3); reflexivity|].
    eapply rtc_l; [exists EvClose; reflexivity|].
    eapply rtc_l; [exists EvRename; reflexivity|]. apply rtc_refl. }
  destruct Hrun as [f Hrun]. exists f. split; [exact Hrun|].
  apply (save_atomic_alone (B"s") (B"new") f0 f (Done true)); [apply one_file_ok|exact Hrun|done].
Defined.

(** *** Two concurrent calls *)

(** The interleaving: the first call opens, writes and flushes everything; the
    second opens, truncating the shared temporary file; the first renames. *)
Definition race (n : nat) : list (nat * event) :=
  [(0, EvOpen); (0, EvWrite n); (0, EvClose); (1, EvOpen); (0, EvRename)].

Fixpoint sys_run (path : bytes) (evs : list (nat * event)) (s : fs * list pc)
    : option (fs * list pc) :=
  match evs with
  | [] => Some s
  | (k, ev) :: rest =>
      unwrap s' := sys_exec path k ev s else None in sys_run path rest s'
  end.

Lemma sys_run_reachable path evs s s' :
  sys_run path evs s = Some s' -> rtc (sys_step path) s s'.
Proof.
  revert s. induction evs as [|[k ev] evs IH]; intros s; simpl.
  - intros [= <-]. apply rtc_refl.
  - destruct (sys_exec path k ev s) as [s1|] eqn:E; [|done].
    intros H. eapply rtc_l; [by exists k, ev|]. by apply IH.
Qed.

Lemma race_run path text1 text2 f0 :
  exists f i, sys_run path (race (length text1)) (f0, [Start text1; Start text2])
              = Some (f, [Done true; Writing i 0 text2]) /\
            content f path = Some [].
Proof.
  unfold race. cbn [sys_run]. unfold sys_exec. cbn [lookup list_lookup fst snd exec].
  destruct (open_trunc (tmp_path path) f0) as [f1 i] eqn:E1.
  assert (Hn : names f1 !! tmp_path path = Some i).
  { unfold open_trunc in E1. destruct (names f0 !! tmp_path path) eqn:E; simplify_eq; simpl.
    - done.
    - by rewrite lookup_insert_eq. }
  cbn. rewrite firstn_all, drop_all, decide_True by done. unfold open_trunc. cbn.
  rewrite Hn. cbn. unfold rename. cbn. rewrite Hn.
  eexists _, i. split; [reflexivity|]. unfold content. cbn [names inodes].
  by rewrite lookup_insert_eq, lookup_insert_eq.
Qed.

(** Without a lock around the file protocol, two overlapping [save] calls
    break its crash safety.  From any file system and for any two texts a
    state is reachable where one call has returned [true] while the state
    file is empty, a content the next start refuses to load. *)
Theorem concurrent_saves_lose_state path text1 text2 f0 other :
  exists f ps, rtc (sys_step path) (f0, [Start text1; Start text2]) (f, ps) /\
    ps !! 0 = Some (Done true) /\ content f path = Some [] /\
    load (Content []) path other = inr (load_shape_error path).
Proof.
  destruct (race_run path text1 text2 f0) as (f & i & Hr & Hc).
  exists f, [Done true; Writing i 0 text2]. split_and!; [|done..].
  by eapply sys_run_reachable.
Qed.

End StateFile.
