(* ===== verification/Metrics.v ===== *)
(** * metrics.cpp: counters, Prometheus names and the rendered bodies *)

From S2P Require Import Prelude CLib Double TextUtil.

Module Metrics.

Local Open Scope Z_scope.

(** ** Counters: [std::atomic_uint64_t], one [fetch_add(1)] each *)

Record metrics := {
  event_requests_total : Z; metric_requests_total : Z; health_requests_total : Z;
  metrics_requests_total : Z; other_requests_total : Z;
  responses_2xx : Z; responses_4xx : Z; responses_5xx : Z;
  mqtt_publish_ok_total : Z; mqtt_publish_failed_total : Z; mqtt_publish_timeout_total : Z;
  mqtt_queue_full_total : Z; mqtt_reconnects_total : Z;
  mqtt_messages_received_total : Z; mqtt_messages_dropped_total : Z;
  webhook_delivered_total : Z; webhook_failed_total : Z; webhook_queue_full_total : Z
}.

(** The counters by name, so that one update function serves all. *)
Inductive counter :=
| CEvent | CMetric | CHealth | CMetrics | COther
| C2xx | C4xx | C5xx
| CPubOk | CPubFailed | CPubTimeout | CQueueFull | CReconnects | CReceived | CDropped
| CDelivered | CWebhookFailed | CWebhookFull.

#[export] Instance counter_eq_dec : EqDecision counter.
Proof. solve_decision. Defined.

Definition read (m : metrics) (c : counter) : Z :=
  match c with
  | CEvent => event_requests_total m | CMetric => metric_requests_total m
  | CHealth => health_requests_total m | CMetrics => metrics_requests_total m
  | COther => other_requests_total m
  | C2xx => responses_2xx m | C4xx => responses_4xx m | C5xx => responses_5xx m
  | CPubOk => mqtt_publish_ok_total m | CPubFailed => mqtt_publish_failed_total m
  | CPubTimeout => mqtt_publish_timeout_total m | CQueueFull => mqtt_queue_full_total m
  | CReconnects => mqtt_reconnects_total m | CReceived => mqtt_messages_received_total m
  | CDropped => mqtt_messages_dropped_total m | CDelivered => webhook_delivered_total m
  | CWebhookFailed => webhook_failed_total m | CWebhookFull => webhook_queue_full_total m
  end.

(** [fetch_add(1)] on 64 bits. *)
Definition bump (v : Z) : Z := (v + 1) mod 2 ^ 64.

Definition inc (c : counter) (m : metrics) : metrics :=
  let f k := if decide (k = c) then bump (read m k) else read m k in
  {| event_requests_total := f CEvent; metric_requests_total := f CMetric;
     health_requests_total := f CHealth; metrics_requests_total := f CMetrics;
     other_requests_total := f COther; responses_2xx := f C2xx; responses_4xx := f C4xx;
     responses_5xx := f C5xx; mqtt_publish_ok_total := f CPubOk;
     mqtt_publish_failed_total := f CPubFailed; mqtt_publish_timeout_total := f CPubTimeout;
     mqtt_queue_full_total := f CQueueFull; mqtt_reconnects_total := f CReconnects;
     mqtt_messages_received_total := f CReceived; mqtt_messages_dropped_total := f CDropped;
     webhook_delivered_total := f CDelivered; webhook_failed_total := f CWebhookFailed;
     webhook_queue_full_total := f CWebhookFull |}.

Definition zero_metrics : metrics :=
  Build_metrics 0 0 0 0 0 0 0 0 0 0 0 0 0 0 0 0 0 0.

Definition record_request (path : bytes) (m : metrics) : metrics :=
  if starts_with (B"/event/") path then inc CEvent m
  else if starts_with (B"/metric/") path then inc CMetric m
  else if decide (path = B"/health") then inc CHealth m
  else if decide (path = B"/metrics" \/ path = B"/metrics-state") then inc CMetrics m
  else inc COther m.

Definition record_response (status : Z) (m : metrics) : metrics :=
  if (200 <=? status) && (status <? 300) then inc C2xx m
  else if (400 <=? status) && (status <? 500) then inc C4xx m
  else if (500 <=? status) && (status <? 600) then inc C5xx m
  else m.

(** ** Prometheus names *)

Definition name_char (c : ascii) : bool :=
  islower c || isupper c || isdigit c || Ascii.eqb c "_".

Definition normalize_metric_name (prefix topic_name topic_prefix : bytes) : bytes :=
  let raw := topic_prefix ++ topic_name in
  let body := map (fun c => if name_char c then c else "_"%char) raw in
  let body := match body with
              | c :: _ => if isdigit c then B"_" ++ body else body
              | [] => body
              end in
  prefix ++ body.

Record NormalizedMetrics := {
  nm_metrics : list (bytes * double);
  nm_collisions : list bytes
}.

(** The loop of [normalize_all]; [claimed] maps a Prometheus name to the topic
    that took it first. *)
Fixpoint normalize_loop (prefix topic_prefix : bytes) (items : list (bytes * double))
    (claimed : gmap bytes bytes) (r : NormalizedMetrics) : NormalizedMetrics :=
  match items with
  | [] => r
  | (topic, value) :: rest =>
      let prom_name := normalize_metric_name prefix topic topic_prefix in
      match claimed !! prom_name with
      | Some _ =>
          normalize_loop prefix topic_prefix rest claimed
            {| nm_metrics := nm_metrics r; nm_collisions := nm_collisions r ++ [topic] |}
      | None =>
          normalize_loop prefix topic_prefix rest (<[prom_name := topic]> claimed)
            {| nm_metrics := nm_metrics r ++ [(prom_name, value)];
               nm_collisions := nm_collisions r |}
      end
  end.

Definition normalize_all (prefix : bytes) (items : list (bytes * double))
    (topic_prefix : bytes) : NormalizedMetrics :=
  normalize_loop prefix topic_prefix items ∅ (Build_NormalizedMetrics [] []).

(** ** Rendering *)

Definition nl : bytes := [c_lf].
Definition bool_text (b : bool) : bytes := if b then B"true" else B"false".

(** [static_cast<double>] of an integer. *)
Definition double_of_Z (z : Z) : double :=
  if z =? 0 then Fin false 0 0 else fst (rat_to_double (z <? 0) (Z.abs z) 1).

(** [{key="value"}]. *)
Definition label (key value : bytes) : bytes :=
  B"{" ++ key ++ B"=" ++ [c_quote] ++ value ++ [c_quote] ++ B"}".

Definition write_counter (name help labels : bytes) (value : Z) : bytes :=
  B"# HELP " ++ name ++ B" " ++ help ++ nl
  ++ B"# TYPE " ++ name ++ B" counter" ++ nl
  ++ name ++ (if decide (labels = []) then [] else B"{" ++ labels ++ B"}")
  ++ B" " ++ to_string value ++ nl.

Definition write_gauge (name help : bytes) (value : double) : bytes :=
  B"# HELP " ++ name ++ B" " ++ help ++ nl
  ++ B"# TYPE " ++ name ++ B" gauge" ++ nl
  ++ name ++ B" " ++ format_double value ++ nl.

(** A sample line of one of the labelled families. *)
Definition sample_line (name key value : bytes) (v : Z) : bytes :=
  name ++ label key value ++ B" " ++ to_string v ++ nl.

Definition render_gauges (prefix : bytes) (uptime_seconds : double) (mqtt_connected : bool)
    (mqtt_connections_active mqtt_pool_size mqtt_queue_depth state_entries
     metric_name_collisions : Z) : bytes :=
  B"# HELP " ++ prefix ++ B"up 1 if this nshmqtt process is running (always 1 if you can scrape it)" ++ nl
  ++ B"# TYPE " ++ prefix ++ B"up gauge" ++ nl
  ++ prefix ++ B"up 1" ++ nl
  ++ write_gauge (prefix ++ B"uptime_seconds") (B"Seconds since nshmqtt started") uptime_seconds
  ++ write_gauge (prefix ++ B"mqtt_connected")
       (B"1 if at least one pool connection is currently connected, 0 otherwise")
       (double_of_Z (if mqtt_connected then 1 else 0))
  ++ write_gauge (prefix ++ B"mqtt_connections_active")
       (B"Number of MQTT pool connections currently connected") (double_of_Z mqtt_connections_active)
  ++ write_gauge (prefix ++ B"mqtt_pool_size")
       (B"Configured MQTT connection pool size (mqtt_pool_size)") (double_of_Z mqtt_pool_size)
  ++ write_gauge (prefix ++ B"mqtt_publish_queue_depth")
       (B"Publish jobs currently queued, shared across the connection pool")
       (double_of_Z mqtt_queue_depth)
  ++ write_gauge (prefix ++ B"state_entries") (B"Current number of stored metric values")
       (double_of_Z state_entries)
  ++ write_gauge (prefix ++ B"metric_name_collisions")
       (B"Distinct topic names in the current state that normalize to an already-used Prometheus metric name and are dropped from the state metrics endpoint")
       (double_of_Z metric_name_collisions).

Definition render_families (prefix : bytes) (m : metrics) : bytes :=
  B"# HELP " ++ prefix ++ B"http_requests_total HTTP requests received, by category" ++ nl
  ++ B"# TYPE " ++ prefix ++ B"http_requests_total counter" ++ nl
  ++ sample_line (prefix ++ B"http_requests_total") (B"category") (B"event") (event_requests_total m)
  ++ sample_line (prefix ++ B"http_requests_total") (B"category") (B"metric") (metric_requests_total m)
  ++ sample_line (prefix ++ B"http_requests_total") (B"category") (B"health") (health_requests_total m)
  ++ sample_line (prefix ++ B"http_requests_total") (B"category") (B"metrics") (metrics_requests_total m)
  ++ sample_line (prefix ++ B"http_requests_total") (B"category") (B"other") (other_requests_total m)
  ++ B"# HELP " ++ prefix ++ B"http_responses_total HTTP responses sent, by status class" ++ nl
  ++ B"# TYPE " ++ prefix ++ B"http_responses_total counter" ++ nl
  ++ sample_line (prefix ++ B"http_responses_total") (B"class") (B"2xx") (responses_2xx m)
  ++ sample_line (prefix ++ B"http_responses_total") (B"class") (B"4xx") (responses_4xx m)
  ++ sample_line (prefix ++ B"http_responses_total") (B"class") (B"5xx") (responses_5xx m)
  ++ B"# HELP " ++ prefix ++ B"mqtt_publish_total MQTT publish attempts, by outcome" ++ nl
  ++ B"# TYPE " ++ prefix ++ B"mqtt_publish_total counter" ++ nl
  ++ sample_line (prefix ++ B"mqtt_publish_total") (B"outcome") (B"ok") (mqtt_publish_ok_total m)
  ++ sample_line (prefix ++ B"mqtt_publish_total") (B"outcome") (B"failed") (mqtt_publish_failed_total m)
  ++ sample_line (prefix ++ B"mqtt_publish_total") (B"outcome") (B"timeout") (mqtt_publish_timeout_total m).

Definition render_mqtt_webhook (prefix : bytes) (m : metrics) (webhook_queue_depth : Z) : bytes :=
  write_counter (prefix ++ B"mqtt_queue_full_total")
    (B"Publish requests rejected because the MQTT worker queue was full") [] (mqtt_queue_full_total m)
  ++ write_counter (prefix ++ B"mqtt_reconnects_total")
       (B"MQTT reconnect attempts since startup") [] (mqtt_reconnects_total m)
  ++ write_counter (prefix ++ B"mqtt_messages_received_total")
       (B"MQTT messages received via subscription") [] (mqtt_messages_received_total m)
  ++ write_counter (prefix ++ B"mqtt_messages_dropped_total")
       (B"MQTT messages dropped because the subscribe processing queue was full") []
       (mqtt_messages_dropped_total m)
  ++ write_gauge (prefix ++ B"webhook_queue_depth") (B"Webhook delivery jobs currently queued")
       (double_of_Z webhook_queue_depth)
  ++ write_counter (prefix ++ B"webhook_delivered_total")
       (B"Webhook POSTs that completed with a 2xx response") [] (webhook_delivered_total m)
  ++ write_counter (prefix ++ B"webhook_failed_total")
       (B"Webhook POSTs that failed (connection error, timeout, or non-2xx response)") []
       (webhook_failed_total m)
  ++ write_counter (prefix ++ B"webhook_queue_full_total")
       (B"Messages dropped because the webhook delivery queue was full") [] (webhook_queue_full_total m).

Definition render_prometheus_service_metrics (prefix : bytes) (m : metrics)
    (uptime_seconds : double) (mqtt_connected : bool)
    (mqtt_connections_active mqtt_pool_size mqtt_queue_depth state_entries
     metric_name_collisions webhook_queue_depth : Z) : bytes :=
  render_gauges prefix uptime_seconds mqtt_connected mqtt_connections_active mqtt_pool_size
    mqtt_queue_depth state_entries metric_name_collisions
  ++ render_families prefix m
  ++ render_mqtt_webhook prefix m webhook_queue_depth.

Fixpoint render_state_lines (l : list (bytes * double)) : bytes :=
  match l with
  | [] => []
  | (name, v) :: rest => name ++ B" " ++ format_double v ++ nl ++ render_state_lines rest
  end.

Definition render_prometheus_state_metrics (l : list (bytes * double)) : bytes :=
  B"# Current value of each stored metric below (untyped; one series per name)" ++ nl
  ++ render_state_lines l.

Definition jkey (k : bytes) : bytes := [c_quote] ++ k ++ [c_quote] ++ B":".

Definition render_health_json (version : bytes) (uptime_seconds : double) (mqtt_connected : bool)
    (mqtt_connections_active mqtt_pool_size state_entries : Z) : bytes :=
  B"{" ++ jkey (B"status") ++ [c_quote] ++ B"ok" ++ [c_quote]
  ++ B"," ++ jkey (B"version") ++ [c_quote] ++ json_escape version ++ [c_quote]
  ++ B"," ++ jkey (B"uptime_seconds") ++ format_double uptime_seconds
  ++ B"," ++ jkey (B"mqtt_connected") ++ bool_text mqtt_connected
  ++ B"," ++ jkey (B"mqtt_connections_active") ++ to_string mqtt_connections_active
  ++ B"," ++ jkey (B"mqtt_pool_size") ++ to_string mqtt_pool_size
  ++ B"," ++ jkey (B"state_entries") ++ to_string state_entries ++ B"}".

(** ** Lemmas *)

Lemma read_inc c k m : read (inc c m) k = if decide (k = c) then bump (read m k) else read m k.
Proof. by destruct k. Qed.

Lemma normalize_char_ok c : name_char (if name_char c then c else "_"%char) = true.
Proof. by destruct (name_char c) eqn:E. Qed.

Definition prom_start (c : ascii) : bool := islower c || isupper c || Ascii.eqb c "_" || Ascii.eqb c ":".
Definition prom_char (c : ascii) : bool := prom_start c || isdigit c.

(** The Prometheus data model's grammar: [a-zA-Z_:][a-zA-Z0-9_:]*. *)
Definition prom_name (s : bytes) : bool :=
  match s with
  | [] => false
  | c :: r => prom_start c && forallb prom_char r
  end.

Lemma name_char_prom c : name_char c = true -> prom_char c = true.
Proof. unfold name_char, prom_char, prom_start. rewrite !orb_true_iff. tauto. Qed.

Lemma name_char_start c : name_char c = true -> isdigit c = false -> prom_start c = true.
Proof. unfold name_char, prom_start. rewrite !orb_true_iff. intros [[[H|H]|H]|H] Hd; auto. congruence. Qed.

Lemma prom_name_app p s : prom_name p = true -> prom_name s = true -> prom_name (p ++ s) = true.
Proof.
  destruct p as [|c p]; [done|]. destruct s as [|d s]; [done|]. simpl.
  rewrite forallb_app, !andb_true_iff. intros [-> ->] [Hd Hs]. simpl.
  unfold prom_char at 1. by rewrite Hd, Hs.
Qed.

Lemma normalized_body_ok l :
  l <> [] -> Forall (fun c => name_char c = true) l ->
  prom_name (match l with c :: _ => if isdigit c then B"_" ++ l else l | [] => l end) = true.
Proof.
  intros Hne H. destruct l as [|c l]; [done|]. inv H.
  assert (Hl : forallb prom_char l = true).
  { apply forallb_forall. intros x Hx. apply name_char_prom.
    rename select (Forall _ l) into HF. rewrite Forall_forall in HF. auto. }
  destruct (isdigit c) eqn:E; simpl.
  - rewrite Hl, name_char_prom; done.
  - rewrite Hl, name_char_start; done.
Qed.

Lemma normalize_prom prefix topic tp :
  (prefix = [] \/ prom_name prefix = true) -> tp ++ topic <> [] ->
  prom_name (normalize_metric_name prefix topic tp) = true.
Proof.
  intros Hp Hne. unfold normalize_metric_name.
  set (body := map _ (tp ++ topic)).
  assert (Hb : prom_name (match body with
                          | c :: _ => if isdigit c then B"_" ++ body else body
                          | [] => body end) = true).
  { apply normalized_body_ok.
    - unfold body. by destruct (tp ++ topic).
    - apply Forall_map, Forall_forall. intros c _. apply normalize_char_ok. }
  destruct Hp as [->|Hp]; [done|]. by apply prom_name_app.
Qed.

(** The first item, in list order, whose topic normalizes to [name]. *)
Definition claims_first (norm : bytes -> bytes) (items : list (bytes * double))
    (name : bytes) (v : double) : Prop :=
  exists (i : nat) (t : bytes), items !! i = Some (t, v) /\ norm t = name /\
    forall (j : nat) (t' : bytes) (v' : double),
      (j < i)%nat -> items !! j = Some (t', v') -> norm t' <> name.

(** The items in order, each with whether an earlier one has the same name; [f] says
    what is made of them. *)
Definition report {A : Type} (norm : bytes -> bytes) (items : list (bytes * double)) (f : bool -> bytes -> double -> option A) : list A :=
  omap (fun i => it ← items !! i;
                 f (bool_decide (norm it.1 ∈ map (fun it : bytes * double => norm it.1) (take i items))) it.1 it.2)
    (seq 0 (length items)).

Lemma report_snoc {A : Type} norm seen t v (f : bool -> bytes -> double -> option A) :
  report norm (seen ++ [(t, v)]) f
  = report norm seen f ++ option_list (f (bool_decide (norm t ∈ map (fun it : bytes * double => norm it.1) seen)) t v).
Proof.
  unfold report. rewrite length_app, seq_app, omap_app. f_equal.
  - apply list_omap_ext, Forall_Forall2_diag, list.Forall_forall. intros i Hi%elem_of_seq.
    rewrite lookup_app_l, take_app_le by lia. done.
  - cbn [seq omap list_omap Nat.add length]. rewrite lookup_app_r, Nat.sub_diag by lia. cbn [lookup list_lookup mbind option_bind fst snd].
    rewrite take_app_length. by destruct (f _ t v).
Qed.

Section Normalize.
Context (prefix topic_prefix : bytes).
Let norm (t : bytes) : bytes := normalize_metric_name prefix t topic_prefix.

(** What the loop has established after the items [seen]. *)
Record loop_inv (seen : list (bytes * double)) (claimed : gmap bytes bytes)
    (r : NormalizedMetrics) : Prop := {
  li_claimed : forall x : bytes, is_Some (claimed !! x) <-> x ∈ (nm_metrics r).*1;
  li_names : forall x : bytes, x ∈ (nm_metrics r).*1 <-> x ∈ map (fun it : bytes * double => norm it.1) seen;
  li_nodup : NoDup (nm_metrics r).*1;
  li_first : forall (x : bytes) (v : double),
      (x, v) ∈ nm_metrics r -> claims_first norm seen x v;
  li_count : (length (nm_metrics r) + length (nm_collisions r))%nat = length seen;
  li_shown : nm_metrics r = report norm seen (fun taken t v => if taken then None else Some (norm t, v));
  li_collisions : nm_collisions r = report norm seen (fun taken t _ => if taken then Some t else None)
}.

Lemma claims_first_snoc (seen : list (bytes * double)) it x v :
  claims_first norm seen x v -> claims_first norm (seen ++ [it]) x v.
Proof.
  intros (i & t & Hi & Hn & Hmin). exists i, t. split_and!; [by apply lookup_app_l_Some|done|].
  intros j t' v' Hj Hl. rewrite lookup_app_l in Hl by (apply lookup_lt_Some in Hi; lia). eauto.
Qed.

Lemma claims_first_new (seen : list (bytes * double)) t v :
  norm t ∉ map (fun it : bytes * double => norm it.1) seen ->
  claims_first norm (seen ++ [(t, v)]) (norm t) v.
Proof.
  intros Hni. exists (length seen), t. split_and!; [|done|].
  - by rewrite lookup_app_r, Nat.sub_diag by lia.
  - intros j t' v' Hj Hl Heq. rewrite lookup_app_l in Hl by lia. apply Hni. rewrite <- Heq.
    apply list_elem_of_fmap. exists (t', v'). split; [done|]. by eapply list_elem_of_lookup_2.
Qed.

Lemma loop_inv_init : loop_inv [] ∅ (Build_NormalizedMetrics [] []).
Proof.
  split; simpl; try done.
  - intros x. rewrite lookup_empty. split; [by intros []|]. intros H. by apply elem_of_nil in H.
  - constructor.
  - intros x v H. by apply elem_of_nil in H.
Qed.

Lemma loop_inv_collision seen claimed r t v :
  loop_inv seen claimed r -> is_Some (claimed !! norm t) ->
  loop_inv (seen ++ [(t, v)]) claimed
    (Build_NormalizedMetrics (nm_metrics r) (nm_collisions r ++ [t])).
Proof.
  intros [Hc Hn Hd Hf Hl Hm Hco] Hs.
  assert (Hin : norm t ∈ map (fun it : bytes * double => norm it.1) seen) by (by apply Hn, Hc).
  split; simpl; [done| |done| | | |]; rewrite ?report_snoc, ?bool_decide_true by done;
    [| | |by rewrite Hm, app_nil_r|by rewrite Hco].
  - intros x. rewrite Hn, map_app, elem_of_app. simpl. rewrite list_elem_of_singleton.
    split; [by left|]. intros [H| ->]; [done|]. by apply Hn, Hc.
  - intros x w H. apply claims_first_snoc. auto.
  - rewrite !length_app. simpl. lia.
Qed.

Lemma loop_inv_claim seen claimed r t v :
  loop_inv seen claimed r -> claimed !! norm t = None ->
  loop_inv (seen ++ [(t, v)]) (<[norm t := t]> claimed)
    (Build_NormalizedMetrics (nm_metrics r ++ [(norm t, v)]) (nm_collisions r)).
Proof.
  intros [Hc Hn Hd Hf Hl Hm Hco] Hs.
  assert (Hni : norm t ∉ (nm_metrics r).*1).
  { intros H. apply Hc in H as [w H]. congruence. }
  assert (Hnew : norm t ∉ map (fun it : bytes * double => norm it.1) seen) by (by rewrite <- Hn).
  split; simpl; rewrite ?report_snoc, ?bool_decide_false by done; [| | | | |by rewrite Hm|by rewrite Hco, app_nil_r].
  - intros x. rewrite fmap_app, elem_of_app, <- Hc. simpl.
    rewrite list_elem_of_singleton, lookup_insert_is_Some'. naive_solver.
  - intros x. rewrite fmap_app, map_app, !elem_of_app, Hn. done.
  - rewrite fmap_app. apply list.NoDup_app. split_and!; [done| |apply NoDup_singleton].
    intros x Hx Hx'. apply list_elem_of_singleton in Hx'. simpl in Hx'. subst. done.
  - intros x w [H|H]%elem_of_app; [by apply claims_first_snoc, Hf|].
    apply list_elem_of_singleton in H. simplify_eq. apply claims_first_new. by rewrite <- Hn.
  - rewrite !length_app. simpl. lia.
Qed.

Lemma normalize_loop_inv items seen claimed r :
  loop_inv seen claimed r ->
  exists claimed', loop_inv (seen ++ items) claimed' (normalize_loop prefix topic_prefix items claimed r).
Proof.
  revert seen claimed r. induction items as [|[t v] items IH]; intros seen claimed r H.
  - rewrite app_nil_r. by exists claimed.
  - cbn [normalize_loop]. fold (norm t).
    replace (seen ++ (t, v) :: items) with ((seen ++ [(t, v)]) ++ items) by by rewrite <- app_assoc.
    destruct (claimed !! norm t) eqn:E; apply IH.
    + apply loop_inv_collision; [done|by rewrite E].
    + by apply loop_inv_claim.
Qed.

End Normalize.

(** ** Properties *)

(** Every name the service derives from a topic is a Prometheus metric
    name, whatever bytes the topic holds, as long as the configured prefix is
    empty or itself a valid name and the topic with its prefix is not empty. *)
Theorem normalize_metric_name_valid (prefix topic tp : bytes)
    (Hp : prefix = [] \/ prom_name prefix = true) (Hne : tp ++ topic <> []) :
  prom_name (normalize_metric_name prefix topic tp) = true.
Proof. by apply normalize_prom. Qed.

Lemma normalize_metric_name_valid_witness :
  normalize_metric_name (B"nshmqtt_") (B"1st/cpu-load") [] = B"nshmqtt__1st_cpu_load" /\
  prom_name (normalize_metric_name (B"nshmqtt_") (B"1st/cpu-load") []) = true.
Proof.
  split; [vm_compute; reflexivity|].
  apply normalize_metric_name_valid; [right; vm_compute; reflexivity|discriminate].
Defined.

(** C38: collision handling of the scrape.  No Prometheus name is emitted twice;
    the names emitted are exactly the normalized names of the items; the value
    shown under a name is that of the first item (in snapshot order) with that
    name; every item is either shown or reported as a collision.  Exactly: in the
    order of the items, one whose name no earlier item has is shown with its value
    under that name, and one whose name was taken is reported by its own topic. *)
Theorem normalize_all_correct (prefix : bytes) (items : list (bytes * double)) (tp : bytes) :
  let r := normalize_all prefix items tp in
  let norm (t : bytes) := normalize_metric_name prefix t tp in
  NoDup (nm_metrics r).*1 /\
  (forall x : bytes, x ∈ (nm_metrics r).*1 <-> exists t v, (t, v) ∈ items /\ norm t = x) /\
  (forall (x : bytes) (v : double), (x, v) ∈ nm_metrics r -> claims_first norm items x v) /\
  (length (nm_metrics r) + length (nm_collisions r))%nat = length items /\
  nm_metrics r = report norm items (fun taken t v => if taken then None else Some (norm t, v)) /\
  nm_collisions r = report norm items (fun taken t _ => if taken then Some t else None).
Proof.
  intros r norm.
  destruct (normalize_loop_inv prefix tp items [] ∅ _ (loop_inv_init prefix tp)) as [cl [Hc Hn Hd Hf Hl Hm Hco]].
  split_and!; [done| |done..].
  intros x. etransitivity; [apply Hn|]. split.
  - intros ([t v] & -> & H)%list_elem_of_fmap. eauto.
  - intros (t & v & H & <-). apply list_elem_of_fmap. by exists (t, v).
Qed.

(** The counter a request path falls under, and the one a status falls under. *)
Definition request_class (path : bytes) : counter :=
  if starts_with (B"/event/") path then CEvent
  else if starts_with (B"/metric/") path then CMetric
  else if bool_decide (path = B"/health") then CHealth
  else if bool_decide (path ∈ [B"/metrics"; B"/metrics-state"]) then CMetrics else COther.

Definition status_class (status : Z) : option counter :=
  match status / 100 with 2 => Some C2xx | 4 => Some C4xx | 5 => Some C5xx | _ => None end.

Lemma read_record_request path m k :
  read (record_request path m) k =
  if decide (k = request_class path) then bump (read m k) else read m k.
Proof.
  unfold record_request, request_class.
  rewrite (bool_decide_ext (path ∈ [B"/metrics"; B"/metrics-state"])
             (path = B"/metrics" \/ path = B"/metrics-state"))
    by by rewrite !elem_of_cons, elem_of_nil; naive_solver.
  unfold bool_decide. repeat case_match; try congruence; rewrite read_inc; case_match; congruence.
Qed.

Lemma status_class_spec status c :
  status_class status = Some c <->
  (200 <= status < 300 /\ c = C2xx) \/ (400 <= status < 500 /\ c = C4xx) \/
  (500 <= status < 600 /\ c = C5xx).
Proof.
  unfold status_class. pose proof (Z.div_mod status 100). pose proof (Z.mod_pos_bound status 100).
  generalize dependent (status / 100). intros q Hq. split.
  - repeat case_match; intros; simplify_eq; naive_solver lia.
  - intros [[H ->]|[[H ->]|[H ->]]].
    + by replace q with 2 by lia.
    + by replace q with 4 by lia.
    + by replace q with 5 by lia.
Qed.

Lemma read_record_response status m k :
  read (record_response status m) k =
  if decide (Some k = status_class status) then bump (read m k) else read m k.
Proof.
  unfold record_response. destruct (status_class status) as [c|] eqn:E.
  - apply status_class_spec in E as [[H ->]|[[H ->]|[H ->]]].
    all: repeat (case_match; rewrite ?andb_true_iff, ?andb_false_iff, ?Z.leb_le, ?Z.leb_gt, ?Z.ltb_lt, ?Z.ltb_ge in *; try lia).
    all: rewrite read_inc; repeat case_decide; congruence.
  - assert (Hno : forall c, ~ ((200 <= status < 300 /\ c = C2xx) \/ (400 <= status < 500 /\ c = C4xx) \/
      (500 <= status < 600 /\ c = C5xx))).
    { intros c Hc. apply status_class_spec in Hc. congruence. }
    rewrite decide_False by done.
    repeat (case_match; rewrite ?andb_true_iff, ?andb_false_iff, ?Z.leb_le, ?Z.leb_gt, ?Z.ltb_lt, ?Z.ltb_ge in *); try done;
      exfalso; eapply Hno; naive_solver lia.
Qed.

(** One request and its response move exactly the counters of their class:
    for every counter, recording a request of [path] answered with [status]
    adds one (modulo 2^64) if it is the counter of the path or of the status,
    and leaves it alone otherwise; statuses outside 2xx, 4xx and 5xx count
    nowhere. *)
Theorem record_exactly_one (path : bytes) (status : Z) (m : metrics) (k : counter) :
  read (record_response status (record_request path m)) k =
  (if decide (k = request_class path \/ Some k = status_class status) then bump (read m k)
   else read m k).
Proof.
  rewrite read_record_response, read_record_request.
  assert (Hx : k = request_class path -> Some k = status_class status -> False).
  { intros -> Hs. symmetry in Hs. apply status_class_spec in Hs. revert Hs.
    unfold request_class. intros Hs. repeat case_match; clear -Hs; intuition congruence. }
  repeat case_decide; tauto.
Qed.

#[global] Arguments read : simpl never.
#[global] Arguments inc : simpl never.

End Metrics.
