(* ===== verification/Http.v ===== *)
(** * http.cpp: reading, parsing and answering one HTTP/1.1 request

    [read_until] runs over the outcomes of the clock, [poll] and [recv], one
    triple per turn of its loop; parsing and serialising are pure. *)

From S2P Require Import Prelude CLib TextUtil.

Module Http.

(** ** percent_decode, trim_spaces, to_lower *)

Fixpoint percent_decode (s : bytes) : option bytes :=
  match s with
  | [] => Some []
  | c :: rest =>
      if Ascii.eqb c "+" then cons " "%char <$> percent_decode rest
      else if Ascii.eqb c "%" then
        match rest with
        | h :: l :: rest' =>
            match hex_val h, hex_val l with
            | Some hi, Some lo =>
                let decoded := chr (Z.to_N (Z.lor (Z.shiftl hi 4) lo)) in
                if Ascii.eqb decoded c_nul then None
                else cons decoded <$> percent_decode rest'
            | _, _ => None
            end
        | _ => None
        end
      else if (code c <? 32)%N || (code c =? 127)%N then None
      else cons c <$> percent_decode rest
  end.

Definition trim_spaces (s : bytes) : bytes := trim_by (Ascii.eqb " ") s.
Definition to_lower (s : bytes) : bytes := map tolower s.

(** ** Reading from the socket *)

Inductive ReadResult := Ok | TooLarge | ConnectionClosed | Timeout | IoError.

Inductive recv_result :=
| RecvData (chunk : bytes)   (* n > 0 bytes, at most [buf_size] *)
| RecvEof                    (* n = 0 *)
| RecvIntr                   (* n < 0, EINTR *)
| RecvError.

Inductive poll_result := PollTimeout | PollIntr | PollError | PollReady (r : recv_result).

(** [sizeof(buf)], 4096. *)
Definition buf_size : nat := 2 ^ 12.

(** What one turn of the loop gets from the system: [steady_clock::now()] in
    milliseconds and the outcome of [poll], then of [recv]. *)
Record io_event := { now : Z; polled : poll_result }.

(** [read_until]: [None] while the given events do not yet end the loop; on a
    return, the events left for the next reader. *)
Fixpoint read_until (done : bytes -> bool) (max_bytes : nat) (deadline : Z)
    (out : bytes) (events : list io_event) : option (ReadResult * bytes * list io_event) :=
  if done out then Some (Ok, out, events)
  else match events with
       | [] => None
       | e :: rest =>
           if (deadline <=? now e)%Z then Some (Timeout, out, rest)
           else match polled e with
                | PollTimeout => Some (Timeout, out, rest)
                | PollIntr => read_until done max_bytes deadline out rest
                | PollError => Some (IoError, out, rest)
                | PollReady RecvEof => Some (ConnectionClosed, out, rest)
                | PollReady RecvIntr => read_until done max_bytes deadline out rest
                | PollReady RecvError => Some (IoError, out, rest)
                | PollReady (RecvData chunk) =>
                    if (max_bytes <? length (out ++ chunk)) then Some (TooLarge, out ++ chunk, rest)
                    else read_until done max_bytes deadline (out ++ chunk) rest
                end
       end.

Definition blank_line : bytes := crlf ++ crlf.

(** [start] is the clock at the call. *)
Definition read_http_head (max_bytes : nat) (timeout_seconds start : Z) (events : list io_event) :
    option (ReadResult * bytes * list io_event) :=
  read_until (contains blank_line) max_bytes (start + 1000 * timeout_seconds) [] events.

Definition read_http_body (need_bytes : nat) (timeout_seconds start : Z) (body : bytes)
    (events : list io_event) : option (ReadResult * bytes * list io_event) :=
  let target := length body + need_bytes in
  read_until (fun s => target <=? length s) target (start + 1000 * timeout_seconds) body events.

(** ** Requests *)

Record HttpRequest := {
  method : bytes; path : bytes; query : list (bytes * bytes);
  accept : bytes; content_type : bytes; content_length : Z; chunked : bool;
  auth_token : bytes; qos_header : bytes; retain_header : bytes; body : bytes
}.

Definition new_request (m : bytes) : HttpRequest :=
  {| method := m; path := []; query := []; accept := []; content_type := [];
     content_length := -1; chunked := false; auth_token := []; qos_header := [];
     retain_header := []; body := [] |}.

Definition set_target (p : bytes) (q : list (bytes * bytes)) (r : HttpRequest) : HttpRequest :=
  Build_HttpRequest (method r) p q (accept r) (content_type r) (content_length r) (chunked r)
    (auth_token r) (qos_header r) (retain_header r) (body r).

Definition set_body (b : bytes) (r : HttpRequest) : HttpRequest :=
  Build_HttpRequest (method r) (path r) (query r) (accept r) (content_type r) (content_length r)
    (chunked r) (auth_token r) (qos_header r) (retain_header r) b.

(** One recognised header line; [None] is [return false]. *)
Definition apply_header (name value : bytes) (r : HttpRequest) : option HttpRequest :=
  let '(Build_HttpRequest m p q ac ct cl ch tok qos ret b) := r in
  if decide (name = B"accept") then Some (Build_HttpRequest m p q value ct cl ch tok qos ret b)
  else if decide (name = B"content-type") then Some (Build_HttpRequest m p q ac value cl ch tok qos ret b)
  else if decide (name = B"content-length") then
    unwrap v := strtol_full 10 value else None in
    ensure (0 <=? v)%Z else None in
    Some (Build_HttpRequest m p q ac ct v ch tok qos ret b)
  else if decide (name = B"transfer-encoding") then
    if contains (B"chunked") (to_lower value)
    then Some (Build_HttpRequest m p q ac ct cl true tok qos ret b) else Some r
  else if decide (name = B"x-mqtt-api-key") then Some (Build_HttpRequest m p q ac ct cl ch value qos ret b)
  else if decide (name = B"x-mqtt-qos") then Some (Build_HttpRequest m p q ac ct cl ch tok value ret b)
  else if decide (name = B"x-mqtt-retain") then Some (Build_HttpRequest m p q ac ct cl ch tok qos value b)
  else Some r.

Definition header_line (line : bytes) (r : HttpRequest) : option HttpRequest :=
  match find (B":") line 0 with
  | Some colon =>
      apply_header (to_lower (trim_spaces (take colon line))) (trim_spaces (drop (colon + 1) line)) r
  | None => Some r
  end.

(** The header loop; [fuel] bounds its turns, each of which moves [header_pos]
    forward by two bytes at least. *)
Fixpoint header_loop (fuel : nat) (raw : bytes) (scan_limit header_pos : nat)
    (r : HttpRequest) : option HttpRequest :=
  match fuel with
  | O => None
  | S fuel' =>
      if (header_pos <? scan_limit) then
        match find crlf raw header_pos with
        | Some next =>
            if (scan_limit <? next) then Some r
            else r' ← header_line (substr raw header_pos (next - header_pos)) r;
                 header_loop fuel' raw scan_limit (next + 2) r'
        | None => Some r
        end
      else Some r
  end.

(** [key=value] pairs; empty pieces between ampersands are skipped. *)
Fixpoint parse_pairs (pieces : list bytes) : option (list (bytes * bytes)) :=
  match pieces with
  | [] => Some []
  | piece :: rest =>
      if decide (piece = []) then parse_pairs rest
      else
        let '(k_enc, v_enc) :=
          match find (B"=") piece 0 with
          | Some eq => (take eq piece, drop (eq + 1) piece)
          | None => (piece, [])
          end in
        k ← percent_decode k_enc; v ← percent_decode v_enc;
        kvs ← parse_pairs rest; Some ((k, v) :: kvs)
  end.

(** The loop over [query_enc], cut at the ampersands. *)
Definition parse_query (query_enc : bytes) : option (list (bytes * bytes)) :=
  if decide (query_enc = []) then Some [] else parse_pairs (split_on "&" query_enc).

(** The request line: method and target, and the index of its end. *)
Definition parse_request_line (raw : bytes) : option (bytes * bytes * nat) :=
  unwrap line_end := find crlf raw 0 else None in
  let line := take line_end raw in
  unwrap sp1 := find (B" ") line 0 else None in
  unwrap sp2 := find (B" ") line (sp1 + 1) else None in
  let method := take sp1 line in
  let target := substr line (sp1 + 1) (sp2 - sp1 - 1) in
  let version := drop (sp2 + 1) line in
  ensure bool_decide (version = B"HTTP/1.1" \/ version = B"HTTP/1.0") else None in
  ensure bool_decide (method <> []) && starts_with (B"/") target else None in
  ensure forallb isupper method else None in
  Some (method, target, line_end).

Definition parse_http_request (raw : bytes) : option (HttpRequest * bytes) :=
  unwrap (method, target, line_end) := parse_request_line raw else None in
  let header_end := find blank_line raw line_end in
  let scan_limit := match header_end with Some h => h | None => length raw end in
  unwrap r := header_loop (S (length raw)) raw scan_limit (line_end + 2) (new_request method) else None in
  let leftover_body := match header_end with Some h => drop (h + 4) raw | None => [] end in
  let '(path_enc, query_enc) :=
    match find (B"?") target 0 with
    | Some qpos => (take qpos target, drop (qpos + 1) target)
    | None => (target, [])
    end in
  unwrap path := percent_decode path_enc else None in
  unwrap query := parse_query query_enc else None in
  Some (set_target path query r, leftover_body).

Fixpoint find_in (key : bytes) (l : list (bytes * bytes)) : option bytes :=
  match l with
  | [] => None
  | (k, v) :: rest => if decide (k = key) then Some v else find_in key rest
  end.

Definition find_query_param (r : HttpRequest) (key : bytes) : option bytes := find_in key (query r).

Definition accept_wants_json (accept_header : bytes) : bool :=
  contains (B"application/json") (to_lower accept_header).

(** ** Responses *)

Inductive ResponseFormat := Json | Text | Prometheus.

#[export] Instance format_eq_dec : EqDecision ResponseFormat.
Proof. solve_decision. Defined.

Record HttpResponse := {
  status : Z; format : ResponseFormat; headers : list (bytes * bytes); resp_body : bytes
}.

Definition reason_phrase (status : Z) : bytes :=
  match status with
  | 200 => B"OK" | 400 => B"Bad Request" | 404 => B"Not Found" | 405 => B"Method Not Allowed"
  | 411 => B"Length Required" | 413 => B"Payload Too Large" | 500 => B"Internal Server Error"
  | 502 => B"Bad Gateway" | 503 => B"Service Unavailable" | 504 => B"Gateway Timeout"
  | _ => B"Unknown"
  end%Z.

Definition content_type_of (f : ResponseFormat) : bytes :=
  match f with
  | Json => B"application/json"
  | Text => B"text/plain; charset=utf-8"
  | Prometheus => B"text/plain; version=0.0.4; charset=utf-8"
  end.

Definition header_text (name value : bytes) : bytes := name ++ B": " ++ value.

(** Each line is followed by CRLF, the block by an empty line. *)
Definition response_lines (resp : HttpResponse) (include_body : bool) : list bytes :=
  (B"HTTP/1.1 " ++ to_string (status resp) ++ B" " ++ reason_phrase (status resp))
  :: (if include_body then [header_text (B"Content-Type") (content_type_of (format resp))] else [])
  ++ [header_text (B"Content-Length") (to_string (Z.of_nat (length (resp_body resp))));
      header_text (B"Connection") (B"close")]
  ++ map (fun h : bytes * bytes => header_text h.1 h.2) (headers resp).

Fixpoint crlf_lines (l : list bytes) : bytes :=
  match l with
  | [] => []
  | x :: l' => x ++ crlf ++ crlf_lines l'
  end.

Definition build_http_response (resp : HttpResponse) (include_body : bool) : bytes :=
  crlf_lines (response_lines resp include_body) ++ crlf
  ++ (if include_body then resp_body resp else []).

Definition make_error_response (st : Z) (message : bytes) (f : ResponseFormat) : HttpResponse :=
  {| status := st; format := f; headers := [];
     resp_body :=
       if decide (f = Json)
       then B"{" ++ [c_quote] ++ B"error" ++ [c_quote] ++ B":" ++ [c_quote] ++ json_escape message
            ++ [c_quote] ++ B"}"
       else B"error=" ++ message ++ [c_lf] |}.

(** ** Lemmas: searching for line ends *)

(** A stretch without the needle's first byte is skipped. *)
Lemma find_from_skip a n pre rest i :
  a ∉ pre -> find_from (a :: n) (pre ++ rest) i = find_from (a :: n) rest (i + length pre).
Proof.
  revert i. induction pre as [|c pre IH]; intros i Hn; simpl.
  - by rewrite Nat.add_0_r.
  - apply not_elem_of_cons in Hn as [Hne Hn].
    destruct (Ascii.eqb_spec a c); [congruence|]. simpl. rewrite IH by done. f_equal. lia.
Qed.

Lemma find_from_here needle rest i :
  starts_with needle rest = true -> find_from needle rest i = Some i.
Proof. intros H. destruct rest; simpl in *; by rewrite H. Qed.

Lemma find_at_pos needle pre rest k :
  find needle (pre ++ rest) (length pre) = Some k <-> find_from needle rest (length pre) = Some k.
Proof. unfold find. by rewrite drop_app_length. Qed.

Lemma find_crlf_line pre line rest :
  c_cr ∉ line ->
  find crlf (pre ++ line ++ crlf ++ rest) (length pre) = Some (length pre + length line).
Proof.
  intros Hn. apply find_at_pos. unfold crlf at 1. rewrite find_from_skip by done.
  apply find_from_here. done.
Qed.

(** The blank line that ends a header block is the first one when every line
    of the block is nonempty and holds no CR. *)
Definition plain_line (l : bytes) : Prop := l <> [] /\ c_cr ∉ l.

Lemma find_blank_line ls rest i :
  Forall plain_line ls ->
  find_from blank_line (crlf ++ crlf_lines ls ++ crlf ++ rest) i = Some (i + length (crlf_lines ls)).
Proof.
  intros H. revert i. induction H as [|l ls [Hne Hl] _ IH]; intros i.
  - rewrite Nat.add_0_r. by apply find_from_here.
  - destruct l as [|c l]; [done|]. apply not_elem_of_cons in Hl as [Hc Hl].
    cbn [crlf_lines]. rewrite <- !app_assoc. unfold crlf at 1. simpl app.
    unfold blank_line, crlf at 1 2. cbn [app find_from starts_with].
    replace (Ascii.eqb c_cr c) with false by (symmetry; by apply Ascii.eqb_neq). simpl.
    change [c_cr; c_lf; c_cr; c_lf] with (c_cr :: [c_lf; c_cr; c_lf]).
    rewrite find_from_skip by done. 
    change (c_cr :: [c_lf; c_cr; c_lf]) with blank_line.
    rewrite IH. f_equal. rewrite ?length_app. simpl. lia.
Qed.

Lemma blank_line_find first ls rest :
  c_cr ∉ first -> Forall plain_line ls ->
  find blank_line (first ++ crlf ++ crlf_lines ls ++ crlf ++ rest) (length first)
  = Some (length (first ++ crlf_lines ls)).
Proof. intros _ H. apply find_at_pos. rewrite find_blank_line by done. by rewrite length_app. Qed.

(** ** Lemmas: trimming *)

(** A value the trimming leaves alone. *)
Definition trimmed (s : bytes) : Prop := trim_spaces s = s.

Lemma trim_spaces_lead s : trim_spaces (" "%char :: s) = trim_spaces s.
Proof. done. Qed.

(** ** Lemmas: percent-encoding *)

Definition unreserved (c : ascii) : bool :=
  islower c || isupper c || isdigit c || Ascii.eqb c "/" || Ascii.eqb c "-" || Ascii.eqb c "_"
  || Ascii.eqb c ".".

Definition encode_byte (c : ascii) : bytes :=
  if unreserved c then [c]
  else ["%"%char; hex_digit (N.shiftr (code c) 4); hex_digit (N.land (code c) 15)].

(** A reference encoder: everything but a few plain bytes as [%XX]. *)
Fixpoint percent_encode (s : bytes) : bytes :=
  match s with
  | [] => []
  | c :: s' => encode_byte c ++ percent_encode s'
  end.

Lemma unreserved_plain c :
  unreserved c = true ->
  Ascii.eqb c "+" = false /\ Ascii.eqb c "%" = false /\ ((code c <? 32)%N || (code c =? 127)%N) = false.
Proof.
  intros H. assert (Hb : (negb (unreserved c) || (negb (Ascii.eqb c "+") && negb (Ascii.eqb c "%")
    && negb ((code c <? 32)%N || (code c =? 127)%N))) = true).
  { revert c H. intros c _. revert c. apply byte_forall. vm_compute. reflexivity. }
  rewrite H in Hb. simpl in Hb. rewrite !andb_true_iff, !negb_true_iff in Hb. tauto.
Qed.

Definition hex_pair_ok (c : ascii) : bool :=
  match hex_val (hex_digit (N.shiftr (code c) 4)), hex_val (hex_digit (N.land (code c) 15)) with
  | Some hi, Some lo => Ascii.eqb (chr (Z.to_N (Z.lor (Z.shiftl hi 4) lo))) c
  | _, _ => false
  end.

Lemma hex_pair c : hex_pair_ok c = true.
Proof. revert c. apply byte_forall. vm_compute. reflexivity. Qed.

Lemma percent_decode_byte c rest :
  c <> c_nul -> percent_decode (encode_byte c ++ rest) = cons c <$> percent_decode rest.
Proof.
  intros Hne. unfold encode_byte. destruct (unreserved c) eqn:E.
  - apply unreserved_plain in E as (E1 & E2 & E3). cbn [app percent_decode]. by rewrite E1, E2, E3.
  - pose proof (hex_pair c) as H. unfold hex_pair_ok in H. cbn [app percent_decode].
    change (Ascii.eqb "%" "+") with false. change (Ascii.eqb "%" "%") with true. cbv iota.
    destruct (hex_val _); [|done]. destruct (hex_val _); [|done].
    apply Ascii.eqb_eq in H. rewrite H.
    destruct (Ascii.eqb_spec c c_nul); [done|]. done.
Qed.

Lemma percent_decode_encode s : c_nul ∉ s -> percent_decode (percent_encode s) = Some s.
Proof.
  induction s as [|c s IH]; intros Hn; [done|]. apply not_elem_of_cons in Hn as [Hne Hn].
  cbn [percent_encode]. rewrite percent_decode_byte by done. by rewrite IH.
Qed.

(** The bytes an encoded string is made of. *)
Definition enc_char (c : ascii) : bool := unreserved c || Ascii.eqb c "%".

Lemma percent_encode_chars s : Forall (fun c => enc_char c = true) (percent_encode s).
Proof.
  induction s as [|c s IH]; simpl; [constructor|]. apply Forall_app_2; [|done].
  assert (H : forallb enc_char (encode_byte c) = true).
  { revert c. apply (byte_forall (fun c => forallb enc_char (encode_byte c))). vm_compute. reflexivity. }
  apply list.Forall_forall. intros x Hx. rewrite forallb_forall in H. apply H. by apply list_elem_of_In.
Qed.

Lemma enc_char_not_in d s : enc_char d = false -> d ∉ percent_encode s.
Proof.
  intros Hd Hin. pose proof (percent_encode_chars s) as H. rewrite list.Forall_forall in H.
  apply H in Hin. congruence.
Qed.

(** ** Lemmas: the header loop *)

Fixpoint header_lines (ls : list bytes) (r : HttpRequest) : option HttpRequest :=
  match ls with
  | [] => Some r
  | l :: ls' => header_line l r ≫= header_lines ls'
  end.

Lemma header_loop_lines ls tail fuel pre r :
  Forall plain_line ls -> 2 <= length pre -> length ls < fuel ->
  header_loop fuel (pre ++ crlf_lines ls ++ tail) (length pre + length (crlf_lines ls) - 2)
    (length pre) r = header_lines ls r.
Proof.
  intros H. revert fuel pre r. induction H as [|l ls [Hne Hl] _ IH]; intros fuel pre r Hp Hf.
  - destruct fuel; [simpl in Hf; lia|]. cbn [header_loop crlf_lines length].
    destruct (Nat.ltb_spec (length pre) (length pre + 0 - 2)); [lia|done].
  - destruct fuel as [|fuel]; [simpl in Hf; lia|]. cbn [header_loop crlf_lines header_lines].
    assert (length l <> 0) by (by destruct l).
    set (n := length (crlf_lines ls)) in *.
    assert (Hlen : length (l ++ crlf ++ crlf_lines ls) = length l + 2 + n)
      by (rewrite !length_app; simpl; unfold n; lia).
    rewrite Hlen. destruct (Nat.ltb_spec (length pre) (length pre + (length l + 2 + n) - 2)); [|lia].
    rewrite <- !app_assoc, find_crlf_line by done.
    destruct (Nat.ltb_spec (length pre + (length l + 2 + n) - 2) (length pre + length l)); [lia|].
    replace (substr _ (length pre) _) with l.
    2:{ unfold substr. rewrite drop_app_length.
        replace (length pre + length l - length pre) with (length l) by lia. by rewrite take_app_length. }
    destruct (header_line l r) as [r'|]; [|done]. cbn [mbind option_bind].
    replace (pre ++ l ++ crlf ++ crlf_lines ls ++ tail)
      with ((pre ++ l ++ crlf) ++ crlf_lines ls ++ tail) by by rewrite <- !app_assoc.
    replace (length pre + length l + 2) with (length (pre ++ l ++ crlf))
      by (rewrite !length_app; simpl; lia).
    replace (length pre + (length l + 2 + n) - 2) with (length (pre ++ l ++ crlf) + n - 2)
      by (rewrite !length_app; simpl; lia).
    apply IH; [rewrite length_app; lia|simpl in Hf; lia].
Qed.

Lemma find_crlf_bounds s pos k : find crlf s pos = Some k -> pos <= k /\ k + 2 <= length s.
Proof.
  intros H. apply find_from_Some in H as (Hle & Hs & _ & _). split; [done|].
  apply starts_with_spec in Hs as [t Ht]. apply (f_equal length) in Ht.
  rewrite !length_drop, length_app in Ht. simpl in Ht. lia.
Qed.

Lemma header_loop_fuel raw scan_limit f1 f2 pos r :
  length raw - pos < f1 -> length raw - pos < f2 ->
  header_loop f1 raw scan_limit pos r = header_loop f2 raw scan_limit pos r.
Proof.
  revert f2 pos r. induction f1 as [|f1 IH]; intros [|f2] pos r H1 H2; try lia.
  cbn [header_loop]. case_match; [|done]. destruct (find crlf raw pos) as [k|] eqn:E; [|done].
  case_match; [done|]. apply find_crlf_bounds in E as [? ?].
  destruct (header_line _ r); [|done]. cbn. apply IH; lia.
Qed.

(** ** Lemmas: the printed request *)

Definition header_ok (h : bytes * bytes) : Prop :=
  ":"%char ∉ h.1 /\ c_cr ∉ h.1 /\ c_cr ∉ h.2 /\ trimmed h.1 /\ trimmed h.2.

Fixpoint apply_headers (hs : list (bytes * bytes)) (r : HttpRequest) : option HttpRequest :=
  match hs with
  | [] => Some r
  | (n, v) :: hs' => apply_header (to_lower n) v r ≫= apply_headers hs'
  end.

Definition pair_text (kv : bytes * bytes) : bytes :=
  percent_encode kv.1 ++ B"=" ++ percent_encode kv.2.

Definition query_text (q : list (bytes * bytes)) : bytes := join "&" (map pair_text q).

Definition target_text (p : bytes) (q : list (bytes * bytes)) : bytes :=
  percent_encode p ++ (if decide (q = []) then [] else B"?" ++ query_text q).

Definition print_request (m p : bytes) (q hs : list (bytes * bytes)) (b : bytes) : bytes :=
  (m ++ B" " ++ target_text p q ++ B" HTTP/1.1") ++ crlf
  ++ crlf_lines (map (fun h : bytes * bytes => header_text h.1 h.2) hs) ++ crlf ++ b.

Lemma header_line_text n v r :
  header_ok (n, v) -> header_line (header_text n v) r = apply_header (to_lower n) v r.
Proof.
  intros (Hc & _ & _ & Hn & Hv). simpl in *. unfold header_line, header_text.
  replace (find (B":") (n ++ B": " ++ v) 0) with (Some (length n)).
  2:{ symmetry. unfold find. rewrite drop_0. change (B":") with [":"%char].
      change (B": " ++ v) with (":"%char :: " "%char :: v). by rewrite find_from_char. }
  rewrite take_app_length, Hn. rewrite <- drop_drop, drop_app_length.
  change (drop 1 (B": " ++ v)) with (" "%char :: v). by rewrite trim_spaces_lead, Hv.
Qed.

Lemma header_text_plain n v : header_ok (n, v) -> plain_line (header_text n v).
Proof.
  intros (_ & Hn & Hv & _). simpl in *. unfold header_text. split; [by destruct n|].
  rewrite !not_elem_of_app. split_and!; [done| |done].
  intros H. vm_compute in H. by repeat (apply elem_of_cons in H as [H|H]; [done|]); apply elem_of_nil in H.
Qed.

Lemma header_lines_text hs r :
  Forall header_ok hs ->
  header_lines (map (fun h : bytes * bytes => header_text h.1 h.2) hs) r = apply_headers hs r.
Proof.
  intros H. revert r. induction H as [|[n v] hs Hh _ IH]; intros r; [done|].
  cbn [map header_lines apply_headers fst snd]. rewrite header_line_text by done.
  destruct (apply_header _ v r); [|done]. cbn. apply IH.
Qed.

Lemma pair_text_chars d kv :
  enc_char d = false -> d <> "="%char -> d ∉ pair_text kv.
Proof.
  intros Hd He. unfold pair_text. rewrite !not_elem_of_app.
  split_and!; [by apply enc_char_not_in| |by apply enc_char_not_in].
  change (B"=") with ["="%char]. by rewrite list_elem_of_singleton.
Qed.

Lemma join_not_in (sep d : ascii) l :
  d <> sep -> Forall (fun x : bytes => d ∉ x) l -> d ∉ join sep l.
Proof.
  intros Hd. induction 1 as [|x l Hx Hl IH]; [apply not_elem_of_nil|].
  destruct l as [|y l]; [done|]. rewrite join_cons by done.
  rewrite not_elem_of_app, not_elem_of_cons. done.
Qed.

Lemma target_text_chars d p q :
  enc_char d = false -> d <> "="%char -> d <> "&"%char -> d <> "?"%char -> d ∉ target_text p q.
Proof.
  intros Hd He Ha Hq. unfold target_text. rewrite not_elem_of_app. split; [by apply enc_char_not_in|].
  case_decide; [apply not_elem_of_nil|]. rewrite not_elem_of_app. split.
  - change (B"?") with ["?"%char]. by rewrite list_elem_of_singleton.
  - apply join_not_in; [done|]. apply Forall_map, list.Forall_forall. intros kv _. by apply pair_text_chars.
Qed.

Lemma split_on_piece sep s rest :
  sep ∉ s -> split_on sep (s ++ sep :: rest) = s :: split_on sep rest.
Proof.
  induction s as [|c s IH]; intros Hn; simpl.
  - by rewrite Ascii.eqb_refl.
  - apply not_elem_of_cons in Hn as [Hne Hn]. destruct (Ascii.eqb_spec c sep); [congruence|].
    by rewrite IH.
Qed.

Lemma split_on_last sep s : sep ∉ s -> split_on sep s = [s].
Proof.
  induction s as [|c s IH]; intros Hn; simpl; [done|].
  apply not_elem_of_cons in Hn as [Hne Hn]. destruct (Ascii.eqb_spec c sep); [congruence|].
  by rewrite IH.
Qed.

Lemma split_on_join sep l :
  l <> [] -> Forall (fun x : bytes => sep ∉ x) l -> split_on sep (join sep l) = l.
Proof.
  intros Hne H. induction H as [|x l Hx H IH]; [done|]. destruct l as [|y l].
  - by apply split_on_last.
  - rewrite join_cons, split_on_piece by done. by rewrite IH.
Qed.

Definition no_nul_pair (kv : bytes * bytes) : Prop := c_nul ∉ kv.1 /\ c_nul ∉ kv.2.

Lemma parse_pairs_text q : Forall no_nul_pair q -> parse_pairs (map pair_text q) = Some q.
Proof.
  induction 1 as [|[k v] q [Hk Hv] _ IH]; [done|]. cbn [map parse_pairs]. rewrite IH.
  rewrite decide_False by (unfold pair_text; simpl; by destruct (percent_encode k)).
  unfold pair_text at 1. simpl fst. simpl snd. simpl in Hk, Hv.
  replace (find (B"=") _ 0) with (Some (length (percent_encode k))).
  2:{ symmetry. unfold find. rewrite drop_0. change (B"=") with ["="%char]. simpl app.
      rewrite find_from_char; [done|]. by apply enc_char_not_in. }
  unfold pair_text. simpl fst. simpl snd. rewrite take_app_length, <- drop_drop, drop_app_length.
  change (drop 1 (B"=" ++ percent_encode v)) with (percent_encode v).
  by rewrite !percent_decode_encode by done.
Qed.

Lemma parse_query_text q : q <> [] -> Forall no_nul_pair q -> parse_query (query_text q) = Some q.
Proof.
  intros Hne H. unfold parse_query, query_text. rewrite decide_False.
  - rewrite split_on_join; [by apply parse_pairs_text|by destruct q|].
    apply Forall_map, list.Forall_forall. intros kv _. by apply pair_text_chars.
  - destruct q as [|[k v] [|kv q]]; [done| |]; simpl; unfold pair_text; simpl;
      by destruct (percent_encode k).
Qed.

Lemma isupper_not_in d m : isupper d = false -> forallb isupper m = true -> d ∉ m.
Proof.
  intros Hd Hm Hin. rewrite forallb_forall in Hm. apply list_elem_of_In, Hm in Hin. congruence.
Qed.

Lemma target_text_head p q : starts_with (B"/") p = true -> starts_with (B"/") (target_text p q) = true.
Proof.
  intros [t ->]%starts_with_spec. unfold target_text. change (B"/" ++ t) with ("/"%char :: t).
  cbn [percent_encode]. unfold encode_byte. by change (unreserved "/") with true.
Qed.

Lemma find_char_0 c pre rest : c ∉ pre -> find [c] (pre ++ c :: rest) 0 = Some (length pre).
Proof. intros H. unfold find. by rewrite drop_0, find_from_char. Qed.

Lemma parse_request_line_text m tgt rest :
  m <> [] -> forallb isupper m = true -> " "%char ∉ tgt -> c_cr ∉ tgt -> starts_with (B"/") tgt = true ->
  parse_request_line ((m ++ B" " ++ tgt ++ B" HTTP/1.1") ++ crlf ++ rest)
  = Some (m, tgt, length (m ++ B" " ++ tgt ++ B" HTTP/1.1")).
Proof.
  intros Hm Hu Hs Hc Ht. unfold parse_request_line.
  assert (Hsm : " "%char ∉ m) by by apply isupper_not_in.
  pose proof (find_crlf_line [] (m ++ B" " ++ tgt ++ B" HTTP/1.1") rest) as Hf.
  cbn [app length Nat.add] in Hf. rewrite Hf; clear Hf.
  2:{ rewrite !not_elem_of_app. split_and!; [by apply isupper_not_in| |done|];
      not_in. }
  rewrite take_app_length.
  change (B" HTTP/1.1") with (" "%char :: B"HTTP/1.1").
  change (B" " ++ tgt ++ " "%char :: B"HTTP/1.1") with (" "%char :: tgt ++ " "%char :: B"HTTP/1.1").
  change (B" ") with [" "%char]. rewrite find_char_0 by done.
  assert (Hd : forall k t, drop (length m + 1 + k) (m ++ " "%char :: t) = drop k t).
  { intros k t. by rewrite <- !drop_drop, drop_app_length. }
  assert (Hd0 : forall t, drop (length m + 1) (m ++ " "%char :: t) = t).
  { intros t. rewrite <- (Nat.add_0_r (length m + 1)), Hd. apply drop_0. }
  replace (find [" "%char] _ (length m + 1)) with (Some (length m + 1 + length tgt)).
  2:{ symmetry. unfold find. rewrite Hd0. by rewrite find_from_char. }
  unfold substr. replace (length m + 1 + length tgt - length m - 1) with (length tgt) by lia.
  rewrite Hd0, take_app_length, take_app_length.
  replace (length m + 1 + length tgt + 1) with (length m + 1 + (length tgt + 1)) by lia.
  rewrite Hd, <- drop_drop, drop_app_length, skipn_cons, drop_0.
  rewrite (bool_decide_true (_ \/ _)) by by left. by rewrite bool_decide_true, Ht, Hu.
Qed.

Lemma plain_lines_text hs :
  Forall header_ok hs -> Forall plain_line (map (fun h : bytes * bytes => header_text h.1 h.2) hs).
Proof.
  intros H. apply Forall_map. eapply list.Forall_impl; [exact H|].
  intros [n v] Hh. by apply header_text_plain.
Qed.

Lemma parse_headers_text first hs b r :
  Forall header_ok hs ->
  let raw := first ++ crlf ++ crlf_lines (map (fun h : bytes * bytes => header_text h.1 h.2) hs) ++ crlf ++ b in
  find blank_line raw (length first)
  = Some (length (first ++ crlf_lines (map (fun h : bytes * bytes => header_text h.1 h.2) hs))) /\
  header_loop (S (length raw)) raw
    (length (first ++ crlf_lines (map (fun h : bytes * bytes => header_text h.1 h.2) hs)))
    (length first + 2) r = apply_headers hs r.
Proof.
  intros H raw. set (ls := map _ hs) in *.
  assert (Hls : Forall plain_line ls) by by apply plain_lines_text.
  split.
  { unfold raw. apply find_at_pos. by rewrite find_blank_line, length_app. }
  rewrite <- header_lines_text by done. fold ls.
  rewrite <- (header_loop_lines ls (crlf ++ b) (S (length raw)) (first ++ crlf) r).
  - replace ((first ++ crlf) ++ crlf_lines ls ++ crlf ++ b) with raw by (unfold raw; by rewrite <- !app_assoc).
    replace (length (first ++ crlf)) with (length first + 2) by (rewrite length_app; done).
    f_equal. rewrite length_app. lia.
  - done.
  - rewrite length_app. simpl. lia.
  - unfold raw. rewrite !length_app. clear.
    assert (length ls <= length (crlf_lines ls)); [|lia].
    induction ls as [|l ls IH]; [done|]. cbn [crlf_lines length]. rewrite !length_app. simpl. lia.
Qed.

Lemma target_split p q :
  Forall no_nul_pair q ->
  exists enc_q,
    match find (B"?") (target_text p q) 0 with
    | Some qpos => (take qpos (target_text p q), drop (qpos + 1) (target_text p q))
    | None => (target_text p q, [])
    end = (percent_encode p, enc_q) /\ parse_query enc_q = Some q.
Proof.
  intros Hq. assert (Hp : "?"%char ∉ percent_encode p) by by apply enc_char_not_in.
  unfold target_text. case_decide as E.
  - subst q. exists []. rewrite app_nil_r. unfold find. change (B"?") with ["?"%char].
    by rewrite drop_0, find_from_char_None.
  - exists (query_text q). change (B"?" ++ query_text q) with ("?"%char :: query_text q).
    change (B"?") with ["?"%char]. rewrite find_char_0 by done.
    rewrite take_app_length, <- drop_drop, drop_app_length. split; [done|]. by apply parse_query_text.
Qed.

(** ** Lemmas: reading *)

Definition chunk_of (deadline : Z) (e : io_event) : bytes :=
  if (deadline <=? now e)%Z then []
  else match polled e with PollReady (RecvData c) => c | _ => [] end.

(** What is received during the given turns: a turn that starts after the
    deadline does not get as far as [recv]. *)
Definition chunks (deadline : Z) (es : list io_event) : bytes := concat (map (chunk_of deadline) es).

Lemma chunks_cons deadline e es : chunks deadline (e :: es) = chunk_of deadline e ++ chunks deadline es.
Proof. done. Qed.

(** One case per way a turn of the loop can go. *)
Ltac read_cases es IH :=
  induction es as [|[t pr] es IH]; intros out; cbn [read_until now polled];
  [ | destruct pr as [| | |[]] ]; intros; repeat (case_match; simplify_eq/=); try done.

Section Read.
Context (stop : bytes -> bool) (max_bytes : nat) (deadline : Z).

Lemma read_until_split es out res out' rest :
  read_until stop max_bytes deadline out es = Some (res, out', rest) ->
  exists used, es = used ++ rest /\ out' = out ++ chunks deadline used.
Proof.
  revert out. read_cases es IH.
  all: try (exists []; split; [done|]; unfold chunks; simpl; by rewrite app_nil_r).
  all: try match goal with H : _ = Some _ |- _ => apply IH in H as (used & -> & ->) end.
  all: first [eexists (_ :: used); split; [reflexivity|] | eexists [_]; split; [reflexivity|]].
  all: rewrite ?chunks_cons; unfold chunk_of; cbn [now polled];
    repeat (case_match; simplify_eq/=); by rewrite ?app_nil_r, ?app_assoc.
Qed.

Lemma read_until_ok es out out' rest :
  read_until stop max_bytes deadline out es = Some (Ok, out', rest) ->
  stop out' = true /\ (out' = out \/ length out' <= max_bytes).
Proof.
  revert out. read_cases es IH; auto.
  all: match goal with H : _ = Some _ |- _ => apply IH in H as [? [->|?]] end; auto.
  split; [done|]. right. by apply Nat.ltb_ge.
Qed.

Lemma read_until_size es out res out' rest :
  Forall (fun e => length (chunk_of deadline e) <= buf_size) es -> length out <= max_bytes ->
  read_until stop max_bytes deadline out es = Some (res, out', rest) ->
  length out' <= max_bytes + buf_size /\ (res = TooLarge -> max_bytes < length out').
Proof.
  revert out. read_cases es IH; try (split; [lia|done]).
  all: rename select (Forall _ _) into HF; inv HF; simpl in *.
  all: match goal with H : read_until _ _ _ _ _ = Some _ |- _ => eapply IH; [done| |exact H]; [] | _ => idtac end.
  all: try done.
  - rename select (_ <? _ = true) into Hl. apply Nat.ltb_lt in Hl.
    rename select (length (chunk_of _ _) <= _) into Hc. unfold chunk_of in Hc. simpl in Hc.
    rename select ((_ <=? _)%Z = false) into Ht. rewrite Ht in Hc.
    split; [rewrite length_app; lia|done].
  - rename select (_ <? _ = false) into Hl. by apply Nat.ltb_ge in Hl.
Qed.

(** Only events from before the deadline keep the loop going. *)
Lemma read_until_pending es out :
  read_until stop max_bytes deadline out es = None -> Forall (fun e => (now e < deadline)%Z) es.
Proof.
  revert out. read_cases es IH.
  all: apply list.Forall_cons; split; [simpl; lia|]; eauto.
Qed.

(** A turn that gets bytes or is merely interrupted, before the deadline. *)
Definition arriving (e : io_event) : Prop :=
  (now e < deadline)%Z /\
  match polled e with PollIntr | PollReady RecvIntr | PollReady (RecvData _) => True | _ => False end.

Lemma read_until_step e es out :
  arriving e -> stop out = false -> length (out ++ chunk_of deadline e) <= max_bytes ->
  read_until stop max_bytes deadline out (e :: es)
  = read_until stop max_bytes deadline (out ++ chunk_of deadline e) es.
Proof.
  intros [Ht Hp] Hs Hl. cbn [read_until]. rewrite Hs.
  assert ((deadline <=? now e)%Z = false) as Hd by lia. rewrite Hd. unfold chunk_of in *. rewrite Hd in *.
  destruct (polled e) as [| | |[]]; rewrite ?app_nil_r; try done.
  destruct (Nat.ltb_spec max_bytes (length (out ++ chunk))); [lia|done].
Qed.

Lemma read_until_deliver es out rest :
  Forall arriving es ->
  (forall a e b, es = a ++ e :: b -> stop (out ++ chunks deadline a) = false) ->
  stop (out ++ chunks deadline es) = true ->
  length (out ++ chunks deadline es) <= max_bytes ->
  read_until stop max_bytes deadline out (es ++ rest) = Some (Ok, out ++ chunks deadline es, rest).
Proof.
  intros H. revert out. induction H as [|e es He _ IH]; intros out Hno Hyes Hl.
  - rewrite app_nil_r in Hyes |- *. destruct rest; cbn [read_until app]; by rewrite Hyes.
  - rewrite chunks_cons in Hl, Hyes |- *. rewrite app_assoc in Hl, Hyes |- *. cbn [app].
    rewrite read_until_step; [|done|..].
    + apply IH; [|done|done]. intros a e' b ->. specialize (Hno (e :: a) e' b eq_refl).
      rewrite chunks_cons in Hno. by rewrite <- app_assoc.
    + specialize (Hno [] e es eq_refl). unfold chunks in Hno. simpl in Hno. by rewrite app_nil_r in Hno.
    + rewrite length_app in Hl. lia.
Qed.

(** A successful read used up turns from before the deadline only. *)
Lemma read_until_used es out out' rest :
  read_until stop max_bytes deadline out es = Some (Ok, out', rest) ->
  exists used, es = used ++ rest /\ Forall (fun e => (now e < deadline)%Z) used /\ out' = out ++ chunks deadline used.
Proof.
  revert out. read_cases es IH.
  all: try (exists []; split_and!; [done|by apply list.Forall_nil|unfold chunks; simpl; by rewrite app_nil_r]).
  all: match goal with H : _ = Some _ |- _ => apply IH in H as (used & -> & HF & ->) end.
  all: eexists (_ :: used); split_and!; [reflexivity|apply list.Forall_cons_2; [simpl; lia|done]|].
  all: rewrite ?chunks_cons; unfold chunk_of; cbn [now polled];
    repeat (case_match; simplify_eq/=); by rewrite ?app_nil_r, ?app_assoc.
Qed.

(** Bytes that keep arriving reach the stopping condition, when the buffer never
    has to hold more than the limit on the way. *)
Lemma read_until_reaches es out :
  Forall arriving es -> stop (out ++ chunks deadline es) = true ->
  (forall a e b, es = a ++ e :: b -> stop (out ++ chunks deadline a) = false ->
     length (out ++ chunks deadline (a ++ [e])) <= max_bytes) ->
  exists used rest, es = used ++ rest /\
    read_until stop max_bytes deadline out es = Some (Ok, out ++ chunks deadline used, rest).
Proof.
  intros H. revert out. induction H as [|e es He _ IH]; intros out Hyes Hmax.
  - exists [], []. split; [done|]. change (chunks deadline []) with (@nil ascii) in *. rewrite app_nil_r in *.
    cbn [read_until]. by rewrite Hyes.
  - destruct (stop out) eqn:Es.
    { exists [], (e :: es). split; [done|]. change (chunks deadline []) with (@nil ascii). rewrite app_nil_r.
      cbn [read_until]. by rewrite Es. }
    assert (Hl : length (out ++ chunk_of deadline e) <= max_bytes).
    { specialize (Hmax [] e es eq_refl). unfold chunks in Hmax. simpl in Hmax. rewrite !app_nil_r in Hmax. by apply Hmax. }
    rewrite read_until_step by done.
    destruct (IH (out ++ chunk_of deadline e)) as (used & rest & -> & Hr).
    + by rewrite <- app_assoc.
    + intros a e' b -> Ha. specialize (Hmax (e :: a) e' b eq_refl).
      rewrite chunks_cons, app_assoc in Hmax. specialize (Hmax Ha). simpl in Hmax.
      by rewrite chunks_cons, app_assoc in Hmax.
    + exists (e :: used), rest. split; [done|]. by rewrite Hr, chunks_cons, app_assoc.
Qed.

End Read.

Lemma chunks_app dl a b : chunks dl (a ++ b) = chunks dl a ++ chunks dl b.
Proof. unfold chunks. by rewrite map_app, concat_app. Qed.

(** Splitting a run of turns whose last one brings bytes: what came before any
    turn of it is a strict prefix. *)
Lemma chunks_strict dl es0 last a e b :
  es0 ++ [last] = a ++ e :: b -> chunk_of dl last <> [] ->
  length (chunks dl a) < length (chunks dl (es0 ++ [last])).
Proof.
  intros Heq Hne. rewrite Heq, chunks_app, chunks_cons, !length_app.
  destruct b as [|b0 b'] using rev_ind.
  - apply app_inj_tail in Heq as [_ ->]. destruct (chunk_of dl e); [done|]. simpl. lia.
  - rewrite app_comm_cons, app_assoc in Heq. apply app_inj_tail in Heq as [_ ->].
    rewrite chunks_app, length_app. unfold chunks at 4. simpl. rewrite app_nil_r.
    destruct (chunk_of dl b0); [done|]. simpl. lia.
Qed.

Lemma chunks_prefix dl es a e b :
  es = a ++ e :: b -> exists t, chunks dl es = chunks dl a ++ t.
Proof. intros ->. rewrite chunks_app. eauto. Qed.

Lemma find_0_prefix n a b k :
  find n (a ++ b) 0 = Some k -> contains n a = true -> k + length n <= length a.
Proof.
  unfold contains, find. rewrite !drop_0. intros Hk [j Hj]%bool_decide_eq_true.
  apply find_from_Some in Hj as (_ & Hs & Hl & _). apply find_from_Some in Hk as (_ & _ & _ & Hmin).
  rewrite Nat.sub_0_r in *. apply starts_with_spec in Hs as [t Ht].
  assert (k <= j).
  { destruct (decide (k <= j)); [done|]. specialize (Hmin j). rewrite Nat.sub_0_r in Hmin.
    rewrite drop_app_le, Ht, <- app_assoc, starts_with_app in Hmin by done. discriminate Hmin. lia. }
  apply (f_equal length) in Ht. rewrite length_drop, length_app in Ht. lia.
Qed.

(** ** Lemmas: the serialised response *)

Lemma to_string_plain z c : isdigit c = false -> c <> "-"%char -> c ∉ to_string z.
Proof.
  intros Hd Hm. assert (Hdec : forall n, (0 <= n)%Z -> c ∉ dec n).
  { intros n Hn Hin. pose proof (dec_digits n Hn) as H. rewrite list.Forall_forall in H.
    apply H in Hin. congruence. }
  unfold to_string. case_match; [|apply Hdec; lia]. rewrite not_elem_of_cons.
  split; [done|]. apply Hdec. lia.
Qed.

(** Decides non-membership in a closed string. *)
Lemma reason_plain st : c_cr ∉ reason_phrase st.
Proof. unfold reason_phrase. repeat case_match; not_in. Qed.

Lemma content_type_plain f : c_cr ∉ content_type_of f /\ trimmed (content_type_of f).
Proof. destruct f; (split; [not_in|vm_compute; reflexivity]). Qed.

Lemma to_string_trimmed z : trimmed (to_string z).
Proof.
  apply trim_by_id, list.Forall_forall. intros c Hc. apply Ascii.eqb_neq. intros <-.
  revert Hc. by apply to_string_plain.
Qed.

(** The header lines proper, as name and value. *)
Definition response_headers (resp : HttpResponse) (include_body : bool) : list (bytes * bytes) :=
  (if include_body then [(B"Content-Type", content_type_of (format resp))] else [])
  ++ [(B"Content-Length", to_string (Z.of_nat (length (resp_body resp)))); (B"Connection", B"close")]
  ++ headers resp.

Definition status_line (resp : HttpResponse) : bytes :=
  B"HTTP/1.1 " ++ to_string (status resp) ++ B" " ++ reason_phrase (status resp).

Lemma response_lines_eq resp ib :
  response_lines resp ib =
  status_line resp :: map (fun h : bytes * bytes => header_text h.1 h.2) (response_headers resp ib).
Proof. unfold response_lines, response_headers. f_equal. rewrite !map_app. by destruct ib. Qed.

Lemma response_headers_ok resp ib :
  Forall header_ok (headers resp) -> Forall header_ok (response_headers resp ib).
Proof.
  intros H. pose proof (content_type_plain (format resp)) as [Hc1 Hc2].
  assert (Hct : header_ok (B"Content-Type", content_type_of (format resp)))
    by (unfold header_ok; simpl; split_and!; [not_in|not_in|done|vm_compute; reflexivity|done]).
  unfold response_headers. apply Forall_app_2; [by destruct ib; [apply Forall_singleton|apply list.Forall_nil]|].
  repeat apply list.Forall_cons_2; [| |done].
  - unfold header_ok. simpl. split_and!; [not_in|not_in| |vm_compute; reflexivity|apply to_string_trimmed].
    by apply to_string_plain.
  - unfold header_ok. simpl. split_and!; try not_in; vm_compute; reflexivity.
Qed.

Lemma status_line_plain resp : c_cr ∉ status_line resp.
Proof.
  unfold status_line. rewrite !not_elem_of_app. split_and!; [not_in| |not_in|apply reason_plain].
  by apply to_string_plain.
Qed.

(** The names the header loop acts upon. *)
Definition known_headers : list bytes :=
  [B"accept"; B"content-type"; B"content-length"; B"transfer-encoding"; B"x-mqtt-api-key";
   B"x-mqtt-qos"; B"x-mqtt-retain"].

Lemma apply_other n v r : bool_decide (n ∈ known_headers) = false -> apply_header n v r = Some r.
Proof.
  rewrite bool_decide_eq_false. unfold known_headers. rewrite !not_elem_of_cons. intros H.
  destruct r. unfold apply_header. by rewrite !decide_False by tauto.
Qed.

Definition set_content_length (n : Z) (r : HttpRequest) : HttpRequest :=
  Build_HttpRequest (method r) (path r) (query r) (accept r) (content_type r) n (chunked r)
    (auth_token r) (qos_header r) (retain_header r) (body r).

Lemma apply_content_length n r :
  (0 <= n <= LONG_MAX)%Z ->
  apply_header (B"content-length") (to_string n) r = Some (set_content_length n r).
Proof.
  intros Hn. destruct r. unfold apply_header. rewrite !decide_False by done. rewrite decide_True by done.
  unfold to_string. replace (n <? 0)%Z with false by lia. rewrite strtol_full_dec by lia.
  by replace (0 <=? n)%Z with true by lia.
Qed.

Lemma apply_headers_other hs r :
  Forall (fun h : bytes * bytes => bool_decide (to_lower h.1 ∈ known_headers) = false) hs ->
  apply_headers hs r = Some r.
Proof.
  intros H. induction H as [|[n v] hs Hn _ IH]; [done|]. cbn [apply_headers].
  by rewrite apply_other.
Qed.

(** ** Lemmas: what parsing guarantees *)

Definition request_wf (m : bytes) (r : HttpRequest) : Prop :=
  method r = m /\ (-1 <= content_length r <= LONG_MAX)%Z /\ body r = [].

Lemma new_request_wf m : request_wf m (new_request m).
Proof. done. Qed.

Lemma strtol_full_max base s v : strtol_full base s = Some v -> (v <= LONG_MAX)%Z.
Proof.
  unfold strtol_full. intros H. destruct (strtol base (c_str s)) as [[[w e] t]|] eqn:E; [|done].
  apply strtol_range in E. destruct e; [done|]. destruct t; [|done]. simplify_eq. lia.
Qed.

Lemma apply_header_wf n v m r r' : apply_header n v r = Some r' -> request_wf m r -> request_wf m r'.
Proof.
  destruct r. unfold apply_header, request_wf. intros H (? & ? & ?).
  repeat (case_match; simplify_eq/=; try done).
  rename select (strtol_full _ _ = Some _) into Hs. apply strtol_full_max in Hs. split_and!; try done; lia.
Qed.

Lemma header_loop_wf fuel raw lim pos m r r' :
  header_loop fuel raw lim pos r = Some r' -> request_wf m r -> request_wf m r'.
Proof.
  revert pos r. induction fuel as [|fuel IH]; intros pos r; cbn [header_loop]; [done|].
  intros H Hr. repeat (case_match; simplify_eq/=; try done).
  destruct (header_line _ r) as [r1|] eqn:E; [|done]. cbn in H. eapply IH; [done|].
  unfold header_line in E. case_match; [|by simplify_eq]. by eapply apply_header_wf.
Qed.

Lemma parse_request_line_wf raw m tgt le :
  parse_request_line raw = Some (m, tgt, le) ->
  m <> [] /\ forallb isupper m = true /\ starts_with (B"/") tgt = true.
Proof.
  unfold parse_request_line. intros H.
  destruct (find crlf raw 0); [|done]. destruct (find (B" ") _ 0); [|done].
  destruct (find (B" ") _ (_ + 1)); [|done]. destruct (bool_decide (_ \/ _)); [|done].
  destruct (_ && _) eqn:Ha; [|done]. destruct (forallb _ _) eqn:Hu; [|done]. injection H as <- <- <-.
  apply andb_true_iff in Ha as [Hb Hs]. by apply bool_decide_eq_true in Hb.
Qed.

Lemma target_path tgt :
  starts_with (B"/") tgt = true ->
  exists pe qe,
    match find (B"?") tgt 0 with
    | Some qpos => (take qpos tgt, drop (qpos + 1) tgt)
    | None => (tgt, [])
    end = (pe, qe) /\ starts_with (B"/") pe = true.
Proof.
  intros H. destruct (find (B"?") tgt 0) as [k|] eqn:E; [|by do 2 eexists].
  do 2 eexists. split; [done|]. apply starts_with_spec in H as [t ->].
  destruct k; [|done]. apply find_from_Some in E as (_ & Hs & _). done.
Qed.

Lemma percent_decode_slash s t :
  percent_decode s = Some t -> starts_with (B"/") s = true -> starts_with (B"/") t = true.
Proof.
  intros H [u ->]%starts_with_spec. change (B"/" ++ u) with ("/"%char :: u) in H.
  cbn [percent_decode] in H. change (Ascii.eqb "/" "+") with false in H.
  change (Ascii.eqb "/" "%") with false in H. simpl in H. by apply fmap_Some in H as (? & _ & ->).
Qed.

Lemma percent_decode_no_nul s t : percent_decode s = Some t -> c_nul ∉ t.
Proof.
  revert t. induction s as [s IH] using (induction_ltof1 _ (@length ascii)); unfold ltof in IH. intros t.
  destruct s as [|c s]; cbn [percent_decode]; [intros [= <-]; apply not_elem_of_nil|].
  destruct (Ascii.eqb_spec c "+").
  { intros (u & Hu & ->)%fmap_Some. apply not_elem_of_cons. split; [done|]. eapply IH; [|done]. simpl. lia. }
  destruct (Ascii.eqb_spec c "%").
  { destruct s as [|h [|l s]]; [discriminate..|]. repeat case_match; try discriminate.
    intros (u & Hu & ->)%fmap_Some. apply not_elem_of_cons. split; [by apply not_eq_sym, Ascii.eqb_neq|].
    eapply IH; [|done]. simpl. lia. }
  case_match eqn:Ec; [discriminate|]. intros (u & Hu & ->)%fmap_Some. apply not_elem_of_cons. split.
  - intros <-. vm_compute in Ec. done.
  - eapply IH; [|done]. simpl. lia.
Qed.

Lemma parse_query_no_nul s q : parse_query s = Some q -> Forall no_nul_pair q.
Proof.
  unfold parse_query. case_decide; [by intros [= <-]; apply list.Forall_nil|].
  generalize (split_on "&" s). intros l. revert q. induction l as [|x l IH]; intros q; cbn [parse_pairs].
  - intros [= <-]. by apply list.Forall_nil.
  - case_decide; [by apply IH|]. destruct (match find _ _ _ with Some _ => _ | None => _ end) as [ke ve].
    destruct (percent_decode ke) as [k|] eqn:Ek; [|discriminate].
    destruct (percent_decode ve) as [v|] eqn:Ev; [|discriminate].
    cbn [mbind option_bind]. destruct (parse_pairs l); [|discriminate]. intros [= <-].
    apply list.Forall_cons. split; [|by apply IH]. split; by eapply percent_decode_no_nul.
Qed.

Lemma parse_printed (m p : bytes) (q hs : list (bytes * bytes)) (b : bytes)
    (Hm : m <> []) (Hu : forallb isupper m = true)
    (Hp : starts_with (B"/") p = true) (Hn : c_nul ∉ p)
    (Hq : Forall no_nul_pair q) (Hh : Forall header_ok hs) :
  parse_http_request (print_request m p q hs b) =
  (fun r => (set_target p q r, b)) <$> apply_headers hs (new_request m).
Proof.
  unfold parse_http_request, print_request.
  rewrite parse_request_line_text by
    (done || by apply target_text_chars || by apply target_text_head).
  set (first := m ++ _). destruct (parse_headers_text first hs b (new_request m) Hh) as [-> ->].
  destruct (apply_headers hs (new_request m)) as [r|]; [|done].
  destruct (target_split p q Hq) as (enc_q & -> & Hpq).
  rewrite percent_decode_encode, Hpq by done.
  set (ls := crlf_lines _).
  assert (Hb : drop (length (first ++ ls) + 4) (first ++ crlf ++ ls ++ crlf ++ b) = b).
  { rewrite app_assoc, (app_assoc _ ls), (app_assoc _ crlf).
    replace (length (first ++ ls) + 4) with (length (((first ++ crlf) ++ ls) ++ crlf))
      by (rewrite !length_app; simpl; lia). apply drop_app_length. }
  by rewrite Hb.
Qed.

(** *** The head of a printed request *)

Lemma print_request_app m p q hs b : print_request m p q hs b = print_request m p q hs [] ++ b.
Proof. unfold print_request. by rewrite app_nil_r, <- !app_assoc. Qed.

Lemma request_line_plain m p q :
  forallb isupper m = true -> c_cr ∉ m ++ B" " ++ target_text p q ++ B" HTTP/1.1".
Proof.
  intros Hu. rewrite !not_elem_of_app. split_and!; [by apply isupper_not_in| |by apply target_text_chars|];
    not_in.
Qed.

Lemma printed_blank m p q hs b :
  forallb isupper m = true -> Forall header_ok hs ->
  find blank_line (print_request m p q hs b) 0 = Some (length (print_request m p q hs []) - 4).
Proof.
  intros Hu Hh. unfold print_request, find. rewrite drop_0. set (first := m ++ _). set (ls := map _ hs).
  change blank_line with (c_cr :: [c_lf; c_cr; c_lf]). rewrite find_from_skip by by apply request_line_plain.
  change (c_cr :: [c_lf; c_cr; c_lf]) with blank_line. rewrite find_blank_line by by apply plain_lines_text.
  f_equal. rewrite !length_app. simpl. lia.
Qed.

(** The head of a printed request is read, in whatever pieces the request
    arrives; the reader may have got some of the body with it. *)
Lemma printed_head_read m p q hs b max_bytes timeout start es :
  let dl := (start + 1000 * timeout)%Z in
  forallb isupper m = true -> Forall header_ok hs ->
  Forall (arriving dl) es -> Forall (fun e => length (chunk_of dl e) <= buf_size) es ->
  chunks dl es = print_request m p q hs b ->
  length (print_request m p q hs []) + buf_size <= max_bytes ->
  exists used rest b1,
    es = used ++ rest /\ b = b1 ++ chunks dl rest /\
    read_http_head max_bytes timeout start es = Some (Ok, print_request m p q hs b1, rest).
Proof.
  intros dl Hu Hh Ha Hb Ht Hm. set (head := print_request m p q hs []) in *.
  pose proof (printed_blank m p q hs b Hu Hh) as Hf. fold head in Hf.
  assert (Hh4 : 4 <= length head) by (unfold head, print_request; rewrite !length_app; simpl; lia).
  assert (Hlong : forall a t, a ++ t = print_request m p q hs b -> contains blank_line a = true <-> length head <= length a).
  { intros a t E. pose proof Hf as Hf'. rewrite <- E in Hf'. split.
    - intros Hc. pose proof (find_0_prefix _ _ _ _ Hf' Hc) as Hl. change (length blank_line) with 4 in Hl. lia.
    - intros Hl. rewrite print_request_app in E. fold head in E.
      assert (E' : a = head ++ drop (length head) a).
      { rewrite <- (take_drop (length head) a) at 1. f_equal. apply (f_equal (take (length head))) in E.
        by rewrite take_app_le, take_app_length in E. }
      pose proof (printed_blank m p q hs (drop (length head) a) Hu Hh) as Hfa.
      rewrite print_request_app in Hfa. fold head in Hfa. rewrite <- E' in Hfa.
      unfold contains. apply bool_decide_eq_true_2. by eexists. }
  destruct (read_until_reaches (contains blank_line) max_bytes dl es []) as (used & rest & -> & Hr); [done| | |].
  - rewrite Ht. apply (Hlong _ []); [by rewrite app_nil_r|]. rewrite print_request_app. fold head. cbn [app]. rewrite length_app. lia.
  - intros a e bq -> Hn. cbn [app] in *. rewrite chunks_app, length_app.
    apply list.Forall_app in Hb as [_ Hb]. apply list.Forall_cons in Hb as [Hb _].
    assert (Hl : ~ length head <= length (chunks dl a)).
    { intros Hl. rewrite chunks_app in Ht. apply (Hlong _ _ Ht) in Hl. congruence. }
    unfold chunks at 2. cbn [map concat]. rewrite app_nil_r. lia.
  - cbn [app] in Hr. pose proof (read_until_ok _ _ _ _ _ _ _ Hr) as [Hs _].
    rewrite chunks_app in Ht. apply (Hlong _ _ Ht) in Hs as Hl. pose proof Ht as E. rewrite print_request_app in E. fold head in E.
    assert (E' : chunks dl used = head ++ drop (length head) (chunks dl used)).
    { rewrite <- (take_drop (length head) (chunks dl used)) at 1. f_equal. apply (f_equal (take (length head))) in E.
      by rewrite take_app_le, take_app_length in E. }
    exists used, rest, (drop (length head) (chunks dl used)). split_and!; [done| |].
    + rewrite E', <- app_assoc in E. by apply app_inv_head in E.
    + rewrite print_request_app. fold head. rewrite <- E'. done.
Qed.

Lemma arriving_chunks d1 d2 es :
  Forall (arriving d1) es -> Forall (arriving d2) es -> chunks d1 es = chunks d2 es.
Proof.
  intros H1 H2. induction es as [|e es IH]; [done|]. apply list.Forall_cons in H1 as [[? _] H1], H2 as [[? _] H2].
  rewrite !chunks_cons, IH by done. unfold chunk_of.
  by rewrite !(proj2 (Z.leb_gt _ _)) by done.
Qed.

Lemma apply_headers_body hs r r' : apply_headers hs r = Some r' -> body r' = body r.
Proof.
  revert r. induction hs as [|[n v] hs IH]; intros r; cbn [apply_headers]; [by intros [= ->]|].
  destruct (apply_header (to_lower n) v r) as [r1|] eqn:E; [|done]. cbn [mbind option_bind]. intros ->%IH.
  destruct r. unfold apply_header in E. repeat (case_match; simplify_eq/=; try done).
Qed.

(** The rest of the body is read exactly. *)
Lemma body_rest_read timeout start b1 b2 es :
  let dl := (start + 1000 * timeout)%Z in
  Forall (arriving dl) es -> chunks dl es = b2 -> b2 <> [] ->
  exists rest, read_http_body (length b2) timeout start b1 es = Some (Ok, b1 ++ b2, rest).
Proof.
  intros dl Ha Hc Hne. unfold read_http_body. fold dl. rewrite <- length_app.
  destruct (read_until_reaches (fun s => length (b1 ++ b2) <=? length s) (length (b1 ++ b2)) dl es b1)
    as (used & rest & -> & Hr); [done|rewrite Hc; by apply Nat.leb_le| |].
  - intros a e b -> _. rewrite !length_app. apply Nat.add_le_mono_l. rewrite <- Hc.
    rewrite !chunks_app, !chunks_cons, !length_app. change (chunks dl []) with (@nil ascii). simpl. lia.
  - exists rest. rewrite Hr. repeat f_equal. pose proof (read_until_ok _ _ _ _ _ _ _ Hr) as [Hs _].
    apply Nat.leb_le in Hs. rewrite chunks_app in Hc. subst b2. rewrite !length_app in Hs.
    destruct (chunks dl rest); [by rewrite app_nil_r|simpl in Hs; lia].
Qed.

(** ** Properties *)

(** C34: parsing inverts printing.  A request line with an upper-case method and
    a percent-encoded path and query, any header lines and any body parses to
    exactly that method, path and query, to the effect of the header lines in
    order (a repeated header: the last one wins; a malformed Content-Length:
    the request is rejected), and to the body as the leftover bytes. *)
Theorem parse_print_request (m p : bytes) (q hs : list (bytes * bytes)) (b : bytes)
    (Hm : m <> []) (Hu : forallb isupper m = true)
    (Hp : starts_with (B"/") p = true) (Hn : c_nul ∉ p)
    (Hq : Forall no_nul_pair q) (Hh : Forall header_ok hs) :
  parse_http_request (print_request m p q hs b) =
  (fun r => (set_target p q r, b)) <$> apply_headers hs (new_request m).
Proof. by apply parse_printed. Qed.

Lemma parse_print_request_witness :
  parse_http_request
    (print_request (B"PUT") (B"/metric/room 1/t") [(B"qos", B"1")]
       [(B"Content-Length", B"4"); (B"X-Mqtt-Api-Key", B"s3cret"); (B"Host", B"x")] (B"20.5")) =
  Some (Build_HttpRequest (B"PUT") (B"/metric/room 1/t") [(B"qos", B"1")] [] [] 4 false (B"s3cret") [] [] [],
        B"20.5").
Proof.
  rewrite parse_print_request.
  - vm_compute. reflexivity.
  - discriminate.
  - vm_compute. reflexivity.
  - vm_compute. reflexivity.
  - vm_compute. set_solver.
  - apply Forall_singleton. vm_compute. set_solver.
  - repeat (apply list.Forall_cons; split; [|]); [..|apply list.Forall_nil; exact I];
      unfold header_ok, trimmed; (split_and!; [| | |vm_compute; reflexivity|vm_compute; reflexivity]);
      vm_compute; set_solver.
Defined.

(** The header read is insensitive to how the network cuts the bytes.
    However the header block arrives (any number of segments, interrupted calls
    in between), as long as each turn starts before the deadline, the last one
    ends the block and the whole is within the limit, the reader returns exactly
    the block and leaves the later events alone. *)
Theorem read_http_head_delivers (max_bytes : nat) (timeout start : Z)
    (es : list io_event) (last : io_event) (rest : list io_event)
    (Ha : Forall (arriving (start + 1000 * timeout)) (es ++ [last]))
    (Hl : chunk_of (start + 1000 * timeout) last <> [])
    (Hend : let head := chunks (start + 1000 * timeout) (es ++ [last]) in
            find blank_line head 0 = Some (length head - 4))
    (Hmax : length (chunks (start + 1000 * timeout) (es ++ [last])) <= max_bytes) :
  read_http_head max_bytes timeout start ((es ++ [last]) ++ rest)
  = Some (Ok, chunks (start + 1000 * timeout) (es ++ [last]), rest).
Proof.
  unfold read_http_head. set (dl := (start + 1000 * timeout)%Z) in *.
  rewrite (read_until_deliver _ _ _ (es ++ [last]) []); [done|done| | |done].
  - intros a e b Heq. apply not_true_iff_false. intros Hc. simpl in Hc.
    pose proof (chunks_strict dl _ _ _ _ _ Heq Hl) as Hlt.
    destruct (chunks_prefix dl _ _ _ _ Heq) as [t Ht]. rewrite Ht in Hend, Hlt.
    cbv zeta in Hend. apply find_0_prefix in Hend; [|done]. rewrite length_app in *.
    change (length blank_line) with 4 in Hend. lia.
  - unfold contains. apply bool_decide_eq_true. eauto.
Qed.

Lemma read_http_head_delivers_witness :
  let ev t c := {| now := t; polled := PollReady (RecvData c) |} in
  read_http_head 100 10 5
    (([ev 6 (B"GET / HTTP/1.1" ++ [c_cr]); {| now := 7; polled := PollIntr |}]
      ++ [ev 900 [c_lf; c_cr; c_lf]]) ++ [ev 901 (B"x")])%Z
  = Some (Ok, B"GET / HTTP/1.1" ++ blank_line, [ev 901%Z (B"x")]).
Proof.
  intros ev. rewrite read_http_head_delivers.
  - vm_compute. reflexivity.
  - each (split; [vm_compute; reflexivity|exact I]).
  - discriminate.
  - vm_compute. reflexivity.
  - vm_compute. lia.
Defined.

(** An accepted body is exact.  When the body reader reports success, the
    buffer holds exactly the bytes asked for, no more and no less, and they are
    the bytes already there followed by those received. *)
Theorem read_http_body_exact (need : nat) (timeout start : Z) (body body' : bytes)
    (events rest : list io_event)
    (H : read_http_body need timeout start body events = Some (Ok, body', rest)) :
  length body' = length body + need /\
  exists used, events = used ++ rest /\ body' = body ++ chunks (start + 1000 * timeout) used.
Proof.
  unfold read_http_body in H. pose proof (read_until_ok _ _ _ _ _ _ _ H) as [Hs Hb].
  apply read_until_split in H. split; [|done]. apply Nat.leb_le in Hs.
  destruct Hb as [->|Hb]; lia.
Qed.

Lemma read_http_body_exact_witness :
  length (B"20.5") = length (B"2") + 3 /\
  exists used, [{| now := 6; polled := PollReady (RecvData (B"0.5")) |}; {| now := 9; polled := PollIntr |}]
               = used ++ [{| now := 9; polled := PollIntr |}] /\
               B"20.5" = B"2" ++ chunks (5 + 1000 * 10) used.
Proof.
  apply (read_http_body_exact 3 10 5). vm_compute. reflexivity.
Defined.

(** Bytes beyond the body are fatal only if they arrive late.  One byte
    more than Content-Length in the segment that completes the body makes the
    reader give up although the whole body is there; the buffer it leaves is one
    byte too long. *)
Theorem read_http_body_excess (need : nat) (timeout start t : Z) (body chunk : bytes)
    (rest : list io_event)
    (Hneed : 0 < need) (Ht : (t < start + 1000 * timeout)%Z) (Hc : need < length chunk) :
  read_http_body need timeout start body ({| now := t; polled := PollReady (RecvData chunk) |} :: rest)
  = Some (TooLarge, body ++ chunk, rest).
Proof.
  unfold read_http_body. cbn [read_until now polled].
  destruct (Nat.leb_spec (length body + need) (length body)); [lia|].
  replace (start + 1000 * timeout <=? t)%Z with false by lia.
  rewrite length_app. destruct (Nat.ltb_spec (length body + need) (length body + length chunk)); [done|lia].
Qed.

Lemma read_http_body_excess_witness :
  read_http_body 3 10 0 (B"2") [{| now := 1; polled := PollReady (RecvData (B"0.5" ++ crlf)) |}]
  = Some (TooLarge, B"20.5" ++ crlf, []).
Proof. apply (read_http_body_excess 3 10 0 1 (B"2")); [lia|vm_compute; reflexivity|vm_compute; lia]. Defined.

(** A slow client cannot hold a worker.  The reader returns once a turn
    starts at or after its deadline, whatever arrived before, and its buffer
    never grows beyond the limit by more than one receive buffer. *)
Theorem read_http_head_bounded (max_bytes : nat) (timeout start : Z) (events : list io_event) :
  (Exists (fun e => (start + 1000 * timeout <= now e)%Z) events ->
   is_Some (read_http_head max_bytes timeout start events)) /\
  (forall res out rest,
     Forall (fun e => length (chunk_of (start + 1000 * timeout) e) <= buf_size) events ->
     read_http_head max_bytes timeout start events = Some (res, out, rest) ->
     length out <= max_bytes + buf_size /\ (res = Ok -> length out <= max_bytes)).
Proof.
  split.
  - intros He. destruct (read_http_head _ _ _ _) eqn:E; [by eexists|].
    apply read_until_pending in E. apply list.Exists_exists in He as (e & Hin & He).
    rewrite list.Forall_forall in E. apply E in Hin. lia.
  - intros res out rest HF H. unfold read_http_head in H. split.
    + eapply read_until_size; [done| |done]. simpl. lia.
    + intros ->. apply read_until_ok in H as [_ [->|?]]; simpl; lia.
Qed.

Lemma read_http_head_bounded_witness :
  is_Some (read_http_head 100 10 0 [{| now := 1; polled := PollIntr |}; {| now := 10000; polled := PollIntr |}]).
Proof. apply read_http_head_bounded. right. left. vm_compute. discriminate. Defined.

(** Response framing.  For any body and any extra headers that hold no CR
    and are not among the names the parser knows, the first empty line of a
    serialised response is the end of its header block, what follows is the
    body (nothing for HEAD), and a peer that reads the header lines with this
    program's own header parser finds a Content-Length equal to the size of the
    body. *)
Theorem build_http_response_framing (resp : HttpResponse) (ib : bool)
    (Hh : Forall header_ok (headers resp))
    (Ha : Forall (fun h => bool_decide (to_lower h.1 ∈ known_headers) = false) (headers resp))
    (Hlen : (Z.of_nat (length (resp_body resp)) <= LONG_MAX)%Z) :
  exists head,
    head = crlf_lines (response_lines resp ib) /\
    build_http_response resp ib = head ++ crlf ++ (if ib then resp_body resp else []) /\
    find blank_line (build_http_response resp ib) 0 = Some (length head - 2) /\
    (content_length <$> header_lines (drop 1 (response_lines resp ib)) (new_request []))
    = Some (Z.of_nat (length (resp_body resp))).
Proof.
  eexists. split_and!; [done|done| |].
  - unfold build_http_response. rewrite response_lines_eq. cbn [crlf_lines].
    set (ls := crlf_lines _). rewrite <- !app_assoc. unfold find. rewrite drop_0. unfold blank_line at 1, crlf at 1 2.
    cbn [app]. rewrite find_from_skip by apply status_line_plain.
    change (c_cr :: c_lf :: ls ++ c_cr :: c_lf :: (if ib then resp_body resp else []))
      with (crlf ++ ls ++ crlf ++ (if ib then resp_body resp else [])).
    change (c_cr :: [c_lf; c_cr; c_lf]) with blank_line. unfold ls.
    rewrite find_blank_line by by apply plain_lines_text, response_headers_ok.
    f_equal. rewrite length_app. simpl. lia.
  - rewrite response_lines_eq. cbn [drop]. rewrite drop_0, header_lines_text by by apply response_headers_ok.
    assert (Hrest : forall r, content_length <$>
      (apply_headers ((B"Content-Length", to_string (Z.of_nat (length (resp_body resp))))
                      :: (B"Connection", B"close") :: headers resp) r)
      = Some (Z.of_nat (length (resp_body resp)))).
    { intros r. cbn [apply_headers]. change (to_lower (B"Content-Length")) with (B"content-length").
      rewrite apply_content_length by lia. cbn [mbind option_bind].
      change (to_lower (B"Connection")) with (B"connection"). rewrite apply_other by done.
      cbn [mbind option_bind]. by rewrite apply_headers_other by done. }
    unfold response_headers. destruct ib; cbn [app]; [|apply Hrest].
    cbn [apply_headers]. change (to_lower (B"Content-Type")) with (B"content-type").
    cbn [apply_header new_request]. rewrite decide_False by done. rewrite decide_True by done.
    cbn [mbind option_bind]. apply Hrest.
Qed.

Lemma build_http_response_framing_witness :
  let resp := {| status := 405; format := Json; headers := [(B"Allow", B"PUT, DELETE")];
                 resp_body := blank_line ++ B"!" |} in
  exists head,
    head = crlf_lines (response_lines resp true) /\
    build_http_response resp true = head ++ crlf ++ resp_body resp /\
    find blank_line (build_http_response resp true) 0 = Some (length head - 2) /\
    (content_length <$> header_lines (drop 1 (response_lines resp true)) (new_request [])) = Some 5%Z.
Proof.
  intros resp. apply (build_http_response_framing resp true).
  - apply Forall_singleton. unfold header_ok. split_and!; try not_in; vm_compute; reflexivity.
  - apply Forall_singleton. vm_compute. reflexivity.
  - vm_compute. discriminate.
Defined.

(** What a parsed request guarantees to the handlers.  The path starts with
    a slash, path and query hold no NUL byte, Content-Length is -1 (absent) or
    a value of type [long] that is not negative, the method is upper case, and
    the leftover bytes are a suffix of the input. *)
Theorem parsed_request_wf (raw leftover : bytes) (r : HttpRequest)
    (H : parse_http_request raw = Some (r, leftover)) :
  starts_with (B"/") (path r) = true /\ c_nul ∉ path r /\ Forall no_nul_pair (query r) /\
  (-1 <= content_length r <= LONG_MAX)%Z /\
  method r <> [] /\ forallb isupper (method r) = true /\ body r = [] /\
  exists pre, raw = pre ++ leftover.
Proof.
  unfold parse_http_request in H.
  destruct (parse_request_line raw) as [[[m tgt] le]|] eqn:E; [|done].
  apply parse_request_line_wf in E as (Hm & Hu & Ht).
  destruct (header_loop _ _ _ _ _) as [r0|] eqn:El; [|done].
  apply (header_loop_wf _ _ _ _ m) in El; [|by apply new_request_wf].
  destruct (target_path tgt Ht) as (pe & qe & Hsp & Hpe). rewrite Hsp in H.
  destruct (percent_decode pe) as [p|] eqn:Ep; [|done].
  destruct (parse_query qe) as [q|] eqn:Eq; [|done]. simplify_eq. destruct El as (<- & Hc & Hb).
  cbn [path query content_length method body set_target]. split_and!; try done; try lia.
  - by eapply percent_decode_slash.
  - by eapply percent_decode_no_nul.
  - by eapply parse_query_no_nul.
  - destruct (find blank_line raw le) as [h|];
      [exists (take (h + 4) raw); by rewrite take_drop|exists raw; by rewrite app_nil_r].
Qed.

Lemma parsed_request_wf_witness :
  exists r : HttpRequest,
    parse_http_request (B"GET /a%2Fb?value=%41 HTTP/1.0" ++ crlf ++ blank_line) = Some (r, crlf) /\
    starts_with (B"/") (path r) = true /\ c_nul ∉ path r.
Proof.
  eexists. split; [vm_compute; reflexivity|].
  edestruct (parsed_request_wf (B"GET /a%2Fb?value=%41 HTTP/1.0" ++ crlf ++ blank_line) crlf)
    as (H1 & H2 & _); [vm_compute; reflexivity|]. split; [exact H1|exact H2].
Defined.

End Http.
