(* ===== verification/Config.v ===== *)
(** * config.cpp: the configuration, its file and its environment *)

From S2P Require Import Prelude CLib TextUtil.

Module Config.

Local Open Scope Z_scope.

(** ** The struct (config.h) *)

Record Config := {
  socket_path : bytes; socket_mode : Z; threads : Z; max_request_bytes : Z;
  max_body_bytes : Z; debug_log : bool; tcp_port : Z; tcp_address : bytes;
  simple_get : bool; http_auth_tokens : list bytes; event_placeholders_enabled : bool;
  mqtt_host : bytes; mqtt_port : Z; mqtt_client_id : bytes; mqtt_qos : Z;
  mqtt_pool_size : Z; mqtt_keepalive_seconds : Z; mqtt_connect_timeout_seconds : Z;
  mqtt_publish_timeout_seconds : Z; mqtt_queue_size : Z; mqtt_username : bytes;
  mqtt_password : bytes; subscribe_enabled : bool; subscribe_topics : list bytes;
  webhook_enabled : bool; webhook_url : bytes; webhook_topics : list bytes;
  webhook_auth_header : bytes; webhook_auth_value : bytes; webhook_tls_insecure : bool;
  webhook_timeout_seconds : Z; webhook_queue_size : Z; state_enabled : bool;
  state_file : bytes; prometheus_http : bool; prometheus_textfile : bytes;
  prometheus_textfile_interval_seconds : Z; prometheus_prefix : bytes;
  prometheus_mqtt_state_prefix : bytes; state_topic_prefix : bytes;
  prometheus_mqtt_json_topics : list bytes
}.

(** Replaces one field: [upd field v c] is the record with every other field
    copied, written out by the tactic. *)
Definition eta (c : Config) : Config :=
  {| 
     socket_path := socket_path c; socket_mode := socket_mode c; threads := threads c;
     max_request_bytes := max_request_bytes c; max_body_bytes := max_body_bytes c;
     debug_log := debug_log c; tcp_port := tcp_port c; tcp_address := tcp_address c;
     simple_get := simple_get c; http_auth_tokens := http_auth_tokens c;
     event_placeholders_enabled := event_placeholders_enabled c; mqtt_host := mqtt_host c;
     mqtt_port := mqtt_port c; mqtt_client_id := mqtt_client_id c; mqtt_qos := mqtt_qos c;
     mqtt_pool_size := mqtt_pool_size c;
     mqtt_keepalive_seconds := mqtt_keepalive_seconds c;
     mqtt_connect_timeout_seconds := mqtt_connect_timeout_seconds c;
     mqtt_publish_timeout_seconds := mqtt_publish_timeout_seconds c;
     mqtt_queue_size := mqtt_queue_size c; mqtt_username := mqtt_username c;
     mqtt_password := mqtt_password c; subscribe_enabled := subscribe_enabled c;
     subscribe_topics := subscribe_topics c; webhook_enabled := webhook_enabled c;
     webhook_url := webhook_url c; webhook_topics := webhook_topics c;
     webhook_auth_header := webhook_auth_header c;
     webhook_auth_value := webhook_auth_value c;
     webhook_tls_insecure := webhook_tls_insecure c;
     webhook_timeout_seconds := webhook_timeout_seconds c;
     webhook_queue_size := webhook_queue_size c; state_enabled := state_enabled c;
     state_file := state_file c; prometheus_http := prometheus_http c;
     prometheus_textfile := prometheus_textfile c;
     prometheus_textfile_interval_seconds := prometheus_textfile_interval_seconds c;
     prometheus_prefix := prometheus_prefix c;
     prometheus_mqtt_state_prefix := prometheus_mqtt_state_prefix c;
     state_topic_prefix := state_topic_prefix c;
     prometheus_mqtt_json_topics := prometheus_mqtt_json_topics c |}.

Ltac upd f v c :=
  let e := eval cbv beta delta [eta] in (eta c) in
  let e := eval pattern (f c) in e in
  match e with ?g _ => let r := eval cbv beta in (g v) in exact r end.

Definition set_socket_path (v : bytes) (c : Config) : Config := ltac:(upd socket_path v c).
Definition set_socket_mode (v : Z) (c : Config) : Config := ltac:(upd socket_mode v c).
Definition set_threads (v : Z) (c : Config) : Config := ltac:(upd threads v c).
Definition set_max_request_bytes (v : Z) (c : Config) : Config := ltac:(upd max_request_bytes v c).
Definition set_max_body_bytes (v : Z) (c : Config) : Config := ltac:(upd max_body_bytes v c).
Definition set_debug_log (v : bool) (c : Config) : Config := ltac:(upd debug_log v c).
Definition set_tcp_port (v : Z) (c : Config) : Config := ltac:(upd tcp_port v c).
Definition set_tcp_address (v : bytes) (c : Config) : Config := ltac:(upd tcp_address v c).
Definition set_simple_get (v : bool) (c : Config) : Config := ltac:(upd simple_get v c).
Definition set_http_auth_tokens (v : list bytes) (c : Config) : Config := ltac:(upd http_auth_tokens v c).
Definition set_event_placeholders_enabled (v : bool) (c : Config) : Config := ltac:(upd event_placeholders_enabled v c).
Definition set_mqtt_host (v : bytes) (c : Config) : Config := ltac:(upd mqtt_host v c).
Definition set_mqtt_port (v : Z) (c : Config) : Config := ltac:(upd mqtt_port v c).
Definition set_mqtt_client_id (v : bytes) (c : Config) : Config := ltac:(upd mqtt_client_id v c).
Definition set_mqtt_qos (v : Z) (c : Config) : Config := ltac:(upd mqtt_qos v c).
Definition set_mqtt_pool_size (v : Z) (c : Config) : Config := ltac:(upd mqtt_pool_size v c).
Definition set_mqtt_keepalive_seconds (v : Z) (c : Config) : Config := ltac:(upd mqtt_keepalive_seconds v c).
Definition set_mqtt_connect_timeout_seconds (v : Z) (c : Config) : Config := ltac:(upd mqtt_connect_timeout_seconds v c).
Definition set_mqtt_publish_timeout_seconds (v : Z) (c : Config) : Config := ltac:(upd mqtt_publish_timeout_seconds v c).
Definition set_mqtt_queue_size (v : Z) (c : Config) : Config := ltac:(upd mqtt_queue_size v c).
Definition set_mqtt_username (v : bytes) (c : Config) : Config := ltac:(upd mqtt_username v c).
Definition set_mqtt_password (v : bytes) (c : Config) : Config := ltac:(upd mqtt_password v c).
Definition set_subscribe_enabled (v : bool) (c : Config) : Config := ltac:(upd subscribe_enabled v c).
Definition set_subscribe_topics (v : list bytes) (c : Config) : Config := ltac:(upd subscribe_topics v c).
Definition set_webhook_enabled (v : bool) (c : Config) : Config := ltac:(upd webhook_enabled v c).
Definition set_webhook_url (v : bytes) (c : Config) : Config := ltac:(upd webhook_url v c).
Definition set_webhook_topics (v : list bytes) (c : Config) : Config := ltac:(upd webhook_topics v c).
Definition set_webhook_auth_header (v : bytes) (c : Config) : Config := ltac:(upd webhook_auth_header v c).
Definition set_webhook_auth_value (v : bytes) (c : Config) : Config := ltac:(upd webhook_auth_value v c).
Definition set_webhook_tls_insecure (v : bool) (c : Config) : Config := ltac:(upd webhook_tls_insecure v c).
Definition set_webhook_timeout_seconds (v : Z) (c : Config) : Config := ltac:(upd webhook_timeout_seconds v c).
Definition set_webhook_queue_size (v : Z) (c : Config) : Config := ltac:(upd webhook_queue_size v c).
Definition set_state_enabled (v : bool) (c : Config) : Config := ltac:(upd state_enabled v c).
Definition set_state_file (v : bytes) (c : Config) : Config := ltac:(upd state_file v c).
Definition set_prometheus_http (v : bool) (c : Config) : Config := ltac:(upd prometheus_http v c).
Definition set_prometheus_textfile (v : bytes) (c : Config) : Config := ltac:(upd prometheus_textfile v c).
Definition set_prometheus_textfile_interval_seconds (v : Z) (c : Config) : Config := ltac:(upd prometheus_textfile_interval_seconds v c).
Definition set_prometheus_prefix (v : bytes) (c : Config) : Config := ltac:(upd prometheus_prefix v c).
Definition set_prometheus_mqtt_state_prefix (v : bytes) (c : Config) : Config := ltac:(upd prometheus_mqtt_state_prefix v c).
Definition set_state_topic_prefix (v : bytes) (c : Config) : Config := ltac:(upd state_topic_prefix v c).
Definition set_prometheus_mqtt_json_topics (v : list bytes) (c : Config) : Config := ltac:(upd prometheus_mqtt_json_topics v c).

(** ** Defaults *)

(** [detected] is [std::thread::hardware_concurrency()]. *)
Definition default_thread_count (detected : Z) : Z :=
  if detected =? 0 then 8
  else if detected <? 4 then 4
  else if 20 <? detected then 20
  else detected.

(** [rd i] is the i-th draw of [std::random_device]. *)
Definition default_client_id (rd : nat -> N) : bytes :=
  B"nshmqtt_"
  ++ concat (map (fun i => let byte := N.land (rd i) 255 in
                           [hex_digit (N.land (N.shiftr byte 4) 15); hex_digit (N.land byte 15)])
                 (seq 0 4)).

Definition default_config (detected : Z) (rd : nat -> N) : Config :=
  let threads0 := default_thread_count detected in
  let client_id0 := default_client_id rd in
  {| 
     socket_path := B"/run/nshmqtt/nshmqtt.sock"; socket_mode := 432; threads := threads0;
     max_request_bytes := 8192; max_body_bytes := 65536; debug_log := false; tcp_port := 0;
     tcp_address := []; simple_get := true; http_auth_tokens := [];
     event_placeholders_enabled := false; mqtt_host := B"127.0.0.1"; mqtt_port := 1883;
     mqtt_client_id := client_id0; mqtt_qos := 1; mqtt_pool_size := 1;
     mqtt_keepalive_seconds := 60; mqtt_connect_timeout_seconds := 10;
     mqtt_publish_timeout_seconds := 5; mqtt_queue_size := 256; mqtt_username := [];
     mqtt_password := []; subscribe_enabled := false; subscribe_topics := [B"#"];
     webhook_enabled := false; webhook_url := []; webhook_topics := [B"#"];
     webhook_auth_header := []; webhook_auth_value := []; webhook_tls_insecure := false;
     webhook_timeout_seconds := 5; webhook_queue_size := 256; state_enabled := true;
     state_file := B"/var/lib/nshmqtt/state.json"; prometheus_http := true;
     prometheus_textfile := []; prometheus_textfile_interval_seconds := 60;
     prometheus_prefix := B"nshmqtt_"; prometheus_mqtt_state_prefix := B"mqtt_";
     state_topic_prefix := []; prometheus_mqtt_json_topics := [] |}.

(** ** Values *)

Definition trim (s : bytes) : bytes := trim_by isspace s.

Definition parse_long (base : Z) (value : bytes) : option Z :=
  if decide (value = []) then None else strtol_full base value.

(** Comma-separated entries, trimmed, the empty ones left out. *)
Definition split_csv (value : bytes) : list bytes :=
  filter (fun item : bytes => item <> []) (map trim (split_on "," value)).

Definition parse_port (text : bytes) : option Z :=
  unwrap v := parse_long 10 text else None in
  if (v <? 1) || (65535 <? v) then None else Some v.

(** ** apply_key

    [KErr err]: [false] with that message; an unknown key leaves it empty. *)

Inductive key_result := KOk (cfg : Config) | KErr (err : bytes).

(** The two guards that recur: a number within bounds, a boolean. *)
Definition with_long (base lo hi : Z) (value err : bytes) (k : Z -> Config) : key_result :=
  match parse_long base value with
  | Some v => if (v <? lo) || (hi <? v) then KErr err else KOk (k v)
  | None => KErr err
  end.

Definition with_bool (value err : bytes) (k : bool -> Config) : key_result :=
  match parse_bool value with Some b => KOk (k b) | None => KErr err end.

(** A chain of [if (key == ...)] arms; [None] falls through to the next. *)
Notation "'key?' k '==' s 'then' r 'else' rest" :=
  (if decide (k = s) then Some r else rest)
    (at level 10, k at level 9, s at level 9, r at level 100, rest at level 200, only parsing).

(** The server and HTTP keys. *)
Definition apply_server_key (cfg : Config) (key value : bytes) : option key_result :=
  key? key == (B"socket") then (KOk (set_socket_path value cfg)) else
  key? key == (B"socket_mode") then
    (with_long 8 0 4095 value (B"invalid socket_mode (expected octal, e.g. 0660)") (fun v => set_socket_mode v cfg)) else
  key? key == (B"threads") then
    (with_long 10 1 256 value (B"invalid threads (expected 1-256)") (fun v => set_threads v cfg)) else
  key? key == (B"max_request_bytes") then
    (with_long 10 256 1048576 value (B"invalid max_request_bytes (expected 256-1048576)") (fun v => set_max_request_bytes v cfg)) else
  key? key == (B"max_body_bytes") then
    (with_long 10 1 16777216 value (B"invalid max_body_bytes (expected 1-16777216)") (fun v => set_max_body_bytes v cfg)) else
  key? key == (B"debug_log") then
    (with_bool value (B"invalid debug_log (expected true/false)") (fun b => set_debug_log b cfg)) else
  key? key == (B"tcp_port") then
    (if decide (value = [] \/ value = B"0") then KOk (set_tcp_port 0 cfg)
     else match parse_port value with
          | Some port => KOk (set_tcp_port port cfg)
          | None => KErr (B"invalid tcp_port (expected 1-65535, or 0 to disable)")
          end) else
  key? key == (B"tcp_address") then (KOk (set_tcp_address value cfg)) else
  key? key == (B"simple_get") then
    (with_bool value (B"invalid simple_get (expected true/false)") (fun b => set_simple_get b cfg)) else
  key? key == (B"event_placeholders_enabled") then
    (with_bool value (B"invalid event_placeholders_enabled (expected true/false)") (fun b => set_event_placeholders_enabled b cfg)) else
  key? key == (B"http_auth_tokens") then (KOk (set_http_auth_tokens (split_csv value) cfg)) else
  None.

(** The broker keys. *)
Definition apply_mqtt_key (cfg : Config) (key value : bytes) : option key_result :=
  key? key == (B"mqtt_host") then (KOk (set_mqtt_host value cfg)) else
  key? key == (B"mqtt_port") then
    (match parse_port value with
     | Some port => KOk (set_mqtt_port port cfg)
     | None => KErr (B"invalid mqtt_port (expected 1-65535)")
     end) else
  key? key == (B"mqtt_client_id") then (KOk (set_mqtt_client_id value cfg)) else
  key? key == (B"mqtt_qos") then
    (with_long 10 0 2 value (B"invalid mqtt_qos (expected 0, 1, or 2)") (fun v => set_mqtt_qos v cfg)) else
  key? key == (B"mqtt_pool_size") then
    (with_long 10 1 64 value (B"invalid mqtt_pool_size (expected 1-64)") (fun v => set_mqtt_pool_size v cfg)) else
  key? key == (B"mqtt_keepalive_seconds") then
    (with_long 10 5 3600 value (B"invalid mqtt_keepalive_seconds (expected 5-3600)") (fun v => set_mqtt_keepalive_seconds v cfg)) else
  key? key == (B"mqtt_connect_timeout_seconds") then
    (with_long 10 1 300 value (B"invalid mqtt_connect_timeout_seconds (expected 1-300)") (fun v => set_mqtt_connect_timeout_seconds v cfg)) else
  key? key == (B"mqtt_publish_timeout_seconds") then
    (with_long 10 1 300 value (B"invalid mqtt_publish_timeout_seconds (expected 1-300)") (fun v => set_mqtt_publish_timeout_seconds v cfg)) else
  key? key == (B"mqtt_queue_size") then
    (with_long 10 1 65536 value (B"invalid mqtt_queue_size (expected 1-65536)") (fun v => set_mqtt_queue_size v cfg)) else
  key? key == (B"mqtt_username") then (KOk (set_mqtt_username value cfg)) else
  key? key == (B"mqtt_password") then (KOk (set_mqtt_password value cfg)) else
  None.

(** Subscription and webhook keys. *)
Definition apply_forward_key (cfg : Config) (key value : bytes) : option key_result :=
  key? key == (B"subscribe_enabled") then
    (with_bool value (B"invalid subscribe_enabled (expected true/false)") (fun b => set_subscribe_enabled b cfg)) else
  key? key == (B"subscribe_topics") then (KOk (set_subscribe_topics (split_csv value) cfg)) else
  key? key == (B"webhook_enabled") then
    (with_bool value (B"invalid webhook_enabled (expected true/false)") (fun b => set_webhook_enabled b cfg)) else
  key? key == (B"webhook_url") then (KOk (set_webhook_url value cfg)) else
  key? key == (B"webhook_topics") then (KOk (set_webhook_topics (split_csv value) cfg)) else
  key? key == (B"webhook_auth_header") then (KOk (set_webhook_auth_header value cfg)) else
  key? key == (B"webhook_auth_value") then (KOk (set_webhook_auth_value value cfg)) else
  key? key == (B"webhook_tls_insecure") then
    (with_bool value (B"invalid webhook_tls_insecure (expected true/false)") (fun b => set_webhook_tls_insecure b cfg)) else
  key? key == (B"webhook_timeout_seconds") then
    (with_long 10 1 300 value (B"invalid webhook_timeout_seconds (expected 1-300)") (fun v => set_webhook_timeout_seconds v cfg)) else
  key? key == (B"webhook_queue_size") then
    (with_long 10 1 65536 value (B"invalid webhook_queue_size (expected 1-65536)") (fun v => set_webhook_queue_size v cfg)) else
  None.

(** State and Prometheus keys. *)
Definition apply_output_key (cfg : Config) (key value : bytes) : option key_result :=
  key? key == (B"state_enabled") then
    (with_bool value (B"invalid state_enabled (expected true/false)") (fun b => set_state_enabled b cfg)) else
  key? key == (B"state_file") then (KOk (set_state_file value cfg)) else
  key? key == (B"prometheus_http") then
    (with_bool value (B"invalid prometheus_http (expected true/false)") (fun b => set_prometheus_http b cfg)) else
  key? key == (B"prometheus_textfile") then (KOk (set_prometheus_textfile value cfg)) else
  key? key == (B"prometheus_textfile_interval_seconds") then
    (with_long 10 1 86400 value (B"invalid prometheus_textfile_interval_seconds (expected 1-86400)") (fun v => set_prometheus_textfile_interval_seconds v cfg)) else
  key? key == (B"prometheus_prefix") then (KOk (set_prometheus_prefix value cfg)) else
  key? key == (B"prometheus_mqtt_state_prefix") then (KOk (set_prometheus_mqtt_state_prefix value cfg)) else
  key? key == (B"state_topic_prefix") then (KOk (set_state_topic_prefix value cfg)) else
  key? key == (B"prometheus_mqtt_json_topics") then (KOk (set_prometheus_mqtt_json_topics (split_csv value) cfg)) else
  None.

Definition apply_key (cfg : Config) (key value : bytes) : key_result :=
  match apply_server_key cfg key value with
  | Some r => r
  | None =>
      match apply_mqtt_key cfg key value with
      | Some r => r
      | None =>
          match apply_forward_key cfg key value with
          | Some r => r
          | None => match apply_output_key cfg key value with Some r => r | None => KErr [] end
          end
      end
  end.

(** ** load_config

    [std::getline] over the text: no line for what follows a final newline. *)
Fixpoint drop_last_empty (l : list bytes) : list bytes :=
  match l with
  | [] => []
  | [x] => if decide (x = []) then [] else [x]
  | x :: l' => x :: drop_last_empty l'
  end.

Definition getlines (text : bytes) : list bytes := drop_last_empty (split_on c_lf text).

Inductive load_result := Loaded (cfg : Config) (warnings : list bytes) | LoadErr (err : bytes).

Definition at_line (path : bytes) (line_no : Z) (msg : bytes) : bytes :=
  path ++ B":" ++ to_string line_no ++ B": " ++ msg.

Definition is_comment (trimmed : bytes) : bool :=
  match trimmed with [] => true | c :: _ => Ascii.eqb c "#" end.

Definition quote : bytes := ["039"%char].

Fixpoint load_lines (path : bytes) (lines : list bytes) (line_no : Z) (cfg : Config)
    (warnings : list bytes) : load_result :=
  match lines with
  | [] => Loaded cfg warnings
  | line :: rest =>
      let trimmed := trim line in
      if is_comment trimmed then load_lines path rest (line_no + 1) cfg warnings
      else match find (B"=") trimmed 0 with
           | None => LoadErr (at_line path line_no (B"expected key=value"))
           | Some eq =>
               let key := trim (take eq trimmed) in
               let value := trim (drop (eq + 1) trimmed) in
               match apply_key cfg key value with
               | KOk cfg' => load_lines path rest (line_no + 1) cfg' warnings
               | KErr [] =>
                   load_lines path rest (line_no + 1) cfg
                     (warnings ++ [at_line path line_no (B"unknown config key " ++ quote ++ key ++ quote)])
               | KErr key_err => LoadErr (at_line path line_no key_err)
               end
           end
  end.

(** [file] is the text of the file, [None] when it cannot be opened. *)
Definition load_config (path : bytes) (file : option bytes) (cfg : Config) : load_result :=
  match file with
  | None => LoadErr (B"cannot open config file: " ++ path)
  | Some text => load_lines path (getlines text) 1 cfg []
  end.

(** ** The environment *)

Definition kEnvKeys : list (bytes * bytes) :=
  [(B"socket", B"NSHMQTT_SOCKET");
   (B"socket_mode", B"NSHMQTT_SOCKET_MODE");
   (B"threads", B"NSHMQTT_THREADS");
   (B"max_request_bytes", B"NSHMQTT_MAX_REQUEST_BYTES");
   (B"max_body_bytes", B"NSHMQTT_MAX_BODY_BYTES");
   (B"debug_log", B"NSHMQTT_DEBUG_LOG");
   (B"tcp_port", B"NSHMQTT_TCP_PORT");
   (B"tcp_address", B"NSHMQTT_TCP_ADDRESS");
   (B"simple_get", B"NSHMQTT_SIMPLE_GET");
   (B"event_placeholders_enabled", B"NSHMQTT_EVENT_PLACEHOLDERS_ENABLED");
   (B"http_auth_tokens", B"NSHMQTT_HTTP_AUTH_TOKENS");
   (B"mqtt_host", B"NSHMQTT_MQTT_HOST");
   (B"mqtt_port", B"NSHMQTT_MQTT_PORT");
   (B"mqtt_client_id", B"NSHMQTT_MQTT_CLIENT_ID");
   (B"mqtt_qos", B"NSHMQTT_MQTT_QOS");
   (B"mqtt_pool_size", B"NSHMQTT_MQTT_POOL_SIZE");
   (B"mqtt_keepalive_seconds", B"NSHMQTT_MQTT_KEEPALIVE_SECONDS");
   (B"mqtt_connect_timeout_seconds", B"NSHMQTT_MQTT_CONNECT_TIMEOUT_SECONDS");
   (B"mqtt_publish_timeout_seconds", B"NSHMQTT_MQTT_PUBLISH_TIMEOUT_SECONDS");
   (B"mqtt_queue_size", B"NSHMQTT_MQTT_QUEUE_SIZE");
   (B"mqtt_username", B"NSHMQTT_MQTT_USERNAME");
   (B"mqtt_password", B"NSHMQTT_MQTT_PASSWORD");
   (B"subscribe_enabled", B"NSHMQTT_SUBSCRIBE_ENABLED");
   (B"subscribe_topics", B"NSHMQTT_SUBSCRIBE_TOPICS");
   (B"webhook_enabled", B"NSHMQTT_WEBHOOK_ENABLED");
   (B"webhook_url", B"NSHMQTT_WEBHOOK_URL");
   (B"webhook_topics", B"NSHMQTT_WEBHOOK_TOPICS");
   (B"webhook_auth_header", B"NSHMQTT_WEBHOOK_AUTH_HEADER");
   (B"webhook_auth_value", B"NSHMQTT_WEBHOOK_AUTH_VALUE");
   (B"webhook_tls_insecure", B"NSHMQTT_WEBHOOK_TLS_INSECURE");
   (B"webhook_timeout_seconds", B"NSHMQTT_WEBHOOK_TIMEOUT_SECONDS");
   (B"webhook_queue_size", B"NSHMQTT_WEBHOOK_QUEUE_SIZE");
   (B"state_enabled", B"NSHMQTT_STATE_ENABLED");
   (B"state_file", B"NSHMQTT_STATE_FILE");
   (B"prometheus_http", B"NSHMQTT_PROMETHEUS_HTTP");
   (B"prometheus_textfile", B"NSHMQTT_PROMETHEUS_TEXTFILE");
   (B"prometheus_textfile_interval_seconds", B"NSHMQTT_PROMETHEUS_TEXTFILE_INTERVAL_SECONDS");
   (B"prometheus_prefix", B"NSHMQTT_PROMETHEUS_PREFIX");
   (B"prometheus_mqtt_state_prefix", B"NSHMQTT_PROMETHEUS_MQTT_STATE_PREFIX");
   (B"state_topic_prefix", B"NSHMQTT_STATE_TOPIC_PREFIX");
   (B"prometheus_mqtt_json_topics", B"NSHMQTT_PROMETHEUS_MQTT_JSON_TOPICS")].

Inductive env_result := EnvOk (cfg : Config) | EnvErr (err : bytes).

Fixpoint apply_env (getenv : bytes -> option bytes) (keys : list (bytes * bytes))
    (cfg : Config) : env_result :=
  match keys with
  | [] => EnvOk cfg
  | (config_key, env_name) :: rest =>
      match getenv env_name with
      | None => apply_env getenv rest cfg
      | Some v =>
          match apply_key cfg config_key v with
          | KOk cfg' => apply_env getenv rest cfg'
          | KErr key_err =>
              EnvErr (env_name ++ B": " ++ (if decide (key_err = []) then B"invalid value" else key_err))
          end
      end
  end.

Definition apply_env_overrides (getenv : bytes -> option bytes) (cfg : Config) : env_result :=
  apply_env getenv kEnvKeys cfg.

(** ** The key table: what each key is

    The specification the chain of arms is checked against. *)

Inductive kind := KText | KLong (base lo hi : Z) | KPort | KPortOrOff | KBool | KList.
Inductive fval := VText (b : bytes) | VNum (z : Z) | VBool (b : bool) | VList (l : list bytes).

Inductive key :=
  | K_socket | K_socket_mode | K_threads | K_max_request_bytes | K_max_body_bytes
  | K_debug_log | K_tcp_port | K_tcp_address | K_simple_get | K_event_placeholders_enabled
  | K_http_auth_tokens | K_mqtt_host | K_mqtt_port | K_mqtt_client_id | K_mqtt_qos
  | K_mqtt_pool_size | K_mqtt_keepalive_seconds | K_mqtt_connect_timeout_seconds
  | K_mqtt_publish_timeout_seconds | K_mqtt_queue_size | K_mqtt_username | K_mqtt_password
  | K_subscribe_enabled | K_subscribe_topics | K_webhook_enabled | K_webhook_url
  | K_webhook_topics | K_webhook_auth_header | K_webhook_auth_value | K_webhook_tls_insecure
  | K_webhook_timeout_seconds | K_webhook_queue_size | K_state_enabled | K_state_file
  | K_prometheus_http | K_prometheus_textfile | K_prometheus_textfile_interval_seconds
  | K_prometheus_prefix | K_prometheus_mqtt_state_prefix | K_state_topic_prefix
  | K_prometheus_mqtt_json_topics.

#[export] Instance key_eq_dec : EqDecision key.
Proof. solve_decision. Defined.

Definition all_keys : list key :=
  [K_socket; K_socket_mode; K_threads; K_max_request_bytes; K_max_body_bytes; K_debug_log;
   K_tcp_port; K_tcp_address; K_simple_get; K_event_placeholders_enabled;
   K_http_auth_tokens; K_mqtt_host; K_mqtt_port; K_mqtt_client_id; K_mqtt_qos;
   K_mqtt_pool_size; K_mqtt_keepalive_seconds; K_mqtt_connect_timeout_seconds;
   K_mqtt_publish_timeout_seconds; K_mqtt_queue_size; K_mqtt_username; K_mqtt_password;
   K_subscribe_enabled; K_subscribe_topics; K_webhook_enabled; K_webhook_url;
   K_webhook_topics; K_webhook_auth_header; K_webhook_auth_value; K_webhook_tls_insecure;
   K_webhook_timeout_seconds; K_webhook_queue_size; K_state_enabled; K_state_file;
   K_prometheus_http; K_prometheus_textfile; K_prometheus_textfile_interval_seconds;
   K_prometheus_prefix; K_prometheus_mqtt_state_prefix; K_state_topic_prefix;
   K_prometheus_mqtt_json_topics].

Definition key_name (k : key) : bytes :=
  match k with
  | K_socket => B"socket"
  | K_socket_mode => B"socket_mode"
  | K_threads => B"threads"
  | K_max_request_bytes => B"max_request_bytes"
  | K_max_body_bytes => B"max_body_bytes"
  | K_debug_log => B"debug_log"
  | K_tcp_port => B"tcp_port"
  | K_tcp_address => B"tcp_address"
  | K_simple_get => B"simple_get"
  | K_event_placeholders_enabled => B"event_placeholders_enabled"
  | K_http_auth_tokens => B"http_auth_tokens"
  | K_mqtt_host => B"mqtt_host"
  | K_mqtt_port => B"mqtt_port"
  | K_mqtt_client_id => B"mqtt_client_id"
  | K_mqtt_qos => B"mqtt_qos"
  | K_mqtt_pool_size => B"mqtt_pool_size"
  | K_mqtt_keepalive_seconds => B"mqtt_keepalive_seconds"
  | K_mqtt_connect_timeout_seconds => B"mqtt_connect_timeout_seconds"
  | K_mqtt_publish_timeout_seconds => B"mqtt_publish_timeout_seconds"
  | K_mqtt_queue_size => B"mqtt_queue_size"
  | K_mqtt_username => B"mqtt_username"
  | K_mqtt_password => B"mqtt_password"
  | K_subscribe_enabled => B"subscribe_enabled"
  | K_subscribe_topics => B"subscribe_topics"
  | K_webhook_enabled => B"webhook_enabled"
  | K_webhook_url => B"webhook_url"
  | K_webhook_topics => B"webhook_topics"
  | K_webhook_auth_header => B"webhook_auth_header"
  | K_webhook_auth_value => B"webhook_auth_value"
  | K_webhook_tls_insecure => B"webhook_tls_insecure"
  | K_webhook_timeout_seconds => B"webhook_timeout_seconds"
  | K_webhook_queue_size => B"webhook_queue_size"
  | K_state_enabled => B"state_enabled"
  | K_state_file => B"state_file"
  | K_prometheus_http => B"prometheus_http"
  | K_prometheus_textfile => B"prometheus_textfile"
  | K_prometheus_textfile_interval_seconds => B"prometheus_textfile_interval_seconds"
  | K_prometheus_prefix => B"prometheus_prefix"
  | K_prometheus_mqtt_state_prefix => B"prometheus_mqtt_state_prefix"
  | K_state_topic_prefix => B"state_topic_prefix"
  | K_prometheus_mqtt_json_topics => B"prometheus_mqtt_json_topics"
  end.

Definition key_kind (k : key) : kind :=
  match k with
  | K_socket => KText
  | K_socket_mode => KLong 8 0 4095
  | K_threads => KLong 10 1 256
  | K_max_request_bytes => KLong 10 256 1048576
  | K_max_body_bytes => KLong 10 1 16777216
  | K_debug_log => KBool
  | K_tcp_port => KPortOrOff
  | K_tcp_address => KText
  | K_simple_get => KBool
  | K_event_placeholders_enabled => KBool
  | K_http_auth_tokens => KList
  | K_mqtt_host => KText
  | K_mqtt_port => KPort
  | K_mqtt_client_id => KText
  | K_mqtt_qos => KLong 10 0 2
  | K_mqtt_pool_size => KLong 10 1 64
  | K_mqtt_keepalive_seconds => KLong 10 5 3600
  | K_mqtt_connect_timeout_seconds => KLong 10 1 300
  | K_mqtt_publish_timeout_seconds => KLong 10 1 300
  | K_mqtt_queue_size => KLong 10 1 65536
  | K_mqtt_username => KText
  | K_mqtt_password => KText
  | K_subscribe_enabled => KBool
  | K_subscribe_topics => KList
  | K_webhook_enabled => KBool
  | K_webhook_url => KText
  | K_webhook_topics => KList
  | K_webhook_auth_header => KText
  | K_webhook_auth_value => KText
  | K_webhook_tls_insecure => KBool
  | K_webhook_timeout_seconds => KLong 10 1 300
  | K_webhook_queue_size => KLong 10 1 65536
  | K_state_enabled => KBool
  | K_state_file => KText
  | K_prometheus_http => KBool
  | K_prometheus_textfile => KText
  | K_prometheus_textfile_interval_seconds => KLong 10 1 86400
  | K_prometheus_prefix => KText
  | K_prometheus_mqtt_state_prefix => KText
  | K_state_topic_prefix => KText
  | K_prometheus_mqtt_json_topics => KList
  end.

Definition field (c : Config) (k : key) : fval :=
  match k with
  | K_socket => VText (socket_path c)
  | K_socket_mode => VNum (socket_mode c)
  | K_threads => VNum (threads c)
  | K_max_request_bytes => VNum (max_request_bytes c)
  | K_max_body_bytes => VNum (max_body_bytes c)
  | K_debug_log => VBool (debug_log c)
  | K_tcp_port => VNum (tcp_port c)
  | K_tcp_address => VText (tcp_address c)
  | K_simple_get => VBool (simple_get c)
  | K_event_placeholders_enabled => VBool (event_placeholders_enabled c)
  | K_http_auth_tokens => VList (http_auth_tokens c)
  | K_mqtt_host => VText (mqtt_host c)
  | K_mqtt_port => VNum (mqtt_port c)
  | K_mqtt_client_id => VText (mqtt_client_id c)
  | K_mqtt_qos => VNum (mqtt_qos c)
  | K_mqtt_pool_size => VNum (mqtt_pool_size c)
  | K_mqtt_keepalive_seconds => VNum (mqtt_keepalive_seconds c)
  | K_mqtt_connect_timeout_seconds => VNum (mqtt_connect_timeout_seconds c)
  | K_mqtt_publish_timeout_seconds => VNum (mqtt_publish_timeout_seconds c)
  | K_mqtt_queue_size => VNum (mqtt_queue_size c)
  | K_mqtt_username => VText (mqtt_username c)
  | K_mqtt_password => VText (mqtt_password c)
  | K_subscribe_enabled => VBool (subscribe_enabled c)
  | K_subscribe_topics => VList (subscribe_topics c)
  | K_webhook_enabled => VBool (webhook_enabled c)
  | K_webhook_url => VText (webhook_url c)
  | K_webhook_topics => VList (webhook_topics c)
  | K_webhook_auth_header => VText (webhook_auth_header c)
  | K_webhook_auth_value => VText (webhook_auth_value c)
  | K_webhook_tls_insecure => VBool (webhook_tls_insecure c)
  | K_webhook_timeout_seconds => VNum (webhook_timeout_seconds c)
  | K_webhook_queue_size => VNum (webhook_queue_size c)
  | K_state_enabled => VBool (state_enabled c)
  | K_state_file => VText (state_file c)
  | K_prometheus_http => VBool (prometheus_http c)
  | K_prometheus_textfile => VText (prometheus_textfile c)
  | K_prometheus_textfile_interval_seconds => VNum (prometheus_textfile_interval_seconds c)
  | K_prometheus_prefix => VText (prometheus_prefix c)
  | K_prometheus_mqtt_state_prefix => VText (prometheus_mqtt_state_prefix c)
  | K_state_topic_prefix => VText (state_topic_prefix c)
  | K_prometheus_mqtt_json_topics => VList (prometheus_mqtt_json_topics c)
  end.

Definition parse_kind (k : kind) (value : bytes) : option fval :=
  match k with
  | KText => Some (VText value)
  | KLong base lo hi =>
      unwrap v := parse_long base value else None in
      ensure (lo <=? v) && (v <=? hi) else None in Some (VNum v)
  | KPort => VNum <$> parse_port value
  | KPortOrOff => if decide (value = [] \/ value = B"0") then Some (VNum 0) else VNum <$> parse_port value
  | KBool => VBool <$> parse_bool value
  | KList => Some (VList (split_csv value))
  end.

(** Values a field may hold. *)
Definition fval_ok (k : kind) (v : fval) : Prop :=
  match k, v with
  | KText, VText _ | KBool, VBool _ => True
  | KLong _ lo hi, VNum z => lo <= z <= hi
  | KPort, VNum z => 1 <= z <= 65535
  | KPortOrOff, VNum z => 0 <= z <= 65535
  | KList, VList l => Forall (fun x : bytes => x <> []) l
  | _, _ => False
  end.

Definition config_ok (c : Config) : Prop := forall k : key, fval_ok (key_kind k) (field c k).

(** ** Lemmas: the chain of arms *)

Lemma parse_long_range base v z : parse_long base v = Some z -> LONG_MIN <= z <= LONG_MAX.
Proof.
  unfold parse_long, strtol_full. case_decide; [done|]. intros Hs.
  destruct (strtol base (c_str v)) as [[[w e] t]|] eqn:E; [|done]. apply strtol_range in E.
  destruct e; [done|]. destruct t; [|done]. by simplify_eq.
Qed.

Lemma split_csv_nonempty v : Forall (fun x : bytes => x <> []) (split_csv v).
Proof.
  unfold split_csv. apply list.Forall_forall. intros x Hx. by apply list_elem_of_filter in Hx as [? _].
Qed.

Lemma parse_port_range v z : parse_port v = Some z -> 1 <= z <= 65535.
Proof. unfold parse_port. intros H. repeat (case_match; simplify_eq; try done). lia. Qed.

Lemma parse_kind_ok k v fv : parse_kind k v = Some fv -> fval_ok k fv.
Proof.
  destruct k; simpl; intros H.
  - by simplify_eq.
  - repeat (case_match; simplify_eq; try done). simpl. lia.
  - apply fmap_Some in H as (z & Hz & ->). by apply parse_port_range in Hz.
  - case_decide; simplify_eq; simpl; [lia|]. apply fmap_Some in H as (z & Hz & ->).
    apply parse_port_range in Hz. simpl. lia.
  - by apply fmap_Some in H as (z & Hz & ->).
  - simplify_eq. apply split_csv_nonempty.
Qed.

(** The field a key writes, as one function. *)
Definition put (c : Config) (k : key) (fv : fval) (c' : Config) : Prop :=
  field c' k = fv /\ forall k', k' <> k -> field c' k' = field c k'.

Ltac put_tac := split; [reflexivity|]; intros k' Hk'; destruct k'; (reflexivity || (exfalso; apply Hk'; reflexivity)).

Lemma with_long_spec base lo hi v e (c : Config) (k : key) (g : Z -> Config) :
  e <> [] -> (forall z, put c k (VNum z) (g z)) ->
  match with_long base lo hi v e g with
  | KOk c' => exists fv, parse_kind (KLong base lo hi) v = Some fv /\ put c k fv c'
  | KErr e' => e' <> [] /\ parse_kind (KLong base lo hi) v = None
  end.
Proof.
  intros He Hg. unfold with_long, parse_kind. destruct (parse_long base v) as [z|]; [|done].
  destruct ((z <? lo) || (hi <? z)) eqn:E.
  - by replace ((lo <=? z) && (z <=? hi)) with false by lia.
  - replace ((lo <=? z) && (z <=? hi)) with true by lia. eauto.
Qed.

Lemma with_bool_spec v e (c : Config) (k : key) (g : bool -> Config) :
  e <> [] -> (forall b, put c k (VBool b) (g b)) ->
  match with_bool v e g with
  | KOk c' => exists fv, parse_kind KBool v = Some fv /\ put c k fv c'
  | KErr e' => e' <> [] /\ parse_kind KBool v = None
  end.
Proof. intros He Hg. unfold with_bool, parse_kind. destruct (parse_bool v) as [b|]; [|done]. simpl. eauto. Qed.

Definition arm_spec (c : Config) (k : key) (v : bytes) (r : key_result) : Prop :=
  match r with
  | KOk c' => exists fv, parse_kind (key_kind k) v = Some fv /\ put c k fv c'
  | KErr e => e <> [] /\ parse_kind (key_kind k) v = None
  end.

(** Runs the comparisons of a closed key against the arms. *)
Ltac run_arms :=
  repeat match goal with
  | |- context [decide (B ?a = B ?b)] =>
      first [rewrite (decide_False (P := B a = B b)) by (vm_compute; discriminate)
            |rewrite (decide_True (P := B a = B b)) by reflexivity]
  end.

Ltac arm :=
  first
    [ apply with_long_spec; [discriminate|intros z; put_tac]
    | apply with_bool_spec; [discriminate|intros b; put_tac]
    | eexists; split; [reflexivity|put_tac] ].

Lemma apply_server_arm c k v :
  match apply_server_key c (key_name k) v with Some r => arm_spec c k v r | None => True end.
Proof.
  destruct k; first [exact I | unfold apply_server_key, arm_spec; cbn [key_name key_kind]; run_arms; cbv iota].
  all: try arm.
  unfold parse_kind. case_decide; simpl; [eexists; split; [done|put_tac]|].
  destruct (parse_port v) as [z|]; simpl; [eexists; split; [done|put_tac]|done].
Qed.

Lemma apply_mqtt_arm c k v :
  match apply_mqtt_key c (key_name k) v with Some r => arm_spec c k v r | None => True end.
Proof.
  destruct k; first [exact I | unfold apply_mqtt_key, arm_spec; cbn [key_name key_kind]; run_arms; cbv iota].
  all: try arm.
  unfold parse_kind. destruct (parse_port v) as [z|]; simpl; [eexists; split; [done|put_tac]|done].
Qed.

Lemma apply_forward_arm c k v :
  match apply_forward_key c (key_name k) v with Some r => arm_spec c k v r | None => True end.
Proof.
  destruct k; first [exact I | unfold apply_forward_key, arm_spec; cbn [key_name key_kind]; run_arms; cbv iota].
  all: try arm.
Qed.

Lemma apply_output_arm c k v :
  match apply_output_key c (key_name k) v with Some r => arm_spec c k v r | None => True end.
Proof.
  destruct k; first [exact I | unfold apply_output_key, arm_spec; cbn [key_name key_kind]; run_arms; cbv iota].
  all: try arm.
Qed.

(** Every key of the table has an arm. *)
Lemma some_arm c k v :
  apply_server_key c (key_name k) v = None -> apply_mqtt_key c (key_name k) v = None ->
  apply_forward_key c (key_name k) v = None -> apply_output_key c (key_name k) v = None -> False.
Proof. destruct k; intros; discriminate. Qed.

(** Whether and with what text a value is refused does not depend on the rest. *)
Definition refusal (r : option key_result) : option (option bytes) :=
  match r with None => None | Some (KOk _) => Some None | Some (KErr e) => Some (Some e) end.

Ltac refusal_tac :=
  repeat (case_decide; [first [reflexivity|unfold with_long, with_bool; repeat case_match; reflexivity]|]); reflexivity.

Lemma refusal_arms c c' s v :
  refusal (apply_server_key c s v) = refusal (apply_server_key c' s v) /\
  refusal (apply_mqtt_key c s v) = refusal (apply_mqtt_key c' s v) /\
  refusal (apply_forward_key c s v) = refusal (apply_forward_key c' s v) /\
  refusal (apply_output_key c s v) = refusal (apply_output_key c' s v).
Proof.
  split_and!; [unfold apply_server_key|unfold apply_mqtt_key|unfold apply_forward_key|unfold apply_output_key]; refusal_tac.
Qed.

Lemma apply_key_refusal c c' s v : refusal (Some (apply_key c s v)) = refusal (Some (apply_key c' s v)).
Proof.
  destruct (refusal_arms c c' s v) as (H1 & H2 & H3 & H4). unfold apply_key.
  destruct (apply_server_key c s v) as [[]|], (apply_server_key c' s v) as [[]|]; try done.
  destruct (apply_mqtt_key c s v) as [[]|], (apply_mqtt_key c' s v) as [[]|]; try done.
  destruct (apply_forward_key c s v) as [[]|], (apply_forward_key c' s v) as [[]|]; try done.
  destruct (apply_output_key c s v) as [[]|], (apply_output_key c' s v) as [[]|]; done.
Qed.

Lemma apply_key_err c c' s v e : apply_key c s v = KErr e -> apply_key c' s v = KErr e.
Proof. intros H. pose proof (apply_key_refusal c c' s v) as Hr. rewrite H in Hr. destruct (apply_key c' s v); cbn in Hr; congruence. Qed.

Lemma apply_key_arm c k v : arm_spec c k v (apply_key c (key_name k) v).
Proof.
  pose proof (apply_server_arm c k v). pose proof (apply_mqtt_arm c k v).
  pose proof (apply_forward_arm c k v). pose proof (apply_output_arm c k v).
  pose proof (some_arm c k v). unfold apply_key. repeat (case_match; try done). exfalso; auto.
Qed.

Lemma known_name s :
  existsb (fun k => bool_decide (key_name k = s)) all_keys = true -> exists k, key_name k = s.
Proof. intros (k & _ & Hk)%existsb_exists. apply bool_decide_eq_true in Hk. eauto. Qed.

(** An arm compares with the name of a key of the table. *)
Lemma not_arm key s (P : Type) (x y : P) :
  (forall k, key <> key_name k) ->
  existsb (fun k => bool_decide (key_name k = s)) all_keys = true ->
  (if decide (key = s) then x else y) = y.
Proof. intros H Hs. apply known_name in Hs as [k <-]. by rewrite decide_False. Qed.

Ltac no_arm H := repeat (rewrite not_arm; [|exact H|vm_compute; reflexivity]); reflexivity.

Lemma apply_key_unknown c key v : (forall k, key <> key_name k) -> apply_key c key v = KErr [].
Proof.
  intros H. unfold apply_key.
  assert (apply_server_key c key v = None) as -> by (unfold apply_server_key; no_arm H).
  assert (apply_mqtt_key c key v = None) as -> by (unfold apply_mqtt_key; no_arm H).
  assert (apply_forward_key c key v = None) as -> by (unfold apply_forward_key; no_arm H).
  by assert (apply_output_key c key v = None) as -> by (unfold apply_output_key; no_arm H).
Qed.

(** ** Lemmas: keys *)

Lemma all_keys_complete k : In k all_keys.
Proof. destruct k; unfold all_keys; cbn [In]; tauto. Qed.

Lemma key_name_inj a b : key_name a = key_name b -> a = b.
Proof.
  assert (H : forallb (fun a => forallb (fun b =>
    bool_decide (a = b) || negb (bool_decide (key_name a = key_name b))) all_keys) all_keys = true)
    by (vm_compute; reflexivity).
  rewrite forallb_forall in H. specialize (H a (all_keys_complete a)).
  rewrite forallb_forall in H. specialize (H b (all_keys_complete b)).
  intros Heq. rewrite (bool_decide_true (key_name a = _)) in H by done.
  rewrite orb_false_r in H. by apply bool_decide_eq_true in H.
Qed.

Lemma key_known_dec (s : bytes) : (exists k, s = key_name k) \/ (forall k, s <> key_name k).
Proof.
  destruct (existsb (fun k => bool_decide (key_name k = s)) all_keys) eqn:E.
  - left. apply known_name in E as [k <-]. by exists k.
  - right. intros k ->. assert (H : existsb (fun k0 => bool_decide (key_name k0 = key_name k)) all_keys = true).
    { apply existsb_exists. exists k. split; [apply all_keys_complete|by apply bool_decide_eq_true]. }
    congruence.
Qed.

(** The three outcomes of [apply_key], read backwards. *)
Lemma apply_key_cases c key v :
  match apply_key c key v with
  | KOk c' => exists k fv, key = key_name k /\ parse_kind (key_kind k) v = Some fv /\ put c k fv c'
  | KErr [] => forall k, key <> key_name k
  | KErr e => exists k, key = key_name k /\ parse_kind (key_kind k) v = None
  end.
Proof.
  destruct (key_known_dec key) as [[k ->]|H].
  - pose proof (apply_key_arm c k v) as Ha. unfold arm_spec in Ha.
    destruct (apply_key c (key_name k) v) as [c'|e].
    + destruct Ha as (fv & ? & ?). eauto.
    + destruct Ha as [? ?]. destruct e; [done|eauto].
  - by rewrite apply_key_unknown.
Qed.

(** ** Lemmas: the file *)

(** What a line assigns, if it is not blank or a comment. *)
Definition parse_line (line : bytes) : option (bytes * bytes) :=
  let trimmed := trim line in
  if is_comment trimmed then None
  else unwrap eq := find (B"=") trimmed 0 else None in
       Some (trim (take eq trimmed), trim (drop (eq + 1) trimmed)).

Definition bad_line (line : bytes) : Prop :=
  is_comment (trim line) = false /\
  match parse_line line with
  | None => True
  | Some (key, v) => exists k, key = key_name k /\ parse_kind (key_kind k) v = None
  end.

Definition unknown_line (line : bytes) : bool :=
  match parse_line line with
  | Some (key, _) => negb (existsb (fun k => bool_decide (key_name k = key)) all_keys)
  | None => false
  end.

(** The value the last line for [key] gives. *)
Fixpoint last_value (key : bytes) (lines : list bytes) : option bytes :=
  match lines with
  | [] => None
  | l :: rest =>
      match last_value key rest with
      | Some v => Some v
      | None => match parse_line l with
                | Some (k, v) => if decide (k = key) then Some v else None
                | None => None
                end
      end
  end.

(** One line of the file, as a transformer of the rest. *)
Lemma load_lines_cons path l rest n c w :
  load_lines path (l :: rest) n c w =
  if is_comment (trim l) then load_lines path rest (n + 1) c w
  else match parse_line l with
       | None => LoadErr (at_line path n (B"expected key=value"))
       | Some (key, v) =>
           match apply_key c key v with
           | KOk c' => load_lines path rest (n + 1) c' w
           | KErr [] => load_lines path rest (n + 1) c
               (w ++ [at_line path n (B"unknown config key " ++ quote ++ key ++ quote)])
           | KErr e => LoadErr (at_line path n e)
           end
       end.
Proof.
  cbn [load_lines]. unfold parse_line. destruct (is_comment (trim l)); [done|].
  destruct (find (B"=") (trim l) 0); done.
Qed.

Lemma parse_line_comment l : is_comment (trim l) = true -> parse_line l = None.
Proof. unfold parse_line. by intros ->. Qed.

Lemma load_lines_field path lines n c w c' w' k :
  load_lines path lines n c w = Loaded c' w' ->
  Some (field c' k) =
  match last_value (key_name k) lines with
  | Some v => parse_kind (key_kind k) v
  | None => Some (field c k)
  end.
Proof.
  revert n c w. induction lines as [|l lines IH]; intros n c w; [by intros [= -> ->]|].
  rewrite load_lines_cons. cbn [last_value].
  destruct (is_comment (trim l)) eqn:Ec.
  { intros H. rewrite parse_line_comment by done. apply IH in H. rewrite H. by case_match. }
  destruct (parse_line l) as [[key v]|]; [|done].
  pose proof (apply_key_cases c key v) as Hc. destruct (apply_key c key v) as [c1|[|e0 e]]; [| |done].
  - destruct Hc as (k0 & fv & -> & Hp & Hf & Ho). intros H. apply IH in H. rewrite H.
    case_match; [done|]. case_decide as E.
    + apply key_name_inj in E as ->. by rewrite Hp, Hf.
    + rewrite Ho; [done|]. intros ->. done.
  - intros H. apply IH in H. rewrite H. case_match; [done|]. by rewrite decide_False by apply Hc.
Qed.

Lemma unknown_line_true l key v :
  parse_line l = Some (key, v) -> (forall k, key <> key_name k) -> unknown_line l = true.
Proof.
  intros Hl H. unfold unknown_line. rewrite Hl, negb_true_iff. apply not_true_iff_false.
  intros E. apply known_name in E as [k Hk]. by apply (H k).
Qed.

Lemma unknown_line_false l k v : parse_line l = Some (key_name k, v) -> unknown_line l = false.
Proof.
  intros Hl. unfold unknown_line. rewrite Hl, negb_false_iff. apply existsb_exists.
  exists k. split; [apply all_keys_complete|by apply bool_decide_eq_true].
Qed.

(** What the loop reports: nothing bad and one warning per unknown key, or the
    first bad line. *)
Definition load_report (path : bytes) (lines : list bytes) (n : Z) (w : list bytes) (r : load_result) : Prop :=
  match r with
  | Loaded _ w' =>
      Forall (fun l => ~ bad_line l) lines /\
      length w' = (length w + length (filter (fun l => unknown_line l = true) lines))%nat
  | LoadErr e =>
      exists pre l post msg, lines = pre ++ l :: post /\ Forall (fun l => ~ bad_line l) pre /\
        bad_line l /\ e = at_line path (n + Z.of_nat (length pre)) msg /\ msg <> []
  end.

Lemma load_report_cons path l lines n w w1 r :
  ~ bad_line l ->
  length w1 = (length w + (if unknown_line l then 1 else 0))%nat ->
  load_report path lines (n + 1) w1 r -> load_report path (l :: lines) n w r.
Proof.
  intros Hb Hl H. destruct r as [c' w'|e]; simpl in *.
  - destruct H as [HF Hw]. split; [by apply list.Forall_cons|]. rewrite Hw, Hl, filter_cons.
    destruct (unknown_line l); case_decide; simpl; try done; lia.
  - destruct H as (pre & l' & post & msg & -> & HF & Hb' & -> & Hm).
    exists (l :: pre), l', post, msg. split_and!; try done; [by apply list.Forall_cons|].
    f_equal. simpl length. lia.
Qed.

Lemma load_lines_report path lines n c w : load_report path lines n w (load_lines path lines n c w).
Proof.
  revert n c w. induction lines as [|l lines IH]; intros n c w.
  { simpl. split; [by apply list.Forall_nil|lia]. }
  rewrite load_lines_cons. destruct (is_comment (trim l)) eqn:Ec.
  { eapply load_report_cons; [| |apply IH].
    - unfold bad_line. rewrite Ec. by intros [? _].
    - unfold unknown_line. rewrite parse_line_comment by done. lia. }
  destruct (parse_line l) as [[key v]|] eqn:El.
  2:{ exists [], l, lines, (B"expected key=value"). split_and!; [done|by apply list.Forall_nil| |f_equal; simpl; lia|done].
      unfold bad_line. by rewrite El. }
  pose proof (apply_key_cases c key v) as Hc. destruct (apply_key c key v) as [c1|[|e0 e]].
  - destruct Hc as (k & fv & -> & Hp & _). eapply load_report_cons; [| |apply IH].
    + unfold bad_line. rewrite El. intros (_ & k' & Hk%key_name_inj & Hn). congruence.
    + rewrite (unknown_line_false _ _ _ El). lia.
  - eapply load_report_cons; [| |apply IH].
    + unfold bad_line. rewrite El. intros (_ & k' & Hk & _). by apply (Hc k').
    + rewrite (unknown_line_true _ _ _ El Hc), length_app. simpl. lia.
  - destruct Hc as (k & -> & Hp). exists [], l, lines, (e0 :: e).
    split_and!; [done|by apply list.Forall_nil| |f_equal; simpl; lia|done].
    unfold bad_line. rewrite El. eauto.
Qed.

(** ** Lemmas: the environment *)

Definition toupper (c : ascii) : ascii := if islower c then chr (code c - 32) else c.

Definition env_name (k : key) : bytes := B"NSHMQTT_" ++ map toupper (key_name k).

Lemma kEnvKeys_table : kEnvKeys = map (fun k => (key_name k, env_name k)) all_keys.
Proof. vm_compute. reflexivity. Qed.

Lemma apply_env_field getenv ks c c' k :
  NoDup ks ->
  apply_env getenv (map (fun k => (key_name k, env_name k)) ks) c = EnvOk c' ->
  Some (field c' k) =
  if decide (k ∈ ks) then
    match getenv (env_name k) with Some v => parse_kind (key_kind k) v | None => Some (field c k) end
  else Some (field c k).
Proof.
  revert c. induction ks as [|k0 ks IH]; intros c Hnd; cbn [map apply_env].
  { intros [= ->]. by rewrite decide_False by apply not_elem_of_nil. }
  apply list.NoDup_cons in Hnd as [Hni Hnd].
  destruct (getenv (env_name k0)) as [v|] eqn:Ev.
  - pose proof (apply_key_arm c k0 v) as Ha. unfold arm_spec in Ha.
    destruct (apply_key c (key_name k0) v) as [c1|]; [|done]. destruct Ha as (fv & Hp & Hf & Ho).
    intros H. rewrite (IH _ Hnd H). destruct (decide (k = k0)) as [->|Hne].
    + rewrite decide_False by done. rewrite decide_True by apply list_elem_of_here. by rewrite Ev, Hp, Hf.
    + rewrite (Ho k Hne). repeat case_decide; try done; set_solver.
  - intros H. rewrite (IH _ Hnd H). destruct (decide (k = k0)) as [->|Hne].
    + rewrite decide_False by done. rewrite decide_True by apply list_elem_of_here. by rewrite Ev.
    + repeat case_decide; try done; set_solver.
Qed.

Lemma all_keys_NoDup : NoDup all_keys.
Proof. apply (bool_decide_unpack _). vm_compute. exact I. Qed.

Lemma env_field getenv c c' k :
  apply_env_overrides getenv c = EnvOk c' ->
  Some (field c' k) =
  match getenv (env_name k) with Some v => parse_kind (key_kind k) v | None => Some (field c k) end.
Proof.
  unfold apply_env_overrides. rewrite kEnvKeys_table. intros H.
  rewrite (apply_env_field _ _ _ _ _ all_keys_NoDup H).
  rewrite decide_True; [done|]. apply list_elem_of_In, all_keys_complete.
Qed.

Lemma default_config_ok detected rd : 0 <= detected -> config_ok (default_config detected rd).
Proof.
  intros Hd k. destruct k; cbn [key_kind field default_config fval_ok socket_path]; try exact I;
    cbn; try lia; try (by apply Forall_singleton); try by apply list.Forall_nil.
  unfold default_thread_count. repeat case_match; lia.
Qed.

(** ** Properties *)

(** [apply_key] implements the key table.  For each of the 41 keys, a value
    its kind accepts is stored in that key's field and nothing else changes; a
    value its kind rejects is an error with a message and no change; any other
    key is reported as unknown (an empty message). *)
Theorem apply_key_correct (c : Config) (s v : bytes) :
  match apply_key c s v with
  | KOk c' => exists k fv, s = key_name k /\ parse_kind (key_kind k) v = Some fv /\
                field c' k = fv /\ forall k', k' <> k -> field c' k' = field c k'
  | KErr [] => forall k, s <> key_name k
  | KErr e => exists k, s = key_name k /\ parse_kind (key_kind k) v = None
  end.
Proof. exact (apply_key_cases c s v). Qed.

(** C37: precedence.  When start-up accepts the file and the environment, every
    field holds: the value of its NSHMQTT_ variable if that is set, else that of
    the last line of the file that assigns its key, else the default. *)
Theorem config_precedence (path text : bytes) (getenv : bytes -> option bytes)
    (c0 c1 c2 : Config) (w : list bytes)
    (Hf : load_config path (Some text) c0 = Loaded c1 w)
    (He : apply_env_overrides getenv c1 = EnvOk c2) (k : key) :
  Some (field c2 k) =
  match getenv (env_name k), last_value (key_name k) (getlines text) with
  | Some v, _ | None, Some v => parse_kind (key_kind k) v
  | None, None => Some (field c0 k)
  end.
Proof.
  rewrite (env_field _ _ _ k He), (load_lines_field _ _ _ _ _ _ _ k Hf).
  destruct (getenv (env_name k)); [done|]. by destruct (last_value _ _).
Qed.

Definition sample_file : bytes :=
  B"# nshmqtt" ++ [c_lf] ++ B" mqtt_qos = 2" ++ [c_lf] ++ B"mqtt_port=1884" ++ [c_lf]
  ++ B"colour=red" ++ [c_lf] ++ B"mqtt_qos=0".
Definition sample_env (s : bytes) : option bytes :=
  if decide (s = B"NSHMQTT_MQTT_PORT") then Some (B"8883") else None.

Lemma config_precedence_witness :
  exists c1 c2 w,
    load_config (B"f") (Some sample_file) (default_config 4 (fun _ => 0%N)) = Loaded c1 w /\
    apply_env_overrides sample_env c1 = EnvOk c2 /\
    field c2 K_mqtt_qos = VNum 0 /\ Some (field c2 K_mqtt_port) = Some (VNum 8883) /\
    w = [B"f:4: unknown config key 'colour'"].
Proof.
  do 3 eexists. split; [vm_compute; reflexivity|]. split; [vm_compute; reflexivity|].
  split; [vm_compute; reflexivity|]. split; [|vm_compute; reflexivity].
  erewrite (config_precedence (B"f") sample_file sample_env (default_config 4 (fun _ => 0%N)));
    [vm_compute; reflexivity|vm_compute; reflexivity|vm_compute; reflexivity].
Defined.

(** Whatever the file and the environment say, a configuration that start-up
    accepts is within bounds in every field (thread counts, sizes, ports,
    time-outs, QoS), given that the defaults are taken on a machine that reports
    a non-negative processor count. *)
Theorem config_in_bounds (path text : bytes) (getenv : bytes -> option bytes) (detected : Z)
    (rd : nat -> N) (c1 c2 : Config) (w : list bytes)
    (Hd : 0 <= detected)
    (Hf : load_config path (Some text) (default_config detected rd) = Loaded c1 w)
    (He : apply_env_overrides getenv c1 = EnvOk c2) :
  config_ok c2.
Proof.
  intros k. pose proof (env_field _ _ _ k He) as H. rewrite (load_lines_field _ _ _ _ _ _ _ k Hf) in H.
  destruct (getenv (env_name k)); [by eapply parse_kind_ok|].
  destruct (last_value _ _); [by eapply parse_kind_ok|]. simplify_eq. rewrite H. by apply default_config_ok.
Qed.

Lemma config_in_bounds_witness :
  exists c1 c2 w,
    load_config (B"f") (Some sample_file) (default_config 0 (fun _ => 7%N)) = Loaded c1 w /\
    apply_env_overrides sample_env c1 = EnvOk c2 /\ config_ok c2.
Proof.
  do 3 eexists. split; [vm_compute; reflexivity|]. split; [vm_compute; reflexivity|].
  eapply (config_in_bounds (B"f") sample_file sample_env 0 (fun _ => 7%N));
    [lia|vm_compute; reflexivity|vm_compute; reflexivity].
Defined.

(** The verdict on a configuration file.  It is accepted exactly when no
    line is bad (no equals sign, or a known key with a value its kind rejects),
    with one warning for each line with an unknown key; otherwise the error
    carries the path and the number of the first bad line. *)
Theorem load_config_verdict (path text : bytes) (c : Config) :
  match load_config path (Some text) c with
  | Loaded _ w =>
      Forall (fun l => ~ bad_line l) (getlines text) /\
      length w = length (filter (fun l => unknown_line l = true) (getlines text))
  | LoadErr e =>
      exists pre l post msg, getlines text = pre ++ l :: post /\
        Forall (fun l => ~ bad_line l) pre /\ bad_line l /\
        e = at_line path (1 + Z.of_nat (length pre)) msg /\ msg <> []
  end.
Proof. exact (load_lines_report path (getlines text) 1 c []). Qed.

End Config.
