(* ===== verification/Placeholders.v ===== *)
(** * event_placeholders.cpp: substitution of the NSHMQTT_ tokens

    The random device and the clock are the environment: [world] gives, for the
    n-th generated value of a request, what its own [std::random_device] draws
    and what the clock reads.  The calendar ([gmtime_r], [strftime]) is
    modelled. *)

From S2P Require Import Prelude CLib.

Module Placeholders.

Record world := {
  draws : nat -> nat -> N;   (* draw i of the device made by call n *)
  now_ns : nat -> Z          (* system_clock at call n, nanoseconds since the epoch *)
}.

(** ** Generated values *)

Definition byte_hex (b : N) : bytes :=
  [hex_digit (N.land (N.shiftr b 4) 15); hex_digit (N.land b 15)].

Definition random_hex (hex_chars : nat) (rd : nat -> N) : bytes :=
  concat (map (fun i => byte_hex (N.land (rd i) 255)) (seq 0 (hex_chars / 2))).

(** The sixteen bytes, version and variant bits forced. *)
Definition uuid_byte (rd : nat -> N) (i : nat) : N :=
  let b := N.land (rd i) 255 in
  if decide (i = 6) then N.lor (N.land b 15) 64
  else if decide (i = 8) then N.lor (N.land b 63) 128
  else b.

Definition random_uuid_v4 (rd : nat -> N) : bytes :=
  concat (map (fun i => (if bool_decide (i ∈ [4; 6; 8; 10]) then B"-" else [])
                        ++ byte_hex (uuid_byte rd i)) (seq 0 16)).

(** [duration_cast] truncates towards zero; [unit_ns] nanoseconds per tick. *)
Definition timestamp_string (unit_ns : Z) (now : Z) : bytes := to_string (Z.quot now unit_ns).

(** ** gmtime_r and strftime

    The proleptic Gregorian calendar in 400-year eras counted from 1 March of
    the year 0. *)
Local Open Scope Z_scope.

Definition civil_of_era_day (doe : Z) : Z * Z * Z :=
  let yoe := (doe - doe / 1460 + doe / 36524 - doe / 146096) / 365 in
  let doy := doe - (365 * yoe + yoe / 4 - yoe / 100) in
  let mp := (5 * doy + 2) / 153 in
  let d := doy - (153 * mp + 2) / 5 + 1 in
  let m := if mp <? 10 then mp + 3 else mp - 9 in
  (yoe + (if m <=? 2 then 1 else 0), m, d).

(** Year, month, day of a day count from 1970-01-01. *)
Definition civil (days : Z) : Z * Z * Z :=
  let z := days + 719468 in
  let '(y, m, d) := civil_of_era_day (z mod 146097) in
  (y + 400 * (z / 146097), m, d).

Record tm := { tm_year : Z; tm_mon : Z; tm_mday : Z; tm_hour : Z; tm_min : Z; tm_sec : Z }.

Definition gmtime (t : Z) : tm :=
  let '(y, m, d) := civil (t / 86400) in
  let s := t mod 86400 in
  {| tm_year := y; tm_mon := m; tm_mday := d;
     tm_hour := s / 3600; tm_min := s mod 3600 / 60; tm_sec := s mod 60 |}.

Definition two_digits (z : Z) : bytes := if z <? 10 then B"0" ++ to_string z else to_string z.

Definition date_text (t : tm) : bytes :=
  to_string (tm_year t) ++ B"-" ++ two_digits (tm_mon t) ++ B"-" ++ two_digits (tm_mday t).
Definition time_text (t : tm) : bytes :=
  two_digits (tm_hour t) ++ B":" ++ two_digits (tm_min t) ++ B":" ++ two_digits (tm_sec t).

(** The three formats passed to [strftime]. *)
Inductive fmt := FDateTime | FDate | FTime.

Definition utc_strftime (f : fmt) (now : Z) : bytes :=
  let t := gmtime (now / 10 ^ 9) in
  match f with
  | FDateTime => date_text t ++ B"T" ++ time_text t ++ B"Z"
  | FDate => date_text t
  | FTime => time_text t
  end.

(** ** Replacement *)

Local Close Scope Z_scope.

(** The loop of [replace_all_with_fresh_values]: [n] counts the values
    generated so far; [None]: out of fuel. *)
Fixpoint replace_loop (fuel : nat) (token : bytes) (generate : nat -> bytes)
    (text : bytes) (pos n : nat) : option (bytes * nat) :=
  match fuel with
  | O => None
  | S fuel' =>
      match find token text pos with
      | None => Some (text, n)
      | Some p =>
          let value := generate n in
          let text' := take p text ++ value ++ drop (p + length token) text in
          replace_loop fuel' token generate text' (p + length value) (S n)
      end
  end.

Definition replace_all_with_fresh_values (token : bytes) (generate : nat -> bytes)
    (st : bytes * nat) : bytes * nat :=
  match replace_loop (S (length st.1)) token generate st.1 0 st.2 with
  | Some st' => st'
  | None => st
  end.

(** Tokens and generators, in the order of the passes. *)
Definition passes (w : world) : list (bytes * (nat -> bytes)) :=
  [(B"NSHMQTT_RANDOM_HEX8", fun n => random_hex 8 (draws w n));
   (B"NSHMQTT_RANDOM_HEX16", fun n => random_hex 16 (draws w n));
   (B"NSHMQTT_RANDOM_HEX32", fun n => random_hex 32 (draws w n));
   (B"NSHMQTT_RANDOM_HEX64", fun n => random_hex 64 (draws w n));
   (B"NSHMQTT_RANDOM_UUID", fun n => random_uuid_v4 (draws w n));
   (B"NSHMQTT_TIMESTAMP_S", fun n => timestamp_string (10 ^ 9) (now_ns w n));
   (B"NSHMQTT_TIMESTAMP_MS", fun n => timestamp_string (10 ^ 6) (now_ns w n));
   (B"NSHMQTT_TIMESTAMP_US", fun n => timestamp_string (10 ^ 3) (now_ns w n));
   (B"NSHMQTT_TIMESTAMP_NS", fun n => timestamp_string 1 (now_ns w n));
   (B"NSHMQTT_DATETIME_UTC", fun n => utc_strftime FDateTime (now_ns w n));
   (B"NSHMQTT_DATE_UTC", fun n => utc_strftime FDate (now_ns w n));
   (B"NSHMQTT_TIME_UTC", fun n => utc_strftime FTime (now_ns w n))].

Definition run_passes (ps : list (bytes * (nat -> bytes))) (st : bytes * nat) : bytes * nat :=
  fold_left (fun st p => replace_all_with_fresh_values p.1 p.2 st) ps st.

Definition substitute_event_placeholders (w : world) (payload : bytes) : bytes :=
  (run_passes (passes w) (payload, 0)).1.

(** ** Lemmas: one pass *)

(** [replaced token generate n t t' n']: [t] cut at the leftmost,
    non-overlapping occurrences of [token], the i-th of them replaced by the
    value generated by call [n + i]. *)
Inductive replaced (token : bytes) (generate : nat -> bytes) : nat -> bytes -> bytes -> nat -> Prop :=
| replaced_end n t :
    find token t 0 = None -> replaced token generate n t t n
| replaced_hit n pre rest rest' n' :
    find token (pre ++ token ++ rest) 0 = Some (length pre) ->
    replaced token generate (S n) rest rest' n' ->
    replaced token generate n (pre ++ token ++ rest) (pre ++ generate n ++ rest') n'.

Lemma find_shift needle pre t :
  find needle (pre ++ t) (length pre) = (fun k => length pre + k) <$> find needle t 0.
Proof. unfold find. rewrite drop_app_length, drop_0. apply find_from_shift. Qed.

Lemma find_cut needle t p :
  find needle t 0 = Some p -> t = take p t ++ needle ++ drop (p + length needle) t /\ length (take p t) = p.
Proof.
  unfold find. rewrite drop_0. intros H. apply find_from_Some in H as (_ & Hs & Hl & _).
  rewrite Nat.sub_0_r in *. apply starts_with_spec in Hs as [u Hu]. split.
  - rewrite <- drop_drop, Hu, drop_app_length, <- Hu. by rewrite take_drop.
  - rewrite length_take. lia.
Qed.

Lemma replace_loop_spec token generate fuel done t n :
  token <> [] -> length t < fuel ->
  exists t' n', replace_loop fuel token generate (done ++ t) (length done) n = Some (done ++ t', n') /\
                replaced token generate n t t' n'.
Proof.
  intros Hne. revert done t n. induction fuel as [|fuel IH]; intros done t n Hl; [lia|].
  cbn [replace_loop]. rewrite find_shift. destruct (find token t 0) as [p|] eqn:E; cbn [fmap option_fmap option_map].
  2:{ exists t, n. split; [done|by constructor]. }
  apply find_cut in E as Hc. destruct Hc as [Ht Hp]. set (pre := take p t) in *.
  set (rest := drop (p + length token) t) in *.
  assert (Hlen : length t = p + length token + length rest).
  { rewrite Ht, !length_app, Hp. lia. }
  assert (length token <> 0) by by destruct token.
  replace (take (length done + p) (done ++ t)) with (done ++ pre) by by rewrite take_app_add.
  replace (drop (length done + p + length token) (done ++ t)) with rest.
  2:{ by rewrite <- Nat.add_assoc, <- drop_drop, drop_app_length. }
  destruct (IH ((done ++ pre) ++ generate n) rest (S n)) as (rest' & n' & Hr & Hrep); [lia|].
  exists (pre ++ generate n ++ rest'), n'. split.
  - rewrite <- !app_assoc in Hr. rewrite !length_app, Hp in Hr. rewrite <- !app_assoc.
    by rewrite Nat.add_assoc in Hr.
  - rewrite Ht. constructor; [|done]. by rewrite <- Ht, Hp.
Qed.

Lemma replace_all_spec token generate t n :
  token <> [] ->
  exists t' n', replace_all_with_fresh_values token generate (t, n) = (t', n') /\
                replaced token generate n t t' n'.
Proof.
  intros Hne. destruct (replace_loop_spec token generate (S (length t)) [] t n Hne) as (t' & n' & H & Hr); [lia|].
  exists t', n'. split; [|done]. unfold replace_all_with_fresh_values. cbn [fst snd]. simpl app in H.
  simpl length in H. by rewrite H.
Qed.

Lemma replaced_none token generate n t : find token t 0 = None -> replace_all_with_fresh_values token generate (t, n) = (t, n).
Proof.
  intros H. unfold replace_all_with_fresh_values. cbn [fst snd replace_loop]. by rewrite H.
Qed.

(** ** Lemmas: generated text *)

Definition low_hex (c : ascii) : bool := isdigit c || in_range "a" "f" c.

Lemma hex_digit_low n : (n < 16)%N -> low_hex (hex_digit n) = true.
Proof.
  intros H. unfold hex_digit, low_hex. destruct (N.ltb_spec n 10).
  - apply orb_true_iff. left. unfold isdigit. rewrite in_range_spec, code_chr by lia.
    change (code "0") with 48%N. change (code "9") with 57%N. lia.
  - apply orb_true_iff. right. rewrite in_range_spec, code_chr by lia.
    change (code "a") with 97%N. change (code "f") with 102%N. lia.
Qed.

Lemma land_15 b : (N.land b 15 < 16)%N.
Proof. change 15%N with (N.ones 4). rewrite N.land_ones. by apply N.mod_lt. Qed.

Lemma byte_hex_low b : Forall (fun c => low_hex c = true) (byte_hex b).
Proof. repeat apply list.Forall_cons_2; [apply hex_digit_low, land_15..|]. by apply list.Forall_nil. Qed.

Lemma random_hex_low k rd :
  Forall (fun c => low_hex c = true) (random_hex k rd) /\ length (random_hex k rd) = 2 * (k / 2).
Proof.
  unfold random_hex. generalize (k / 2). intros m.
  assert (H : forall i, let r := concat (map (fun i => byte_hex (N.land (rd i) 255)) (seq i m)) in
    Forall (fun c => low_hex c = true) r /\ length r = 2 * m); [|apply (H 0)].
  induction m as [|m IH]; intros i; [split; [by apply list.Forall_nil|done]|].
  cbn [seq map concat]. destruct (IH (S i)) as [H1 H2]. split.
  - apply Forall_app_2; [apply byte_hex_low|done].
  - rewrite length_app, H2. simpl. lia.
Qed.

(** A canonical version 4, variant 1 UUID: 8-4-4-4-12 lower-case digits. *)
Definition uuid_shape (i : nat) (c : ascii) : bool :=
  if bool_decide (i ∈ [8; 13; 18; 23]) then Ascii.eqb c "-"
  else if decide (i = 14) then Ascii.eqb c "4"
  else if decide (i = 19) then bool_decide (c ∈ ["8"%char; "9"%char; "a"%char; "b"%char])
  else low_hex c.

Fixpoint all_at (p : nat -> ascii -> bool) (i : nat) (s : bytes) : bool :=
  match s with
  | [] => true
  | c :: s' => p i c && all_at p (S i) s'
  end.

Lemma hex_nibble_low b : low_hex (hex_digit (N.land b 15)) = true.
Proof. apply hex_digit_low, land_15. Qed.

Lemma version_nibble b : hex_digit (N.land (N.shiftr (N.lor (N.land b 15) 64) 4) 15) = "4"%char.
Proof.
  replace (N.land (N.shiftr (N.lor (N.land b 15) 64) 4) 15) with 4%N; [done|].
  rewrite N.shiftr_lor, N.shiftr_land. change (N.shiftr 15 4) with 0%N. by rewrite N.land_0_r.
Qed.

Lemma variant_nibble b :
  bool_decide (hex_digit (N.land (N.shiftr (N.lor (N.land b 63) 128) 4) 15) ∈ ["8"%char; "9"%char; "a"%char; "b"%char]) = true.
Proof.
  rewrite N.shiftr_lor, N.shiftr_land. change (N.shiftr 63 4) with (N.ones 2).
  change (N.shiftr 128 4) with 8%N. rewrite N.land_ones. 
  pose proof (N.mod_lt (N.shiftr b 4) (2 ^ 2) ltac:(done)) as H. generalize dependent (N.shiftr b 4 mod 2 ^ 2)%N.
  intros m Hm. assert (m = 0 \/ m = 1 \/ m = 2 \/ m = 3)%N as [Hm0|[Hm0|[Hm0|Hm0]]] by (change (2 ^ 2)%N with 4%N in Hm; lia); rewrite Hm0;
    vm_compute; reflexivity.
Qed.

(** ** Properties *)

Example header_datetime : utc_strftime FDateTime (1789050181 * 10 ^ 9) = B"2026-09-10T14:23:01Z".
Proof. vm_compute. reflexivity. Qed.

Example leap_day : utc_strftime FDate (1709164800 * 10 ^ 9 + 5) = B"2024-02-29".
Proof. vm_compute. reflexivity. Qed.

(** The passes in sequence, each cutting the text the previous one left. *)
Fixpoint pass_chain (ps : list (bytes * (nat -> bytes))) (n : nat) (t t' : bytes) (n' : nat) : Prop :=
  match ps with
  | [] => t = t' /\ n = n'
  | (token, generate) :: ps' =>
      exists t1 n1, replaced token generate n t t1 n1 /\ pass_chain ps' n1 t1 t' n'
  end.

Lemma run_passes_chain ps t n :
  Forall (fun p : bytes * (nat -> bytes) => p.1 <> []) ps ->
  pass_chain ps n t (run_passes ps (t, n)).1 (run_passes ps (t, n)).2.
Proof.
  intros H. revert t n. induction H as [|[token generate] ps Hne _ IH]; intros t n; [done|].
  cbn [pass_chain run_passes fold_left fst snd].
  destruct (replace_all_spec token generate t n Hne) as (t1 & n1 & Heq & Hr). rewrite Heq.
  exists t1, n1. split; [done|]. apply IH.
Qed.

Lemma passes_nonempty w : Forall (fun p : bytes * (nat -> bytes) => p.1 <> []) (passes w).
Proof. unfold passes. each (discriminate). Qed.

(** C39: the substitution ends and does what each pass is meant to do.  Twelve
    passes run in the order of the table; a pass cuts the text at the leftmost
    non-overlapping occurrences of its token, replaces each by a value of its
    own call of the generator (the calls are numbered one after the other, so no
    value is used twice), never scans a generated value for the same token, and
    leaves everything else of the text as it is. *)
Theorem substitute_correct (w : world) (payload : bytes) :
  exists calls, pass_chain (passes w) 0 payload (substitute_event_placeholders w payload) calls.
Proof. eexists. apply run_passes_chain, passes_nonempty. Qed.

(** A payload in which no token occurs is published as it came. *)
Theorem substitute_untouched (w : world) (payload : bytes)
    (H : Forall (fun p => find p.1 payload 0 = None) (passes w)) :
  substitute_event_placeholders w payload = payload.
Proof.
  unfold substitute_event_placeholders. cut (run_passes (passes w) (payload, 0) = (payload, 0)); [by intros ->|].
  revert H. generalize (passes w). intros ps. induction ps as [|[token generate] ps IH]; intros H; [done|].
  apply list.Forall_cons in H as [Hn H]. unfold run_passes. cbn [fold_left fst snd] in *.
  rewrite replaced_none by done. by apply IH.
Qed.

Lemma substitute_untouched_witness :
  let w := {| draws := fun _ _ => 7%N; now_ns := fun _ => 0%Z |} in
  substitute_event_placeholders w (B"NSHMQTT_RANDOM_HEX 20.5") = B"NSHMQTT_RANDOM_HEX 20.5".
Proof.
  intros w. apply substitute_untouched.
  unfold passes. each (vm_compute; reflexivity).
Defined.

(** A generated UUID is canonical whatever the device draws: 36 bytes in
    groups of 8-4-4-4-12 lower-case hexadecimal digits, version 4, variant 8, 9,
    a or b. *)
Theorem random_uuid_v4_canonical (rd : nat -> N) :
  length (random_uuid_v4 rd) = 36 /\ all_at uuid_shape 0 (random_uuid_v4 rd) = true.
Proof.
  split; [reflexivity|]. pose proof hex_nibble_low as Hlow. pose proof version_nibble as Hv.
  pose proof variant_nibble as Hx. unfold random_uuid_v4. cbn [seq map concat].
  repeat match goal with
  | |- context [bool_decide (?i ∈ [4; 6; 8; 10])] =>
      let b := eval vm_compute in (bool_decide (i ∈ [4; 6; 8; 10])) in
      change (bool_decide (i ∈ [4; 6; 8; 10])) with b
  end.
  change (B"-") with ["-"%char]. unfold byte_hex. cbn [app all_at].
  repeat (apply andb_true_intro; split);
    first [reflexivity | apply Hlow
          | change (Ascii.eqb (hex_digit (N.land (N.shiftr (N.lor (N.land (N.land (rd 6) 255) 15) 64) 4) 15)) "4" = true);
            by rewrite Hv
          | apply Hx].
Qed.

(** The passes see each other's output.  NSHMQTT_RANDOM_HEX is not a token,
    yet in front of NSHMQTT_RANDOM_HEX8 it is destroyed when the eight digits
    drawn start with 16: the second pass takes the text for a
    NSHMQTT_RANDOM_HEX16. *)
Theorem substitution_cascades :
  exists w : world,
    starts_with (B"NSHMQTT_RANDOM_HEX")
      (substitute_event_placeholders w (B"NSHMQTT_RANDOM_HEXNSHMQTT_RANDOM_HEX8")) = false /\
    substitute_event_placeholders w (B"NSHMQTT_RANDOM_HEX") = B"NSHMQTT_RANDOM_HEX".
Proof.
  exists {| draws := fun _ _ => 22%N; now_ns := fun _ => 0%Z |}. split; vm_compute; reflexivity.
Qed.

End Placeholders.
