(* ===== verification/Log.v ===== *)
(** * log.h: the log lines

    The logger with the two streams it writes to, the clock an argument of each
    call; then what a reader of those streams can and cannot tell. *)

From S2P Require Import Prelude CLib Placeholders.
Local Open Scope Z_scope.

Module Log.

Inductive LogLevel := Debug | Info | Warn | Error | Fatal.

#[export] Instance LogLevel_eq_dec : EqDecision LogLevel.
Proof. solve_decision. Defined.

(** [debug_enabled_], and the bytes that reached the two streams. *)
Record Logger := { debug_enabled : bool; stdout : bytes; stderr : bytes }.

Definition set_debug_enabled (enabled : bool) (l : Logger) : Logger := Build_Logger enabled (stdout l) (stderr l).

Definition level_name (level : LogLevel) : bytes :=
  match level with
  | Debug => B"DEBUG" | Info => B"INFO" | Warn => B"WARN" | Error => B"ERROR" | Fatal => B"FATAL"
  end.

(** [now]: nanoseconds since the epoch; [to_time_t] drops the fraction. *)
Definition timestamp (now : Z) : bytes :=
  let t := Placeholders.gmtime (Z.quot now (10 ^ 9)) in
  Placeholders.date_text t ++ B"T" ++ Placeholders.time_text t ++ B"Z".

(** The line of [fprintf]: a [%s] ends at a NUL. *)
Definition line (now : Z) (level : LogLevel) (msg : bytes) : bytes :=
  timestamp now ++ B" [" ++ level_name level ++ B"] " ++ c_str msg ++ [c_lf].

Definition log (now : Z) (level : LogLevel) (msg : bytes) (l : Logger) : Logger :=
  if bool_decide (level = Debug) && negb (debug_enabled l) then l
  else match level with
       | Info => Build_Logger (debug_enabled l) (stdout l ++ line now level msg) (stderr l)
       | _ => Build_Logger (debug_enabled l) (stdout l) (stderr l ++ line now level msg)
       end.

Definition log_debug (now : Z) (msg : bytes) : Logger -> Logger := log now Debug msg.
Definition log_info (now : Z) (msg : bytes) : Logger -> Logger := log now Info msg.
Definition log_warn (now : Z) (msg : bytes) : Logger -> Logger := log now Warn msg.
Definition log_error (now : Z) (msg : bytes) : Logger -> Logger := log now Error msg.
Definition log_fatal (now : Z) (msg : bytes) : Logger -> Logger := log now Fatal msg.

(** ** Calls in sequence

    [mutex_] makes each call one step, so any run of the program is a list of
    calls in the order they took it. *)

Definition entry : Type := Z * LogLevel * bytes.

Definition log_entry (l : Logger) (e : entry) : Logger := log e.1.1 e.1.2 e.2 l.

Definition log_all (es : list entry) (l : Logger) : Logger := fold_left log_entry es l.

(** ** A reader of the log *)

Definition levels : list LogLevel := [Debug; Info; Warn; Error; Fatal].

(** Timestamp, level and message of one line without its end. *)
Definition read_line (text : bytes) : option (bytes * LogLevel * bytes) :=
  let rest := drop_while (fun c => negb (Ascii.eqb c " ")) text in
  head (omap (fun level =>
    let tag := B" [" ++ level_name level ++ B"] " in
    if starts_with tag rest
    then Some (take_while (fun c => negb (Ascii.eqb c " ")) text, level, drop (length tag) rest) else None) levels).

(** Every line of a stream; [split_on] leaves an empty piece after the last one. *)
Definition read_stream (text : bytes) : option (list (bytes * LogLevel * bytes)) :=
  mapM read_line (removelast (split_on c_lf text)).

(** ** Lemmas *)

(** Bytes of a timestamp. *)
Definition stamp_char (c : ascii) : bool := isdigit c || Ascii.eqb c "-" || Ascii.eqb c ":" || Ascii.eqb c "T" || Ascii.eqb c "Z".

Lemma to_string_stamp z : Forall (fun c => stamp_char c = true) (to_string z).
Proof.
  assert (Hd : forall n, 0 <= n -> Forall (fun c => stamp_char c = true) (dec n)).
  { intros n Hn. eapply Forall_impl; [|apply dec_digits, Hn]. unfold stamp_char. by intros c ->. }
  unfold to_string. destruct (Z.ltb_spec z 0); [|by apply Hd]. apply list.Forall_cons_2; [done|]. apply Hd. lia.
Qed.

Lemma two_digits_stamp z : Forall (fun c => stamp_char c = true) (Placeholders.two_digits z).
Proof.
  unfold Placeholders.two_digits. destruct (z <? 10); [|apply to_string_stamp].
  apply list.Forall_cons_2; [done|]. apply to_string_stamp.
Qed.

Lemma timestamp_stamp now : Forall (fun c => stamp_char c = true) (timestamp now).
Proof.
  unfold timestamp, Placeholders.date_text, Placeholders.time_text. cbn zeta.
  repeat (apply list.Forall_app_2; [first [apply to_string_stamp|apply two_digits_stamp|by repeat constructor|idtac]|]);
    repeat first [apply list.Forall_app_2|apply two_digits_stamp|apply to_string_stamp]; by repeat constructor.
Qed.

Lemma stamp_not_in c l : Forall (fun c => stamp_char c = true) l -> stamp_char c = false -> c ∉ l.
Proof. intros H Hc Hin. rewrite list.Forall_forall in H. apply H in Hin. congruence. Qed.

Lemma timestamp_no_space now : Forall (fun c => negb (Ascii.eqb c " ") = true) (timestamp now).
Proof.
  eapply Forall_impl; [|apply timestamp_stamp]. intros c Hc. apply negb_true_iff. destruct (Ascii.eqb_spec c " "); [|done].
  by subst c.
Qed.

Lemma read_line_line now level msg :
  read_line (timestamp now ++ B" [" ++ level_name level ++ B"] " ++ msg) = Some (timestamp now, level, msg).
Proof.
  unfold read_line. pose proof (timestamp_no_space now) as H. rewrite drop_while_app, take_while_app by done.
  assert (E : drop_while (fun c => negb (Ascii.eqb c " ")) (B" [" ++ level_name level ++ B"] " ++ msg)
              = B" [" ++ level_name level ++ B"] " ++ msg) by reflexivity.
  rewrite E. replace (take_while _ (B" [" ++ _)) with (@nil ascii) by reflexivity. rewrite app_nil_r.
  by destruct level.
Qed.

(** The text of the line is one line when the message is. *)
Definition one_line (msg : bytes) : Prop := c_lf ∉ msg /\ c_nul ∉ msg.

Definition body (now : Z) (level : LogLevel) (msg : bytes) : bytes :=
  timestamp now ++ B" [" ++ level_name level ++ B"] " ++ msg.

Lemma line_body now level msg : one_line msg -> line now level msg = body now level msg ++ [c_lf] /\ c_lf ∉ body now level msg.
Proof.
  intros [Hl Hn]. unfold line, body. rewrite c_str_id by done. split; [by rewrite <- !app_assoc|].
  rewrite !not_elem_of_app. split_and!; [|not_in|destruct level; not_in|not_in|done].
  by eapply stamp_not_in; [apply timestamp_stamp|].
Qed.

(** What a call adds to a stream. *)
Definition to_stdout (level : LogLevel) : bool := bool_decide (level = Info).
Definition shown (debug : bool) (level : LogLevel) : bool := negb (bool_decide (level = Debug) && negb debug).

Definition on_stdout (debug : bool) (e : entry) : bool := shown debug e.1.2 && to_stdout e.1.2.
Definition on_stderr (debug : bool) (e : entry) : bool := shown debug e.1.2 && negb (to_stdout e.1.2).

Definition entry_line (e : entry) : bytes := line e.1.1 e.1.2 e.2.

Local Opaque timestamp.

Lemma log_entry_streams l e :
  log_entry l e =
  {| debug_enabled := debug_enabled l;
     stdout := stdout l ++ (if on_stdout (debug_enabled l) e then entry_line e else []);
     stderr := stderr l ++ (if on_stderr (debug_enabled l) e then entry_line e else []) |}.
Proof. destruct l as [[] o r], e as [[now []] msg]; cbn; by rewrite ?app_nil_r. Qed.

Lemma log_stderr now level msg l :
  on_stderr (debug_enabled l) (now, level, msg) = true ->
  log now level msg l = Build_Logger (debug_enabled l) (stdout l) (stderr l ++ line now level msg).
Proof. destruct l as [[] o r], level; done. Qed.

Lemma log_all_streams es l :
  log_all es l =
  {| debug_enabled := debug_enabled l;
     stdout := stdout l ++ concat (map entry_line (filter (fun e => on_stdout (debug_enabled l) e = true) es));
     stderr := stderr l ++ concat (map entry_line (filter (fun e => on_stderr (debug_enabled l) e = true) es)) |}.
Proof.
  revert l. induction es as [|e es IH]; intros [d o r]; [cbn; by rewrite !app_nil_r|].
  unfold log_all in *. cbn [fold_left]. rewrite log_entry_streams, IH, !filter_cons. cbn [debug_enabled stdout stderr].
  destruct (on_stdout d e), (on_stderr d e); cbn -[filter]; rewrite <- ?app_assoc; done.
Qed.

Lemma split_on_line x rest : c_lf ∉ x -> split_on c_lf (x ++ c_lf :: rest) = x :: split_on c_lf rest.
Proof.
  induction x as [|c x IH]; intros Hx; [done|]. apply not_elem_of_cons in Hx as [Hc Hx]. cbn.
  rewrite IH by done. by rewrite (proj2 (Ascii.eqb_neq c c_lf)).
Qed.

Lemma read_stream_lines es :
  Forall (fun e : entry => one_line e.2) es ->
  read_stream (concat (map entry_line es)) = Some (map (fun e : entry => (timestamp e.1.1, e.1.2, e.2)) es).
Proof.
  unfold read_stream. induction 1 as [|[[now level] msg] es He _ IH]; [done|]. cbn in He. cbn [map concat].
  destruct (line_body now level msg He) as [Hl Hn]. unfold entry_line at 1. cbn [fst snd]. rewrite Hl, <- app_assoc. cbn [app].
  rewrite split_on_line by done.
  set (pieces := split_on c_lf _) in *. assert (pieces <> []) by apply split_on_nonempty.
  replace (removelast (body now level msg :: pieces)) with (body now level msg :: removelast pieces) by (by destruct pieces).
  cbn. unfold body at 1. rewrite read_line_line. cbn. by rewrite IH.
Qed.

(** A message that carries the rest of its own line, any line, and the start of a third one
    prints as three lines. *)
Lemma timestamp_no_nul now : c_nul ∉ timestamp now.
Proof. eapply stamp_not_in; [apply timestamp_stamp|done]. Qed.

Lemma level_name_no_nul level : c_nul ∉ level_name level.
Proof. destruct level; not_in. Qed.

Lemma line_no_nul now level msg : c_nul ∉ msg -> c_nul ∉ line now level msg.
Proof.
  intros Hm. unfold line. rewrite c_str_id, !not_elem_of_app by done.
  pose proof (timestamp_no_nul now). pose proof (level_name_no_nul level). split_and!; try done; clear; not_in.
Qed.

(** The part of a message that ends its line before [after], adds a line, and starts another one
    with [before]. *)
Definition break (now t : Z) (level own : LogLevel) (msg before x y after : bytes) : bytes :=
  x ++ after ++ [c_lf] ++ line t level msg ++ timestamp now ++ B" [" ++ level_name own ++ B"] " ++ before ++ y.

Lemma break_no_nul now t level own msg before x y after :
  c_nul ∉ before ++ x ++ y ++ after ++ msg -> c_nul ∉ break now t level own msg before x y after.
Proof.
  rewrite !not_elem_of_app. intros (Hb & Hx & Hy & Ha & Hm). unfold break.
  pose proof (timestamp_no_nul now). pose proof (level_name_no_nul own). pose proof (line_no_nul t level msg Hm).
  rewrite !not_elem_of_app. split_and!; try done; clear; not_in.
Qed.

Lemma line_break now t level own msg before x y after :
  c_nul ∉ before ++ x ++ y ++ after ++ msg ->
  line now own (before ++ break now t level own msg before x y after ++ after)
  = line now own (before ++ x ++ after) ++ line t level msg ++ line now own (before ++ y ++ after).
Proof.
  intros H. pose proof (break_no_nul now t level own _ _ _ _ _ H) as Hn. revert H Hn.
  rewrite !not_elem_of_app. intros (Hb & Hx & Hy & Ha & Hm) Hn.
  assert (E : forall z, c_nul ∉ z -> c_str (before ++ z ++ after) = before ++ z ++ after).
  { intros z Hz. apply c_str_id. by rewrite !not_elem_of_app. }
  unfold line at 1 2 4. rewrite !E by done. unfold break. by rewrite <- !app_assoc.
Qed.

(** ** Properties *)

(** The log is readable when messages are single lines.  Whatever is logged, in
    whatever order, the two streams read back give timestamp, level and message of every
    call, in order, Info on stdout and the rest on stderr (Debug only when enabled), and
    nothing else. *)
Theorem log_roundtrip (debug : bool) (es : list entry) (H : Forall (fun e : entry => one_line e.2) es) :
  let l := log_all es {| debug_enabled := debug; stdout := []; stderr := [] |} in
  let seen := map (fun e : entry => (timestamp e.1.1, e.1.2, e.2)) in
  read_stream (stdout l) = Some (seen (filter (fun e : entry => e.1.2 = Info) es)) /\
  read_stream (stderr l) = Some (seen (filter (fun e : entry => e.1.2 <> Info /\ (e.1.2 = Debug -> debug = true)) es)).
Proof.
  cbn zeta. rewrite log_all_streams. cbn [stdout stderr debug_enabled app].
  assert (Hf : forall (P : entry -> Prop) `{forall e, Decision (P e)}, Forall (fun e : entry => one_line e.2) (filter P es)).
  { intros P HP. rewrite list.Forall_forall in *. intros e [_ He]%list_elem_of_filter. by apply H. }
  rewrite !read_stream_lines by apply Hf.
  split; do 2 f_equal; apply list_filter_iff; intros [[now level] msg]; unfold on_stdout, on_stderr, shown, to_stdout; cbn.
  - destruct level, debug; cbn; naive_solver.
  - destruct level, debug; cbn; naive_solver.
Qed.

Lemma log_roundtrip_witness :
  read_stream (stderr (log_all [(0, Info, B"up"); (10 ^ 9, Warn, B"x"); (0, Debug, B"y")] {| debug_enabled := false; stdout := []; stderr := [] |}))
  = Some [(B"1970-01-01T00:00:01Z", Warn, B"x")].
Proof.
  destruct (log_roundtrip false [(0, Info, B"up"); (10 ^ 9, Warn, B"x"); (0, Debug, B"y")]) as [_ H].
  - each (split; not_in).
  - rewrite H. vm_compute. reflexivity.
Defined.

End Log.
