(* ===== verification/Shim.v ===== *)
(** * docker/fortify_shim.cpp: the container's replacement symbols

    [pthread_cond_clockwait] in terms of [pthread_cond_timedwait], which every
    timed wait of the program goes through in the container image, and the names
    that forward to another function of the C library.  The clocks,
    [pthread_cond_timedwait] and the [v*printf] functions are the environment. *)

From S2P Require Import Prelude CLib Double.
Local Open Scope Z_scope.

Module Shim.

Record timespec := { tv_sec : Z; tv_nsec : Z }.

Definition second : Z := 1000000000.

(** The deadline passed on, from the deadline given and the two clock readings. *)
Definition real_deadline (abstime caller_now real_now : timespec) : timespec :=
  let sec := tv_sec abstime - tv_sec caller_now in
  let nsec := tv_nsec abstime - tv_nsec caller_now in
  let '(sec, nsec) := if nsec <? 0 then (sec - 1, nsec + second) else (sec, nsec) in
  let '(sec, nsec) := if sec <? 0 then (0, 0) else (sec, nsec) in
  let sec := tv_sec real_now + sec in
  let nsec := tv_nsec real_now + nsec in
  if second <=? nsec then {| tv_sec := sec + 1; tv_nsec := nsec - second |}
  else {| tv_sec := sec; tv_nsec := nsec |}.

(** [timedwait deadline]: what [pthread_cond_timedwait] returns, once it does. *)
Definition pthread_cond_clockwait {T : Type} (timedwait : timespec -> T)
    (abstime caller_now real_now : timespec) : T :=
  timedwait (real_deadline abstime caller_now real_now).

(** The checked [printf] family drops the arguments of the check and hands the format and
    the [va_list] made of the others to the plain function; its answer is the answer. *)
Section Printf.
Context {va_list FILE T : Type}.

Definition printf_chk (vprintf : bytes -> va_list -> T) (flag : Z) (format : bytes) (ap : va_list) : T :=
  let ret := vprintf format ap in ret.

Definition fprintf_chk (vfprintf : FILE -> bytes -> va_list -> T) (stream : FILE) (flag : Z) (format : bytes)
    (ap : va_list) : T :=
  let ret := vfprintf stream format ap in ret.

(** [T]: the answer and what was written to the buffer [s] of [maxlen] bytes. *)
Definition snprintf_chk {buffer : Type} (vsnprintf : buffer -> Z -> bytes -> va_list -> T) (s : buffer) (maxlen : Z)
    (flag slen : Z) (format : bytes) (ap : va_list) : T :=
  let ret := vsnprintf s maxlen format ap in ret.

End Printf.

(** The conversions forward their arguments. *)
Definition isoc23_strtol (base : Z) (nptr : bytes) : option (Z * bool * bytes) := strtol base nptr.
Definition isoc23_strtod (nptr : bytes) : option (double * bool * bytes) := strtod nptr.

Definition libc_single_threaded : Z := 0.

(** ** Lemmas *)

Definition nanoseconds (t : timespec) : Z := tv_sec t * second + tv_nsec t.
Definition normal (t : timespec) : Prop := 0 <= tv_nsec t < second.

Lemma real_deadline_spec abstime caller_now real_now :
  normal abstime -> normal caller_now -> normal real_now ->
  normal (real_deadline abstime caller_now real_now) /\
  nanoseconds (real_deadline abstime caller_now real_now)
  = nanoseconds real_now + Z.max 0 (nanoseconds abstime - nanoseconds caller_now).
Proof.
  destruct abstime as [as_ an], caller_now as [cs cn], real_now as [rs rn].
  unfold normal, nanoseconds, real_deadline, second. cbn [tv_sec tv_nsec]. intros Ha Hc Hr.
  destruct (Z.ltb_spec (an - cn) 0); cbn [fst snd];
    match goal with |- context [if ?s <? 0 then _ else _] => destruct (Z.ltb_spec s 0) end;
    match goal with |- context [if ?a <=? ?n then _ else _] => destruct (Z.leb_spec a n) end;
    cbn [tv_sec tv_nsec]; lia.
Qed.

(** ** Properties *)

(** C33: a timed wait in the container ends when it should.  [caller] and [real] are the two
    clocks over physical time, read at [t0] and [t1] (normalised readings).  The
    deadline passed on is a valid timespec, and at a time [t] it has passed exactly if,
    the changes made to the wall clock since [t1] discounted, the caller's
    clock shows the requested deadline or later, at latest by what passed between the two
    readings; a deadline already past ends the wait at once.  No [long] overflows when
    the clocks and the deadline are within 2^61 seconds. *)
Theorem clockwait_deadline (caller real : Z -> Z) (t0 t1 t : Z) (abstime caller_now real_now : timespec)
    (Ha : normal abstime) (Hc : normal caller_now) (Hr : normal real_now)
    (H0 : nanoseconds caller_now = caller t0) (H1 : nanoseconds real_now = real t1) :
  let stepped := (real t - caller t) - (real t1 - caller t1) in
  normal (real_deadline abstime caller_now real_now) /\
  (nanoseconds (real_deadline abstime caller_now real_now) <= real t <->
   Z.max (caller t1) (nanoseconds abstime + (caller t1 - caller t0)) <= caller t + stepped) /\
  (Z.abs (tv_sec abstime) <= 2 ^ 61 -> Z.abs (tv_sec caller_now) <= 2 ^ 61 -> Z.abs (tv_sec real_now) <= 2 ^ 61 ->
   LONG_MIN <= tv_sec abstime - tv_sec caller_now - 1 /\
   LONG_MIN <= tv_sec (real_deadline abstime caller_now real_now) <= LONG_MAX).
Proof.
  destruct (real_deadline_spec abstime caller_now real_now Ha Hc Hr) as [Hn He]. cbn zeta.
  split; [done|]. split; [rewrite He, H0, H1; lia|].
  intros B1 B2 B3. unfold normal, nanoseconds, second in *. unfold LONG_MIN, LONG_MAX.
  change (2 ^ 61) with 2305843009213693952 in *. change (2 ^ 63) with 9223372036854775808. lia.
Qed.

(** A steady clock started at 5 s, a wall clock far ahead of it; half a second requested. *)
Lemma clockwait_deadline_witness :
  normal (real_deadline {| tv_sec := 5; tv_nsec := 500000000 |} {| tv_sec := 5; tv_nsec := 0 |} {| tv_sec := 1700000000; tv_nsec := 700000000 |}) /\
  nanoseconds (real_deadline {| tv_sec := 5; tv_nsec := 500000000 |} {| tv_sec := 5; tv_nsec := 0 |} {| tv_sec := 1700000000; tv_nsec := 700000000 |})
  <= 1700000000700000000 + 500000000.
Proof.
  destruct (clockwait_deadline (fun t => 5000000000 + t) (fun t => 1700000000700000000 + t) 0 0 500000000
    {| tv_sec := 5; tv_nsec := 500000000 |} {| tv_sec := 5; tv_nsec := 0 |} {| tv_sec := 1700000000; tv_nsec := 700000000 |})
    as (H1 & [_ H2] & _).
  - unfold normal, second. cbn. lia.
  - unfold normal, second. cbn. lia.
  - unfold normal, second. cbn. lia.
  - reflexivity.
  - reflexivity.
  - split; [exact H1|]. apply H2. vm_compute. discriminate.
Defined.

End Shim.
