(* ===== verification/Threads.v ===== *)
(** * Shared by the concurrent components: runs, invariants and liveness

    A component is a state type, an [exec] function from events to partial state
    transformers, and the step relation it induces. *)

From S2P Require Import Prelude.
From stdpp Require Export relations.

Section Runs.
Context {S E : Type} (exec : E -> S -> option S).

(** A step by an event of the class [ok]. *)
Definition step_by (ok : E -> Prop) (s s' : S) : Prop := exists e, ok e /\ exec e s = Some s'.

(** Executing a list of events, all of which must be enabled. *)
Fixpoint run (es : list E) (s : S) : option S :=
  match es with
  | [] => Some s
  | e :: es' => match exec e s with Some s' => run es' s' | None => None end
  end.

Lemma run_rtc ok es s s' : Forall ok es -> run es s = Some s' -> rtc (step_by ok) s s'.
Proof.
  intros H. revert s. induction H as [|e es He _ IH]; intros s; simpl; [by intros [= ->]|].
  destruct (exec e s) as [s1|] eqn:E1; [|done]. intros Hr.
  eapply rtc_l; [by exists e|by apply IH].
Qed.

Lemma run_snoc es e s :
  run (es ++ [e]) s = match run es s with Some s' => exec e s' | None => None end.
Proof.
  revert s. induction es as [|e0 es IH]; intros s; simpl.
  - by destruct (exec e s).
  - destruct (exec e0 s); [apply IH|done].
Qed.

Lemma run_app es1 es2 s :
  run (es1 ++ es2) s = match run es1 s with Some s' => run es2 s' | None => None end.
Proof.
  revert s. induction es1 as [|e es IH]; intros s; simpl; [done|]. destruct (exec e s); [apply IH|done].
Qed.

Lemma run_rtc_True es s s' : run es s = Some s' -> rtc (step_by (fun _ => True)) s s'.
Proof. apply run_rtc. by apply list.Forall_forall. Qed.

(** An invariant of every step holds in every reachable state. *)
Lemma rtc_invariant (R : S -> S -> Prop) (I : S -> Prop) s s' :
  (forall a b, R a b -> I a -> I b) -> rtc R s s' -> I s -> I s'.
Proof. intros HR. induction 1 as [s|s s1 s2 Hs _ IH]; [done|]. intros Hi. apply IH. by eapply HR. Qed.

End Runs.

(** [eventually R P s]: every run of [R] from [s] gets to a state in [P], and
    is not stuck before. *)
Inductive eventually {S : Type} (R : S -> S -> Prop) (P : S -> Prop) : S -> Prop :=
| ev_now s : P s -> eventually R P s
| ev_later s :
    (exists s', R s s') -> (forall s', R s s' -> eventually R P s') -> eventually R P s.

Lemma eventually_weaken {S : Type} (R : S -> S -> Prop) (P Q : S -> Prop) s :
  (forall s, P s -> Q s) -> eventually R P s -> eventually R Q s.
Proof. intros HPQ. induction 1 as [s Hp|s Hx _ IH]; [by apply ev_now, HPQ|by apply ev_later]. Qed.

(** Liveness by a well-founded order: outside [P] some step is enabled and every step
    goes down in the order and keeps the invariant. *)
Lemma eventually_wf {S T : Type} (R : S -> S -> Prop) (P I : S -> Prop) (lt : T -> T -> Prop) (m : S -> T) :
  well_founded lt ->
  (forall s, I s -> P s \/ ((exists s', R s s') /\ forall s', R s s' -> I s' /\ lt (m s') (m s))) ->
  forall s, I s -> eventually R P s.
Proof.
  intros Hwf H s. remember (m s) as k eqn:Hk. revert s Hk.
  induction (Hwf k) as [k _ IH]. intros s -> Hi.
  destruct (H s Hi) as [|[Hp Hs]]; [by apply ev_now|]. apply ev_later; [done|].
  intros s' Hr. destruct (Hs s' Hr) as [Hi' Hlt]. by eapply IH.
Qed.

(** In particular by a measure. *)
Lemma eventually_measure {S : Type} (R : S -> S -> Prop) (P I : S -> Prop) (m : S -> nat) :
  (forall s, I s -> P s \/ ((exists s', R s s') /\ forall s', R s s' -> I s' /\ m s' < m s)) ->
  forall s, I s -> eventually R P s.
Proof. apply eventually_wf, lt_wf. Qed.

(** A state set that is closed under [R] and disjoint from [P] refutes liveness. *)
Lemma not_eventually {S : Type} (R : S -> S -> Prop) (P T : S -> Prop) s :
  (forall a b, T a -> R a b -> T b) -> (forall a, T a -> ~ P a) -> T s ->
  (forall a, T a -> (exists b, R a b) -> exists b, R a b /\ T b) -> ~ eventually R P s.
Proof.
  intros Hc Hd Ht Hx He. induction He as [s Hp|s Hex _ IH]; [by eapply Hd|].
  destruct (Hx s Ht Hex) as (b & Hb & HT). by eapply IH.
Qed.

(** Replacing one thread's state changes what the threads hold by what it held
    and what it now holds. *)
Lemma omap_insert_perm {A B : Type} (f : A -> option B) (l : list A) (i : nat) (x y : A) :
  l !! i = Some x ->
  option_list (f x) ++ omap f (<[i := y]> l) ≡ₚ option_list (f y) ++ omap f l.
Proof.
  intros H. rewrite <- (take_drop_middle _ _ _ H) at 2. rewrite insert_take_drop by by eapply lookup_lt_Some.
  rewrite !omap_app. simpl. destruct (f x), (f y); simpl; solve_Permutation.
Qed.
