(* ===== verification/ThreadPool.v ===== *)
(** * thread_pool.cpp: the HTTP worker pool

    A step relation over the pool's shared state, one step per critical section
    or condition-variable operation; threads are indexed by their position in
    [workers], and the accept thread owns [submit] and [shutdown]. *)

From S2P Require Import Prelude Threads.

Module ThreadPool.

(** Where a worker is: about to take the mutex and look at the queue, blocked in
    [cv_.wait], running [handler_(fd)], returned. *)
Inductive wpc := WLock | WWaiting | WHandling (fd : Z) | WExited.

(** The accept thread: between calls, before [notify_one] in [submit], before
    [notify_all] in [shutdown], in its joins, returned from [shutdown]. *)
Inductive apc := AIdle | ANotifyOne | ANotifyAll | AJoin | ADone.

#[export] Instance wpc_eq_dec : EqDecision wpc.
Proof. solve_decision. Defined.
#[export] Instance apc_eq_dec : EqDecision apc.
Proof. solve_decision. Defined.

Record pool := {
  queue_ : list Z;
  stop_ : bool;
  workers : list wpc;
  accept : apc;
  (* history *)
  accepted : list Z;   (* every fd [submit] queued *)
  closed : list Z;     (* every fd [submit] closed instead *)
  started : list Z;    (* every fd a worker took, in order *)
  handled : list Z     (* every fd whose handler returned *)
}.

(** The constructor: [num_threads] workers, nothing queued. *)
Definition create (num_threads : nat) : pool :=
  {| queue_ := []; stop_ := false; workers := replicate num_threads WLock; accept := AIdle;
     accepted := []; closed := []; started := []; handled := [] |}.

(** ** Operations *)

Definition set_accept (a : apc) (s : pool) : pool :=
  Build_pool (queue_ s) (stop_ s) (workers s) a (accepted s) (closed s) (started s) (handled s).
Definition set_worker (i : nat) (w : wpc) (s : pool) : pool :=
  Build_pool (queue_ s) (stop_ s) (<[i := w]> (workers s)) (accept s) (accepted s) (closed s)
    (started s) (handled s).

(** [submit]: the critical section. *)
Definition submit (fd : Z) (s : pool) : pool :=
  if stop_ s then
    Build_pool (queue_ s) (stop_ s) (workers s) (accept s) (accepted s) (closed s ++ [fd])
      (started s) (handled s)
  else
    Build_pool (queue_ s ++ [fd]) (stop_ s) (workers s) ANotifyOne (accepted s ++ [fd]) (closed s)
      (started s) (handled s).

(** [shutdown]: the critical section. *)
Definition shutdown (s : pool) : pool :=
  if stop_ s then s
  else Build_pool (queue_ s) true (workers s) ANotifyAll (accepted s) (closed s) (started s) (handled s).

Definition wake (w : wpc) : wpc := match w with WWaiting => WLock | _ => w end.

Definition notify_all (s : pool) : pool :=
  Build_pool (queue_ s) (stop_ s) (map wake (workers s)) AJoin (accepted s) (closed s) (started s) (handled s).

(** One turn of [worker_loop] of worker [i]: the critical section (which either
    blocks, returns or takes an fd), or the end of the handler. *)
Definition worker_turn (i : nat) (s : pool) : option pool :=
  match workers s !! i with
  | Some WLock =>
      if stop_ s || bool_decide (queue_ s <> []) then
        if stop_ s && bool_decide (queue_ s = []) then Some (set_worker i WExited s)
        else match queue_ s with
             | [] => Some s
             | fd :: q =>
                 Some (Build_pool q (stop_ s) (<[i := WHandling fd]> (workers s)) (accept s)
                         (accepted s) (closed s) (started s ++ [fd]) (handled s))
             end
      else Some (set_worker i WWaiting s)
  | Some (WHandling fd) =>
      Some (Build_pool (queue_ s) (stop_ s) (<[i := WLock]> (workers s)) (accept s)
              (accepted s) (closed s) (started s) (handled s ++ [fd]))
  | _ => None
  end.

(** ** Steps *)

Inductive event :=
| Submit (fd : Z)
| NotifyOne (i : option nat)   (* the waiter it wakes, if there is one *)
| Shutdown
| NotifyAll
| Joined
| Worker (i : nat)
| Spurious (i : nat).          (* a wake-up without a notification *)

Definition exec (e : event) (s : pool) : option pool :=
  match e with
  | Submit fd => if decide (accept s = AIdle \/ accept s = ADone) then Some (submit fd s) else None
  | NotifyOne (Some i) =>
      if decide (accept s = ANotifyOne /\ workers s !! i = Some WWaiting)
      then Some (set_accept AIdle (set_worker i WLock s)) else None
  | NotifyOne None =>
      if decide (accept s = ANotifyOne /\ Forall (fun w => w <> WWaiting) (workers s))
      then Some (set_accept AIdle s) else None
  | Shutdown => if decide (accept s = AIdle) then Some (shutdown s) else None
  | NotifyAll => if decide (accept s = ANotifyAll) then Some (notify_all s) else None
  | Joined =>
      if decide (accept s = AJoin /\ Forall (fun w => w = WExited) (workers s))
      then Some (set_accept ADone s) else None
  | Worker i => worker_turn i s
  | Spurious i => if decide (workers s !! i = Some WWaiting) then Some (set_worker i WLock s) else None
  end.

Definition step (s s' : pool) : Prop := exists e, exec e s = Some s'.

Definition reachable (n : nat) (s : pool) : Prop := rtc step (create n) s.

(** ** The invariant *)

Definition in_flight (w : wpc) : option Z := match w with WHandling fd => Some fd | _ => None end.

(** Some worker is neither blocked nor gone. *)
Definition awake (w : wpc) : Prop := w <> WWaiting /\ w <> WExited.

Record pool_inv (n : nat) (s : pool) : Prop := {
  inv_size : length (workers s) = n;
  (* first in, first out; nothing lost *)
  inv_fifo : accepted s = started s ++ queue_ s;
  inv_flight : started s ≡ₚ omap in_flight (workers s) ++ handled s;
  (* no lost wake-up: work in the queue, or a stop request, is known to someone *)
  inv_awake : queue_ s <> [] -> accept s = ANotifyOne \/ accept s = ANotifyAll \/ Exists awake (workers s);
  inv_notified : stop_ s = true -> accept s = ANotifyAll \/ Forall (fun w => w <> WWaiting) (workers s);
  (* the accept thread's phases *)
  inv_stop : stop_ s = false <-> (accept s = AIdle \/ accept s = ANotifyOne);
  inv_exited : Exists (fun w => w = WExited) (workers s) -> stop_ s = true /\ queue_ s = [];
  inv_done : accept s = ADone -> Forall (fun w => w = WExited) (workers s)
}.

(** ** Lemmas *)

Lemma Forall_insert_w (P : wpc -> Prop) ws i w : Forall P ws -> P w -> Forall P (<[i := w]> ws).
Proof. intros. by apply Forall_insert. Qed.

Lemma Exists_insert_w (P : wpc -> Prop) ws i w : i < length ws -> P w -> Exists P (<[i := w]> ws).
Proof.
  intros Hi Hp. apply list.Exists_exists. exists w. split; [|done].
  apply list_elem_of_lookup. exists i. by apply list_lookup_insert_eq.
Qed.

(** Changing worker [i] to a state outside [P] brings no new witness. *)
Lemma Exists_insert_inv (P : wpc -> Prop) ws i w : Exists P (<[i := w]> ws) -> P w \/ Exists P ws.
Proof.
  rewrite !list.Exists_exists. intros (x & Hx & Hp). apply list_elem_of_lookup in Hx as [j Hj].
  apply list_lookup_insert_Some in Hj as [(-> & -> & _)|[_ Hj]]; [by left|right].
  exists x. split; [|done]. by eapply list_elem_of_lookup_2.
Qed.

Lemma create_inv n : 0 < n -> pool_inv n (create n).
Proof.
  intros Hn. split; simpl; try done.
  - apply length_replicate.
  - by induction n as [|[|m] IH]; [lia| |apply IH; lia].
  - split; auto.
  - intros H. apply list.Exists_exists in H as (x & Hx & ->). apply elem_of_replicate in Hx as [? _]. done.
Qed.

(** A worker moves between states that hold no fd and are not [WExited]. *)
Lemma set_worker_inv n s i w w' :
  pool_inv n s -> workers s !! i = Some w -> in_flight w = None -> w <> WExited ->
  in_flight w' = None ->
  (w' = WWaiting -> stop_ s = false /\ queue_ s = []) ->
  (w' = WExited -> stop_ s = true /\ queue_ s = []) ->
  pool_inv n (set_worker i w' s).
Proof.
  intros [Hs Hf Hp Ha Hn Hst He Hd] Hw Hfl Hne Hfl' Hwait Hex.
  assert (Hlt : i < length (workers s)) by by eapply lookup_lt_Some.
  split; simpl; try done.
  - by rewrite length_insert.
  - rewrite Hp. f_equiv. pose proof (omap_insert_perm in_flight _ _ _ w' Hw) as Hperm.
    rewrite Hfl, Hfl' in Hperm. simpl in Hperm. by rewrite Hperm.
  - intros Hq. destruct (Ha Hq) as [|[|]]; auto. right. right.
    apply Exists_insert_w; [done|].
    split; intros ->; [by destruct (Hwait eq_refl)|by destruct (Hex eq_refl)].
  - intros Hstop. destruct (Hn Hstop) as [|Hall]; auto. right. apply Forall_insert_w; [done|].
    intros ->. destruct (Hwait eq_refl); congruence.
  - intros [->|H]%Exists_insert_inv; auto.
  - intros Hdone. exfalso. apply Hd in Hdone. rewrite list.Forall_lookup in Hdone.
    apply Hdone in Hw. done.
Qed.

Lemma submit_inv n fd s :
  pool_inv n s -> accept s = AIdle \/ accept s = ADone -> pool_inv n (submit fd s).
Proof.
  intros [Hs Hf Hp Ha Hn Hst He Hd] Hacc. unfold submit. destruct (stop_ s) eqn:E.
  - split; simpl; try done; by rewrite E.
  - assert (accept s = AIdle) as Hi.
    { destruct Hst as [Hst _]. destruct Hacc; [done|]. destruct (Hst eq_refl); congruence. }
    split; simpl; try done; auto.
    + by rewrite Hf, app_assoc.
    + split; auto.
    + intros H. by apply He in H as [? _].
Qed.

Lemma shutdown_inv n s : pool_inv n s -> accept s = AIdle -> pool_inv n (shutdown s).
Proof.
  intros [Hs Hf Hp Ha Hn Hst He Hd] Hi. unfold shutdown. destruct (stop_ s) eqn:E; [by split; rewrite ?E|].
  split; simpl; try done; auto.
  - split; [done|]. by intros [|].
  - intros H. by apply He in H as [? _].
Qed.

Lemma wake_awake w : w <> WExited -> awake (wake w).
Proof. by destruct w. Qed.

Lemma map_wake_flight ws : omap in_flight (map wake ws) = omap in_flight ws.
Proof. induction ws as [|w ws IH]; [done|]. destruct w; simpl; first [exact IH|f_equal; exact IH]. Qed.

Lemma notify_all_inv n s : 0 < n -> pool_inv n s -> accept s = ANotifyAll -> pool_inv n (notify_all s).
Proof.
  intros Hpos [Hs Hf Hp Ha Hn Hst He Hd] Hi.
  split; simpl; try done.
  - by rewrite length_map.
  - by rewrite map_wake_flight.
  - intros Hq. right. right. destruct (workers s) as [|w ws] eqn:Ew; [simpl in Hs; lia|].
    left. apply wake_awake. intros ->. destruct He as [_ Hq']; [by left|]. done.
  - intros _. right. apply Forall_map, list.Forall_forall. intros w _. by destruct w.
  - split; [|by intros [|]]. intros Hf'. apply Hst in Hf' as [|]; congruence.
  - intros H. apply He. apply list.Exists_exists in H as (x & Hx & ->).
    apply list_elem_of_fmap in Hx as (w & Hw & Hin). apply list.Exists_exists. exists w.
    split; [done|]. by destruct w.
Qed.

Lemma set_accept_inv n s a :
  pool_inv n s ->
  (a = AIdle /\ accept s = ANotifyOne /\ (queue_ s <> [] -> Exists awake (workers s))) \/
  (a = ADone /\ accept s = AJoin /\ Forall (fun w => w = WExited) (workers s)) ->
  0 < n -> pool_inv n (set_accept a s).
Proof.
  intros [Hs Hf Hp Ha Hn Hst He Hd] Hcase Hpos.
  assert (Hex : Forall (fun w => w = WExited) (workers s) -> queue_ s = [] /\ Forall (fun w => w <> WWaiting) (workers s)).
  { intros HF. split.
    - destruct (workers s) as [|w ws]; [simpl in Hs; lia|]. inv HF. apply He. by left.
    - eapply list.Forall_impl; [exact HF|]. by intros w ->. }
  destruct Hcase as [(-> & Hc & Hq)|(-> & Hc & HF)]; split; simpl; try done; auto.
  - intros Hstop. apply Hn in Hstop as [|]; [congruence|auto].
  - split; [by left|]. intros _. apply Hst. auto.
  - intros Hq. by apply Hex in HF as [? _].
  - intros _. right. by apply Hex.
  - split; [|by intros [|]]. intros Hf'. apply Hst in Hf' as [|]; congruence.
Qed.

Lemma worker_turn_inv n i s s' : pool_inv n s -> worker_turn i s = Some s' -> pool_inv n s'.
Proof.
  intros Hinv. pose proof Hinv as [Hs Hf Hp Ha Hn Hst He Hd]. unfold worker_turn.
  destruct (workers s !! i) as [w|] eqn:Hw; [|done].
  assert (Hlt : i < length (workers s)) by by eapply lookup_lt_Some.
  assert (Hndone : w <> WExited -> accept s = ADone -> False).
  { intros Hne Hdone. apply Hd in Hdone. rewrite list.Forall_lookup in Hdone. by apply Hdone in Hw. }
  destruct w as [| |fd|]; try done.
  - destruct (stop_ s) eqn:E, (queue_ s) as [|fd q] eqn:Eq; simpl; intros [= <-].
    + eapply set_worker_inv; try done; by rewrite ?E.
    + split; simpl; try done.
      * by rewrite length_insert.
      * by rewrite Hf, <- app_assoc.
      * pose proof (omap_insert_perm in_flight _ _ _ (WHandling fd) Hw) as Hperm. simpl in Hperm.
        rewrite Hp. rewrite Hperm. solve_Permutation.
      * intros _. right. right. by apply Exists_insert_w.
      * intros Hstop. destruct (Hn eq_refl) as [|Hall]; auto. right. by apply Forall_insert_w.
      * intros [|H]%Exists_insert_inv; [done|]. by apply He in H as [_ ?].
      * intros Hdone. exfalso. by apply Hndone.
    + eapply set_worker_inv; try done; by rewrite ?E.
    + split; simpl; try done.
      * by rewrite length_insert.
      * by rewrite Hf, <- app_assoc.
      * pose proof (omap_insert_perm in_flight _ _ _ (WHandling fd) Hw) as Hperm. simpl in Hperm.
        rewrite Hp. rewrite Hperm. solve_Permutation.
      * intros _. right. right. by apply Exists_insert_w.
      * intros [|H]%Exists_insert_inv; [done|]. by apply He in H as [? _].
      * intros Hdone. exfalso. by apply Hndone.
  - intros [= <-]. split; simpl; try done.
    + by rewrite length_insert.
    + pose proof (omap_insert_perm in_flight _ _ _ WLock Hw) as Hperm. simpl in Hperm.
      rewrite Hp. rewrite <- Hperm. simpl. solve_Permutation.
    + intros _. right. right. by apply Exists_insert_w.
    + intros Hstop. destruct (Hn Hstop) as [|Hall]; auto. right. by apply Forall_insert_w.
    + intros [|H]%Exists_insert_inv; [done|auto].
    + intros Hdone. exfalso. by apply Hndone.
Qed.

Lemma pool_exec_inv n e s s' : 0 < n -> pool_inv n s -> exec e s = Some s' -> pool_inv n s'.
Proof.
  intros Hpos Hinv H. destruct e as [fd|[i|]| | | |i|i]; simpl in H.
  - case_decide; simplify_eq. by apply submit_inv.
  - case_decide as Hc; simplify_eq. destruct Hc as [Hacc Hw].
    assert (Hinv' : pool_inv n (set_worker i WLock s)) by by eapply set_worker_inv.
    apply set_accept_inv; [done| |done]. left. split_and!; [done|done|].
    intros _. simpl. apply Exists_insert_w; [by eapply lookup_lt_Some|done].
  - case_decide as Hc; simplify_eq. destruct Hc as [Hacc HF].
    apply set_accept_inv; [done| |done]. left. split_and!; [done|done|].
    intros _. pose proof Hinv as [Hs _ _ _ _ Hst He _].
    destruct (workers s) as [|w ws] eqn:Ew; [simpl in Hs; lia|]. left. inv HF. split; [done|].
    intros ->. assert (stop_ s = false) by (apply Hst; auto). destruct He as [? _]; [by left|congruence].
  - case_decide; simplify_eq. by apply shutdown_inv.
  - case_decide; simplify_eq. by apply notify_all_inv.
  - case_decide as Hc; simplify_eq. destruct Hc. apply set_accept_inv; auto.
  - by eapply worker_turn_inv.
  - case_decide as Hw; simplify_eq. by eapply set_worker_inv.
Qed.

Lemma pool_reachable_inv n s : 0 < n -> reachable n s -> pool_inv n s.
Proof.
  intros Hpos H. unfold reachable in H. pose proof (create_inv n Hpos) as Hi. revert Hi.
  induction H as [s|s s1 s2 [e He] _ IH]; [done|]. intros Hi. apply IH. by eapply pool_exec_inv.
Qed.

(** What the workers still have to do once a stop is requested. *)
Definition weight (w : wpc) : nat :=
  match w with WLock => 1 | WWaiting => 2 | WHandling _ => 2 | WExited => 0 end.
Definition accept_weight (a : apc) : nat :=
  match a with AIdle => 4 | ANotifyOne => 3 | ANotifyAll => 2 | AJoin => 1 | ADone => 0 end.
Definition work (s : pool) : nat :=
  3 * length (queue_ s) + sum_list_with weight (workers s) + accept_weight (accept s).

Lemma sum_weight_insert ws i w w' :
  ws !! i = Some w -> sum_list_with weight (<[i := w']> ws) + weight w = sum_list_with weight ws + weight w'.
Proof.
  intros H. rewrite <- (take_drop_middle _ _ _ H) at 2. rewrite insert_take_drop by by eapply lookup_lt_Some.
  rewrite !sum_list_with_app. simpl. lia.
Qed.

Lemma sum_weight_wake ws : sum_list_with weight (map wake ws) <= sum_list_with weight ws.
Proof. induction ws as [|w ws IH]; [done|]. destruct w; simpl; lia. Qed.

(** After the stop request every step is progress. *)
Lemma stopping_step n s s' :
  pool_inv n s -> stop_ s = true -> accept s <> ADone -> step s s' -> stop_ s' = true /\ work s' < work s.
Proof.
  intros [Hs Hf Hp Ha Hn Hst He Hd] Hstop Hnd [e H].
  assert (Hacc : accept s = ANotifyAll \/ accept s = AJoin).
  { destruct (accept s); auto; try done; destruct Hst as [_ Hst]; rewrite Hst in Hstop by auto; done. }
  unfold work. destruct e as [fd|[i|]| | | |i|i]; simpl in H.
  - case_decide as Hc; [exfalso; clear -Hc Hacc Hnd; intuition congruence|done].
  - case_decide as Hc; [exfalso; clear -Hc Hacc Hnd; intuition congruence|done].
  - case_decide as Hc; [exfalso; clear -Hc Hacc Hnd; intuition congruence|done].
  - case_decide as Hc; [exfalso; clear -Hc Hacc Hnd; intuition congruence|done].
  - case_decide as Hc; simplify_eq. simpl. rewrite Hc. simpl.
    pose proof (sum_weight_wake (workers s)). split; [done|lia].
  - case_decide as Hc; simplify_eq. simpl. destruct Hc as [-> _]. simpl. split; [done|lia].
  - unfold worker_turn in H. destruct (workers s !! i) as [w|] eqn:Hw; [|done].
    destruct w as [| |fd|]; try done.
    + rewrite Hstop in H. simpl in H. destruct (queue_ s) as [|fd q] eqn:Eq; simpl in H; simplify_eq; simpl; rewrite ?Eq.
      * pose proof (sum_weight_insert _ _ _ WExited Hw). simpl in *. split; [done|lia].
      * pose proof (sum_weight_insert _ _ _ (WHandling fd) Hw). simpl in *. split; [done|lia].
    + simplify_eq. simpl. pose proof (sum_weight_insert _ _ _ WLock Hw). simpl in *. split; [done|lia].
  - case_decide as Hw; simplify_eq. simpl. pose proof (sum_weight_insert _ _ _ WLock Hw). simpl in *. split; [done|lia].
Qed.

(** ... and one that needs no spurious wake-up is enabled. *)
Lemma stopping_progress n s :
  pool_inv n s -> stop_ s = true -> accept s <> ADone ->
  exists e s', (forall i, e <> Spurious i) /\ exec e s = Some s'.
Proof.
  intros [Hs Hf Hp Ha Hn Hst He Hd] Hstop Hnd.
  destruct (accept s) eqn:E; try (destruct Hst as [_ Hst]; rewrite Hst in Hstop by auto; done); try done.
  { exists NotifyAll. eexists. split; [done|]. simpl. by rewrite decide_True. }
  destruct (Hn Hstop) as [|Hnw]; [done|].
  destruct (decide (Forall (fun w => w = WExited) (workers s))) as [HF|HF].
  { exists Joined. eexists. split; [done|]. simpl. by rewrite decide_True. }
  apply not_Forall_Exists in HF; [|intros w; apply wpc_eq_dec].
  apply list.Exists_exists in HF as (w & Hin & Hne). apply list_elem_of_lookup in Hin as [i Hw].
  rewrite list.Forall_lookup in Hnw. specialize (Hnw _ _ Hw). exists (Worker i). simpl. unfold worker_turn. rewrite Hw.
  destruct w as [| |fd|]; try done.
  - rewrite Hstop. simpl. destruct (queue_ s); simpl; by eexists.
  - by eexists.
  - by destruct Hne.
Qed.

(** When [shutdown] has returned, all that was queued was handled. *)
Lemma done_drained n s :
  0 < n -> pool_inv n s -> accept s = ADone -> queue_ s = [] /\ handled s ≡ₚ accepted s.
Proof.
  intros Hn [Hsz Hf Hp _ _ _ He Hdone] Hd. pose proof (Hdone Hd) as HF.
  assert (Hq : queue_ s = []).
  { destruct (workers s) as [|w ws]; [simpl in Hsz; lia|]. inv HF. apply He. by left. }
  split; [done|]. rewrite Hf, Hq, app_nil_r, Hp.
  assert (omap in_flight (workers s) = []) as ->; [|done].
  clear -HF. induction HF as [|w ws -> _ IH]; [done|]. exact IH.
Qed.

(** The fds a schedule submits. *)
Definition submits (es : list event) : list Z :=
  omap (fun e => match e with Submit fd => Some fd | _ => None end) es.

Definition open_unless_stopped (s : pool) : Prop := stop_ s = false -> closed s = [].

Lemma exec_no_submit e s s' :
  exec e s = Some s' -> submits [e] = [] ->
  accepted s' = accepted s /\ closed s' = closed s /\ (stop_ s' = false -> stop_ s = false).
Proof.
  intros H He. destruct e as [fd|[i|]| | | |i|i]; cbn [exec] in H; try done;
    try (case_decide; [|done]; injection H as <-; by split_and!).
  - case_decide; [|done]. injection H as <-. unfold shutdown. destruct (stop_ s) eqn:E; cbn; split_and!; congruence.
  - unfold worker_turn in H. repeat case_match; by simplify_eq.
Qed.

Lemma exec_submits e s s' :
  exec e s = Some s' -> open_unless_stopped s ->
  open_unless_stopped s' /\ accepted s' ++ closed s' = (accepted s ++ closed s) ++ submits [e].
Proof.
  unfold open_unless_stopped. intros H Ho. destruct (decide (submits [e] = [])) as [He|He].
  - destruct (exec_no_submit _ _ _ H He) as (-> & -> & Hs). rewrite He, app_nil_r. auto.
  - destruct e as [fd| | | | | |]; try done. cbn [exec] in H. case_decide; [|done]. injection H as <-.
    unfold submit. destruct (stop_ s) eqn:E; cbn; [split; [done|by rewrite app_assoc]|]. rewrite Ho by done. split; [done|by rewrite !app_nil_r].
Qed.

Lemma run_no_submits es s s' :
  run exec es s = Some s' -> submits es = [] -> accepted s' = accepted s /\ closed s' = closed s.
Proof.
  revert s. induction es as [|e es IH]; intros s; cbn [run]; [by intros [= <-]|].
  intros H He. destruct (exec e s) as [s1|] eqn:E; [|done].
  change (e :: es) with ([e] ++ es) in He. unfold submits in He. rewrite omap_app in He. apply app_eq_nil in He as [He Hes].
  destruct (exec_no_submit _ _ _ E He) as (<- & <- & _). by apply IH.
Qed.

Lemma run_submits es s s' :
  run exec es s = Some s' -> open_unless_stopped s ->
  open_unless_stopped s' /\ accepted s' ++ closed s' = (accepted s ++ closed s) ++ submits es.
Proof.
  revert s. induction es as [|e es IH]; intros s; cbn [run]; [intros [= <-]; by rewrite app_nil_r|].
  intros H Ho. destruct (exec e s) as [s1|] eqn:E; [|done]. destruct (exec_submits _ _ _ E Ho) as [Ho1 E1].
  destruct (IH s1 H Ho1) as [Ho2 E2]. split; [done|]. rewrite E2, E1, <- app_assoc. f_equal.
  unfold submits. by rewrite <- omap_app.
Qed.

Lemma run_reachable n es s : run exec es (create n) = Some s -> reachable n s.
Proof.
  intros H. apply run_rtc_True in H. unfold reachable. eapply rtc_subrel; [|exact H].
  intros a b (e & _ & He). by exists e.
Qed.

(** ** Properties *)

(** C22: nothing accepted is lost.  In every reachable state of a pool with at
    least one worker, the fds handed to the pool are, in order, those taken by
    workers followed by those still queued, and those taken are exactly the ones
    in a handler and the ones whose handler returned: each fd is handled at most
    once and none disappears. *)
Theorem pool_conserves_fds (n : nat) (s : pool) (Hn : 0 < n) (H : reachable n s) :
  accepted s = started s ++ queue_ s /\
  started s ≡ₚ omap in_flight (workers s) ++ handled s.
Proof. destruct (pool_reachable_inv n s Hn H). done. Qed.

Lemma pool_conserves_fds_witness :
  exists s, reachable 2 s /\ queue_ s = [9%Z] /\ accepted s = started s ++ queue_ s /\
            started s ≡ₚ omap in_flight (workers s) ++ handled s.
Proof.
  destruct (run exec [Worker 0; Submit 7; NotifyOne (Some 0); Worker 0; Submit 9] (create 2)) as [s|] eqn:E;
    [|vm_compute in E; discriminate].
  exists s. assert (Hr : reachable 2 s).
  { eapply rtc_subrel; [|eapply (run_rtc exec (fun _ => True)); [|exact E]].
    - intros a b (e & _ & He). by exists e.
    - repeat constructor. }
  split; [exact Hr|]. split; [vm_compute in E; by simplify_eq|].
  apply (pool_conserves_fds 2); [lia|exact Hr].
Defined.

(** No lost wake-up.  Whenever a connection is queued, some step other than
    a spurious wake-up or a further submission is enabled: a notification is
    still to be sent or a worker is awake. *)
Theorem pool_never_stalls (n : nat) (s : pool) (Hn : 0 < n) (H : reachable n s) (Hq : queue_ s <> []) :
  exists e s', (forall i, e <> Spurious i) /\ (forall fd, e <> Submit fd) /\ e <> Shutdown /\ exec e s = Some s'.
Proof.
  destruct (pool_reachable_inv n s Hn H) as [Hs Hf Hp Ha Hnf Hst He Hd].
  destruct (Ha Hq) as [Hacc|[Hacc|Hex]].
  - destruct (decide (Forall (fun w => w <> WWaiting) (workers s))) as [HF|HF].
    + exists (NotifyOne None). eexists. split_and!; [done..|]. simpl. by rewrite decide_True.
    + apply not_Forall_Exists in HF; [|intros w; apply not_dec, wpc_eq_dec].
      apply list.Exists_exists in HF as (w & Hin & Hne). apply list_elem_of_lookup in Hin as [i Hw].
      apply dec_stable in Hne as ->. exists (NotifyOne (Some i)). eexists. split_and!; [done..|].
      simpl. by rewrite decide_True.
  - exists NotifyAll. eexists. split_and!; [done..|]. simpl. by rewrite decide_True.
  - apply list.Exists_exists in Hex as (w & Hin & Hwt & Hwe). apply list_elem_of_lookup in Hin as [i Hw].
    exists (Worker i). simpl. unfold worker_turn. rewrite Hw. destruct w as [| |fd|]; try done.
    + destruct (queue_ s); [done|]. rewrite bool_decide_true by done. rewrite orb_true_r.
      rewrite bool_decide_false by done. rewrite andb_false_r. by eexists.
    + by eexists.
Qed.

Lemma pool_never_stalls_witness :
  let s := submit 7 (create 1) in
  reachable 1 s /\ exists e s', (forall i, e <> Spurious i) /\ (forall fd, e <> Submit fd) /\ e <> Shutdown /\ exec e s = Some s'.
Proof.
  assert (Hr : reachable 1 (submit 7 (create 1))).
  { eapply rtc_l; [|apply rtc_refl]. exists (Submit 7). vm_compute. reflexivity. }
  split; [exact Hr|]. apply (pool_never_stalls 1); [lia|exact Hr|discriminate].
Defined.

(** C23: shutdown completes and drains.  From any reachable state in which the
    stop was requested, every run reaches the return of [shutdown] (no schedule
    gets stuck or goes on for ever, handlers being assumed to return); there the
    queue is empty and the handler has run for exactly the accepted fds. *)
Theorem pool_shutdown_drains (n : nat) (s : pool) (Hn : 0 < n) (H : reachable n s) (Hs : stop_ s = true) :
  eventually step (fun s' => accept s' = ADone /\ queue_ s' = [] /\ handled s' ≡ₚ accepted s') s.
Proof.
  apply (eventually_measure _ _ (fun s => reachable n s /\ stop_ s = true) work); [|done].
  clear s H Hs. intros s [H Hs]. pose proof (pool_reachable_inv n s Hn H) as Hinv.
  destruct (decide (accept s = ADone)) as [Hd|Hd].
  - left. split; [done|]. by eapply done_drained.
  - right. split.
    + destruct (stopping_progress n s Hinv Hs Hd) as (e & s' & _ & He). exists s'. by exists e.
    + intros s' Hst. destruct (stopping_step n s s' Hinv Hs Hd Hst) as [Hs' Hlt]. split_and!; [|done|done].
      eapply rtc_r; [exact H|done].
Qed.

Lemma pool_shutdown_drains_witness :
  eventually step (fun s' => accept s' = ADone /\ queue_ s' = [] /\ handled s' ≡ₚ accepted s')
    (shutdown (submit 8 (create 3))).
Proof.
  apply (pool_shutdown_drains 3); [lia| |reflexivity].
  eapply rtc_l; [exists (Submit 8); vm_compute; reflexivity|].
  eapply rtc_l; [exists (NotifyOne None); vm_compute; reflexivity|].
  eapply rtc_l; [exists Shutdown; vm_compute; reflexivity|].
  apply rtc_refl.
Defined.

End ThreadPool.
