(* ===== verification/Mailbox.v ===== *)
(** * The bounded queue with one worker that webhook.cpp and mqtt.cpp share

    Both [WebhookClient] and the subscribe side of [MqttClient] keep a deque
    under a mutex, a condition variable, an atomic [running_] flag and one
    thread with the same loop:

      while (running_) { lock; wait(pred); if empty { if !running_ break; continue; }
                         pop; unlock; handle }

    where pred is [!running_ || !queue.empty()].  Their [stop] clears the flag
    without taking the mutex, notifies, and joins.  This file models that
    protocol once, for any item type; Webhook.v and Mqtt.v instantiate it. *)

From S2P Require Import Prelude Threads.

Module Mailbox.

(** Where the worker is.  In [PBlock] it has found the predicate false and
    still holds the mutex; blocking releases it. *)
Inductive wpc {J : Type} := PLoop | PLock | PBlock | PWaiting | PBusy (j : J) | PExited.
Arguments wpc : clear implicits.

(** The thread in [stop]. *)
Inductive spc := SIdle | SNotify | SJoin | SDone.

#[export] Instance spc_eq_dec : EqDecision spc.
Proof. solve_decision. Defined.

Record box {J : Type} := {
  running : bool;
  items : list J;
  worker : wpc J;
  wakes : nat;          (* notifications still to be sent by producers *)
  stopper : spc;
  (* history *)
  pushed : list J;
  popped : list J
}.
Arguments box : clear implicits.

Section Box.
Context {J : Type}.
Implicit Types s : box J.

(** After [start]: the flag is set and the thread exists. *)
Definition started_box : box J :=
  {| running := true; items := []; worker := PLoop; wakes := 0; stopper := SIdle;
     pushed := []; popped := [] |}.

(** The mutex is free unless the worker is about to block. *)
Definition lock_free s : bool := match worker s with PBlock => false | _ => true end.

Definition set_worker (w : wpc J) s : box J :=
  Build_box J (running s) (items s) w (wakes s) (stopper s) (pushed s) (popped s).
Definition set_stopper (t : spc) s : box J :=
  Build_box J (running s) (items s) (worker s) (wakes s) t (pushed s) (popped s).

(** A producer's critical section: [false] when [capacity] items are queued. *)
Definition offer (capacity : Z) (j : J) s : bool * box J :=
  if (capacity <=? Z.of_nat (length (items s)))%Z then (false, s)
  else (true, Build_box J (running s) (items s ++ [j]) (worker s) (S (wakes s)) (stopper s)
                (pushed s ++ [j]) (popped s)).

(** A notification reaches the worker if it is blocked. *)
Definition wake (w : wpc J) : wpc J := match w with PWaiting => PLock | _ => w end.

(** The producer's [notify_one]. *)
Definition notify_one s : box J :=
  Build_box J (running s) (items s) (wake (worker s)) (pred (wakes s)) (stopper s) (pushed s) (popped s).

(** [running_.exchange(false)]. *)
Definition clear_running s : box J :=
  if running s then Build_box J false (items s) (worker s) (wakes s) SNotify (pushed s) (popped s)
  else s.

(** [notify_all]. *)
Definition notify_stop s : box J :=
  Build_box J (running s) (items s) (wake (worker s)) (wakes s) SJoin (pushed s) (popped s).

(** The worker, up to the handler. *)
Definition worker_turn s : option (box J) :=
  match worker s with
  | PLoop => Some (set_worker (if running s then PLock else PExited) s)
  | PLock =>
      match items s with
      | j :: rest =>
          Some (Build_box J (running s) rest (PBusy j) (wakes s) (stopper s) (pushed s) (popped s ++ [j]))
      | [] => Some (set_worker (if running s then PBlock else PExited) s)
      end
  | PBlock => Some (set_worker PWaiting s)
  | PWaiting | PBusy _ | PExited => None
  end.

(** The handler returns. *)
Definition worker_done s : option (box J) :=
  match worker s with PBusy _ => Some (set_worker PLoop s) | _ => None end.

(** ** The protocol as a step relation *)

Inductive event :=
| Offer (j : J)
| NotifyOne
| Turn
| HandlerDone
| Stop
| NotifyAll
| Joined
| Spurious.

Context (capacity : Z).

Definition exec (e : event) s : option (box J) :=
  match e with
  | Offer j => if lock_free s then Some (offer capacity j s).2 else None
  | NotifyOne => if decide (wakes s <> 0) then Some (notify_one s) else None
  | Turn => worker_turn s
  | HandlerDone => worker_done s
  | Stop => if decide (stopper s = SIdle) then Some (clear_running s) else None
  | NotifyAll => if decide (stopper s = SNotify) then Some (notify_stop s) else None
  | Joined =>
      match stopper s, worker s with SJoin, PExited => Some (set_stopper SDone s) | _, _ => None end
  | Spurious => match worker s with PWaiting => Some (set_worker PLock s) | _ => None end
  end.

Definition genuine (e : event) : Prop := e <> Spurious.

Definition reachable s : Prop := rtc (step_by exec (fun _ => True)) started_box s.

(** Only [Stop] touches the flag. *)
Lemma exec_running e s s' : e <> Stop -> exec e s = Some s' -> running s' = running s.
Proof.
  intros He H. destruct e; try done; cbn [exec] in H.
  - destruct (lock_free s); [|done]. injection H as <-. unfold offer. by case_match.
  - case_decide; [|done]. by injection H as <-.
  - unfold worker_turn in H. destruct (worker s); try done; [|destruct (items s)|]; by injection H as <-.
  - unfold worker_done in H. destruct (worker s); try done. by injection H as <-.
  - case_decide; [|done]. by injection H as <-.
  - destruct (stopper s), (worker s); try done; by injection H as <-.
  - destruct (worker s); try done; by injection H as <-.
Qed.

(** Only [Offer] adds items. *)
Lemma exec_no_offer e s s' :
  (forall j, e <> Offer j) -> exec e s = Some s' ->
  pushed s' = pushed s /\ length (items s') <= length (items s).
Proof.
  intros He H. destruct e as [j| | | | | | |]; cbn [exec] in H.
  - by destruct (He j).
  - case_decide; [|done]. by injection H as <-.
  - unfold worker_turn in H. destruct (worker s); try done; [| |]; try (by injection H as <-).
    destruct (items s) eqn:E; injection H as <-; cbn; rewrite ?E; cbn; split; (done || lia).
  - unfold worker_done in H. destruct (worker s); try done. by injection H as <-.
  - case_decide; [|done]. injection H as <-. unfold clear_running. by destruct (running s).
  - case_decide; [|done]. by injection H as <-.
  - destruct (stopper s), (worker s); try done; by injection H as <-.
  - destruct (worker s); try done; by injection H as <-.
Qed.

(** ** Invariant *)

Definition busy (w : wpc J) : list J := match w with PBusy j => [j] | _ => [] end.

Record box_inv s : Prop := {
  bi_fifo : pushed s = popped s ++ items s;
  bi_bound : (Z.of_nat (length (items s)) <= Z.max 0 capacity)%Z;
  bi_stop : running s = true <-> stopper s = SIdle;
  (* while running, an item in the queue is known to the worker or announced *)
  bi_block : worker s = PBlock -> items s = [];
  bi_awake : items s <> [] -> worker s = PWaiting -> wakes s <> 0;
  bi_exit : worker s = PExited -> running s = false;
  bi_done : stopper s = SDone -> worker s = PExited
}.

Lemma started_inv : box_inv started_box.
Proof. split; simpl; try done; lia. Qed.

Lemma box_exec_inv e s s' : box_inv s -> exec e s = Some s' -> box_inv s'.
Proof.
  intros [Hf Hb Hst Hbl Ha He Hd] H. destruct e; simpl in H.
  - unfold lock_free, offer in H.
    destruct (Z.leb_spec capacity (Z.of_nat (length (items s)))); destruct (worker s) eqn:Ew; simplify_eq/=;
      (split; simpl; rewrite ?Ew, ?Hf, ?app_assoc, ?length_app; simpl; try done; auto; lia).
  - case_decide; simplify_eq. split; simpl; try done.
    + intros Hw. apply Hbl. by destruct (worker s).
    + intros Hi Hw. by destruct (worker s).
    + intros Hw. apply He. by destruct (worker s).
    + intros Hs. by rewrite Hd.
  - unfold worker_turn in H. destruct (worker s) eqn:Ew; simplify_eq/=; try done.
    + destruct (running s) eqn:Er; split; simpl; try done; rewrite ?Er; try done; intros Hs; by specialize (Hd Hs).
    + destruct (items s) as [|j rest] eqn:Ei; [destruct (running s) eqn:Er|]; simplify_eq;
        (split; simpl; rewrite ?Er, ?Ei; try done; rewrite ?Hf, <- ?app_assoc; simpl in *; try done; try lia;
         intros Hs; by specialize (Hd Hs)).
    + split; simpl; try done; auto; try (intros Hs; by specialize (Hd Hs)).
      all: try (intros Hi; by rewrite Hbl in Hi).
  - unfold worker_done in H. destruct (worker s) eqn:Ew; simplify_eq; try done.
    split; simpl; try done. intros Hs. by specialize (Hd Hs).
  - case_decide as Hs; simplify_eq. unfold clear_running. destruct (running s) eqn:Er; [|by split; rewrite ?Er].
    split; simpl; try done; auto.
  - case_decide as Hs; simplify_eq. split; simpl; try done.
    + rewrite Hst, Hs. by split.
    + intros Hw. apply Hbl. by destruct (worker s).
    + intros Hi Hw. by destruct (worker s).
    + intros Hw. apply He. by destruct (worker s).
  - destruct (stopper s) eqn:Es; try done. destruct (worker s) eqn:Ew; simplify_eq.
    split; simpl; rewrite ?Ew; try done; auto. rewrite Hst. by split.
  - destruct (worker s) eqn:Ew; simplify_eq. split; simpl; try done.
    intros Hs. by specialize (Hd Hs).
Qed.

Lemma box_reachable_inv s : reachable s -> box_inv s.
Proof.
  intros H. eapply (rtc_invariant _ box_inv); [|exact H|apply started_inv].
  intros a b (e & _ & He) Hi. by eapply box_exec_inv.
Qed.

(** ** The lost wake-up *)

(** The flag is down, the stopper waits in its join and the worker sleeps with
    no notification left to come. *)
Definition hung s : Prop :=
  running s = false /\ stopper s = SJoin /\ worker s = PWaiting /\ wakes s = 0.

(** What a client of the protocol may still do once it has stopped: nothing is
    offered any more (the flag, or the order of the shutdown, sees to that). *)
Definition after_stop (e : event) : Prop := match e with Offer _ | Spurious => False | _ => True end.

Lemma hung_stuck s e s' : hung s -> after_stop e -> exec e s = Some s' -> s' = s.
Proof.
  intros (Hr & Hs & Hw & Hk) Hok H. destruct e; simpl in *; try done.
  - by rewrite Hk in H.
  - unfold worker_turn in H. by rewrite Hw in H.
  - unfold worker_done in H. by rewrite Hw in H.
  - by rewrite Hs in H.
  - by rewrite Hs in H.
  - by rewrite Hs, Hw in H.
Qed.

Lemma hung_forever s s' : hung s -> rtc (step_by exec after_stop) s s' -> s' = s.
Proof.
  intros Hh H. induction H as [|s s1 s2 (e & Hok & He) _ IH]; [done|].
  assert (s1 = s) as -> by by eapply hung_stuck. by apply IH.
Qed.

(** The schedule: the worker evaluates the predicate, [stop] runs up to its
    join, the worker blocks. *)
Definition bad_schedule : list event := [Turn; Turn; Stop; NotifyAll; Turn].

Lemma bad_schedule_hangs : exists s, run exec bad_schedule started_box = Some s /\ hung s.
Proof. eexists. split; [reflexivity|]. done. Qed.

(** ** Outside that window [stop] returns *)

Definition safe s : Prop :=
  running s = false /\ worker s <> PBlock /\ (worker s = PWaiting -> stopper s = SNotify).

Definition worker_weight (w : wpc J) : nat :=
  match w with PExited => 0 | PLoop => 1 | PBusy _ => 2 | PLock => 3 | PWaiting => 4 | PBlock => 5 end.
Definition stop_weight (t : spc) : nat :=
  match t with SIdle => 3 | SNotify => 2 | SJoin => 1 | SDone => 0 end.
Definition todo s : nat := worker_weight (worker s) + stop_weight (stopper s) + wakes s.

Lemma safe_step s s' :
  box_inv s -> safe s -> stopper s <> SDone -> step_by exec after_stop s s' ->
  box_inv s' /\ safe s' /\ todo s' < todo s.
Proof.
  intros Hinv (Hr & Hb & Hw) Hnd (e & Hok & H). split; [by eapply box_exec_inv|].
  pose proof Hinv as [_ _ Hst _ _ _ _].
  assert (Hni : stopper s <> SIdle) by (intros Hi; apply Hst in Hi; congruence).
  unfold safe, todo. destruct e; simpl in *; try done.
  - case_decide; simplify_eq. simpl. destruct (worker s); simpl; split_and!; try done; lia.
  - unfold worker_turn in H. destruct (worker s) eqn:Ew; simplify_eq/=; try done; rewrite ?Hr.
    + simpl. split_and!; try done; lia.
    + destruct (items s); simplify_eq; rewrite ?Hr; simpl; split_and!; try done; lia.
  - unfold worker_done in H. destruct (worker s) eqn:Ew; simplify_eq/=; try done. split_and!; try done; lia.
  - case_decide; done.
  - case_decide as Hs; simplify_eq. simpl. rewrite Hs. destruct (worker s); simpl; split_and!; try done; lia.
  - destruct (stopper s) eqn:Es; try done. destruct (worker s) eqn:Ew; simplify_eq. simpl.
    rewrite Ew. split_and!; try done. simpl. lia.
Qed.

Lemma safe_progress s :
  box_inv s -> safe s -> stopper s <> SDone -> exists s', step_by exec after_stop s s'.
Proof.
  intros [_ _ Hst _ _ _ _] (Hr & Hb & Hw) Hnd.
  destruct (stopper s) eqn:Es; try done.
  - destruct Hst as [_ Hst]. rewrite Hst in Hr by done. done.
  - eexists. exists NotifyAll. split; [done|]. simpl. by rewrite decide_True.
  - destruct (worker s) eqn:Ew; try done.
    + eexists. exists Turn. split; [done|]. simpl. unfold worker_turn. by rewrite Ew.
    + destruct (items s) as [|j r] eqn:Ei; eexists; exists Turn; (split; [done|]); simpl; unfold worker_turn; by rewrite Ew, Ei.
    + naive_solver.
    + eexists. exists HandlerDone. split; [done|]. simpl. unfold worker_done. by rewrite Ew.
    + eexists. exists Joined. split; [done|]. simpl. by rewrite Es, Ew.
Qed.

Lemma safe_stop_returns s :
  box_inv s -> safe s -> eventually (step_by exec after_stop) (fun s' => stopper s' = SDone) s.
Proof.
  intros Hi Hs. apply (eventually_measure _ _ (fun s => box_inv s /\ safe s) todo); [|done].
  clear s Hi Hs. intros s [Hi Hs]. destruct (decide (stopper s = SDone)) as [|Hnd]; [by left|right].
  split; [by apply safe_progress|]. intros s' Hst. destruct (safe_step s s' Hi Hs Hnd Hst) as (? & ? & ?). done.
Qed.

(** ** While it runs, the queue drains *)

(** Steps that need neither a new item, nor a stop, nor luck. *)
Definition own_step (e : event) : Prop := match e with NotifyOne | Turn | HandlerDone => True | _ => False end.

Definition wait_weight (w : wpc J) : nat :=
  match w with PExited => 0 | PWaiting => 0 | PBlock => 1 | PLock => 2 | PLoop => 3 | PBusy _ => 4 end.

(** What is still to be done: every notification and every item cost three steps. *)
Definition work s : nat := 3 * wakes s + 3 * length (items s) + wait_weight (worker s).

Definition drained s : Prop := items s = [] /\ wakes s = 0 /\ worker s = PWaiting.

Lemma own_step_work e s s' :
  running s = true -> own_step e -> exec e s = Some s' ->
  running s' = true /\ work s' < work s /\ pushed s' = pushed s /\ stopper s' = stopper s.
Proof.
  intros Hr Hok H. unfold work. destruct e; try done; cbn [exec] in H.
  - case_decide as Hk; [|done]. injection H as <-. cbn. split_and!; try done. destruct (worker s); cbn; lia.
  - unfold worker_turn in H. destruct (worker s) eqn:Ew; try done.
    + rewrite Hr in H. injection H as <-. cbn. split_and!; try done. lia.
    + destruct (items s) as [|j rest] eqn:Ei; [rewrite Hr in H|]; injection H as <-; cbn; rewrite ?Ei; cbn; split_and!; try done; lia.
    + injection H as <-. cbn. split_and!; try done. lia.
  - unfold worker_done in H. destruct (worker s) eqn:Ew; try done. injection H as <-. cbn. split_and!; try done. lia.
Qed.

(** The bound plays no part in this. *)
Lemma own_progress s :
  (items s <> [] -> worker s = PWaiting -> wakes s <> 0) -> (worker s = PExited -> running s = false) ->
  running s = true -> drained s \/ exists e s', own_step e /\ exec e s = Some s'.
Proof.
  intros Ha He Hr. destruct (wakes s) as [|n] eqn:Ek.
  2:{ right. exists NotifyOne, (notify_one s). split; [done|]. cbn. by rewrite Ek. }
  destruct (worker s) eqn:Ew.
  - right. eexists Turn, _. split; [done|]. cbn. unfold worker_turn. by rewrite Ew.
  - right. destruct (items s) as [|j r] eqn:Ei; eexists Turn, _; (split; [done|]); cbn; unfold worker_turn; by rewrite Ew, Ei.
  - right. eexists Turn, _. split; [done|]. cbn. unfold worker_turn. by rewrite Ew.
  - left. split_and!; [|done|done]. destruct (items s); [done|]. by destruct (Ha ltac:(done) ltac:(done)).
  - right. eexists HandlerDone, _. split; [done|]. cbn. unfold worker_done. by rewrite Ew.
  - by rewrite He in Hr.
Qed.

(** ** Property *)

(** When [stop] returns.  If the flag is cleared while the worker is not
    between its test of the predicate and the wait, and is not asleep unless the
    notification is still to come, then [stop] returns on every schedule,
    provided nothing more is offered and handlers return. *)
Theorem stop_returns_outside_window s
    (Hr : reachable s) (Hf : running s = false) (Hb : worker s <> PBlock)
    (Hw : worker s = PWaiting -> stopper s = SNotify) :
  eventually (step_by exec after_stop) (fun s' => stopper s' = SDone) s.
Proof. apply safe_stop_returns; [by apply box_reachable_inv|done]. Qed.

End Box.

Lemma stop_returns_outside_window_witness :
  let s := clear_running (set_worker PWaiting (started_box (J := nat))) in
  eventually (step_by (exec 4) after_stop) (fun s' => stopper s' = SDone) s.
Proof.
  apply stop_returns_outside_window; [|reflexivity|discriminate|reflexivity].
  eapply (run_rtc (exec 4) (fun _ => True) [Turn; Turn; Turn; Stop]); [repeat constructor|reflexivity].
Defined.

Arguments event : clear implicits.

End Mailbox.
