(* ===== verification/Prog.v ===== *)
(** * Effectful code as programs

    A handler or a start-up routine is a finite program over the operations of
    its component: a result, or one operation and what follows each of its
    answers.  What the operations do is left to the interpreters: [Server.v] (shared
    state, several threads), or the logged runs below ([Listen.v]: system calls,
    [HttpClient.v]: libcurl, [Paho.v]: the broker library). *)

From S2P Require Import Prelude.

Section Prog.
Context {op : Type -> Type}.

Inductive prog (R : Type) : Type :=
| Ret (r : R)
| Do (A : Type) (o : op A) (rest : A -> prog R).
Arguments Ret {R} r.
Arguments Do {R A} o rest.

Fixpoint bind {R T : Type} (p : prog R) (f : R -> prog T) : prog T :=
  match p with
  | Ret r => f r
  | Do o rest => Do o (fun a => bind (rest a) f)
  end.

(** Every operation of the program satisfies [f], whatever the answers. *)
Fixpoint all_ops {R : Type} (f : forall A, op A -> bool) (p : prog R) : Prop :=
  match p with Ret _ => True | Do o rest => f _ o = true /\ forall a, all_ops f (rest a) end.

Lemma all_ops_bind {R T : Type} (h : forall A, op A -> bool) (p : prog R) (f : R -> prog T) :
  all_ops h p -> (forall r, all_ops h (f r)) -> all_ops h (bind p f).
Proof.
  intros Hp Hf. induction p as [r|A o rest IH]; cbn in *; [apply Hf|].
  destruct Hp as [Ho Hp]. split; [done|]. intros a. apply IH, Hp.
Qed.

Lemma all_ops_weaken {R : Type} (h h' : forall A, op A -> bool) (p : prog R) :
  (forall A (o : op A), h A o = true -> h' A o = true) -> all_ops h p -> all_ops h' p.
Proof.
  intros Hh. induction p as [r|A o rest IH]; cbn; [done|]. intros [Ho Hr]. split; [by apply Hh|]. intros a. by apply IH.
Qed.

(** Every result of the program satisfies [P]. *)
Fixpoint returns {R : Type} (P : R -> Prop) (p : prog R) : Prop :=
  match p with Ret r => P r | Do o rest => forall a, returns P (rest a) end.

Lemma returns_bind {R T : Type} (P : T -> Prop) (p : prog R) (f : R -> prog T) :
  (forall r, returns P (f r)) -> returns P (bind p f).
Proof. intros Hf. induction p as [r|A o rest IH]; cbn; [apply Hf|done]. Qed.

(** ** Two programs side by side

    They perform operations related by [E], and go on alike after every answer. *)

Inductive alike (E : forall A, op A -> op A -> Prop) {R : Type} : prog R -> prog R -> Prop :=
| alike_ret r : alike E (Ret r) (Ret r)
| alike_do A (o o' : op A) rest rest' :
    E A o o' -> (forall a, alike E (rest a) (rest' a)) -> alike E (Do o rest) (Do o' rest').

Lemma alike_refl (E : forall A, op A -> op A -> Prop) {R : Type} (p : prog R) :
  (forall A (o : op A), E A o o) -> alike E p p.
Proof. intros HE. induction p as [r|A o rest IH]; by constructor. Qed.

Lemma alike_all_ops (E : forall A, op A -> op A -> Prop) (h : forall A, op A -> bool) {R : Type} (p : prog R) :
  (forall A (o : op A), h A o = true -> E A o o) -> all_ops h p -> alike E p p.
Proof.
  intros HE. induction p as [r|A o rest IH]; [by constructor|]. intros [Ho Hr]. constructor; [by apply HE|].
  intros a. by apply IH.
Qed.

Lemma alike_bind (E : forall A, op A -> op A -> Prop) {R T : Type} (p p' : prog R) (f f' : R -> prog T) :
  alike E p p' -> (forall r, alike E (f r) (f' r)) -> alike E (bind p f) (bind p' f').
Proof. intros Hp Hf. induction Hp as [r|A o o' rest rest' Ho _ IH]; cbn; [apply Hf|by constructor]. Qed.

(** ** Logged runs

    The outside world answers every operation; it is an arbitrary function of
    what happened so far, and the run is the list of what was asked and
    answered. *)

Inductive event : Type := Ev (A : Type) (o : op A) (a : A).
Arguments Ev {A} o a.

Definition world : Type := list event -> forall A, op A -> A.

Fixpoint run_log {R : Type} (w : world) (p : prog R) (log : list event) : R * list event :=
  match p with
  | Ret r => (r, log)
  | Do o rest => let a := w log _ o in run_log w (rest a) (log ++ [Ev o a])
  end.

Lemma run_log_bind {R T : Type} (w : world) (p : prog R) (f : R -> prog T) log :
  run_log w (bind p f) log = run_log w (f (run_log w p log).1) (run_log w p log).2.
Proof. revert log. induction p as [r|A o rest IH]; intros log; cbn; [done|apply IH]. Qed.

(** [triple p Q log]: continuing from [log], the program ends with a result and a log
    satisfying [Q], whatever the world answers. *)
Fixpoint triple {R : Type} (p : prog R) (Q : R -> list event -> Prop) (log : list event) : Prop :=
  match p with
  | Ret r => Q r log
  | Do o rest => forall a, triple (rest a) Q (log ++ [Ev o a])
  end.

Lemma triple_run {R : Type} (w : world) (p : prog R) (Q : R -> list event -> Prop) log :
  triple p Q log -> Q (run_log w p log).1 (run_log w p log).2.
Proof. revert log. induction p as [r|A o rest IH]; intros log H; cbn in *; [done|]. apply IH, H. Qed.

Lemma triple_bind {R T : Type} (p : prog R) (f : R -> prog T) (Q : T -> list event -> Prop) log :
  triple p (fun r log => triple (f r) Q log) log -> triple (bind p f) Q log.
Proof. revert log. induction p as [r|A o rest IH]; intros log H; cbn in *; [done|]. intros a. apply IH, H. Qed.

Lemma triple_conseq {R : Type} (p : prog R) (P Q : R -> list event -> Prop) log :
  (forall r log, P r log -> Q r log) -> triple p P log -> triple p Q log.
Proof. intros HPQ. revert log. induction p as [r|A o rest IH]; intros log H; cbn in *; [by apply HPQ|]. intros a. apply IH, H. Qed.

End Prog.

Arguments prog op R : clear implicits.
Arguments Ret {op R} r.
Arguments Do {op R A} o rest.
Arguments alike {op} E {R} _ _.
Arguments alike_ret {op E R} r.
Arguments alike_do {op E R} A o o' rest rest' _ _.
Arguments event op : clear implicits.
Arguments Ev {op A} o a.
Arguments world op : clear implicits.

Declare Scope prog_scope.
Delimit Scope prog_scope with prog.
Notation "'let!' x ':=' o 'in' p" := (Do o (fun x => p)) (at level 10, x pattern, o at level 100, p at level 200) : prog_scope.
Notation "'do' x ':=' q 'in' p" := (bind q (fun x => p)) (at level 10, x pattern, q at level 100, p at level 200) : prog_scope.
Open Scope prog_scope.
