(* ===== verification/HttpClient.v ===== *)
(** * httpclient.cpp: one POST through libcurl

    [HttpClient::post] as a program over the libcurl calls it makes, the
    destructors of its two RAII objects included; what libcurl answers is the
    world's ([Prog.world]). *)

From S2P Require Import Prelude CLib Prog.
Local Open Scope Z_scope.

Module HttpClient.

(** ** libcurl *)

(** The options [post] sets. *)
Inductive curl_option :=
| Url (text : bytes) | PostMethod | PostFields (data : bytes) | PostFieldSize (size : Z)
| HttpHeader (lines : list bytes) | Timeout (seconds : Z) | NoSignal | ErrorBuffer | WriteDiscard
| SslVerifyPeer (on : bool) | SslVerifyHost (on : bool).

(** [SlistAppend cells line]: whether a longer list came back ([false]: a null
    pointer).  [Perform]: the result code and the text left in the error buffer. *)
Inductive curl : Type -> Type :=
| EasyInit : curl bool
| SlistAppend (cells : list bytes) (line : bytes) : curl bool
| SetOpt (o : curl_option) : curl unit
| Perform : curl (Z * bytes)
| Strerror (rc : Z) : curl bytes
| ResponseCode : curl Z
| SlistFree (cells : list bytes) : curl unit
| EasyCleanup : curl unit.

(** ** The wrapper *)

Record HttpResult := { ok : bool; status_code : Z; error : bytes }.

(** The arguments of [post]. *)
Record request := {
  url : bytes; body : bytes; headers : list (bytes * bytes); timeout_seconds : Z; tls_insecure : bool
}.

Definition header_lines (r : request) : list bytes :=
  B"Content-Type: application/json" :: map (fun h : bytes * bytes => c_str (h.1 ++ B": " ++ h.2)) (headers r).

(** [CurlHeaderList::append] for each line: what [list_] points to in the end. *)
Fixpoint append_all (lines list_ : list bytes) : prog curl (list bytes) :=
  match lines with
  | [] => Ret list_
  | line :: rest =>
      let! appended := SlistAppend list_ line in
      append_all rest (if appended : bool then list_ ++ [line] else [])
  end.

Definition options (r : request) (header_list : list bytes) : list curl_option :=
  [Url (c_str (url r)); PostMethod; PostFields (body r); PostFieldSize (Z.of_nat (length (body r)));
   HttpHeader header_list; Timeout (timeout_seconds r); NoSignal; ErrorBuffer; WriteDiscard]
  ++ (if tls_insecure r then [SslVerifyPeer false; SslVerifyHost false] else []).

Fixpoint set_options (os : list curl_option) : prog curl unit :=
  match os with [] => Ret tt | o :: rest => let! _ := SetOpt o in set_options rest end.

Definition status_ok (status : Z) : bool := (200 <=? status) && (status <? 300).

(** [curl_easy_perform] and what becomes of its result. *)
Definition transfer : prog curl HttpResult :=
  let! r := Perform in
  if negb (r.1 =? 0) then
    match r.2 with
    | [] => let! text := Strerror r.1 in Ret {| ok := false; status_code := 0; error := text |}
    | text => Ret {| ok := false; status_code := 0; error := text |}
    end
  else
    let! status := ResponseCode in
    Ret {| ok := status_ok status; status_code := status;
           error := if status_ok status then [] else B"unexpected HTTP status " ++ to_string status |}.

(** [~CurlHeaderList]. *)
Definition free_headers (list_ : list bytes) : prog curl unit :=
  match list_ with [] => Ret tt | _ => let! _ := SlistFree list_ in Ret tt end.

(** [CurlHandle] around the rest of the function. *)
Definition with_handle {R : Type} (rest : bool -> prog curl R) : prog curl R :=
  let! handle := EasyInit in
  do result := rest handle in
  if handle : bool then let! _ := EasyCleanup in Ret result else Ret result.

Definition post (r : request) : prog curl HttpResult :=
  with_handle (fun curl =>
    if negb curl then Ret {| ok := false; status_code := 0; error := B"curl_easy_init() failed" |}
    else
      do header_list := append_all (header_lines r) [] in
      do _ := set_options (options r header_list) in
      do result := transfer in
      do _ := free_headers header_list in
      Ret result).

(** The result, with libcurl behaving as [w]. *)
Definition post_result (w : world curl) (r : request) : HttpResult := (run_log w (post r) []).1.

(** ** Reading a log *)

(** The verdict of the webhook: how the transfer ended, [None] without a response. *)
Definition http_ok (response : option Z) : bool :=
  match response with Some status => (200 <=? status) && (status <? 300) | None => false end.

(** The status of the response, if there was one. *)
Definition response_of (e : event curl) : option Z :=
  match e with
  | Ev o a => match o in curl A return A -> option Z with ResponseCode => fun status => Some status | _ => fun _ => None end a
  end.

Definition response (log : list (event curl)) : option Z := head (omap response_of log).

(** The options set so far at each [Perform]. *)
Definition option_of (e : event curl) : option curl_option :=
  match e with Ev (SetOpt o) _ => Some o | _ => None end.

Definition is_perform (e : event curl) : bool := match e with Ev Perform _ => true | _ => false end.

Fixpoint sent_with (set : list curl_option) (log : list (event curl)) : list (list curl_option) :=
  match log with
  | [] => []
  | e :: rest =>
      if is_perform e then set :: sent_with set rest
      else sent_with (set ++ option_list (option_of e)) rest
  end.

(** The requests sent, each as the options in force. *)
Definition sent (log : list (event curl)) : list (list curl_option) := sent_with [] log.

(** Handles and list cells: +1 for each got, -1 for each given back. *)
Definition handles (e : event curl) : Z :=
  match e with
  | Ev o a => match o in curl A return A -> Z with
              | EasyInit => fun b => if b : bool then 1 else 0 | EasyCleanup => fun _ => -1 | _ => fun _ => 0 end a
  end.

Definition cells (e : event curl) : Z :=
  match e with
  | Ev o a => match o in curl A return A -> Z with
              | SlistAppend _ _ => fun b => if b : bool then 1 else 0
              | SlistFree l => fun _ => - Z.of_nat (length l) | _ => fun _ => 0 end a
  end.

Definition total (f : event curl -> Z) (log : list (event curl)) : Z := fold_right (fun e n => f e + n) 0 log.

(** The answers to the appends. *)
Definition append_of (e : event curl) : option bool :=
  match e with
  | Ev o a => match o in curl A return A -> option bool with SlistAppend _ _ => fun b => Some b | _ => fun _ => None end a
  end.

Definition appends (log : list (event curl)) : list bool := omap append_of log.

(** The header lines after the last append that failed. *)
Fixpoint surviving (lines : list bytes) (answers : list bool) (kept : list bytes) : list bytes :=
  match lines, answers with
  | line :: lines, a :: answers => surviving lines answers (if a : bool then kept ++ [line] else [])
  | _, _ => kept
  end.

(** ** Lemmas: the parts of a log *)

Fixpoint append_events (lines : list bytes) (answers : list bool) (kept : list bytes) : list (event curl) :=
  match lines, answers with
  | line :: lines, a :: answers =>
      Ev (SlistAppend kept line) a :: append_events lines answers (if a : bool then kept ++ [line] else [])
  | _, _ => []
  end.

Definition option_events (os : list curl_option) : list (event curl) := map (fun o => Ev (SetOpt o) tt) os.

Lemma append_all_log (w : world curl) (lines kept : list bytes) log :
  exists answers, length answers = length lines /\
    run_log w (append_all lines kept) log = (surviving lines answers kept, log ++ append_events lines answers kept).
Proof.
  revert kept log. induction lines as [|line lines IH]; intros kept log.
  - exists []. cbn. by rewrite app_nil_r.
  - cbn. set (a := w log bool (SlistAppend kept line)).
    destruct (IH (if a then kept ++ [line] else []) (log ++ [Ev (SlistAppend kept line) a])) as (answers & Hl & ->).
    exists (a :: answers). cbn. split; [by rewrite Hl|]. by rewrite <- app_assoc.
Qed.

Lemma set_options_log (w : world curl) (os : list curl_option) log :
  run_log w (set_options os) log = (tt, log ++ option_events os).
Proof.
  revert log. induction os as [|o os IH]; intros log; cbn; [by rewrite app_nil_r|].
  destruct (w log unit (SetOpt o)). rewrite IH. by rewrite <- app_assoc.
Qed.

(** The readers, over a concatenation and over the two generated parts. *)
Lemma total_app f l l' : total f (l ++ l') = total f l + total f l'.
Proof. unfold total. induction l as [|e l IH]; cbn; [lia|]. rewrite IH. lia. Qed.

Lemma total_zero f l : Forall (fun e => f e = 0) l -> total f l = 0.
Proof. induction 1 as [|e l He _ IH]; cbn; [done|]. fold (total f l). lia. Qed.

Lemma omap_none {T} (f : event curl -> option T) l : Forall (fun e => f e = None) l -> omap f l = [].
Proof. induction 1 as [|e l He _ IH]; cbn; [done|]. by rewrite He. Qed.

Lemma append_events_forall (P : event curl -> Prop) lines answers kept :
  (forall k l a, P (Ev (SlistAppend k l) a)) -> Forall P (append_events lines answers kept).
Proof.
  intros HP. revert answers kept. induction lines as [|line lines IH]; intros [|a answers] kept; cbn; constructor; auto.
Qed.

Lemma option_events_forall (P : event curl -> Prop) os : (forall o, P (Ev (SetOpt o) tt)) -> Forall P (option_events os).
Proof. intros HP. induction os; constructor; auto. Qed.

Lemma appends_events lines answers kept :
  length answers = length lines -> omap append_of (append_events lines answers kept) = answers.
Proof.
  revert answers kept. induction lines as [|line lines IH]; intros [|a answers] kept H; try done.
  cbn. f_equal. apply IH. by injection H.
Qed.

Lemma surviving_all lines kept answers :
  length answers = length lines -> Forall (eq true) answers -> surviving lines answers kept = kept ++ lines.
Proof.
  revert kept answers. induction lines as [|line lines IH]; intros kept [|a answers] H Ha; try done; cbn.
  - by rewrite app_nil_r.
  - apply list.Forall_cons in Ha as [<- Ha]. injection H as H. rewrite IH by done. by rewrite <- app_assoc.
Qed.

Lemma cells_append_events lines answers kept :
  length answers = length lines -> Forall (eq true) answers ->
  total cells (append_events lines answers kept) = Z.of_nat (length lines).
Proof.
  revert kept answers. induction lines as [|line lines IH]; intros kept [|a answers] H Ha; try done.
  apply list.Forall_cons in Ha as [<- Ha]. injection H as H. cbn [append_events total fold_right cells].
  fold (total cells (append_events lines answers (kept ++ [line]))). rewrite IH by done. cbn [length]. lia.
Qed.

Lemma sent_append_events lines answers kept set rest :
  sent_with set (append_events lines answers kept ++ rest) = sent_with set rest.
Proof.
  revert answers kept. induction lines as [|line lines IH]; intros [|a answers] kept; cbn; try done.
  rewrite app_nil_r. apply IH.
Qed.

Lemma sent_option_events os set rest : sent_with set (option_events os ++ rest) = sent_with (set ++ os) rest.
Proof.
  revert set. induction os as [|o os IH]; intros set; cbn; [by rewrite app_nil_r|].
  rewrite IH. by rewrite <- app_assoc.
Qed.

Lemma free_headers_log (w : world curl) l log :
  run_log w (free_headers l) log = (tt, log ++ match l with [] => [] | _ => [Ev (SlistFree l) tt] end).
Proof. destruct l; cbn; [by rewrite app_nil_r|]. by destruct (w log unit _). Qed.

(** What [transfer] adds to the log, and its result. *)
Record transfer_ok (result : HttpResult) (tail : list (event curl)) : Prop := {
  to_ok : ok result = http_ok (head (omap response_of tail));
  to_status : status_code result = default 0 (head (omap response_of tail));
  to_error : ok result = true -> error result = [];
  to_reason : ok result = false -> error result = [] -> exists rc, In (Ev (Strerror rc) []) tail;
  to_appends : omap append_of tail = [];
  to_handles : total handles tail = 0;
  to_cells : total cells tail = 0;
  to_sent : forall set rest, sent_with set rest = [] -> sent_with set (tail ++ rest) = [set]
}.

Lemma transfer_log (w : world curl) log :
  exists result tail, run_log w transfer log = (result, log ++ tail) /\ transfer_ok result tail.
Proof.
  unfold transfer. cbn. destruct (w log (Z * bytes)%type Perform) as [rc text]. cbn.
  destruct (rc =? 0); cbn.
  - eexists _, [Ev Perform (rc, text); Ev ResponseCode _]. rewrite <- app_assoc. split; [reflexivity|].
    split; cbn; try done.
    + by intros ->.
    + by intros ->.
    + intros set rest. rewrite app_nil_r. by intros ->.
  - destruct text as [|b text]; cbn.
    + eexists _, [Ev Perform (rc, []); Ev (Strerror rc) _]. rewrite <- app_assoc. split; [reflexivity|].
      split; cbn; try done.
      * intros _ ->. exists rc. by right; left.
      * intros set rest. rewrite app_nil_r. by intros ->.
    + eexists _, [Ev Perform (rc, b :: text)]. split; [reflexivity|]. split; cbn; try done. by intros set rest ->.
Qed.

(** The whole log of a [post] that got its handle. *)
Lemma post_log (w : world curl) (r : request) :
  w [] bool EasyInit = true ->
  exists answers result tail,
    let kept := surviving (header_lines r) answers [] in
    length answers = length (header_lines r) /\ transfer_ok result tail /\
    run_log w (post r) [] =
      (result, [Ev EasyInit true] ++ append_events (header_lines r) answers [] ++ option_events (options r kept)
               ++ tail ++ match kept with [] => [] | _ => [Ev (SlistFree kept) tt] end ++ [Ev EasyCleanup tt]).
Proof.
  intros Hw.
  destruct (append_all_log w (header_lines r) [] [Ev EasyInit true]) as (answers & Hl & Ha).
  destruct (transfer_log w (([Ev EasyInit true] ++ append_events (header_lines r) answers [])
    ++ option_events (options r (surviving (header_lines r) answers [])))) as (result & tail & Ht & Hok).
  exists answers, result, tail. cbn zeta. split; [done|]. split; [done|].
  unfold post, with_handle. cbn [run_log]. rewrite Hw. cbn [negb app]. rewrite run_log_bind, (run_log_bind w (append_all _ _)), Ha.
  cbn [fst snd]. rewrite run_log_bind, set_options_log. cbn [fst snd]. rewrite run_log_bind, Ht. cbn [fst snd].
  rewrite run_log_bind, free_headers_log. cbn [fst snd run_log]. destruct (w _ unit EasyCleanup).
  by rewrite <- !app_assoc.
Qed.

(** ** Properties *)

(** C25: one POST, over any behaviour of libcurl.  The verdict is decided by the
    response alone: success exactly when a response arrived with a 2xx status
    ([http_ok]), whose code (0 without a response) is returned; a success
    carries no error text, a failure always one unless libcurl's own
    [curl_easy_strerror] is empty.  The easy handle is given back on every
    path.  With a handle, exactly one request is sent, with the options of the
    arguments and the header lines that survive the appends; without one,
    none.  If no append fails, those are all the lines, in order, and every
    list cell is freed. *)
Theorem http_post_correct (w : world curl) (r : request) :
  let '(result, log) := run_log w (post r) [] in
  ok result = http_ok (response log) /\
  status_code result = default 0 (response log) /\
  (ok result = true -> error result = []) /\
  (ok result = false -> error result = [] -> exists rc, In (Ev (Strerror rc) []) log) /\
  total handles log = 0 /\
  sent log = (if w [] bool EasyInit then [options r (surviving (header_lines r) (appends log) [])] else []) /\
  (Forall (eq true) (appends log) -> total cells log = 0 /\
   (w [] bool EasyInit = true -> surviving (header_lines r) (appends log) [] = header_lines r)).
Proof.
  destruct (w [] bool EasyInit) eqn:Hw; [|unfold post, with_handle; cbn; rewrite Hw; cbn; done].
  destruct (post_log w r Hw) as (answers & result & tail & Hl & [Hok Hst Herr Hwhy Hap Hh Hc Hs] & ->).
  cbn zeta in *. set (kept := surviving (header_lines r) answers []) in *.
  set (free := match kept with [] => [] | _ => [Ev (SlistFree kept) tt] end).
  assert (Hfree : omap response_of free = [] /\ omap append_of free = [] /\ total handles free = 0 /\
                  total cells free = - Z.of_nat (length kept) /\
                  forall set rest, sent_with set (free ++ rest) = sent_with set rest).
  { unfold free. destruct kept; cbn; split_and!; try done; try lia. intros. by rewrite app_nil_r. }
  destruct Hfree as (Hf1 & Hf2 & Hf3 & Hf4 & Hf5).
  assert (Hresp : response ([Ev EasyInit true] ++ append_events (header_lines r) answers []
      ++ option_events (options r kept) ++ tail ++ free ++ [Ev EasyCleanup tt]) = head (omap response_of tail)).
  { unfold response. rewrite !omap_app, Hf1. rewrite (omap_none _ (append_events _ _ _)), (omap_none _ (option_events _)).
    - cbn. by rewrite app_nil_r.
    - by apply option_events_forall.
    - by apply append_events_forall. }
  assert (Happ : appends ([Ev EasyInit true] ++ append_events (header_lines r) answers []
      ++ option_events (options r kept) ++ tail ++ free ++ [Ev EasyCleanup tt]) = answers).
  { unfold appends. rewrite !omap_app, Hap, Hf2, appends_events by done. rewrite (omap_none _ (option_events _)).
    - cbn. by rewrite app_nil_r.
    - by apply option_events_forall. }
  rewrite Hresp, Happ. split_and!; try done.
  - intros H1 H2. destruct (Hwhy H1 H2) as [rc Hin]. exists rc. rewrite !in_app_iff. tauto.
  - rewrite !total_app, Hh, Hf3, (total_zero handles (append_events _ _ _)), (total_zero handles (option_events _)); [done|..].
    + by apply option_events_forall.
    + by apply append_events_forall.
  - unfold sent. cbn [app sent_with is_perform option_of option_list]. rewrite sent_append_events, sent_option_events.
    rewrite Hs; [done|]. rewrite Hf5. done.
  - intros Hall. rewrite !total_app, Hc, Hf4, cells_append_events by done.
    rewrite (total_zero cells (option_events _)) by (by apply option_events_forall).
    unfold kept. rewrite surviving_all by done. cbn. split; [lia|done].
Qed.

End HttpClient.
