(* ===== verification/Webhook.v ===== *)
(** * webhook.cpp, webhook_json.cpp: delivery of messages to the webhook

    [WebhookClient] is the mailbox protocol of Mailbox.v with [Job] items, the
    test of [running_] before an offer, and a worker that posts each job
    with HttpClient.v, whose libcurl is the environment of each turn. *)

From S2P Require Import Prelude CLib TextUtil JsonUtil Config Metrics Log Threads Mailbox Prog HttpClient.

Module Webhook.
Import Mailbox.

Record Job := { job_topic : bytes; job_payload : bytes; job_retained : bool }.

(** ** webhook_json.cpp *)

Definition build_webhook_json (topic payload : bytes) (retained : bool) (epoch : Z) : bytes :=
  B"{" ++ [c_quote] ++ B"topic" ++ [c_quote] ++ B":" ++ [c_quote] ++ json_escape topic
  ++ [c_quote] ++ B"," ++ [c_quote] ++ B"payload" ++ [c_quote] ++ B":" ++ [c_quote] ++ json_escape payload
  ++ [c_quote] ++ B"," ++ [c_quote] ++ B"retain" ++ [c_quote] ++ B":"
  ++ (if retained then B"true" else B"false")
  ++ B"," ++ [c_quote] ++ B"timestamp" ++ [c_quote] ++ B":" ++ to_string epoch ++ B"}".

(** ** The HTTP request *)

Definition make_post (cfg : Config.Config) (job : Job) (epoch : Z) : HttpClient.request :=
  {| HttpClient.url := Config.webhook_url cfg;
     HttpClient.body := build_webhook_json (job_topic job) (job_payload job) (job_retained job) epoch;
     HttpClient.headers :=
       if decide (Config.webhook_auth_header cfg = []) then []
       else [(Config.webhook_auth_header cfg, Config.webhook_auth_value cfg)];
     HttpClient.timeout_seconds := Config.webhook_timeout_seconds cfg;
     HttpClient.tls_insecure := Config.webhook_tls_insecure cfg |}.

(** ** State *)

Record client := {
  queue : box Job;
  checked : option Job;      (* an [enqueue] past its test of [running_] *)
  metrics : Metrics.metrics;
  (* history *)
  dropped : list (Job * nat);   (* refused, with the length of the queue then *)
  posts : list (Job * HttpClient.request * bool);
  logged : list (Log.LogLevel * bytes)   (* the calls of the logger *)
}.

Definition set_queue (b : box Job) (s : client) : client :=
  Build_client b (checked s) (metrics s) (dropped s) (posts s) (logged s).

Definition start_log (cfg : Config.Config) : list (Log.LogLevel * bytes) :=
  if Config.webhook_enabled cfg then [(Log.Info, B"webhook delivery started, POSTing to " ++ Config.webhook_url cfg)] else [].

(** [start]: nothing runs unless the feature is enabled. *)
Definition start (cfg : Config.Config) (m : Metrics.metrics) : client :=
  let b := started_box in
  {| queue := if Config.webhook_enabled cfg then b
              else Build_box Job false [] PExited 0 SDone [] [];
     checked := None; metrics := m; dropped := []; posts := []; logged := start_log cfg |}.

Section Client.
Context (cfg : Config.Config).

Definition capacity : Z := Config.webhook_queue_size cfg.

(** [enqueue]: the test of the flag, then the critical section. *)
Definition enqueue_check (j : Job) (s : client) : client :=
  if running (queue s) then Build_client (queue s) (Some j) (metrics s) (dropped s) (posts s) (logged s) else s.

Definition enqueue_push (j : Job) (s : client) : client :=
  let '(ok, b) := offer capacity j (queue s) in
  if ok then Build_client b None (metrics s) (dropped s) (posts s) (logged s)
  else Build_client (queue s) None (Metrics.inc Metrics.CWebhookFull (metrics s)) (dropped s ++ [(j, length (items (queue s)))]) (posts s) (logged s).

Definition queue_depth (s : client) : Z := Z.of_nat (length (items (queue s))).

Definition delivery_log (job : Job) (result : HttpClient.HttpResult) : Log.LogLevel * bytes :=
  if HttpClient.ok result
  then (Log.Debug, B"webhook delivered '" ++ job_topic job ++ B"' (status " ++ to_string (HttpClient.status_code result) ++ B")")
  else (Log.Warn, B"webhook delivery for '" ++ job_topic job ++ B"' failed: " ++ HttpClient.error result).

(** The end of the worker's turn with [job]: the POST, its accounting and its log line. *)
Definition deliver (job : Job) (epoch : Z) (curl : world HttpClient.curl) (s : client) : client :=
  let result := HttpClient.post_result curl (make_post cfg job epoch) in
  let ok := HttpClient.ok result in
  Build_client (queue s) (checked s)
    (Metrics.inc (if ok then Metrics.CDelivered else Metrics.CWebhookFailed) (metrics s))
    (dropped s) (posts s ++ [(job, make_post cfg job epoch, ok)]) (logged s ++ [delivery_log job result]).

Inductive event :=
| Enqueue (j : Job)
| Push
| Post (epoch : Z) (curl : world HttpClient.curl)
| Internal (e : Mailbox.event Job).   (* every other step of the protocol *)

Definition exec (e : event) (s : client) : option client :=
  match e with
  | Enqueue j => if decide (checked s = None) then Some (enqueue_check j s) else None
  | Push =>
      match checked s with
      | Some j => if lock_free (queue s) then Some (enqueue_push j s) else None
      | None => None
      end
  | Post epoch curl =>
      match worker (queue s) with
      | PBusy job =>
          unwrap b := worker_done (queue s) else None in Some (set_queue b (deliver job epoch curl s))
      | _ => None
      end
  | Internal (Offer _) | Internal HandlerDone => None
  | Internal e => unwrap b := Mailbox.exec capacity e (queue s) else None in Some (set_queue b s)
  end.

Definition reachable (m : Metrics.metrics) (s : client) : Prop :=
  rtc (step_by exec (fun _ => True)) (start cfg m) s.

(** ** Lemmas *)

Definition delivered_count (b : bool) (l : list (Job * HttpClient.request * bool)) : nat :=
  length (filter (fun p : Job * HttpClient.request * bool => p.2 = b) l).

(** A counter after [k] increments. *)
Definition counted (m0 : Z) (k : nat) : Z := ((m0 + Z.of_nat k) mod 2 ^ 64)%Z.

(** The level of a POST's line: Debug when it was delivered, else Warn. *)
Definition post_level (p : Job * HttpClient.request * bool) : Log.LogLevel := if p.2 then Log.Debug else Log.Warn.

Record client_inv (m0 : Metrics.metrics) (s : client) : Prop := {
  ci_fifo : pushed (queue s) = map (fun p : Job * HttpClient.request * bool => p.1.1) (posts s)
              ++ busy (worker (queue s)) ++ items (queue s);
  ci_bound : (Z.of_nat (length (items (queue s))) <= Z.max 0 capacity)%Z;
  ci_posts : Forall (fun p : Job * HttpClient.request * bool => exists epoch, p.1.2 = make_post cfg p.1.1 epoch) (posts s);
  ci_delivered : Metrics.read (metrics s) Metrics.CDelivered
    = counted (Metrics.read m0 Metrics.CDelivered) (delivered_count true (posts s));
  ci_failed : Metrics.read (metrics s) Metrics.CWebhookFailed
    = counted (Metrics.read m0 Metrics.CWebhookFailed) (delivered_count false (posts s));
  ci_full : Metrics.read (metrics s) Metrics.CWebhookFull
    = counted (Metrics.read m0 Metrics.CWebhookFull) (length (dropped s));
  ci_dropped : Forall (fun r : Job * nat => (capacity <= Z.of_nat r.2)%Z) (dropped s);
  ci_logged : map fst (logged s) = map fst (start_log cfg) ++ map post_level (posts s)
}.

Definition counters_ok (m0 : Metrics.metrics) : Prop :=
  forall c, (0 <= Metrics.read m0 c < 2 ^ 64)%Z.

Lemma counted_0 m : (0 <= m < 2 ^ 64)%Z -> m = counted m 0.
Proof. intros H. unfold counted. rewrite Z.add_0_r, Z.mod_small; done. Qed.

Lemma counted_S m k : Metrics.bump (counted m k) = counted m (S k).
Proof.
  unfold Metrics.bump, counted. rewrite Zplus_mod_idemp_l. f_equal. lia.
Qed.

Lemma webhook_start_inv m0 : counters_ok m0 -> client_inv m0 (start cfg m0).
Proof.
  intros H. split; unfold start; simpl; destruct (Config.webhook_enabled cfg); simpl; try done; try lia.
  all: try (apply list.Forall_nil; exact I).
  all: try (by rewrite app_nil_r).
  all: first [apply counted_0, (H Metrics.CDelivered)|apply counted_0, (H Metrics.CWebhookFailed)
             |apply counted_0, (H Metrics.CWebhookFull)].
Qed.

(** The mailbox steps other than an offer and the end of a handler keep the
    list of what was pushed and the order of the rest. *)
Lemma internal_step (e : Mailbox.event Job) (b b' : box Job) :
  Mailbox.exec capacity e b = Some b' ->
  match e with Offer _ | HandlerDone => False | _ => True end ->
  pushed b' = pushed b /\ busy (worker b') ++ items b' = busy (worker b) ++ items b /\
  length (items b') <= length (items b).
Proof.
  intros H Hok. destruct e; simpl in H; try done.
  - case_decide; simplify_eq. simpl. by destruct (worker b).
  - unfold worker_turn in H. destruct (worker b) eqn:Ew; simplify_eq; simpl; rewrite ?Ew; try done.
    + by destruct (running b).
    + destruct (items b) eqn:Ei; simplify_eq; simpl; rewrite ?Ew, ?Ei; simpl; [by destruct (running b)|].
      split_and!; try done. lia.
  - case_decide; simplify_eq. unfold clear_running. by destruct (running b).
  - case_decide; simplify_eq. simpl. by destruct (worker b).
  - destruct (stopper b); try done. destruct (worker b) eqn:Ew; simplify_eq. simpl. by rewrite Ew.
  - destruct (worker b) eqn:Ew; simplify_eq. done.
Qed.

(** A step of the protocol is one of the mailbox's own. *)
Lemma exec_internal e s s' :
  exec (Internal e) s = Some s' ->
  exists b, Mailbox.exec capacity e (queue s) = Some b /\ s' = set_queue b s /\
    match e with Offer _ | HandlerDone => False | _ => True end.
Proof.
  cbn [exec]. intros H. destruct e; try done;
    (match type of H with context [match ?x with Some _ => _ | None => _ end] => destruct x as [b|] eqn:Eb; [|done] end);
    injection H as <-; by exists b.
Qed.

Lemma webhook_exec_inv m0 e s s' : client_inv m0 s -> exec e s = Some s' -> client_inv m0 s'.
Proof.
  intros [Hf Hb Hp Hd Hfl Hfu Hdr Hlo] H. destruct e as [j| |epoch curl|e]; [simpl in H..|].
  - case_decide; simplify_eq. unfold enqueue_check. by destruct (running (queue s)).
  - destruct (checked s) as [j|]; [|done]. destruct (lock_free (queue s)); [|done]. simplify_eq.
    unfold enqueue_push, offer. destruct (Z.leb_spec capacity (Z.of_nat (length (items (queue s))))).
    + split; simpl; rewrite ?Metrics.read_inc; try done.
      * rewrite decide_True by done. rewrite Hfu, counted_S, length_app. simpl. f_equal. lia.
      * by apply Forall_app_2, Forall_singleton.
    + split; simpl; try done.
      * by rewrite Hf, <- !app_assoc.
      * rewrite length_app. simpl. lia.
  - destruct (worker (queue s)) as [| | | |job|] eqn:Ew; try done.
    unfold worker_done in H. rewrite Ew in H. simplify_eq. unfold deliver. split; simpl; try done.
    + rewrite Hf, map_app. simpl. by rewrite <- app_assoc.
    + apply Forall_app_2; [done|]. apply Forall_singleton. by exists epoch.
    + rewrite Metrics.read_inc. unfold delivered_count. rewrite filter_app, length_app, filter_cons.
      destruct (HttpClient.ok _); simpl.
      * rewrite Hd, counted_S. f_equal. unfold delivered_count. lia.
      * rewrite Nat.add_0_r. done.
    + rewrite Metrics.read_inc. unfold delivered_count. rewrite filter_app, length_app, filter_cons.
      destruct (HttpClient.ok _); simpl.
      * rewrite Nat.add_0_r. done.
      * rewrite Hfl, counted_S. f_equal. unfold delivered_count. lia.
    + rewrite Metrics.read_inc. by destruct (HttpClient.ok _).
    + rewrite !map_app, Hlo, <- app_assoc. cbn. unfold delivery_log, post_level. by destruct (HttpClient.ok _).
  - apply exec_internal in H as (b & Hb' & -> & Hok). apply internal_step in Hb' as (H1 & H2 & H3); [|done].
    split; simpl; try done; [by rewrite H1, Hf, H2|lia].
Qed.

Lemma webhook_reachable_inv m0 s : counters_ok m0 -> reachable m0 s -> client_inv m0 s.
Proof.
  intros Hm H. eapply (rtc_invariant _ (client_inv m0)); [|exact H|by apply webhook_start_inv].
  intros a b (e & _ & He) Hi. by eapply webhook_exec_inv.
Qed.

End Client.

(** ** Lemmas: the queue drains *)

(** A libcurl that gets the response [status] to every request. *)
Definition answering (status : Z) : world HttpClient.curl := fun _ A o =>
  match o with
  | HttpClient.EasyInit => true | HttpClient.SlistAppend _ _ => true | HttpClient.SetOpt _ => tt
  | HttpClient.Perform => (0%Z, []) | HttpClient.Strerror _ => B"error" | HttpClient.ResponseCode => status
  | HttpClient.SlistFree _ => tt | HttpClient.EasyCleanup => tt
  end.

(** The end of the messages in flight: no new ones, no stop, no spurious wake-up. *)
Definition delivering (e : event) : Prop :=
  match e with Push | Post _ _ | Internal NotifyOne | Internal Turn => True | _ => False end.

Section Drain.
Context (cfg : Config.Config).

Lemma webhook_box_inv m s : reachable cfg m s -> box_inv (capacity cfg) (queue s).
Proof.
  intros H. eapply (rtc_invariant _ (fun s => box_inv (capacity cfg) (queue s))); [|exact H|].
  - clear s H. intros s s' (e & _ & He) Hi. destruct e as [j| |epoch curl|e]; [cbn [exec] in He..|].
    + case_decide; [|done]. injection He as <-. unfold enqueue_check. by destruct (running (queue s)).
    + destruct (checked s) as [j|]; [|done]. destruct (lock_free (queue s)) eqn:El; [|done]. injection He as <-.
      pose proof (box_exec_inv (capacity cfg) (Offer j) (queue s) (offer (capacity cfg) j (queue s)).2 Hi) as Ho.
      cbn in Ho. rewrite El in Ho. specialize (Ho eq_refl). unfold enqueue_push. by destruct (offer _ _ _) as [[] b].
    + destruct (worker (queue s)) as [| | | |job|] eqn:Ew; try done. destruct (worker_done (queue s)) as [b|] eqn:Eb; [|done].
      injection He as <-. by apply (box_exec_inv (capacity cfg) HandlerDone (queue s) b Hi).
    + apply exec_internal in He as (b & Hb & -> & _). by apply (box_exec_inv (capacity cfg) e (queue s)).
  - unfold start. destruct (Config.webhook_enabled cfg); [apply started_inv|]. split; cbn; try done; lia.
Qed.

Definition todo (s : client) : nat := Mailbox.work (queue s) + match checked s with Some _ => 7 | None => 0 end.

Lemma delivering_step e s s' :
  running (queue s) = true -> delivering e -> exec cfg e s = Some s' ->
  running (queue s') = true /\ todo s' < todo s /\ pushed (queue s) `prefix_of` pushed (queue s').
Proof.
  intros Hr Hok H. unfold todo. destruct e as [j| |epoch curl|e]; try done; [cbn [exec] in H..|].
  - destruct (checked s) as [j|] eqn:Ec; [|done]. destruct (lock_free (queue s)); [|done]. injection H as <-.
    unfold enqueue_push, offer. destruct (_ <=? _)%Z; cbn; [split_and!; [done|lia|done]|].
    unfold Mailbox.work. cbn. rewrite length_app. cbn. split_and!; [done|lia|by apply prefix_app_r].
  - destruct (worker (queue s)) as [| | | |job|] eqn:Ew; try done. destruct (worker_done (queue s)) as [b|] eqn:Eb; [|done].
    injection H as <-. destruct (own_step_work (capacity cfg) HandlerDone (queue s) b Hr I Eb) as (H1 & H2 & H3 & _).
    cbn -[Mailbox.work]. rewrite H3. split_and!; [done|lia|done].
  - apply exec_internal in H as (b & Hb & -> & _). assert (Ho : own_step e) by (by destruct e). destruct (own_step_work _ _ _ _ Hr Ho Hb) as (H1 & H2 & H3 & _).
    cbn -[Mailbox.work]. rewrite H3. split_and!; [done|lia|done].
Qed.

Lemma delivering_progress s :
  box_inv (capacity cfg) (queue s) -> running (queue s) = true ->
  (drained (queue s) /\ checked s = None) \/ exists s', step_by (exec cfg) delivering s s'.
Proof.
  intros Hi Hr. destruct (own_progress (capacity cfg) (queue s) (bi_awake _ _ Hi) (bi_exit _ _ Hi) Hr) as [Hd|(e & b & Ho & He)].
  - destruct (checked s) as [j|] eqn:Ec; [right|by left]. exists (enqueue_push cfg j s), Push. split; [done|].
    cbn. rewrite Ec. unfold lock_free. destruct Hd as (_ & _ & ->). done.
  - right. destruct e; try done.
    + exists (set_queue b s), (Internal NotifyOne). split; [done|]. cbn [exec]. by rewrite He.
    + exists (set_queue b s), (Internal Turn). split; [done|]. cbn [exec]. by rewrite He.
    + cbn in He. unfold worker_done in He. destruct (worker (queue s)) as [| | | |job|] eqn:Ew; try done.
      eexists. exists (Post 0 (answering 200)). split; [done|]. cbn [exec]. rewrite Ew. unfold worker_done. by rewrite Ew.
Qed.

End Drain.

(** ** Lemmas: the hang *)

(** [hung] of the mailbox, with no [enqueue] past its test of the flag. *)
Definition client_hung (s : client) : Prop := hung (queue s) /\ checked s = None.

Definition not_spurious (e : event) : Prop := e <> Internal Spurious.

Lemma webhook_hung_step cfg e s s' :
  client_hung s -> not_spurious e -> exec cfg e s = Some s' -> client_hung s'.
Proof.
  intros [Hh Hc] Hok H. pose proof Hh as (Hr & Hst & Hw & Hk).
  destruct e as [j| |epoch curl|e]; [simpl in H..|].
  - case_decide; simplify_eq. unfold enqueue_check. by rewrite Hr.
  - by rewrite Hc in H.
  - by rewrite Hw in H.
  - apply exec_internal in H as (b & Hb & -> & Hi).
    assert (Ha : after_stop e) by (unfold not_spurious in Hok; by destruct e). apply hung_stuck in Hb as ->; [|done..]. done.
Qed.

(** ** Properties *)

(** The envelope carries the message.  Reading a webhook body back with the
    program's own tokenizer gives the four fields in order, and unescaping the
    topic and the payload gives back their bytes, whatever they are. *)
Theorem webhook_json_roundtrip (topic payload : bytes) (retained : bool) (epoch : Z) :
  exists t p,
    JsonUtil.tokenize_flat_object (build_webhook_json topic payload retained epoch)
    = Some [(B"topic", t); (B"payload", p);
            (B"retain", if retained then B"true" else B"false"); (B"timestamp", to_string epoch)] /\
    JsonUtil.unquoted t = topic /\ JsonUtil.unquoted p = payload.
Proof.
  exists (JsonUtil.quoted topic), (JsonUtil.quoted payload).
  split; [|by rewrite !JsonUtil.unquoted_quoted].
  rewrite <- (app_nil_r (build_webhook_json _ _ _ _)).
  replace (build_webhook_json topic payload retained epoch) with
    (JsonUtil.object_text [(B"topic", JsonUtil.quoted topic); (B"payload", JsonUtil.quoted payload);
       (B"retain", if retained then B"true" else B"false"); (B"timestamp", to_string epoch)]).
  { apply JsonUtil.tokenize_object. repeat apply list.Forall_cons_2; try apply list.Forall_nil; try done; simpl.
    - apply JsonUtil.value_quoted.
    - apply JsonUtil.value_quoted.
    - apply JsonUtil.value_bool.
    - apply JsonUtil.value_to_string. }
  unfold JsonUtil.object_text, JsonUtil.commas, JsonUtil.pair_text, JsonUtil.quoted, build_webhook_json.
  simpl. repeat (rewrite <- app_assoc; simpl). done.
Qed.

(** C24: the delivery ledger.  In every state the client can reach: the messages
    it accepted are, in order, those posted, the one being posted and those
    queued (so each is posted at most once and none is lost while it runs); the
    queue is within webhook_queue_size; every POST made is the one the
    configuration prescribes for its message; and the three counters are the
    numbers of 2xx posts, of other posts and of refused messages (modulo
    2^64); a message was refused only when webhook_queue_size were queued.  Each POST has
    left one line in the log, a warning when it failed. *)
Theorem webhook_ledger (cfg : Config.Config) (m0 : Metrics.metrics) (s : client)
    (Hm : counters_ok m0) (H : reachable cfg m0 s) :
  pushed (queue s) = map (fun p : Job * HttpClient.request * bool => p.1.1) (posts s)
                     ++ busy (worker (queue s)) ++ items (queue s) /\
  (Z.of_nat (length (items (queue s))) <= Z.max 0 (Config.webhook_queue_size cfg))%Z /\
  Forall (fun p : Job * HttpClient.request * bool => exists epoch, p.1.2 = make_post cfg p.1.1 epoch) (posts s) /\
  Metrics.read (metrics s) Metrics.CDelivered
    = counted (Metrics.read m0 Metrics.CDelivered) (delivered_count true (posts s)) /\
  Metrics.read (metrics s) Metrics.CWebhookFailed
    = counted (Metrics.read m0 Metrics.CWebhookFailed) (delivered_count false (posts s)) /\
  Metrics.read (metrics s) Metrics.CWebhookFull
    = counted (Metrics.read m0 Metrics.CWebhookFull) (length (dropped s)) /\
  Forall (fun r : Job * nat => (Config.webhook_queue_size cfg <= Z.of_nat r.2)%Z) (dropped s) /\
  map fst (logged s) = map fst (start_log cfg)
    ++ map (fun p : Job * HttpClient.request * bool => if p.2 then Log.Debug else Log.Warn) (posts s).
Proof. by destruct (webhook_reachable_inv cfg m0 s Hm H). Qed.

(** A configuration with the webhook on and room for one message. *)
Definition demo_cfg : Config.Config :=
  Config.set_webhook_enabled true
    (Config.set_webhook_url (B"http://h/x")
       (Config.set_webhook_queue_size 1 (Config.default_config 4 (fun _ => 0%N)))).
Definition demo_job (t : bytes) : Job := {| job_topic := t; job_payload := B"1"; job_retained := false |}.
Definition demo_run : list event :=
  [Enqueue (demo_job (B"a")); Push; Enqueue (demo_job (B"b")); Push; Internal Turn; Internal Turn; Post 17 (answering 204)].

Lemma webhook_ledger_witness :
  exists s, run (exec demo_cfg) demo_run (start demo_cfg Metrics.zero_metrics) = Some s /\
    map (fun p : Job * HttpClient.request * bool => (p.1.1, p.2)) (posts s) = [(demo_job (B"a"), true)] /\
    map fst (dropped s) = [demo_job (B"b")] /\
    Metrics.read (metrics s) Metrics.CWebhookFull
    = counted (Metrics.read Metrics.zero_metrics Metrics.CWebhookFull) (length (dropped s)).
Proof.
  eexists. split; [vm_compute; reflexivity|]. split; [vm_compute; reflexivity|]. split; [vm_compute; reflexivity|].
  edestruct (webhook_ledger demo_cfg Metrics.zero_metrics) as (_ & _ & _ & _ & _ & Hfull & _); [| |exact Hfull].
  - intros []; vm_compute; split; discriminate || reflexivity.
  - eapply (run_rtc _ _ demo_run); [repeat constructor|vm_compute; reflexivity].
Defined.

(** C31: [stop] can hang.  With the webhook enabled there is a schedule after
    which the flag is cleared, the thread in [stop] waits in its join and the
    worker sleeps on the condition variable; from there no step other than a
    spurious wake-up of the condition variable (not even further calls of
    [enqueue]) ever lets [stop] return. *)
Theorem webhook_stop_hangs (cfg : Config.Config) (m : Metrics.metrics)
    (H : Config.webhook_enabled cfg = true) :
  exists s, run (exec cfg) (map Internal bad_schedule) (start cfg m) = Some s /\
    running (queue s) = false /\
    forall s', rtc (step_by (exec cfg) not_spurious) s s' ->
      stopper (queue s') = SJoin /\ worker (queue s') = PWaiting.
Proof.
  eexists. split; [unfold start; rewrite H; reflexivity|]. split; [reflexivity|]. intros s' Hr.
  assert (Hh : client_hung s') by
    (eapply (rtc_invariant _ client_hung); [|exact Hr|done]; intros a b (e & Hok & He) Ha; by eapply webhook_hung_step).
  destruct Hh as [(_ & ? & ? & _) _]. done.
Qed.

Lemma webhook_stop_hangs_witness :
  exists s, run (exec demo_cfg) (map Internal bad_schedule) (start demo_cfg Metrics.zero_metrics) = Some s /\
    running (queue s) = false /\
    forall s', rtc (step_by (exec demo_cfg) not_spurious) s s' ->
      stopper (queue s') = SJoin /\ worker (queue s') = PWaiting.
Proof. apply webhook_stop_hangs. vm_compute. reflexivity. Defined.

(** What was accepted is delivered.  While the client runs, once no more messages
    are handed to it, every schedule of its worker and of the notifications still to be
    sent, whatever libcurl answers, gets without getting stuck to a state in which each
    message accepted so far has been POSTed, in order, and the queue is
    empty: no wake-up is lost. *)
Theorem webhook_drains (cfg : Config.Config) (m : Metrics.metrics) (s : client)
    (Hm : counters_ok m) (H : reachable cfg m s) (Hr : running (queue s) = true) :
  eventually (step_by (exec cfg) delivering)
    (fun s' => items (queue s') = [] /\ checked s' = None /\
               map (fun p : Job * HttpClient.request * bool => p.1.1) (posts s') = pushed (queue s') /\
               pushed (queue s) `prefix_of` pushed (queue s')) s.
Proof.
  apply (eventually_measure _ _ (fun s' => reachable cfg m s' /\ running (queue s') = true /\
           pushed (queue s) `prefix_of` pushed (queue s')) todo); [|done].
  intros s' (Hs & Hr' & Hp). destruct (delivering_progress cfg s' (webhook_box_inv cfg m s' Hs) Hr') as [[(Hi & _ & Hw) Hc]|Hnext].
  - left. split_and!; try done. destruct (webhook_reachable_inv cfg m s' Hm Hs) as [Hf _ _ _ _ _ _].
    by rewrite Hf, Hi, Hw, !app_nil_r.
  - right. split; [done|]. intros s2 (e & Hok & He). destruct (delivering_step cfg e s' s2 Hr' Hok He) as (H1 & H2 & H3).
    split_and!; [|done|by etrans|done]. eapply rtc_r; [exact Hs|]. by exists e.
Qed.

Lemma webhook_drains_witness :
  exists s, run (exec demo_cfg) [Enqueue (demo_job (B"a")); Push] (start demo_cfg Metrics.zero_metrics) = Some s /\
    length (items (queue s)) = 1 /\
    eventually (step_by (exec demo_cfg) delivering)
      (fun s' => items (queue s') = [] /\ checked s' = None /\
                 map (fun p : Job * HttpClient.request * bool => p.1.1) (posts s') = pushed (queue s') /\
                 pushed (queue s) `prefix_of` pushed (queue s')) s.
Proof.
  eexists. split; [vm_compute; reflexivity|]. split; [reflexivity|].
  apply (webhook_drains demo_cfg Metrics.zero_metrics).
  - intros []; vm_compute; split; discriminate || reflexivity.
  - eapply (run_rtc _ _ [Enqueue (demo_job (B"a")); Push]); [repeat constructor|vm_compute; reflexivity].
  - reflexivity.
Defined.

End Webhook.
