(* ===== verification/Mqtt.v ===== *)
(** * mqtt.cpp: the pool of broker connections

    A step relation over the client's shared state: the publish queue, the jobs
    (shared between a caller and a worker), one worker per connection, and the
    subscribe side, which is the mailbox of Mailbox.v.  Paho is the environment:
    its results are the arguments of the events.  The history fields record what Paho
    answered ([handed], [acked]) and what came from the broker ([arrived], [refused]). *)

From S2P Require Import Prelude CLib Config Metrics Threads Mailbox.

Module Mqtt.

Inductive PublishOutcome := Ok | QueueFull | Timeout | Failed.

#[export] Instance outcome_eq_dec : EqDecision PublishOutcome.
Proof. solve_decision. Defined.

(** ** State *)

Record msg := { topic : bytes; payload : bytes; qos : Z; retain : bool }.

#[export] Instance msg_eq_dec : EqDecision msg.
Proof. solve_decision. Defined.

(** [result]: [done] and [outcome]; [None] until the job is done. *)
Record job := { request : msg; result : option PublishOutcome }.

Record incoming := { in_topic : bytes; in_payload : bytes; in_retained : bool }.

(** A connection's worker: at the head of its loop, in [try_connect], in the
    wait after a failed attempt, in the wait for work, in [run_job], gone. *)
Inductive cpc := CTop | CConnect | CBackoff | CWait | CRun (id : nat) | CExited.

#[export] Instance cpc_eq_dec : EqDecision cpc.
Proof. solve_decision. Defined.

Record conn := { connected : bool; pc : cpc; backoff_seconds : Z }.

(** The thread in [stop]: not called, about to notify, in the connections'
    joins, in the subscribe worker's join, about to fail the queued jobs, done. *)
Inductive phase := PhIdle | PhNotify | PhConns | PhSubscribe | PhFail | PhDone.

#[export] Instance phase_eq_dec : EqDecision phase.
Proof. solve_decision. Defined.

Record client := {
  conns : list conn;
  jobs : list job;               (* by number, in the order of [publish] *)
  queue : list nat;
  inbox : Mailbox.box incoming;  (* holds [running_] and the incoming queue *)
  stop_phase : phase;
  metrics : Metrics.metrics;
  (* history *)
  started : list nat;            (* jobs taken by a connection, in order *)
  failed : list nat;             (* jobs failed by [stop] *)
  handed : list nat;             (* jobs for which Paho's publish call succeeded *)
  acked : list nat;              (* jobs beyond QoS 0 whose completion Paho reported *)
  arrived : list incoming;       (* every message the broker sent *)
  refused : list (incoming * nat);   (* those the inbox refused, with its length then *)
  returned : list (nat * PublishOutcome)   (* results of [publish] calls *)
}.

(** ** The constructor and [start] *)

Definition new_conn : conn := {| connected := false; pc := CTop; backoff_seconds := 1 |}.

(** Client ids: the pool's own, and [-N] appended beyond the first. *)
Definition client_id (cfg : Config.Config) (index : nat) : bytes :=
  if decide (index = 0) then Config.mqtt_client_id cfg
  else Config.mqtt_client_id cfg ++ B"-" ++ to_string (Z.of_nat index).

Definition needs_subscribe_worker (cfg : Config.Config) : bool :=
  (Config.subscribe_enabled cfg && bool_decide (Config.subscribe_topics cfg <> []))
  || (Config.webhook_enabled cfg && bool_decide (Config.webhook_topics cfg <> [])).

(** What connection [index] subscribes to once connected. *)
Definition subscriptions (cfg : Config.Config) (index : nat) : list bytes :=
  if decide (index = 0) then
    (if Config.subscribe_enabled cfg then Config.subscribe_topics cfg else [])
    ++ (if Config.webhook_enabled cfg then Config.webhook_topics cfg else [])
  else [].

Definition start (cfg : Config.Config) (m : Metrics.metrics) : client :=
  {| conns := replicate (Z.to_nat (Config.mqtt_pool_size cfg)) new_conn;
     jobs := []; queue := [];
     inbox := if needs_subscribe_worker cfg then Mailbox.started_box
              else Mailbox.set_worker Mailbox.PExited Mailbox.started_box;
     stop_phase := PhIdle; metrics := m;
     started := []; failed := []; handed := []; acked := []; arrived := []; refused := []; returned := [] |}.

(** [Connection::start], from the results of [MQTTClient_create] and
    [MQTTClient_setCallbacks]: [None], or the error text. *)
Definition conn_start (cfg : Config.Config) (index : nat) (create_rc callbacks_rc : Z) : option bytes :=
  let server_uri := B"tcp://" ++ Config.mqtt_host cfg ++ B":" ++ to_string (Config.mqtt_port cfg) in
  if negb (create_rc =? 0)%Z then
    Some (B"MQTTClient_create(" ++ server_uri ++ B", client_id=" ++ client_id cfg index ++ B") failed (rc="
          ++ to_string create_rc ++ B")")
  else if negb (callbacks_rc =? 0)%Z then
    Some (B"MQTTClient_setCallbacks failed (rc=" ++ to_string callbacks_rc ++ B")")
  else None.

(** The loop of [MqttClient::start] over the connections [first .. first+n-1]: the error
    of the first that does not start. *)
Fixpoint start_conns (cfg : Config.Config) (rcs : nat -> Z * Z) (first n : nat) : option bytes :=
  match n with
  | O => None
  | S n' =>
      match conn_start cfg first (rcs first).1 (rcs first).2 with
      | Some conn_err => Some (B"connection " ++ to_string (Z.of_nat first) ++ B": " ++ conn_err)
      | None => start_conns cfg rcs (S first) n'
      end
  end.

(** [start] with its failure: the connections started so far are stopped and
    dropped, and nothing of the client is left to use. *)
Definition start_checked (cfg : Config.Config) (rcs : nat -> Z * Z) (m : Metrics.metrics) : client + bytes :=
  match start_conns cfg rcs 0 (Z.to_nat (Config.mqtt_pool_size cfg)) with
  | None => inl (start cfg m)
  | Some err => inr err
  end.

(** ** Field updates *)

Definition set_conns (c : list conn) (s : client) : client :=
  Build_client c (jobs s) (queue s) (inbox s) (stop_phase s) (metrics s) (started s) (failed s) (handed s) (acked s) (arrived s) (refused s) (returned s).
Definition set_inbox (b : Mailbox.box incoming) (s : client) : client :=
  Build_client (conns s) (jobs s) (queue s) b (stop_phase s) (metrics s) (started s) (failed s) (handed s) (acked s) (arrived s) (refused s) (returned s).
Definition set_phase (p : phase) (s : client) : client :=
  Build_client (conns s) (jobs s) (queue s) (inbox s) p (metrics s) (started s) (failed s) (handed s) (acked s) (arrived s) (refused s) (returned s).
Definition set_metrics (m : Metrics.metrics) (s : client) : client :=
  Build_client (conns s) (jobs s) (queue s) (inbox s) (stop_phase s) m (started s) (failed s) (handed s) (acked s) (arrived s) (refused s) (returned s).

(** History: a message came, and the inbox had no room for it. *)
Definition note_arrived (m : incoming) (s : client) : client :=
  Build_client (conns s) (jobs s) (queue s) (inbox s) (stop_phase s) (metrics s) (started s) (failed s) (handed s) (acked s)
    (arrived s ++ [m]) (refused s) (returned s).
Definition note_refused (m : incoming) (s : client) : client :=
  Build_client (conns s) (jobs s) (queue s) (inbox s) (stop_phase s) (metrics s) (started s) (failed s) (handed s) (acked s)
    (arrived s) (refused s ++ [(m, length (Mailbox.items (inbox s)))]) (returned s).

Definition running (s : client) : bool := Mailbox.running (inbox s).

(** [job->done = true; job->outcome = o]. *)
Definition finish_job (o : PublishOutcome) (j : job) : job :=
  {| request := request j; result := Some o |}.

Section Client.
Context (cfg : Config.Config).

(** ** publish *)

Definition publish_enqueue (m : msg) (s : client) : option nat * client :=
  if (Config.mqtt_queue_size cfg <=? Z.of_nat (length (queue s)))%Z
  then (None, set_metrics (Metrics.inc Metrics.CQueueFull (metrics s)) s)
  else (Some (length (jobs s)),
        Build_client (conns s) (jobs s ++ [{| request := m; result := None |}])
          (queue s ++ [length (jobs s)]) (inbox s) (stop_phase s) (metrics s)
          (started s) (failed s) (handed s) (acked s) (arrived s) (refused s) (returned s)).

(** The wait on the job ends: [None] while neither the job nor the time-out is
    there. *)
Definition publish_result (id : nat) (timed_out : bool) (s : client) : option PublishOutcome :=
  match jobs s !! id with
  | Some j => match result j with
              | Some o => Some o
              | None => if timed_out then Some Timeout else None
              end
  | None => None
  end.

Definition publish_return (id : nat) (timed_out : bool) (s : client) : option client :=
  o ← publish_result id timed_out s;
  Some (Build_client (conns s) (jobs s) (queue s) (inbox s) (stop_phase s) (metrics s)
          (started s) (failed s) (handed s) (acked s) (arrived s) (refused s) (returned s ++ [(id, o)])).

(** ** A connection's worker *)

Definition put_conn (i : nat) (c : conn) (s : client) : client := set_conns (<[i := c]> (conns s)) s.

(** Out of the loop: disconnect. *)
Definition conn_exit (c : conn) : conn :=
  {| connected := false; pc := CExited; backoff_seconds := backoff_seconds c |}.

Definition conn_top (s : client) (c : conn) : conn :=
  if running s then
    {| connected := connected c; pc := if connected c then CWait else CConnect;
       backoff_seconds := backoff_seconds c |}
  else conn_exit c.

Definition kMaxBackoffSeconds : Z := 30.

Definition conn_backoff (c : conn) : conn :=
  {| connected := connected c; pc := CTop;
     backoff_seconds := Z.min (backoff_seconds c * 2) kMaxBackoffSeconds |}.

(** The critical section after the wait for work. *)
Definition conn_take (i : nat) (c : conn) (s : client) : client :=
  if running s then
    match queue s with
    | [] => put_conn i {| connected := connected c; pc := CTop; backoff_seconds := backoff_seconds c |} s
    | id :: q =>
        Build_client
          (<[i := {| connected := connected c; pc := CRun id; backoff_seconds := backoff_seconds c |}]> (conns s))
          (jobs s) q (inbox s) (stop_phase s) (metrics s) (started s ++ [id]) (failed s) (handed s) (acked s) (arrived s) (refused s) (returned s)
    end
  else put_conn i (conn_exit c) s.

(** [run_job]: outcome, counter and whether the connection is still trusted,
    from Paho's two results.  The history below is filled from those results alone. *)
Definition run_job (q : Z) (publish_ok completed : bool) : PublishOutcome * Metrics.counter * bool :=
  if negb publish_ok then (Failed, Metrics.CPubFailed, false)
  else if (q =? 0)%Z then (Ok, Metrics.CPubOk, true)
  else if completed then (Ok, Metrics.CPubOk, true)
  else (Timeout, Metrics.CPubTimeout, false).

Definition conn_run (i id : nat) (c : conn) (publish_ok completed : bool) (s : client) : option client :=
  j ← jobs s !! id;
  let '(o, k, trusted) := run_job (qos (request j)) publish_ok completed in
  Some (Build_client
          (<[i := {| connected := if trusted then connected c else false; pc := CTop;
                     backoff_seconds := backoff_seconds c |}]> (conns s))
          (<[id := finish_job o j]> (jobs s)) (queue s) (inbox s) (stop_phase s)
          (Metrics.inc k (metrics s)) (started s) (failed s)
          (if publish_ok then handed s ++ [id] else handed s)
          (if publish_ok && negb (qos (request j) =? 0)%Z && completed then acked s ++ [id] else acked s)
          (arrived s) (refused s) (returned s)).

(** [on_message_arrived].  That the message came is noted by the event itself, in [exec]. *)
Definition message_arrived (m : incoming) (s : client) : client :=
  let s := set_metrics (Metrics.inc Metrics.CReceived (metrics s)) s in
  let '(ok, b) := Mailbox.offer (Config.mqtt_queue_size cfg) m (inbox s) in
  if ok then set_inbox b s
  else note_refused m (set_metrics (Metrics.inc Metrics.CDropped (metrics s)) s).

(** ** stop *)

(** The jobs still queued get a definite [Failed]. *)
Definition fail_queued (s : client) : client :=
  Build_client (conns s)
    (fold_left (fun js id => match js !! id with
                             | Some j => <[id := finish_job Failed j]> js
                             | None => js
                             end) (queue s) (jobs s))
    [] (inbox s) PhDone (metrics s) (started s) (failed s ++ queue s) (handed s) (acked s) (arrived s) (refused s) (returned s).

Definition is_exited (c : conn) : bool := bool_decide (pc c = CExited).

(** ** Steps *)

Inductive event :=
| Publish (m : msg)
| Return (id : nat) (timed_out : bool)
| Top (i : nat)
| Connected (i : nat) (ok : bool)
| BackoffOver (i : nat)
| WaitOver (i : nat)
| RunJob (i : nat) (publish_ok completed : bool)
| ConnectionLost (i : nat)
| Arrived (m : incoming)
| Inbox (e : Mailbox.event incoming)     (* the subscribe worker *)
| Stop | NotifyAll | JoinConns | JoinSubscribe | FailQueued.

Definition at_pc (i : nat) (p : cpc) (s : client) : option conn :=
  c ← conns s !! i; if decide (pc c = p) then Some c else None.

Definition exec (e : event) (s : client) : option client :=
  match e with
  | Publish m => Some (publish_enqueue m s).2
  | Return id timed_out => publish_return id timed_out s
  | Top i => c ← at_pc i CTop s; Some (put_conn i (conn_top s c) s)
  | Connected i ok =>
      c ← at_pc i CConnect s;
      Some (if ok then put_conn i {| connected := true; pc := CTop; backoff_seconds := 1 |} s
            else set_metrics (Metrics.inc Metrics.CReconnects (metrics s))
                   (put_conn i {| connected := connected c; pc := CBackoff;
                                  backoff_seconds := backoff_seconds c |} s))
  | BackoffOver i => c ← at_pc i CBackoff s; Some (put_conn i (conn_backoff c) s)
  | WaitOver i => c ← at_pc i CWait s; Some (conn_take i c s)
  | RunJob i publish_ok completed =>
      c ← conns s !! i;
      match pc c with CRun id => conn_run i id c publish_ok completed s | _ => None end
  | ConnectionLost i =>
      c ← conns s !! i;
      Some (put_conn i {| connected := false; pc := pc c; backoff_seconds := backoff_seconds c |} s)
  | Arrived m =>   (* on a live connection's receive thread *)
      if Mailbox.lock_free (inbox s) && bool_decide (conns s <> []) then Some (message_arrived m (note_arrived m s)) else None
  | Inbox e =>
      match e with
      | Mailbox.Offer _ | Mailbox.Stop | Mailbox.NotifyAll | Mailbox.Joined => None
      | _ => b ← Mailbox.exec 0 e (inbox s); Some (set_inbox b s)
      end
  | Stop =>
      if running s then Some (set_phase PhNotify (set_inbox (Mailbox.clear_running (inbox s)) s)) else Some s
  | NotifyAll =>
      if decide (stop_phase s = PhNotify)
      then Some (set_phase PhConns (set_inbox (Mailbox.notify_stop (inbox s)) s)) else None
  | JoinConns =>
      if decide (stop_phase s = PhConns) then
        if forallb is_exited (conns s) then Some (set_phase PhSubscribe (set_conns [] s)) else None
      else None
  | JoinSubscribe =>
      if decide (stop_phase s = PhSubscribe) then
        match Mailbox.worker (inbox s) with Mailbox.PExited => Some (set_phase PhFail s) | _ => None end
      else None
  | FailQueued => if decide (stop_phase s = PhFail) then Some (fail_queued s) else None
  end.

Definition reachable (m0 : Metrics.metrics) (s : client) : Prop :=
  rtc (step_by exec (fun _ => True)) (start cfg m0) s.

(** ** What the service reports *)

Definition connections_active (s : client) : Z := Z.of_nat (length (filter (fun c => connected c = true) (conns s))).
Definition pool_connected (s : client) : bool := existsb connected (conns s).
Definition queue_depth (s : client) : Z := Z.of_nat (length (queue s)).

(** ** Invariant *)

Definition flight (c : conn) : option nat := match pc c with CRun id => Some id | _ => None end.

(** The result of job [id]. *)
Definition result_of (s : client) (id : nat) : option PublishOutcome :=
  match jobs s !! id with Some j => result j | None => None end.

(** Paho took the job and, beyond QoS 0, reported its completion. *)
Definition delivered (s : client) (id : nat) : Prop :=
  id ∈ handed s /\ forall j, jobs s !! id = Some j -> qos (request j) = 0%Z \/ id ∈ acked s.

(** The messages the broker sent are, in order, those that entered the inbox and those
    it refused; it refused only when full, and never holds more than it may. *)
Definition inbox_ledger (s : client) : Prop :=
  merges (arrived s) (Mailbox.pushed (inbox s)) (map fst (refused s)) /\
  Forall (fun r : incoming * nat => (Config.mqtt_queue_size cfg <= Z.of_nat r.2)%Z) (refused s) /\
  (Z.of_nat (length (Mailbox.items (inbox s))) <= Z.max 0 (Config.mqtt_queue_size cfg))%Z.

Record client_inv (s : client) : Prop := {
  (* every job is taken once, in order, or failed by [stop], or still queued *)
  mi_order : seq 0 (length (jobs s)) = started s ++ failed s ++ queue s;
  mi_flight : exists fin, started s ≡ₚ omap flight (conns s) ++ fin /\
                Forall (fun id => is_Some (result_of s id)) fin;
  mi_open : Forall (fun id => result_of s id = None) (omap flight (conns s) ++ queue s);
  mi_failed : Forall (fun id => result_of s id = Some Failed) (failed s);
  (* Paho took only jobs that now say so; [Ok] is what Paho said *)
  mi_handed : forall id, id ∈ handed s -> result_of s id = Some Ok \/ result_of s id = Some Timeout;
  mi_acked : forall id, id ∈ acked s -> result_of s id = Some Ok;
  mi_ok : forall id, result_of s id = Some Ok -> delivered s id;
  mi_once : NoDup (handed s);
  mi_results : forall id, result_of s id <> Some QueueFull;
  mi_returned : Forall (fun r : nat * PublishOutcome => r.2 = Timeout \/ result_of s r.1 = Some r.2) (returned s);
  mi_bound : (Z.of_nat (length (queue s)) <= Z.max 0 (Config.mqtt_queue_size cfg))%Z;
  mi_backoff : Forall (fun c => (1 <= backoff_seconds c <= kMaxBackoffSeconds)%Z) (conns s);
  mi_stopped : (stop_phase s = PhSubscribe \/ stop_phase s = PhFail \/ stop_phase s = PhDone) -> conns s = [];
  mi_failed_conns : failed s <> [] -> conns s = [];
  (* a message enters the inbox, or is refused because it is full *)
  mi_inbox : inbox_ledger s
}.

Lemma omap_replicate_none n : omap flight (replicate n new_conn) = [].
Proof. by induction n. Qed.

Lemma mqtt_start_inv m0 : client_inv (start cfg m0).
Proof.
  split; simpl; try done.
  - exists []. by rewrite omap_replicate_none.
  - rewrite omap_replicate_none. by apply list.Forall_nil.
  - intros id H. by apply elem_of_nil in H.
  - intros id H. by apply elem_of_nil in H.
  - constructor.
  - lia.
  - apply list.Forall_forall. intros c Hc. apply elem_of_replicate in Hc as [-> _]. unfold kMaxBackoffSeconds. simpl. lia.
  - intros [|[|]]; done.
  - unfold inbox_ledger, start. split_and!; cbn; destruct (needs_subscribe_worker cfg); cbn; (constructor || lia).
Qed.

(** Steps that only change connections' local state. *)
Lemma put_conn_inv s i c c' :
  client_inv s -> conns s !! i = Some c -> flight c' = flight c ->
  (1 <= backoff_seconds c' <= kMaxBackoffSeconds)%Z -> client_inv (put_conn i c' s).
Proof.
  intros [H1 [fin [H2 H2']] H3 H4 Hh Ha Hk Hn H7 H8 H9 H10 H11 H12 Hx] Hc Hf Hb.
  pose proof (omap_insert_perm flight _ _ _ c' Hc) as Hp. rewrite Hf in Hp. apply Permutation_app_inv_l in Hp.
  split; simpl; try done.
  - exists fin. by rewrite Hp.
  - by rewrite Hp.
  - by apply Forall_insert.
  - intros Hph. apply H11 in Hph. by rewrite Hph in Hc.
  - intros Hfl. apply H12 in Hfl. by rewrite Hfl in Hc.
Qed.

Lemma set_metrics_inv s m : client_inv s -> client_inv (set_metrics m s).
Proof. by intros []. Qed.
Lemma set_inbox_inv s b :
  client_inv s -> Mailbox.pushed b = Mailbox.pushed (inbox s) ->
  length (Mailbox.items b) <= length (Mailbox.items (inbox s)) -> client_inv (set_inbox b s).
Proof.
  intros [] Hp Hl. split; try done. unfold inbox_ledger in *. cbn [arrived refused inbox set_inbox]. rewrite Hp.
  split_and!; naive_solver lia.
Qed.

(** A message arrives: it is in the inbox, or was refused by a full one. *)
Lemma message_arrived_inv m s : client_inv s -> client_inv (message_arrived m (note_arrived m s)).
Proof.
  intros Hinv. pose proof (mi_inbox _ Hinv) as (Hm & Hf & Hb). unfold message_arrived, Mailbox.offer. cbn [inbox note_arrived set_metrics].
  destruct (Z.leb_spec (Config.mqtt_queue_size cfg) (Z.of_nat (length (Mailbox.items (inbox s))))); destruct Hinv; (split; try done).
  - split_and!; [|by apply Forall_app_2, Forall_singleton|done]. cbn. rewrite map_app. by apply merges_app_right.
  - split_and!; [by apply merges_app_left|done|]. cbn. rewrite length_app. cbn. lia.
Qed.

Lemma conn_backoff_ok c :
  (1 <= backoff_seconds c <= kMaxBackoffSeconds)%Z ->
  (1 <= backoff_seconds (conn_backoff c) <= kMaxBackoffSeconds)%Z.
Proof. unfold conn_backoff, kMaxBackoffSeconds. simpl. lia. Qed.

Lemma inv_backoff s i c : client_inv s -> conns s !! i = Some c -> (1 <= backoff_seconds c <= kMaxBackoffSeconds)%Z.
Proof. intros H Hc. pose proof (mi_backoff _ H) as HF. rewrite list.Forall_lookup in HF. by eapply HF. Qed.

Lemma result_of_app s x id :
  id < length (jobs s) ->
  match (jobs s ++ [x]) !! id with Some j => result j | None => None end = result_of s id.
Proof. intros H. unfold result_of. by rewrite lookup_app_l. Qed.

(** Job numbers in play are below the number of jobs. *)
Lemma inv_ids s id : client_inv s -> id ∈ started s ++ failed s ++ queue s -> id < length (jobs s).
Proof. intros H Hin. rewrite <- (mi_order _ H) in Hin. apply elem_of_seq in Hin. lia. Qed.

Lemma inv_nodup s : client_inv s -> NoDup (started s ++ failed s ++ queue s).
Proof. intros H. rewrite <- (mi_order _ H). apply NoDup_ListNoDup, seq_NoDup. Qed.

Lemma result_some s id o : result_of s id = Some o -> id < length (jobs s).
Proof. unfold result_of. intros H. destruct (jobs s !! id) eqn:E; [|done]. by eapply lookup_lt_Some. Qed.

Lemma publish_inv m s : client_inv s -> client_inv (publish_enqueue m s).2.
Proof.
  intros Hinv. pose proof Hinv as [H1 [fin [H2 H2']] H3 H4 Hh Ha Hk Hn H7 H8 H9 H10 H11 H12 Hx].
  unfold publish_enqueue. destruct (Z.leb_spec (Config.mqtt_queue_size cfg) (Z.of_nat (length (queue s)))); [by apply set_metrics_inv|].
  set (s' := snd _).
  assert (Hr : forall id, result_of s' id = result_of s id).
  { intros id. unfold result_of. simpl. destruct (decide (id < length (jobs s))).
    - by rewrite lookup_app_l.
    - destruct (decide (id = length (jobs s))) as [->|].
      + rewrite lookup_app_r, Nat.sub_diag by lia. simpl. by rewrite lookup_ge_None_2.
      + rewrite !lookup_ge_None_2; [done|lia|rewrite length_app; simpl; lia]. }
  split; try done; simpl.
  - rewrite length_app, seq_app, H1. simpl. by rewrite <- !app_assoc.
  - exists fin. split; [done|]. eapply list.Forall_impl; [exact H2'|]. intros id. by rewrite Hr.
  - rewrite app_assoc. apply Forall_app_2.
    + eapply list.Forall_impl; [exact H3|]. intros id. by rewrite Hr.
    + apply Forall_singleton. rewrite Hr. unfold result_of. by rewrite lookup_ge_None_2.
  - eapply list.Forall_impl; [exact H4|]. intros id. by rewrite Hr.
  - intros id. rewrite Hr. apply Hh.
  - intros id. rewrite Hr. apply Ha.
  - intros id. rewrite Hr. intros Ho. destruct (Hk id Ho) as [Hin Hq]. split; [done|]. intros j. cbn.
    rewrite lookup_app_l by (by eapply result_some). apply Hq.
  - intros id. by rewrite Hr.
  - eapply list.Forall_impl; [exact H8|]. intros id. by rewrite Hr.
  - rewrite length_app. simpl. lia.
Qed.

Lemma take_inv i c s : client_inv s -> conns s !! i = Some c -> pc c = CWait -> client_inv (conn_take i c s).
Proof.
  intros Hinv Hc Hpc. pose proof (inv_backoff _ _ _ Hinv Hc) as Hb. unfold conn_take.
  assert (Hfl : flight c = None) by (unfold flight; by rewrite Hpc).
  destruct (running s); [|by eapply put_conn_inv].
  destruct (queue s) as [|id q] eqn:Eq; [by eapply put_conn_inv|].
  pose proof Hinv as [H1 [fin [H2 H2']] H3 H4 Hh Ha Hk Hn H7 H8 H9 H10 H11 H12 Hx].
  set (c' := Build_conn _ _ _). pose proof (omap_insert_perm flight _ _ _ c' Hc) as Hp. rewrite Hfl in Hp. simpl in Hp.
  assert (Hf : failed s = []).
  { destruct (failed s) eqn:E; [done|]. rewrite H12 in Hc; done. }
  rewrite Eq in *. split; simpl; try done.
  - rewrite H1, Hf. simpl. by rewrite <- app_assoc.
  - exists fin. split; [|done]. rewrite H2, Hp. solve_Permutation.
  - rewrite Hp. simpl. rewrite Permutation_middle. exact H3.
  - simpl in H9. lia.
  - by apply Forall_insert.
  - intros Hph. apply H11 in Hph. by rewrite Hph in Hc.
Qed.

Lemma run_job_outcome q a b : (run_job q a b).1.1 <> QueueFull.
Proof. unfold run_job. repeat case_match; done. Qed.

(** A job in flight is nowhere else. *)
Lemma running_alone i id c c' s fin :
  client_inv s -> conns s !! i = Some c -> flight c = Some id -> flight c' = None ->
  started s ≡ₚ omap flight (conns s) ++ fin ->
  omap flight (conns s) ≡ₚ id :: omap flight (<[i := c']> (conns s)) /\
  id ∈ started s /\ id ∉ failed s /\ id ∉ queue s /\ id ∉ omap flight (<[i := c']> (conns s)) /\ id ∉ fin.
Proof.
  intros Hinv Hc Hfl Hfl' H2. pose proof (inv_nodup _ Hinv) as Hnd.
  pose proof (omap_insert_perm flight _ _ _ c' Hc) as Hp. rewrite Hfl, Hfl' in Hp. simpl in Hp. symmetry in Hp.
  assert (Hst : id ∈ started s) by (rewrite H2, Hp; simpl; by left).
  apply list.NoDup_app in Hnd as (Hns & Hd & _). rewrite H2, Hp in Hns.
  apply list.NoDup_cons in Hns as [[Hn1 Hn2]%not_elem_of_app _].
  specialize (Hd _ Hst). apply not_elem_of_app in Hd as [Hf Hq]. by split_and!.
Qed.

(** One open job gets its result from Paho's two answers. *)
Lemma result_handed s s1 id j a b o k tr :
  (forall x, result_of s1 x = if decide (x = id) then Some o else result_of s x) -> result_of s id = None ->
  jobs s !! id = Some j -> jobs s1 = <[id := finish_job o j]> (jobs s) ->
  run_job (qos (request j)) a b = (o, k, tr) ->
  handed s1 = (if a then handed s ++ [id] else handed s) ->
  acked s1 = (if a && negb (qos (request j) =? 0)%Z && b then acked s ++ [id] else acked s) ->
  (forall x, x ∈ handed s -> result_of s x = Some Ok \/ result_of s x = Some Timeout) ->
  (forall x, x ∈ acked s -> result_of s x = Some Ok) ->
  (forall x, result_of s x = Some Ok -> delivered s x) -> NoDup (handed s) ->
  (forall x, x ∈ handed s1 -> result_of s1 x = Some Ok \/ result_of s1 x = Some Timeout) /\
  (forall x, x ∈ acked s1 -> result_of s1 x = Some Ok) /\
  (forall x, result_of s1 x = Some Ok -> delivered s1 x) /\ NoDup (handed s1).
Proof.
  intros Hr Hnone Ej Ejs Er Eh Ea Hh Ha Hk Hn.
  assert (Hnh : id ∉ handed s) by (intros Hin; destruct (Hh id Hin); congruence).
  assert (Hna : id ∉ acked s) by (intros Hin; specialize (Ha id Hin); congruence).
  split_and!.
  - intros x Hin. rewrite Hr. rewrite Eh in Hin. case_decide as E; [subst x|].
    + destruct a; [|done]. unfold run_job in Er. repeat case_match; simplify_eq/=; auto.
    + destruct a; [|auto]. apply elem_of_app in Hin as [|Hin%list_elem_of_singleton]; [auto|done].
  - intros x Hin. rewrite Hr. rewrite Ea in Hin. case_decide as E; [subst x|].
    + destruct (a && _ && b) eqn:Eab; [|done]. apply andb_true_iff in Eab as [[-> _]%andb_true_iff ->].
      unfold run_job in Er. cbn in Er. by case_match; simplify_eq.
    + destruct (a && _ && b); [|auto]. apply elem_of_app in Hin as [|Hin%list_elem_of_singleton]; [auto|done].
  - intros x. rewrite Hr. unfold delivered. rewrite Ejs. case_decide as E; [subst x|].
    + intros [= ->]. unfold run_job in Er. destruct a; cbn in Er; [|done]. rewrite Eh, elem_of_app, list_elem_of_singleton.
      split; [by right|]. intros j' Hj'. rewrite list_lookup_insert_eq in Hj' by (by eapply lookup_lt_Some).
      injection Hj' as <-. cbn [request finish_job]. destruct (Z.eqb_spec (qos (request j)) 0); [by left|right].
      destruct b; [|done]. rewrite Ea. cbn. apply elem_of_app. right. by apply list_elem_of_singleton.
    + intros Ho. destruct (Hk x Ho) as [H Hq]. rewrite list_lookup_insert_ne by done. split.
      * rewrite Eh. destruct a; [apply elem_of_app; by left|done].
      * intros j' Hj'. destruct (Hq j' Hj') as [|Hin]; [by left|right]. rewrite Ea. case_match; [apply elem_of_app; by left|done].
  - rewrite Eh. destruct a; [|done]. apply list.NoDup_app. split_and!; [done| |apply NoDup_singleton].
    by intros x Hx ->%list_elem_of_singleton.
Qed.

Lemma conn_run_inv i id c a b s s' :
  client_inv s -> conns s !! i = Some c -> pc c = CRun id -> conn_run i id c a b s = Some s' -> client_inv s'.
Proof.
  intros Hinv Hc Hpc H. pose proof (inv_backoff _ _ _ Hinv Hc) as Hb.
  pose proof Hinv as [H1 [fin [H2 H2']] H3 H4 Hh Ha Hk Hn H7 H8 H9 H10 H11 H12 Hx].
  unfold conn_run in H. destruct (jobs s !! id) as [j|] eqn:Ej; [|done]. cbn [mbind option_bind] in H.
  destruct (run_job (qos (request j)) a b) as [[o k] trusted] eqn:Er. injection H as <-.
  pose proof (run_job_outcome (qos (request j)) a b) as Ho. rewrite Er in Ho. simpl in Ho.
  set (c' := Build_conn _ CTop _).
  assert (Hfl : flight c = Some id) by (unfold flight; by rewrite Hpc).
  destruct (running_alone i id c c' s fin Hinv Hc Hfl eq_refl H2) as (Hp & Hst & Hnfa & Hnq & Hnfl & Hnfin).
  assert (Hnone : result_of s id = None).
  { rewrite list.Forall_forall in H3. apply H3. rewrite Hp. simpl. by left. }
  set (s1 := Build_client _ _ _ _ _ _ _ _ _ _ _ _ _).
  assert (Hr : forall x, result_of s1 x = if decide (x = id) then Some o else result_of s x).
  { intros x. unfold result_of. simpl. apply lookup_lt_Some in Ej as Hlt. case_decide as E.
    - subst. by rewrite list_lookup_insert_eq.
    - by rewrite list_lookup_insert_ne. }
  assert (Hkeep : forall (P : option PublishOutcome -> Prop) l,
    id ∉ l -> Forall (fun x => P (result_of s x)) l -> Forall (fun x => P (result_of s1 x)) l).
  { intros P l Hl HF. apply list.Forall_forall. intros x Hin. rewrite Hr, decide_False by congruence.
    rewrite list.Forall_forall in HF. auto. }
  assert (Ej1 : length (jobs s1) = length (jobs s)) by apply length_insert.
  assert (Est : started s1 = started s) by done. assert (Efa : failed s1 = failed s) by done.
  assert (Equ : queue s1 = queue s) by done. assert (Ere : returned s1 = returned s) by done.
  assert (Eph : stop_phase s1 = stop_phase s) by done.
  assert (Eco : conns s1 = <[i:=c']> (conns s)) by done.
  assert (Hxb : inbox_ledger s1) by done.
  destruct (result_handed s s1 id j a b o k trusted Hr Hnone Ej eq_refl Er eq_refl eq_refl Hh Ha Hk Hn) as (Hh1 & Ha1 & Hk1 & Hn1).
  clearbody s1. split; rewrite ?Ej1, ?Est, ?Efa, ?Equ, ?Ere, ?Eph, ?Eco; try done.
  - exists (id :: fin). split; [rewrite H2, Hp; solve_Permutation|].
    apply list.Forall_cons. split; [rewrite Hr, decide_True by done; by eexists|].
    apply (Hkeep is_Some); done.
  - apply Forall_app_2; apply (Hkeep (fun r => r = None)); try done.
    + rewrite Hp in H3. simpl in H3. inv H3. rename select (Forall _ (_ ++ queue s)) into HF.
      by apply Forall_app in HF as [? _].
    + by apply Forall_app in H3 as [_ ?].
  - by apply (Hkeep (fun r => r = Some Failed)).
  - intros x. rewrite Hr. destruct (decide (x = id)); [intros Hq; apply Ho; congruence|apply H7].
  - eapply list.Forall_impl; [exact H8|]. intros [x r] [Ht|Hxr]; [by left|right]. simpl in *.
    rewrite Hr, decide_False; [done|]. intros ->. congruence.
  - by apply Forall_insert.
  - intros Hph. apply H11 in Hph. by rewrite Hph in Hc.
  - intros Hfl'. apply H12 in Hfl'. by rewrite Hfl' in Hc.
Qed.

Definition fail_jobs (js : list job) (q : list nat) : list job :=
  fold_left (fun js id => match js !! id with
                          | Some j => <[id := finish_job Failed j]> js
                          | None => js
                          end) q js.

Lemma fail_jobs_lookup q js id :
  fail_jobs js q !! id = (if decide (id ∈ q) then finish_job Failed <$> js !! id else js !! id).
Proof.
  revert js. induction q as [|x q IH]; intros js.
  { unfold fail_jobs. cbn [fold_left]. rewrite decide_False; [done|apply not_elem_of_nil]. }
  unfold fail_jobs in *. cbn [fold_left]. rewrite IH.
  assert (Hx : match js !! x with Some j => <[x:=finish_job Failed j]> js | None => js end !! id
               = if decide (id = x) then finish_job Failed <$> js !! id else js !! id).
  { destruct (decide (id = x)) as [->|Hne].
    - destruct (js !! x) as [j|] eqn:E; [|by rewrite E].
      rewrite list_lookup_insert_eq; [done|by eapply lookup_lt_Some].
    - destruct (js !! x); [by rewrite list_lookup_insert_ne|done]. }
  rewrite Hx. clear IH Hx.
  destruct (decide (id ∈ q)) as [Hq|Hq], (decide (id = x)) as [->|Hne].
  - rewrite decide_True by apply list_elem_of_here. by destruct (js !! x).
  - rewrite decide_True by by apply list_elem_of_further. done.
  - by rewrite decide_True by apply list_elem_of_here.
  - rewrite decide_False; [done|]. rewrite elem_of_cons. tauto.
Qed.

Lemma fail_jobs_length q js : length (fail_jobs js q) = length js.
Proof.
  revert js. induction q as [|x q IH]; intros js; [done|]. unfold fail_jobs in *. cbn [fold_left].
  rewrite IH. destruct (js !! x); [apply length_insert|done].
Qed.

Lemma fail_queued_result s id :
  client_inv s -> result_of (fail_queued s) id = if decide (id ∈ queue s) then Some Failed else result_of s id.
Proof.
  intros Hinv. unfold result_of, fail_queued. cbn [jobs]. fold (fail_jobs (jobs s) (queue s)).
  rewrite fail_jobs_lookup. case_decide as Hin; [|done].
  destruct (jobs s !! id) eqn:E; [done|]. exfalso. apply lookup_ge_None in E.
  assert (id < length (jobs s)); [|lia]. apply (inv_ids s id Hinv). rewrite !elem_of_app. auto.
Qed.

Lemma fail_queued_inv s : client_inv s -> stop_phase s = PhFail -> client_inv (fail_queued s).
Proof.
  intros Hinv Hph. pose proof (inv_nodup _ Hinv) as Hnd.
  pose proof Hinv as [H1 [fin [H2 H2']] H3 H4 Hh Ha Hk Hn H7 H8 H9 H10 H11 H12 Hx].
  assert (Hco : conns s = []) by auto. pose proof (fun id => fail_queued_result s id Hinv) as Hr.
  rewrite Hco in *. simpl in H2, H3.
  assert (Hq : forall id, result_of s id <> None -> id ∉ queue s).
  { intros id Hne Hin. rewrite list.Forall_forall in H3. by apply H3 in Hin. }
  assert (Hkeep : forall id o, result_of s id = Some o -> result_of (fail_queued s) id = Some o).
  { intros id o Ho. rewrite Hr, decide_False; [done|]. apply Hq. congruence. }
  split; try done.
  - simpl. fold (fail_jobs (jobs s) (queue s)). rewrite fail_jobs_length, H1. by rewrite app_nil_r.
  - simpl. rewrite Hco. exists fin. split; [done|]. eapply list.Forall_impl; [exact H2'|].
    intros id [o Ho]. exists o. by apply Hkeep.
  - simpl. rewrite Hco. by apply list.Forall_nil.
  - simpl. apply Forall_app_2.
    + eapply list.Forall_impl; [exact H4|]. intros id Hid. by apply Hkeep.
    + apply list.Forall_forall. intros id Hin. by rewrite Hr, decide_True.
  - intros id Hin. destruct (Hh id Hin) as [Ho|Ho]; rewrite (Hkeep id _ Ho); auto.
  - intros id Hin. apply Hkeep, Ha, Hin.
  - intros id. rewrite Hr. case_decide as Hin; [done|]. intros Ho. destruct (Hk id Ho) as [H Hqos]. split; [done|].
    intros j. cbn. fold (fail_jobs (jobs s) (queue s)). rewrite fail_jobs_lookup, decide_False by done. apply Hqos.
  - intros id. rewrite Hr. by case_decide.
  - simpl. eapply list.Forall_impl; [exact H8|]. intros [id o] [Ht|Ho]; [by left|right]. by apply Hkeep.
  - simpl. lia.
  - simpl. by rewrite Hco.
Qed.

Lemma return_inv id t s s' : client_inv s -> publish_return id t s = Some s' -> client_inv s'.
Proof.
  intros [H1 H2 H3 H4 Hh Ha Hk Hn H7 H8 H9 H10 H11 H12 Hx] H. unfold publish_return in H.
  destruct (publish_result id t s) as [o|] eqn:E; [|done]. cbn [mbind option_bind] in H. injection H as <-.
  split; try done. simpl. apply Forall_app_2; [done|]. apply Forall_singleton. simpl.
  unfold publish_result in E. unfold result_of. simpl. destruct (jobs s !! id) as [j|]; [|done].
  destruct (result j); [by right; simplify_eq|]. destruct t; [left; by simplify_eq|done].
Qed.

Lemma phase_inv p s :
  client_inv s -> ((p = PhSubscribe \/ p = PhFail \/ p = PhDone) -> conns s = []) -> client_inv (set_phase p s).
Proof. intros [] H. by split. Qed.

Lemma join_conns_inv s : client_inv s -> forallb is_exited (conns s) = true -> client_inv (set_phase PhSubscribe (set_conns [] s)).
Proof.
  intros [H1 [fin [H2 H2']] H3 H4 Hh Ha Hk Hn H7 H8 H9 H10 H11 H12 Hx] Hex.
  assert (Hfl : omap flight (conns s) = []).
  { clear -Hex. rewrite forallb_forall in Hex. induction (conns s) as [|c cs IH]; [done|].
    simpl. assert (flight c = None) as ->.
    { specialize (Hex c (or_introl eq_refl)). apply bool_decide_eq_true in Hex. unfold flight. by rewrite Hex. }
    apply IH. intros x Hx. apply Hex. by right. }
  rewrite Hfl in *. split; try done; simpl; auto. by exists fin.
Qed.

Lemma at_pc_Some i p s c : at_pc i p s = Some c -> conns s !! i = Some c /\ pc c = p.
Proof.
  unfold at_pc. destruct (conns s !! i) as [c'|]; [|done]. cbn [mbind option_bind].
  case_decide; [|done]. by intros [= ->].
Qed.

Lemma flight_pc c p : pc c = p -> (forall id, p <> CRun id) -> flight c = None.
Proof. unfold flight. intros ->. destruct p; naive_solver. Qed.

Lemma worker_event_inv i p (f : conn -> client) s s' :
  (forall c, conns s !! i = Some c -> pc c = p -> client_inv (f c)) ->
  (c ← at_pc i p s; Some (f c)) = Some s' -> client_inv s'.
Proof.
  intros Hf H. destruct (at_pc i p s) as [c|] eqn:E; [|done]. apply at_pc_Some in E as [Hc Hp].
  injection H as <-. auto.
Qed.

(** A step of the subscribe worker is one of the mailbox's own. *)
Lemma exec_inbox e s s' :
  exec (Inbox e) s = Some s' ->
  exists b, Mailbox.exec 0 e (inbox s) = Some b /\ s' = set_inbox b s /\
    match e with Mailbox.Offer _ | Mailbox.Stop | Mailbox.NotifyAll | Mailbox.Joined => False | _ => True end.
Proof.
  cbn [exec]. intros H. destruct e; try done;
    (match type of H with context [?x ≫= _] => destruct x as [b|] eqn:Eb; [|done] end); injection H as <-; by exists b.
Qed.

Lemma mqtt_exec_inv e s s' : client_inv s -> exec e s = Some s' -> client_inv s'.
Proof.
  intros Hinv H. destruct e as [m|id t|i|i ok|i|i|i a b|i|m|e| | | | |]; cbn [exec] in H.
  - injection H as <-. by apply publish_inv.
  - by eapply return_inv.
  - eapply worker_event_inv; [|exact H]. intros c Hc Hp. pose proof (inv_backoff _ _ _ Hinv Hc).
    eapply put_conn_inv; [done..| |]; unfold conn_top, conn_exit, flight; rewrite ?Hp;
      by destruct (running s), (connected c).
  - eapply worker_event_inv; [|exact H]. intros c Hc Hp. pose proof (inv_backoff _ _ _ Hinv Hc).
    destruct ok; [|apply set_metrics_inv]; (eapply put_conn_inv; [exact Hinv|exact Hc| |]);
      unfold flight; rewrite ?Hp; try done; unfold kMaxBackoffSeconds; simpl; lia.
  - eapply worker_event_inv; [|exact H]. intros c Hc Hp. pose proof (inv_backoff _ _ _ Hinv Hc).
    apply (put_conn_inv _ _ c); [exact Hinv|exact Hc| |exact (conn_backoff_ok c (inv_backoff _ _ _ Hinv Hc))].
    transitivity (@None nat); [done|]. unfold flight. by rewrite Hp.
  - eapply worker_event_inv; [|exact H]. intros c Hc Hp. by eapply take_inv.
  - destruct (conns s !! i) as [c|] eqn:Hc; [|done]. cbn [mbind option_bind] in H.
    destruct (pc c) eqn:Hp; try done. by eapply conn_run_inv.
  - destruct (conns s !! i) as [c|] eqn:Hc; [|done]. cbn [mbind option_bind] in H. injection H as <-.
    apply (put_conn_inv _ _ c); [exact Hinv|exact Hc|done|exact (inv_backoff _ _ _ Hinv Hc)].
  - destruct (_ && _); [|done]. injection H as <-. by apply message_arrived_inv.
  - apply (exec_inbox e) in H as (b & Hb & -> & Hok). assert (Hno : forall j, e <> Mailbox.Offer j) by (by intros j ->).
    destruct (Mailbox.exec_no_offer 0 e _ _ Hno Hb). by apply set_inbox_inv.
  - destruct (running s); injection H as <-; [|done]. apply phase_inv; [|intros [|[|]]; done].
    apply set_inbox_inv; [done|unfold Mailbox.clear_running; by destruct (Mailbox.running _)..].
  - case_decide; [|done]. injection H as <-. apply phase_inv; [by apply set_inbox_inv|]. intros [|[|]]; done.
  - case_decide; [|done]. destruct (forallb _ _) eqn:E; [|done]. injection H as <-. by apply join_conns_inv.
  - case_decide; [|done]. destruct (Mailbox.worker _); try done. injection H as <-.
    apply phase_inv; [done|]. intros _. apply (mi_stopped _ Hinv). auto.
  - case_decide; [|done]. injection H as <-. by apply fail_queued_inv.
Qed.

Lemma mqtt_reachable_inv m0 s : reachable m0 s -> client_inv s.
Proof.
  intros H. eapply (rtc_invariant _ client_inv); [|exact H|apply mqtt_start_inv].
  intros a b (e & _ & He) Hi. by eapply mqtt_exec_inv.
Qed.

(** ** Lemmas: the inbox *)

(** Steps that are not about the inbox or the stop. *)
Lemma exec_inbox_same e s s' :
  match e with Arrived _ | Inbox _ | Stop | NotifyAll | JoinConns | JoinSubscribe | FailQueued => False | _ => True end ->
  exec e s = Some s' -> inbox s' = inbox s /\ stop_phase s' = stop_phase s.
Proof.
  intros He H. destruct e as [m|n t|i|i ok|i|i|i a b|i|m|e| | | | |]; try done; cbn [exec] in H.
  - injection H as <-. unfold publish_enqueue. by case_match.
  - unfold publish_return in H. destruct (publish_result n t s); [|done]. by injection H as <-.
  - destruct (at_pc i CTop s); [|done]. by injection H as <-.
  - destruct (at_pc i CConnect s); [|done]. injection H as <-. by destruct ok.
  - destruct (at_pc i CBackoff s); [|done]. by injection H as <-.
  - destruct (at_pc i CWait s); [|done]. injection H as <-. unfold conn_take. destruct (running s); [|done]. by destruct (queue s).
  - destruct (conns s !! i) as [c|]; [|done]. cbn [mbind option_bind] in H. destruct (pc c); try done.
    unfold conn_run in H. destruct (jobs s !! id); [|done]. cbn [mbind option_bind] in H.
    destruct (run_job _ a b) as [[o k] tr]. by injection H as <-.
  - destruct (conns s !! i); [|done]. by injection H as <-.
Qed.

(** While the flag is up, the inbox is a mailbox in order. *)
Definition inbox_ok (s : client) : Prop :=
  (stop_phase s = PhIdle \/ running s = false) /\
  (running s = true -> Mailbox.box_inv (Config.mqtt_queue_size cfg) (inbox s)).

Lemma inbox_exec_ok e s s' : inbox_ok s -> exec e s = Some s' -> inbox_ok s'.
Proof.
  intros [Hp Hb] H.
  assert (Hdown : forall s1 : client, running s1 = running s -> stop_phase s <> PhIdle -> inbox_ok s1).
  { intros s1 E Hn. destruct Hp as [|Hr]; [done|]. unfold inbox_ok. rewrite E, Hr. split; [by right|done]. }
  destruct e as [m|n t|i|i ok|i|i|i a b|i|m|e| | | | |];
    try (apply exec_inbox_same in H as [E1 E2]; [|exact I]; unfold inbox_ok, running; by rewrite E1, E2);
    cbn [exec] in H.
  - destruct (_ && _) eqn:El; [|done]. apply andb_true_iff in El as [El _]. injection H as <-. unfold message_arrived, inbox_ok.
    pose proof (fun Hi => Mailbox.box_exec_inv (Config.mqtt_queue_size cfg) (Mailbox.Offer m) (inbox s)
      (Mailbox.offer (Config.mqtt_queue_size cfg) m (inbox s)).2 Hi) as Ho. cbn [Mailbox.exec] in Ho. rewrite El in Ho.
    unfold Mailbox.offer in *. destruct (_ <=? _)%Z; [done|]. split; [exact Hp|]. intros Hr. exact (Ho (Hb Hr) eq_refl).
  - apply (exec_inbox e) in H as (b & Hx & -> & Ho).
    assert (Hr : Mailbox.running b = Mailbox.running (inbox s)) by (apply (Mailbox.exec_running 0 e); [by destruct e|done]).
    unfold inbox_ok, running in *. cbn. rewrite Hr. split; [done|]. intros Hrun.
    apply (Mailbox.box_exec_inv (Config.mqtt_queue_size cfg) e (inbox s)); [by apply Hb|by destruct e].
  - destruct (running s) eqn:Er; injection H as <-; [|by split; [right|rewrite Er]]. unfold inbox_ok, running, Mailbox.clear_running in *.
    rewrite Er. cbn. split; [by right|done].
  - case_decide as Hd; [|done]. injection H as <-. apply Hdown; [done|by rewrite Hd].
  - case_decide as Hd; [|done]. destruct (forallb _ _); [|done]. injection H as <-. apply Hdown; [done|by rewrite Hd].
  - case_decide as Hd; [|done]. destruct (Mailbox.worker _); try done. injection H as <-. apply Hdown; [done|by rewrite Hd].
  - case_decide as Hd; [|done]. injection H as <-. apply Hdown; [done|by rewrite Hd].
Qed.

Lemma inbox_reachable_inv m0 s :
  needs_subscribe_worker cfg = true -> reachable m0 s -> running s = true ->
  Mailbox.box_inv (Config.mqtt_queue_size cfg) (inbox s).
Proof.
  intros Hn H. refine (proj2 (rtc_invariant _ inbox_ok _ _ _ H _)).
  - intros a b (e & _ & He) Hi. by eapply inbox_exec_ok.
  - unfold inbox_ok, start. rewrite Hn. cbn. split; [by left|]. intros _. apply Mailbox.started_inv.
Qed.

(** ** Lemmas: where a success comes from *)

Lemma ok_step e s s' id :
  exec e s = Some s' -> result_of s' id = Some Ok -> result_of s id <> Some Ok ->
  exists i b, e = RunJob i true b /\
    (exists c, conns s !! i = Some c /\ pc c = CRun id) /\
    exists j, jobs s !! id = Some j /\ (qos (request j) = 0%Z \/ b = true).
Proof.
  intros H Hok Hno.
  assert (Hsame : jobs s' = jobs s -> False) by (intros E; apply Hno; unfold result_of in *; by rewrite <- E).
  destruct e as [m|n t|i|i ok|i|i|i a b|i|m|e| | | | |]; cbn [exec] in H.
  - injection H as <-. exfalso. unfold publish_enqueue in *. destruct (_ <=? _)%Z; [by apply Hsame|].
    unfold result_of in *. cbn [jobs snd] in Hok. destruct (decide (id < length (jobs s))).
    + by rewrite lookup_app_l in Hok.
    + rewrite lookup_app_r in Hok by lia. destruct (id - length (jobs s)); [done|]. by destruct n0.
  - unfold publish_return in H. destruct (publish_result n t s); [|done]. by injection H as <-.
  - destruct (at_pc i CTop s); [|done]. by injection H as <-.
  - destruct (at_pc i CConnect s); [|done]. injection H as <-. by destruct ok.
  - destruct (at_pc i CBackoff s); [|done]. by injection H as <-.
  - destruct (at_pc i CWait s); [|done]. injection H as <-. exfalso. apply Hsame.
    unfold conn_take. destruct (running s); [|done]. by destruct (queue s).
  - destruct (conns s !! i) as [c|] eqn:Hc; [|done]. cbn [mbind option_bind] in H.
    destruct (pc c) as [| | | |id'|] eqn:Hp; try done. unfold conn_run in H.
    destruct (jobs s !! id') as [j|] eqn:Ej; [|done]. cbn [mbind option_bind] in H.
    destruct (run_job (qos (request j)) a b) as [[o k] tr] eqn:Er. injection H as <-. unfold result_of in *. cbn [jobs] in Hok.
    destruct (decide (id = id')) as [->|Hne]; [|by rewrite list_lookup_insert_ne in Hok].
    rewrite list_lookup_insert_eq in Hok by (by eapply lookup_lt_Some). injection Hok as ->. unfold run_job in Er.
    destruct a; simpl in Er; [|done]. exists i, b. split; [done|]. split; [by exists c|].
    exists j. split; [done|]. destruct (Z.eqb_spec (qos (request j)) 0); [by left|]. destruct b; [by right|done].
  - destruct (conns s !! i); [|done]. by injection H as <-.
  - destruct (_ && _); [|done]. injection H as <-. exfalso. apply Hsame.
    unfold message_arrived. by destruct (Mailbox.offer _ _ _) as [[] b].
  - exfalso. apply Hsame. by apply (exec_inbox e) in H as (b & _ & -> & _).
  - destruct (running s); by injection H as <-.
  - case_decide; [|done]. by injection H as <-.
  - case_decide; [|done]. destruct (forallb _ _); [|done]. by injection H as <-.
  - case_decide; [|done]. destruct (Mailbox.worker _); try done. by injection H as <-.
  - case_decide; [|done]. injection H as <-. exfalso. revert Hok. unfold result_of, fail_queued. cbn [jobs].
    fold (fail_jobs (jobs s) (queue s)). rewrite fail_jobs_lookup. unfold result_of in Hno.
    case_decide; [by destruct (jobs s !! id)|done].
Qed.

Lemma ok_trace m0 es s id :
  run exec es (start cfg m0) = Some s -> result_of s id = Some Ok ->
  exists pre i b post s1 c j, es = pre ++ RunJob i true b :: post /\
    run exec pre (start cfg m0) = Some s1 /\ conns s1 !! i = Some c /\ pc c = CRun id /\
    jobs s1 !! id = Some j /\ (qos (request j) = 0%Z \/ b = true).
Proof.
  revert s. induction es as [|e es IH] using rev_ind; intros s H Hok.
  { simpl in H. by injection H as <-. }
  rewrite run_snoc in H. destruct (run exec es (start cfg m0)) as [s0|] eqn:E0; [|done].
  destruct (decide (result_of s0 id = Some Ok)) as [Hok0|Hno].
  - destruct (IH s0 eq_refl Hok0) as (pre & i & b & post & s1 & c & j & -> & ? & ? & ? & ? & ?).
    exists pre, i, b, (post ++ [e]), s1, c, j. split_and!; try done. by rewrite <- app_assoc.
  - destruct (ok_step e s0 s id H Hok Hno) as (i & b & -> & (c & Hc & Hp) & (j & Hj & Hq)).
    by exists es, i, b, [], s0, c, j.
Qed.

(** ** Properties of the publish side *)

(** C19: a publish that reports success was taken by the broker.  In any run, a
    call of [publish] that returned [Ok] for job [id] is preceded by a moment at
    which a connection running that very job got a success from Paho's publish
    and, for QoS 1 and 2, its acknowledgement. *)
Theorem publish_ok_delivered (m0 : Metrics.metrics) (es : list event) (s : client) (id : nat)
    (H : run exec es (start cfg m0) = Some s) (Hr : (id, Ok) ∈ returned s) :
  exists pre i b post s1 c j, es = pre ++ RunJob i true b :: post /\
    run exec pre (start cfg m0) = Some s1 /\ conns s1 !! i = Some c /\ pc c = CRun id /\
    jobs s1 !! id = Some j /\ (qos (request j) = 0%Z \/ b = true).
Proof.
  apply (ok_trace m0 es s id H). pose proof (mqtt_reachable_inv m0 s (run_rtc_True _ _ _ _ H)) as Hinv.
  pose proof (mi_returned _ Hinv) as HF. rewrite list.Forall_forall in HF. destruct (HF _ Hr); done.
Qed.

(** C20: every job is run at most once, in the order of the calls.  The jobs
    ever queued are, in order, those some connection took, those [stop] failed
    and those still queued; those taken are the ones a connection is running
    right now (each on one connection only) and finished ones; a job being run
    or queued has no result yet; and the queue is within mqtt_queue_size. *)
Theorem jobs_run_once (m0 : Metrics.metrics) (s : client) (H : reachable m0 s) :
  seq 0 (length (jobs s)) = started s ++ failed s ++ queue s /\
  NoDup (omap flight (conns s)) /\
  (exists fin, started s ≡ₚ omap flight (conns s) ++ fin /\ Forall (fun id => is_Some (result_of s id)) fin) /\
  Forall (fun id => result_of s id = None) (omap flight (conns s) ++ queue s) /\
  (Z.of_nat (length (queue s)) <= Z.max 0 (Config.mqtt_queue_size cfg))%Z.
Proof.
  pose proof (mqtt_reachable_inv m0 s H) as Hinv. pose proof (inv_nodup _ Hinv) as Hnd.
  pose proof Hinv as [H1 [fin [H2 H2']] H3 _ _ _ _ _ _ _ H9 _ _ _ _].
  split_and!; try done; [|by exists fin].
  apply list.NoDup_app in Hnd as (Hns & _ & _). rewrite H2 in Hns. by apply list.NoDup_app in Hns as (? & _ & _).
Qed.

(** C21: [stop] leaves no caller waiting.  Once it has failed the queued jobs,
    the queue is empty and every job ever queued has a result, so that each
    pending [publish] returns it. *)
Theorem stop_settles_jobs (m0 : Metrics.metrics) (s s' : client)
    (H : reachable m0 s) (Hf : exec FailQueued s = Some s') :
  queue s' = [] /\ forall id, id < length (jobs s') -> is_Some (publish_result id false s').
Proof.
  assert (Hinv : client_inv s') by (apply (mqtt_exec_inv FailQueued s); [by apply (mqtt_reachable_inv m0)|done]).
  cbn [exec] in Hf. case_decide; [|done]. injection Hf as <-.
  assert (Hco : conns (fail_queued s) = []) by (apply (mi_stopped _ Hinv); auto).
  pose proof Hinv as [H1 [fin [H2 H2']] _ H4 _ _ _ _ _ _ _ _ _ _ _]. split; [done|]. intros id Hid.
  rewrite Hco in H2. simpl in H2.
  assert (Hres : is_Some (result_of (fail_queued s) id)).
  { assert (Hin : id ∈ seq 0 (length (jobs (fail_queued s)))) by (apply elem_of_seq; lia).
    rewrite H1 in Hin. rewrite !elem_of_app in Hin. rewrite list.Forall_forall in H2', H4.
    destruct Hin as [Hin|[Hin|Hin]].
    - apply H2'. by rewrite <- H2.
    - rewrite (H4 _ Hin). by eexists.
    - by apply elem_of_nil in Hin. }
  unfold publish_result. unfold result_of in Hres. destruct (jobs _ !! id) as [j|]; [|done].
  destruct Hres as [o ->]. by eexists.
Qed.

End Client.

(** Reconnection backs off 1, 2, 4, 8, 16 and then always 30 seconds: after
    [k] failed attempts in a row the wait is the smaller of 2^k and 30. *)
Theorem backoff_sequence (k : nat) :
  backoff_seconds (Nat.iter k conn_backoff new_conn) = Z.min (2 ^ Z.of_nat k) 30.
Proof.
  induction k as [|k IH]; [done|]. cbn [Nat.iter nat_rect]. unfold conn_backoff at 1. cbn [backoff_seconds].
  change (Nat.iter k conn_backoff new_conn) with (nat_rect (fun _ => conn) new_conn (fun _ => conn_backoff) k) in IH.
  rewrite IH. unfold kMaxBackoffSeconds. rewrite Nat2Z.inj_succ, Z.pow_succ_r by lia. lia.
Qed.

Lemma to_string_inj a b : (0 <= a)%Z -> (0 <= b)%Z -> to_string a = to_string b -> a = b.
Proof.
  intros Ha Hb. unfold to_string. replace (a <? 0)%Z with false by lia. replace (b <? 0)%Z with false by lia.
  intros H. rewrite <- (digits_val_dec a Ha), <- (digits_val_dec b Hb). by rewrite H.
Qed.

(** The connections of a pool never fight over a session: their client ids
    are pairwise different, and only the first one subscribes. *)
Theorem pool_sessions_distinct (cfg : Config.Config) (i j : nat) (Hij : i <> j) :
  client_id cfg i <> client_id cfg j /\ (subscriptions cfg i = [] \/ subscriptions cfg j = []).
Proof.
  split.
  - unfold client_id. destruct (decide (i = 0)) as [Hi|Hi], (decide (j = 0)) as [Hj|Hj]; try lia.
    + intros E. apply (f_equal length) in E. rewrite !length_app in E. simpl in E. lia.
    + intros E. apply (f_equal length) in E. rewrite !length_app in E. simpl in E. lia.
    + intros E. apply app_inv_head, app_inv_head in E. apply to_string_inj in E; lia.
  - unfold subscriptions. destruct (decide (i = 0)), (decide (j = 0)); auto. lia.
Qed.

Lemma pool_sessions_distinct_witness :
  let cfg := Config.set_subscribe_enabled true (Config.default_config 4 (fun _ => 5%N)) in
  client_id cfg 0 = B"nshmqtt_05050505" /\ client_id cfg 12 = B"nshmqtt_05050505-12" /\
  client_id cfg 0 <> client_id cfg 12 /\ (subscriptions cfg 0 = [] \/ subscriptions cfg 12 = []).
Proof.
  intros cfg. split; [vm_compute; reflexivity|]. split; [vm_compute; reflexivity|].
  apply (pool_sessions_distinct cfg 0 12). discriminate.
Defined.

(** ** Two schedules *)

(** A pool of [n] connections with room for one job and a subscription. *)
Definition demo_cfg (n : Z) : Config.Config :=
  Config.set_subscribe_enabled true
    (Config.set_mqtt_pool_size n
       (Config.set_mqtt_queue_size 1 (Config.default_config 4 (fun _ => 0%N)))).
Definition demo_msg : msg := {| topic := B"t"; payload := B"1"; qos := 1; retain := false |}.

(** Two connections come up, the first is lost while it waits for work, a job
    arrives, and the first takes it. *)
Definition lost_schedule (m : msg) : list event :=
  [Top 0; Connected 0 true; Top 0; Top 1; Connected 1 true; Top 1;
   ConnectionLost 0; Publish m; WaitOver 0].

(** A job can go to a connection known to be lost.  With two connections,
    one of them up and idle, there is a schedule in which the other one, whose
    flag [connected_] is already false, takes the job; Paho then refuses it and
    the caller is told [Failed] although the healthy connection was waiting for
    work. *)
Theorem lost_connection_takes_job :
  exists s s', run (exec (demo_cfg 2)) (lost_schedule demo_msg) (start (demo_cfg 2) Metrics.zero_metrics) = Some s /\
    conns s = [{| connected := false; pc := CRun 0; backoff_seconds := 1 |};
               {| connected := true; pc := CWait; backoff_seconds := 1 |}] /\
    run (exec (demo_cfg 2)) [RunJob 0 false false; Return 0 false] s = Some s' /\
    returned s' = [(0, Failed)].
Proof.
  do 2 eexists. split; [vm_compute; reflexivity|]. split; [reflexivity|]. split; [vm_compute; reflexivity|reflexivity].
Qed.

Definition hang_schedule : list event :=
  [Inbox Mailbox.Turn; Inbox Mailbox.Turn; Stop; NotifyAll; Inbox Mailbox.Turn; Top 0; JoinConns].

Definition not_spurious (e : event) : Prop := e <> Inbox Mailbox.Spurious.

Definition client_hung (s : client) : Prop :=
  conns s = [] /\ running s = false /\ stop_phase s = PhSubscribe /\
  Mailbox.worker (inbox s) = Mailbox.PWaiting /\ Mailbox.wakes (inbox s) = 0.

Lemma mqtt_hung_step cfg e s s' :
  client_hung s -> not_spurious e -> exec cfg e s = Some s' -> client_hung s'.
Proof.
  intros (Hc & Hr & Hp & Hw & Hk) Hok H. unfold running in Hr.
  destruct e as [m|n t|i|i ok|i|i|i a b|i|m|e| | | | |]; cbn [exec] in H;
    try (unfold at_pc in H; rewrite Hc in H; done); try (rewrite Hc in H; done).
  - injection H as <-. unfold publish_enqueue. by case_match.
  - unfold publish_return in H. destruct (publish_result n t s); [|done]. by injection H as <-.
  - rewrite Hc, bool_decide_false, andb_false_r in H; [done|]. by intros Hx.
  - destruct e; try done; simpl in H.
    + by rewrite Hk in H.
    + unfold Mailbox.worker_turn in H. by rewrite Hw in H.
    + unfold Mailbox.worker_done in H. by rewrite Hw in H.
  - unfold running in H. rewrite Hr in H. by injection H as <-.
  - by rewrite Hp in H.
  - by rewrite Hp in H.
  - by rewrite Hp, Hw in H.
  - by rewrite Hp in H.
Qed.

(** [stop] can hang on the subscribe worker, as in the webhook client.  With
    one connection and a subscription there is a schedule after which the thread
    in [stop] waits in the join of the subscribe worker and no step other than a
    spurious wake-up ever gets it out. *)
Theorem mqtt_stop_hangs (cfg : Config.Config) (m0 : Metrics.metrics)
    (Hp : Config.mqtt_pool_size cfg = 1%Z) (Hn : needs_subscribe_worker cfg = true) :
  exists s, run (exec cfg) hang_schedule (start cfg m0) = Some s /\
    forall s', rtc (step_by (exec cfg) not_spurious) s s' -> stop_phase s' = PhSubscribe.
Proof.
  eexists. split; [unfold start; rewrite Hp, Hn; vm_compute; reflexivity|]. intros s' Hr.
  assert (Hh : client_hung s'); [|by destruct Hh as (_ & _ & ? & _)].
  eapply (rtc_invariant _ client_hung); [|exact Hr|done].
  intros a b (e & Hok & He) Ha. by eapply mqtt_hung_step.
Qed.

Lemma mqtt_stop_hangs_witness :
  exists s, run (exec (demo_cfg 1)) hang_schedule (start (demo_cfg 1) Metrics.zero_metrics) = Some s /\
    forall s', rtc (step_by (exec (demo_cfg 1)) not_spurious) s s' -> stop_phase s' = PhSubscribe.
Proof. apply mqtt_stop_hangs; vm_compute; reflexivity. Defined.

(** ** Witnesses *)

(** One connection publishes one job with QoS 1. *)
Definition ok_schedule : list event :=
  [Publish demo_msg; Top 0; Connected 0 true; Top 0; WaitOver 0; RunJob 0 true true; Return 0 false].

Lemma publish_ok_delivered_witness :
  exists s, run (exec (demo_cfg 1)) ok_schedule (start (demo_cfg 1) Metrics.zero_metrics) = Some s /\
    returned s = [(0, Ok)] /\
    exists pre i b post s1 c j, ok_schedule = pre ++ RunJob i true b :: post /\
      run (exec (demo_cfg 1)) pre (start (demo_cfg 1) Metrics.zero_metrics) = Some s1 /\
      conns s1 !! i = Some c /\ pc c = CRun 0 /\
      jobs s1 !! 0 = Some j /\ (qos (request j) = 0%Z \/ b = true).
Proof.
  eexists. split; [vm_compute; reflexivity|]. split; [reflexivity|].
  eapply (publish_ok_delivered (demo_cfg 1)); [vm_compute; reflexivity|]. left.
Defined.

Lemma jobs_run_once_witness :
  exists s, run (exec (demo_cfg 1)) (take 5 ok_schedule) (start (demo_cfg 1) Metrics.zero_metrics) = Some s /\
    seq 0 (length (jobs s)) = started s ++ failed s ++ queue s /\ NoDup (omap flight (conns s)).
Proof.
  eexists. split; [vm_compute; reflexivity|].
  edestruct (jobs_run_once (demo_cfg 1) Metrics.zero_metrics) as (H1 & H2 & _);
    [|split; [exact H1|exact H2]].
  eapply (run_rtc_True _ (take 5 ok_schedule)). vm_compute. reflexivity.
Defined.

(** A job is queued while nothing is connected, then the client stops. *)
Definition settle_schedule : list event :=
  [Publish demo_msg; Stop; NotifyAll; Inbox Mailbox.Turn; Top 0; JoinConns; JoinSubscribe].

Lemma stop_settles_jobs_witness :
  exists s s', run (exec (demo_cfg 1)) settle_schedule (start (demo_cfg 1) Metrics.zero_metrics) = Some s /\
    exec (demo_cfg 1) FailQueued s = Some s' /\ length (jobs s') = 1 /\
    queue s' = [] /\ forall id, id < length (jobs s') -> is_Some (publish_result id false s').
Proof.
  do 2 eexists. split; [vm_compute; reflexivity|]. split; [vm_compute; reflexivity|]. split; [reflexivity|].
  eapply (stop_settles_jobs (demo_cfg 1) Metrics.zero_metrics).
  - eapply (run_rtc_True _ settle_schedule). vm_compute. reflexivity.
  - vm_compute. reflexivity.
Defined.

End Mqtt.
