(* ===== verification/Paho.v ===== *)
(** * mqtt.cpp: one connection against the Paho library

    The life of one [Connection] as a program over the calls it makes: Paho's C
    API, the flags it shares with other threads, its waits and its log lines,
    each answered by the world ([Prog.world]).  Mqtt.v is the pool of such
    connections with these calls reduced to their outcomes; the refinement is
    here. *)

From S2P Require Import Prelude CLib Config Metrics Prog Mqtt Log.
Local Open Scope Z_scope.

Module Paho.

(** ** The calls *)

Record connect_options := {
  keepAliveInterval : Z; cleansession : bool; connectTimeout : Z; credentials : option (bytes * bytes)
}.

(** What the wait for work ends with. *)
Inductive taken := Stopping | NoJob | Took (job : Mqtt.msg).

(** [Create] .. [Disconnect] are Paho's, [rc] results being 0 on success; [Running],
    [LoadConnected] and [StoreConnected] the atomic flags; [Backoff] and [TakeJob] the
    two waits on [queue_cv_], [NotifyAll] its wake-up; [FinishJob] the end of [run_job]. *)
Inductive call : Type -> Type :=
| Create (server_uri client_id : bytes) : call Z
| SetCallbacks : call Z
| Destroy : call unit
| Connect (o : connect_options) : call Z
| Subscribe (filter : bytes) (qos : Z) : call Z
| PublishMessage (topic payload : bytes) (qos : Z) (retained : bool) : call Z
| WaitForCompletion (timeout_ms : Z) : call Z
| Disconnect (timeout_ms : Z) : call unit
| Running : call bool
| LoadConnected : call bool
| StoreConnected (b : bool) : call unit
| Backoff (seconds : Z) : call unit
| TakeJob : call taken
| FinishJob (o : Mqtt.PublishOutcome) : call unit
| Count (c : Metrics.counter) : call unit
| LogLine (level : Log.LogLevel) (msg : bytes) : call unit
| NotifyAll : call unit.

Section Connection.
Context (cfg : Config.Config) (index : nat).

(** ** Connection::start *)

Definition server_uri : bytes := B"tcp://" ++ Config.mqtt_host cfg ++ B":" ++ to_string (Config.mqtt_port cfg).

Definition create : call Z := Create (c_str server_uri) (c_str (Mqtt.client_id cfg index)).

(** The error text, if it does not start. *)
Definition start : prog call (option bytes) :=
  let! rc := create in
  if negb (rc =? 0) then
    Ret (Some (B"MQTTClient_create(" ++ server_uri ++ B", client_id=" ++ Mqtt.client_id cfg index ++ B") failed (rc="
               ++ to_string rc ++ B")"))
  else
    let! rc := SetCallbacks in
    if negb (rc =? 0) then
      let! _ := Destroy in Ret (Some (B"MQTTClient_setCallbacks failed (rc=" ++ to_string rc ++ B")"))
    else Ret None.

(** ** Connection::try_connect *)

Definition conn_opts : connect_options :=
  {| keepAliveInterval := Config.mqtt_keepalive_seconds cfg; cleansession := true;
     connectTimeout := Config.mqtt_connect_timeout_seconds cfg;
     credentials := if decide (Config.mqtt_username cfg = []) then None
                    else Some (c_str (Config.mqtt_username cfg), c_str (Config.mqtt_password cfg)) |}.

Definition rc_text (rc : Z) : bytes := B" (rc=" ++ to_string rc ++ B")".
Definition qos_text : bytes := B" (qos=" ++ to_string (Config.mqtt_qos cfg) ++ B")".
Definition endpoint_text : bytes := Config.mqtt_host cfg ++ B":" ++ to_string (Config.mqtt_port cfg).
Definition conn_text : bytes := B"MQTT connection " ++ to_string (Z.of_nat index).

(** The loop over one list of filters; a filter that is refused is only logged. *)
Fixpoint subscribe_to (kind : bytes) (topics : list bytes) : prog call unit :=
  match topics with
  | [] => Ret tt
  | topic :: rest =>
      let! src := Subscribe (c_str topic) (Config.mqtt_qos cfg) in
      let! _ := (if src =? 0 then LogLine Log.Info (B"MQTT subscribed" ++ kind ++ B" to '" ++ topic ++ B"'" ++ qos_text)
                 else LogLine Log.Error (B"MQTT subscribe" ++ kind ++ B" to '" ++ topic ++ B"' failed" ++ rc_text src)) in
      subscribe_to kind rest
  end.

Definition is_primary : bool := bool_decide (index = 0%nat).

Definition subscribe : prog call unit :=
  if is_primary then
    do _ := (if Config.subscribe_enabled cfg then subscribe_to [] (Config.subscribe_topics cfg) else Ret tt) in
    (if Config.webhook_enabled cfg then subscribe_to (B" (webhook)") (Config.webhook_topics cfg) else Ret tt)
  else Ret tt.

Definition try_connect : prog call bool :=
  let! rc := Connect conn_opts in
  if negb (rc =? 0) then
    let! _ := LogLine Log.Warn (conn_text ++ B" to " ++ endpoint_text ++ B" failed" ++ rc_text rc ++ B", will retry") in
    Ret false
  else
    let! _ := LogLine Log.Info (conn_text ++ B" connected to " ++ endpoint_text) in
    let! _ := StoreConnected true in
    do _ := subscribe in
    Ret true.

(** ** Connection::run_job *)

Definition publish_text (m : Mqtt.msg) : bytes :=
  B"MQTT publish (connection " ++ to_string (Z.of_nat index) ++ B") to '" ++ Mqtt.topic m ++ B"'".

Definition run_job (m : Mqtt.msg) : prog call unit :=
  let! rc := PublishMessage (c_str (Mqtt.topic m)) (Mqtt.payload m) (Mqtt.qos m) (Mqtt.retain m) in
  if negb (rc =? 0) then
    let! _ := Count Metrics.CPubFailed in
    let! _ := LogLine Log.Warn (publish_text m ++ B" failed" ++ rc_text rc) in
    let! _ := StoreConnected false in
    let! _ := FinishJob Mqtt.Failed in Ret tt
  else if Mqtt.qos m =? 0 then
    let! _ := Count Metrics.CPubOk in
    let! _ := FinishJob Mqtt.Ok in Ret tt
  else
    let! wrc := WaitForCompletion (Config.mqtt_publish_timeout_seconds cfg * 1000) in
    if wrc =? 0 then
      let! _ := Count Metrics.CPubOk in
      let! _ := FinishJob Mqtt.Ok in Ret tt
    else
      let! _ := Count Metrics.CPubTimeout in
      let! _ := LogLine Log.Warn (publish_text m ++ B" did not complete within "
                  ++ to_string (Config.mqtt_publish_timeout_seconds cfg) ++ B"s" ++ rc_text wrc) in
      let! _ := StoreConnected false in
      let! _ := FinishJob Mqtt.Timeout in Ret tt.

(** ** Connection::worker_loop and the end of its life *)

Definition disconnect : prog call unit :=
  let! c := LoadConnected in
  if c : bool then let! _ := Disconnect 1000 in let! _ := StoreConnected false in Ret tt else Ret tt.

(** [fuel] iterations; [false]: the loop still runs. *)
Fixpoint worker_loop (fuel : nat) (backoff_seconds : Z) : prog call bool :=
  match fuel with
  | O => Ret false
  | S fuel =>
      let! r := Running in
      if negb r then do _ := disconnect in Ret true
      else
        let! c := LoadConnected in
        if negb c then
          do ok := try_connect in
          if ok : bool then worker_loop fuel 1
          else
            let! _ := Count Metrics.CReconnects in
            let! _ := Backoff backoff_seconds in
            worker_loop fuel (Z.min (backoff_seconds * 2) Mqtt.kMaxBackoffSeconds)
        else
          let! t := TakeJob in
          match t with
          | Stopping => do _ := disconnect in Ret true
          | NoJob => worker_loop fuel backoff_seconds
          | Took job => do _ := run_job job in worker_loop fuel backoff_seconds
          end
  end.

(** [Connection::stop] after the join. *)
Definition stop : prog call unit := let! _ := Destroy in let! _ := StoreConnected false in Ret tt.

(** From [start] to [stop]; [None]: not started, [Some false]: still running. *)
Definition life (fuel : nat) : prog call (option bool) :=
  do err := start in
  match err with
  | Some _ => Ret None
  | None => do finished := worker_loop fuel 1 in
            if finished : bool then do _ := stop in Ret (Some true) else Ret (Some false)
  end.

(** On a thread of Paho's; [cause] may be null. *)
Definition on_connection_lost (cause : option bytes) : prog call unit :=
  let! _ := StoreConnected false in
  let! _ := LogLine Log.Warn (conn_text ++ B" lost" ++ match cause with Some c => B": " ++ c_str c | None => [] end) in
  let! _ := NotifyAll in
  Ret tt.

End Connection.

(** [on_message_arrived]: the message from what Paho hands over. *)
Definition received (topic_name : bytes) (topic_len : Z) (payload : bytes) (retained : Z) : Mqtt.incoming :=
  {| Mqtt.in_topic := if 0 <? topic_len then take (Z.to_nat topic_len) topic_name else c_str topic_name;
     Mqtt.in_payload := payload; Mqtt.in_retained := negb (retained =? 0) |}.

(** ** Reading a log *)

Abbreviation log_of := (list (event call)).

(** The handle, as Paho's documentation allows it to be used. *)
Inductive handle := NoClient | Made | Refused | Ready | Live | Sent | Gone.

Definition handle_step (h : handle) (e : event call) : option handle :=
  match e with
  | Ev o a =>
      match o in call A return A -> option handle with
      | Create _ _ => fun rc => match h with NoClient => Some (if rc =? 0 then Made else Gone) | _ => None end
      | SetCallbacks => fun rc => match h with Made => Some (if rc =? 0 then Ready else Refused) | _ => None end
      | Destroy => fun _ => match h with Refused | Ready | Live => Some Gone | _ => None end
      | Connect _ => fun rc => match h with Ready | Live => Some (if rc =? 0 then Live else Ready) | _ => None end
      | Subscribe _ _ => fun _ => match h with Live => Some Live | _ => None end
      | PublishMessage _ _ q _ => fun rc =>
          match h with Live => Some (if (rc =? 0) && negb (q =? 0) then Sent else Live) | _ => None end
      | WaitForCompletion _ => fun _ => match h with Sent => Some Live | _ => None end
      | Disconnect _ => fun _ => match h with Live => Some Ready | _ => None end
      | _ => fun _ => Some h
      end a
  end.

(** Its state after the calls of the log; [None]: a call that was not allowed. *)
Definition handle_after (log : log_of) : option handle :=
  foldl (fun h e => h ≫= fun h => handle_step h e) (Some NoClient) log.

(** [connected_] as this thread can know it: what it stored last, lowered by every load
    that found it false ([on_connection_lost] only ever stores [false]). *)
Definition flag_step (b : bool) (e : event call) : bool :=
  match e with
  | Ev o a => match o in call A return A -> bool with
              | StoreConnected v => fun _ => v | LoadConnected => fun v => b && v | _ => fun _ => b end a
  end.

Definition flag (log : log_of) : bool := foldl flag_step false log.

Definition honest (w : world call) : Prop := forall log, w log bool LoadConnected = true -> flag log = true.

(** The attempts and the waits: [Some (k, owed)] after [k] failed attempts in a row, the
    wait after the last one still owed or done; [None] once something other than a log
    line or a count came between a failed attempt and its wait, a wait was not owed, or the wait after the
    [k]-th failure was not [min 30 (2^(k-1))] seconds. *)
Definition pace_step (st : nat * bool) (e : event call) : option (nat * bool) :=
  let '(k, owed) := st in
  match e with
  | Ev o a =>
      match o in call A return A -> option (nat * bool) with
      | Connect _ => fun rc => if owed then None else Some (if rc =? 0 then (O, false) else (S k, true))
      | Backoff s => fun _ =>
          if owed && (s =? Z.min Mqtt.kMaxBackoffSeconds (2 ^ Z.of_nat (pred k))) then Some (k, false) else None
      | LogLine _ _ | Count _ => fun _ => Some st
      | _ => fun _ => if owed then None else Some st
      end a
  end.

Definition pace (log : log_of) : option (nat * bool) :=
  foldl (fun k e => k ≫= fun k => pace_step k e) (Some (O, false)) log.

(** The filters subscribed in each session, the latest session first. *)
Definition session_step (ss : list (list (bytes * Z))) (e : event call) : list (list (bytes * Z)) :=
  match e with
  | Ev o a =>
      match o in call A return A -> list (list (bytes * Z)) with
      | Connect _ => fun rc => if rc =? 0 then [] :: ss else ss
      | Subscribe f q => fun _ => match ss with s :: rest => (s ++ [(f, q)]) :: rest | [] => [[(f, q)]] end
      | _ => fun _ => ss
      end a
  end.

Definition sessions (log : log_of) : list (list (bytes * Z)) := foldl session_step [] log.

(** What was done for each job, the latest first. *)
Record turn := {
  t_job : Mqtt.msg; t_published : list (bytes * bytes * Z * bool * Z); t_waited : list Z;
  t_counted : list Metrics.counter; t_finished : list Mqtt.PublishOutcome
}.

Definition on_last (f : turn -> turn) (ts : list turn) : list turn := match ts with t :: rest => f t :: rest | [] => [] end.

Definition turn_step (ts : list turn) (e : event call) : list turn :=
  match e with
  | Ev o a =>
      match o in call A return A -> list turn with
      | TakeJob => fun t => match t with Took m => Build_turn m [] [] [] [] :: ts | _ => ts end
      | PublishMessage tp pl q r => fun rc =>
          on_last (fun t => Build_turn (t_job t) (t_published t ++ [(tp, pl, q, r, rc)]) (t_waited t) (t_counted t) (t_finished t)) ts
      | WaitForCompletion _ => fun rc =>
          on_last (fun t => Build_turn (t_job t) (t_published t) (t_waited t ++ [rc]) (t_counted t) (t_finished t)) ts
      | FinishJob o => fun _ =>
          on_last (fun t => Build_turn (t_job t) (t_published t) (t_waited t) (t_counted t) (t_finished t ++ [o])) ts
      | Count Metrics.CReconnects => fun _ => ts
      | Count c => fun _ =>
          on_last (fun t => Build_turn (t_job t) (t_published t) (t_waited t) (t_counted t ++ [c]) (t_finished t)) ts
      | _ => fun _ => ts
      end a
  end.

Definition turns (log : log_of) : list turn := foldl turn_step [] log.

(** The job handled as [Mqtt.run_job] says: published once, as asked; waited for at most
    once; counted and finished once, with the outcome of the two results. *)
Definition turn_ok (t : turn) : Prop :=
  exists rc waited,
    t_published t = [(c_str (Mqtt.topic (t_job t)), Mqtt.payload (t_job t), Mqtt.qos (t_job t), Mqtt.retain (t_job t), rc)] /\
    t_waited t = waited /\ length waited = (if (rc =? 0) && negb (Mqtt.qos (t_job t) =? 0) then 1%nat else 0%nat) /\
    let '(outcome, counter, _) := Mqtt.run_job (Mqtt.qos (t_job t)) (rc =? 0) (forallb (fun rc => rc =? 0) waited) in
    t_finished t = [outcome] /\ t_counted t = [counter].

Definition running_step (n : nat) (e : event call) : nat :=
  match e with
  | Ev o a => match o in call A return A -> nat with Running => fun r => if r : bool then S n else n | _ => fun _ => n end a
  end.

(** How often [running_] was read as set. *)
Definition running_reads (log : log_of) : nat := foldl running_step 0%nat log.

(** ** Lemmas *)

Lemma fold_snoc {T : Type} (f : T -> event call -> T) t log e : foldl f t (log ++ [e]) = f (foldl f t log) e.
Proof. by rewrite foldl_app. Qed.

(** Everything the readers say, after one more call. *)
Lemma handle_snoc log e : handle_after (log ++ [e]) = handle_after log ≫= fun h => handle_step h e.
Proof. apply (fold_snoc (fun h e => h ≫= fun h => handle_step h e)). Qed.
Lemma flag_snoc log e : flag (log ++ [e]) = flag_step (flag log) e.
Proof. apply fold_snoc. Qed.
Lemma pace_snoc log e : pace (log ++ [e]) = pace log ≫= fun k => pace_step k e.
Proof. apply (fold_snoc (fun k e => k ≫= fun k => pace_step k e)). Qed.
Lemma sessions_snoc log e : sessions (log ++ [e]) = session_step (sessions log) e.
Proof. apply fold_snoc. Qed.
Lemma turns_snoc log e : turns (log ++ [e]) = turn_step (turns log) e.
Proof. apply fold_snoc. Qed.

(** All of it as one view of the log; the sub-programs transform views. *)
Record view := { v_handle : option handle; v_flag : bool; v_pace : option (nat * bool); v_sessions : list (list (bytes * Z)); v_turns : list turn }.

Definition view_of (log : log_of) : view :=
  {| v_handle := handle_after log; v_flag := flag log; v_pace := pace log; v_sessions := sessions log; v_turns := turns log |}.

Definition view_step (v : view) (e : event call) : view :=
  {| v_handle := v_handle v ≫= fun h => handle_step h e; v_flag := flag_step (v_flag v) e;
     v_pace := v_pace v ≫= fun k => pace_step k e; v_sessions := session_step (v_sessions v) e;
     v_turns := turn_step (v_turns v) e |}.

Lemma view_snoc log e : view_of (log ++ [e]) = view_step (view_of log) e.
Proof. unfold view_of, view_step. by rewrite handle_snoc, flag_snoc, pace_snoc, sessions_snoc, turns_snoc. Qed.

Section Life.
Context (cfg : Config.Config) (index : nat).

Definition filters (topics : list bytes) : list (bytes * Z) := map (fun t => (c_str t, Config.mqtt_qos cfg)) topics.

Lemma subscribe_to_view kind topics log f k cur ss ts :
  view_of log = Build_view (Some Live) f (Some (k, false)) (cur :: ss) ts ->
  triple (subscribe_to cfg kind topics)
    (fun _ log' => view_of log' = Build_view (Some Live) f (Some (k, false)) ((cur ++ filters topics) :: ss) ts) log.
Proof.
  revert log cur. induction topics as [|t topics IH]; intros log cur H; cbn [subscribe_to triple filters map].
  - by rewrite app_nil_r.
  - intros rc. destruct (rc =? 0); intros u;
      (eapply triple_conseq; [|apply (IH _ (cur ++ [(c_str t, Config.mqtt_qos cfg)]))]; [cbn; intros; by rewrite <- app_assoc in *|]);
      rewrite !view_snoc, H; done.
Qed.

Definition expected : list (bytes * Z) := filters (Mqtt.subscriptions cfg index).

Lemma try_connect_view log h f k ss ts :
  h = Ready \/ h = Live -> view_of log = Build_view (Some h) f (Some (k, false)) ss ts ->
  triple (try_connect cfg index)
    (fun (ok : bool) log' =>
       view_of log' = (if ok then Build_view (Some Live) true (Some (O, false)) (expected :: ss) ts
                       else Build_view (Some Ready) f (Some (S k, true)) ss ts)) log.
Proof.
  intros Hh H. unfold try_connect. cbn [triple]. intros rc.
  assert (Hc : view_of (log ++ [Ev (Connect (conn_opts cfg)) rc]) =
    (if rc =? 0 then Build_view (Some Live) f (Some (O, false)) ([] :: ss) ts else Build_view (Some Ready) f (Some (S k, true)) ss ts)).
  { rewrite view_snoc, H. unfold view_step. cbn. by destruct Hh as [-> | ->], (rc =? 0). }
  destruct (rc =? 0); cbn [negb triple].
  2:{ intros u. by rewrite view_snoc, Hc. }
  intros u1 u2. apply triple_bind. unfold subscribe, expected, Mqtt.subscriptions, is_primary.
  assert (Hv : view_of (((log ++ [Ev (Connect (conn_opts cfg)) rc]) ++ [Ev (LogLine Log.Info (conn_text index ++ B" connected to " ++ endpoint_text cfg)) u1])
                 ++ [Ev (StoreConnected true) u2]) = Build_view (Some Live) true (Some (O, false)) ([] :: ss) ts).
  { rewrite view_snoc, view_snoc, Hc. done. }
  destruct (decide (index = 0%nat)) as [Hi|Hi]; [rewrite bool_decide_true by done|by rewrite bool_decide_false by done].
  apply triple_bind. eapply (triple_conseq _ (fun _ log' => view_of log' =
    Build_view (Some Live) true (Some (O, false)) (filters (if Config.subscribe_enabled cfg then Config.subscribe_topics cfg else []) :: ss) ts)).
  - intros _ log' Hv'. eapply (triple_conseq _ (fun _ log'' => view_of log'' = Build_view (Some Live) true (Some (O, false))
      ((filters (if Config.subscribe_enabled cfg then Config.subscribe_topics cfg else [])
        ++ filters (if Config.webhook_enabled cfg then Config.webhook_topics cfg else [])) :: ss) ts)).
    + intros _ log'' Hv''. cbn [triple]. rewrite Hv''. unfold filters. by rewrite map_app.
    + destruct (Config.webhook_enabled cfg); [by apply subscribe_to_view|]. cbn. by rewrite app_nil_r.
  - destruct (Config.subscribe_enabled cfg); [|done]. by apply (subscribe_to_view _ _ _ _ _ []).
Qed.

Lemma run_job_view m log f k ss ts :
  view_of log = Build_view (Some Live) f (Some (k, false)) ss (Build_turn m [] [] [] [] :: ts) ->
  triple (run_job cfg index m)
    (fun _ log' => exists f' t, view_of log' = Build_view (Some Live) f' (Some (k, false)) ss (t :: ts) /\ turn_ok t) log.
Proof.
  intros H. unfold run_job. cbn [triple]. intros rc. destruct (rc =? 0) eqn:Erc; cbn [negb].
  - destruct (Mqtt.qos m =? 0) eqn:Eq.
    + cbn [triple]. intros u1 u2. eexists _, _. split.
      * rewrite !view_snoc, H. unfold view_step. cbn. rewrite Erc, Eq. reflexivity.
      * exists rc, []. cbn. unfold Mqtt.run_job. by rewrite Erc, Eq.
    + cbn [triple]. intros wrc. destruct (wrc =? 0) eqn:Ew; cbn [triple]; intros;
        (eexists _, _; split; [rewrite !view_snoc, H; unfold view_step; cbn; rewrite Erc, Eq; reflexivity|]);
        exists rc, [wrc]; cbn; unfold Mqtt.run_job; rewrite Erc, Eq, Ew; done.
  - cbn [triple]. intros. eexists _, _. split.
    + rewrite !view_snoc, H. unfold view_step. cbn. rewrite Erc. reflexivity.
    + exists rc, []. cbn. unfold Mqtt.run_job. by rewrite Erc.
Qed.

(** What holds at the head of the loop. *)
Definition good (backoff_seconds : Z) (log : log_of) : Prop :=
  exists h f k ss ts,
    view_of log = Build_view (Some h) f (Some (k, false)) ss ts /\ (h = Ready \/ h = Live) /\ (f = true -> h = Live) /\
    Forall (eq expected) ss /\ Forall turn_ok ts /\
    backoff_seconds = Z.min Mqtt.kMaxBackoffSeconds (2 ^ Z.of_nat k).

Lemma good_step b log (e : event call) :
  (forall h f k ss ts, h = Ready \/ h = Live ->
     view_step (Build_view (Some h) f (Some (k, false)) ss ts) e
     = Build_view (Some h) (flag_step f e) (Some (k, false)) ss ts) ->
  (forall f, flag_step f e = true -> f = true) ->
  good b log -> good b (log ++ [e]).
Proof.
  intros He Hf (h & f & k & ss & ts & H & Hh & Hfl & Hs & Ht & Hb). exists h, (flag_step f e), k, ss, ts.
  rewrite view_snoc, H, He by done. split_and!; try done. intros E. by apply Hfl, Hf.
Qed.

Lemma view_pace_step v (e : event call) : v_pace (view_step v e) = v_pace v ≫= fun k => pace_step k e.
Proof. done. Qed.

(** Loads and the stop's log lines change nothing but the flag. *)
Lemma good_load b log c : good b log -> good b (log ++ [Ev LoadConnected c]).
Proof.
  apply good_step.
  - intros h f k ss ts [-> | ->]; done.
  - intros f. cbn. by destruct f.
Qed.

Lemma good_running b log r : good b log -> good b (log ++ [Ev Running r]).
Proof. apply good_step; [|done]. intros h f k ss ts [-> | ->]; done. Qed.

Lemma good_take b log t : (forall m, t <> Took m) -> good b log -> good b (log ++ [Ev TakeJob t]).
Proof.
  intros Ht. apply good_step; [|done].
  intros h f k ss ts [-> | ->]; destruct t; try done; by destruct (Ht job).
Qed.

Lemma double_backoff k :
  Z.min (Z.min Mqtt.kMaxBackoffSeconds (2 ^ Z.of_nat k) * 2) Mqtt.kMaxBackoffSeconds
  = Z.min Mqtt.kMaxBackoffSeconds (2 ^ Z.of_nat (S k)).
Proof. rewrite Nat2Z.inj_succ, Z.pow_succ_r by lia. unfold Mqtt.kMaxBackoffSeconds. lia. Qed.

Section Honest.
Context (w : world call) (Hw : honest w).

Lemma good_disconnect b log : good b log -> exists b', good b' (run_log w disconnect log).2.
Proof.
  intros Hg. unfold disconnect. cbn [run_log]. destruct (w log bool LoadConnected) eqn:Ec; cbn [run_log snd].
  2:{ exists b. by apply good_load. }
  apply Hw in Ec. destruct Hg as (h & f & k & ss & ts & H & Hh & Hfl & Hs & Ht & Hb).
  assert (h = Live) as -> by (apply Hfl; by injection H as _ <- _ _ _).
  exists b, Ready, false, k, ss, ts. rewrite !view_snoc, H. split_and!; try done; auto.
Qed.

Lemma good_worker_loop fuel b log : good b log -> exists b', good b' (run_log w (worker_loop cfg index fuel b) log).2.
Proof.
  revert b log. induction fuel as [|fuel IH]; intros b log Hg; [by exists b|]. cbn [worker_loop run_log].
  pose proof (good_running b log (w log bool Running) Hg) as Hg1. destruct (w log bool Running); cbn [negb].
  2:{ rewrite run_log_bind. cbn [run_log snd]. by eapply good_disconnect. }
  set (log1 := log ++ _) in *. cbn [run_log].
  pose proof (good_load b log1 (w log1 bool LoadConnected) Hg1) as Hg2.
  assert (Hlive : w log1 bool LoadConnected = true -> flag (log1 ++ [Ev LoadConnected true]) = true).
  { intros Hc. rewrite flag_snoc. cbn. by rewrite (Hw _ Hc). }
  assert (Hdown : w log1 bool LoadConnected = false -> flag (log1 ++ [Ev LoadConnected false]) = false).
  { intros _. rewrite flag_snoc. cbn. apply andb_false_r. }
  destruct (w log1 bool LoadConnected); cbn [negb]; set (log2 := log1 ++ _) in *; clearbody log2; clear Hg1.
  - specialize (Hlive eq_refl). cbn [run_log].
    assert (Hno : forall t, (forall m, t <> Took m) -> good b (log2 ++ [Ev TakeJob t])) by (intros; by apply good_take).
    destruct (w log2 taken TakeJob) as [| |job].
    + rewrite run_log_bind. cbn [run_log snd]. eapply good_disconnect, Hno. done.
    + by apply IH, Hno.
    + rewrite run_log_bind. destruct Hg2 as (h & f & k & ss & ts & H & Hh & Hfl & Hs & Ht & Hb).
      assert (f = true) as -> by (by injection H as _ <- _ _ _). specialize (Hfl eq_refl). subst h.
      destruct (triple_run w _ _ _ (run_job_view job (log2 ++ [Ev TakeJob (Took job)]) true k ss ts
        ltac:(rewrite view_snoc, H; done))) as (f' & t & H' & Hok).
      apply IH. exists Live, f', k, ss, (t :: ts). split_and!; auto.
  - rewrite run_log_bind. specialize (Hdown eq_refl). destruct Hg2 as (h & f & k & ss & ts & H & Hh & Hfl & Hs & Ht & Hb).
    assert (f = false) as -> by (by injection H as _ <- _ _ _).
    pose proof (triple_run w _ _ _ (try_connect_view log2 h false k ss ts Hh H)) as Hv. cbn beta in Hv.
    destruct (run_log w (try_connect cfg index) log2) as [ok log3]. cbn [fst snd] in *. destruct ok.
    + apply IH. exists Live, true, O, (expected :: ss), ts. split_and!; auto.
    + cbn [run_log]. apply IH. exists Ready, false, (S k), ss, ts. split_and!; try done; [|by left|subst b; by apply double_backoff].
      rewrite !view_snoc, Hv. unfold view_step. cbn -[Z.pow]. rewrite Hb, Z.eqb_refl. done.
Qed.

(** What [start] leaves. *)
Definition start_ok (err : option bytes) (log : log_of) : Prop :=
  match err with Some _ => handle_after log = Some Gone | None => good 1 log end /\
  sessions log = [] /\ turns log = [] /\ pace log = Some (O, false) /\ running_reads log = 0%nat.

Lemma start_log : triple (start cfg index) start_ok [].
Proof.
  unfold start, create. cbn [triple]. intros rc1. destruct (rc1 =? 0) eqn:E1; cbn [negb triple].
  - intros rc2. destruct (rc2 =? 0) eqn:E2; cbn [negb triple].
    + split; [|done]. exists Ready, false, O, [], []. split_and!; [|by left|done|constructor|constructor|done].
      unfold view_of, handle_after. cbn. rewrite E1. cbn. by rewrite E2.
    + intros u. split; [|done]. unfold handle_after. cbn. rewrite E1. cbn. by rewrite E2.
  - split; [|done]. unfold handle_after. cbn. by rewrite E1.
Qed.

(** The results of the first two calls. *)
Definition start_results : Z * Z :=
  let rc1 := w [] Z (create cfg index) in (rc1, w [Ev (create cfg index) rc1] Z SetCallbacks).

Lemma start_result :
  (run_log w (start cfg index) []).1 = Mqtt.conn_start cfg index start_results.1 start_results.2.
Proof.
  unfold start, start_results, Mqtt.conn_start. cbn [run_log app fst snd]. set (c := create cfg index).
  destruct (w [] Z c =? 0); cbn [negb run_log fst app]; [|done]. by destruct (w [Ev c (w [] Z c)] Z SetCallbacks =? 0).
Qed.

Lemma good_stop b log : good b log ->
  let log' := (run_log w stop log).2 in
  handle_after log' = Some Gone /\ sessions log' = sessions log /\ turns log' = turns log /\ pace log' = pace log.
Proof.
  intros (h & f & k & ss & ts & H & Hh & _). unfold stop. cbn [run_log snd]. injection H as H1 H2 H3 H4 H5.
  rewrite !handle_snoc, !sessions_snoc, !turns_snoc, !pace_snoc, H1, H3. cbn. by destruct Hh as [-> | ->].
Qed.

End Honest.

(** ** Lemmas: the loop ends *)

Definition is_running {A : Type} (c : call A) : bool := match c with Running => false | _ => true end.

Lemma running_reads_snoc log e : running_reads (log ++ [e]) = running_step (running_reads log) e.
Proof. apply fold_snoc. Qed.

Lemma running_reads_other {R : Type} (w : world call) (p : prog call R) log :
  all_ops (@is_running) p -> running_reads (run_log w p log).2 = running_reads log.
Proof.
  revert log. induction p as [r|A o rest IH]; intros log Hp; [done|]. destruct Hp as [Ho Hp]. cbn [run_log].
  rewrite IH by apply Hp. rewrite running_reads_snoc. by destruct o.
Qed.

Lemma subscribe_to_other kind topics : all_ops (@is_running) (subscribe_to cfg kind topics).
Proof.
  induction topics as [|t topics IH]; [done|]. cbn. split; [done|]. intros rc. by destruct (rc =? 0).
Qed.

Lemma try_connect_other : all_ops (@is_running) (try_connect cfg index).
Proof.
  unfold try_connect. cbn [all_ops]. split; [done|]. intros rc. destruct (negb _); [done|]. cbn [all_ops].
  do 2 (split; [done|]; intros _). apply all_ops_bind; [|done]. unfold subscribe. destruct (is_primary index); [|done].
  apply all_ops_bind; [|intros _]; (case_match; [apply subscribe_to_other|done]).
Qed.

Lemma run_job_other m : all_ops (@is_running) (run_job cfg index m).
Proof.
  unfold run_job. cbn [all_ops]. split; [done|]. intros rc. destruct (negb _); [done|]. destruct (_ =? 0); [done|].
  cbn [all_ops]. split; [done|]. intros wrc. by destruct (wrc =? 0).
Qed.

Lemma disconnect_other : all_ops (@is_running) disconnect.
Proof. unfold disconnect. cbn. split; [done|]. by intros []. Qed.

Lemma unfinished_reads (w : world call) fuel b log :
  let '(finished, log') := run_log w (worker_loop cfg index fuel b) log in
  finished = false -> running_reads log' = (running_reads log + fuel)%nat.
Proof.
  revert b log. induction fuel as [|fuel IH]; intros b log; [cbn; lia|]. cbn [worker_loop run_log].
  assert (Hr : running_reads (log ++ [Ev Running true]) = S (running_reads log)) by (by rewrite running_reads_snoc).
  assert (Hend : forall l, (run_log w (do _ := disconnect in Ret true) l).1 = true) by (intros l; by rewrite run_log_bind).
  destruct (w log bool Running); cbn [negb].
  2:{ specialize (Hend (log ++ [Ev Running false])). destruct (run_log w _ _) as [f l]. cbn in Hend. by subst f. }
  set (log1 := log ++ _) in *. cbn [run_log]. set (log2 := log1 ++ _).
  assert (H2 : running_reads log2 = S (running_reads log)) by (unfold log2; by rewrite running_reads_snoc).
  destruct (w log1 bool LoadConnected); cbn [negb]; clearbody log2.
  - cbn [run_log]. set (log3 := log2 ++ _). assert (H3 : running_reads log3 = S (running_reads log))
      by (unfold log3; by rewrite running_reads_snoc).
    destruct (w log2 taken TakeJob) as [| |job]; clearbody log3.
    + specialize (Hend log3). destruct (run_log w _ _) as [f l]. cbn in Hend. by subst f.
    + specialize (IH b log3). destruct (run_log w _ _) as [f l]. intros Hf. rewrite IH by done. lia.
    + rewrite run_log_bind. pose proof (running_reads_other w _ log3 (run_job_other job)) as H4.
      set (log4 := (run_log w (run_job cfg index job) log3).2) in *. specialize (IH b log4).
      destruct (run_log w (worker_loop cfg index fuel b) log4) as [f l]. intros Hf. rewrite IH by done. lia.
  - rewrite run_log_bind. pose proof (running_reads_other w _ log2 try_connect_other) as H3.
    destruct (run_log w (try_connect cfg index) log2) as [ok log3]. cbn [fst snd] in *. destruct ok.
    + specialize (IH 1 log3). destruct (run_log w _ _) as [f l]. intros Hf. rewrite IH by done. lia.
    + cbn [run_log]. set (log4 := (_ ++ _) ++ _). assert (H4 : running_reads log4 = running_reads log3)
        by (unfold log4; by rewrite !running_reads_snoc).
      specialize (IH (Z.min (b * 2) Mqtt.kMaxBackoffSeconds) log4). destruct (run_log w _ _) as [f l].
      intros Hf. rewrite IH by done. lia.
Qed.

(** The whole life, read from its log. *)
Lemma life_log (w : world call) (Hw : honest w) fuel :
  let '(result, log) := run_log w (life cfg index fuel) [] in
  match result with
  | None | Some true => handle_after log = Some Gone
  | Some false => (handle_after log = Some Ready \/ handle_after log = Some Live) /\ running_reads log = fuel
  end /\
  (exists k, pace log = Some (k, false)) /\ Forall (eq expected) (sessions log) /\ Forall turn_ok (turns log) /\
  (result = None <-> is_Some (Mqtt.conn_start cfg index (start_results w).1 (start_results w).2)).
Proof.
  unfold life. rewrite run_log_bind.
  pose proof (triple_run w _ _ _ start_log) as (Hg & Hs0 & Ht0 & Hp0 & Hr0). rewrite start_result in *.
  set (log0 := (run_log w (start cfg index) []).2) in *.
  destruct (Mqtt.conn_start cfg index (start_results w).1 (start_results w).2) eqn:Ec.
  { cbn [run_log]. rewrite Hs0, Ht0, Hp0. split_and!; try done. by exists O. }
  rewrite run_log_bind. pose proof (unfinished_reads w fuel 1 log0) as Hu.
  destruct (good_worker_loop w Hw fuel 1 log0 Hg) as [b Hg1].
  destruct (run_log w (worker_loop cfg index fuel 1) log0) as [finished log1]. cbn [fst snd] in *.
  assert (Hparts : (exists k, pace log1 = Some (k, false)) /\ Forall (eq expected) (sessions log1) /\ Forall turn_ok (turns log1) /\
                   (handle_after log1 = Some Ready \/ handle_after log1 = Some Live)).
  { destruct Hg1 as (h & f & k & ss & ts & H & Hh & _ & Hss & Hts & _). injection H as -> _ -> -> ->.
    split_and!; try done; [by exists k|]. destruct Hh as [-> | ->]; auto. }
  destruct Hparts as (Hp & Hss & Hts & Hh). destruct finished.
  - rewrite run_log_bind. destruct (good_stop w b log1 Hg1) as (H1 & H2 & H3 & H4).
    destruct (run_log w stop log1) as [u log2]. cbn [fst snd run_log] in *. rewrite H2, H3, H4. by split_and!.
  - cbn [run_log]. split_and!; try done.
    rewrite Hu, Hr0 by done. lia.
Qed.

End Life.

(** ** Two connections that differ in their credentials *)

(** A call without the credentials it passes. *)
Definition hidden {A : Type} (c : call A) : call A :=
  match c in call A return call A with
  | Connect o => Connect {| keepAliveInterval := keepAliveInterval o; cleansession := cleansession o;
                            connectTimeout := connectTimeout o; credentials := None |}
  | c => c
  end.

Definition hide (e : event call) : event call := match e with Ev c a => Ev (hidden c) a end.

(** The two worlds answer alike what differs in credentials only; for a broker: it lets
    both in, or neither. *)
Definition answers_alike (w w' : world call) : Prop :=
  forall log log' A (c c' : call A), map hide log = map hide log' -> hidden c = hidden c' -> w log A c = w' log' A c'.

Definition but_credentials (A : Type) (c c' : call A) : Prop := hidden c = hidden c'.

Lemma run_but_credentials {R : Type} (w w' : world call) (p p' : prog call R) log log' :
  answers_alike w w' -> alike but_credentials p p' -> map hide log = map hide log' ->
  map hide (run_log w p log).2 = map hide (run_log w' p' log').2.
Proof.
  intros Hw Hp. revert log log'. induction Hp as [r|A c c' f f' Hc _ IH]; intros log log' Hl; [done|]. cbn [run_log].
  rewrite (Hw log log' A c c' Hl Hc). apply IH. rewrite !map_app, Hl. cbn. by rewrite Hc.
Qed.

(** All that a connection reads of its configuration, the credentials apart. *)
Definition same_connection (cfg cfg' : Config.Config) : Prop :=
  Config.mqtt_host cfg = Config.mqtt_host cfg' /\ Config.mqtt_port cfg = Config.mqtt_port cfg' /\
  Config.mqtt_client_id cfg = Config.mqtt_client_id cfg' /\ Config.mqtt_qos cfg = Config.mqtt_qos cfg' /\
  Config.mqtt_keepalive_seconds cfg = Config.mqtt_keepalive_seconds cfg' /\
  Config.mqtt_connect_timeout_seconds cfg = Config.mqtt_connect_timeout_seconds cfg' /\
  Config.mqtt_publish_timeout_seconds cfg = Config.mqtt_publish_timeout_seconds cfg' /\
  Config.subscribe_enabled cfg = Config.subscribe_enabled cfg' /\ Config.subscribe_topics cfg = Config.subscribe_topics cfg' /\
  Config.webhook_enabled cfg = Config.webhook_enabled cfg' /\ Config.webhook_topics cfg = Config.webhook_topics cfg'.

Lemma subscribe_to_qos cfg cfg' kind topics :
  Config.mqtt_qos cfg = Config.mqtt_qos cfg' ->
  alike but_credentials (subscribe_to cfg kind topics) (subscribe_to cfg' kind topics).
Proof.
  intros Hq. induction topics as [|t ts IH]; [by constructor|]. cbn [subscribe_to]. unfold qos_text. rewrite Hq.
  constructor; [done|]. intros rc. constructor; [done|]. intros u. apply IH.
Qed.

Lemma try_connect_alike cfg cfg' index :
  same_connection cfg cfg' -> alike but_credentials (try_connect cfg index) (try_connect cfg' index).
Proof.
  intros (H1 & H2 & _ & H4 & H5 & H6 & _ & H8 & H9 & H10 & H11). unfold try_connect, endpoint_text, subscribe.
  rewrite H1, H2, H8, H9, H10, H11. constructor.
  { unfold but_credentials. cbn. by rewrite H5, H6. }
  intros rc. destruct (negb _); [by apply alike_refl|]. do 2 (constructor; [done|]; intros ?).
  apply alike_bind; [|intros u'; by constructor]. destruct (is_primary index); [|by constructor].
  apply alike_bind; [|intros u']; case_match; try (by constructor); by apply subscribe_to_qos.
Qed.

Lemma worker_loop_alike cfg cfg' index fuel backoff :
  same_connection cfg cfg' -> alike but_credentials (worker_loop cfg index fuel backoff) (worker_loop cfg' index fuel backoff).
Proof.
  intros Hs. revert backoff. induction fuel as [|fuel IH]; intros backoff; [by constructor|]. cbn [worker_loop].
  constructor; [done|]. intros r. destruct (negb r); [by apply alike_refl|]. constructor; [done|]. intros c.
  destruct (negb c).
  - apply alike_bind; [by apply try_connect_alike|]. intros [|]; [apply IH|]. do 2 (constructor; [done|]; intros ?). apply IH.
  - constructor; [done|]. intros [| |job]; [by apply alike_refl|apply IH|]. apply alike_bind; [|intros u; apply IH].
    destruct Hs as (_ & _ & _ & _ & _ & _ & H7 & _). unfold run_job. rewrite H7. by apply alike_refl.
Qed.

Lemma life_alike cfg cfg' index fuel :
  same_connection cfg cfg' -> alike but_credentials (life cfg index fuel) (life cfg' index fuel).
Proof.
  intros Hs. unfold life. apply alike_bind.
  - destruct Hs as (H1 & H2 & H3 & _). unfold start, create, server_uri, Mqtt.client_id. rewrite H1, H2, H3. by apply alike_refl.
  - intros [e|]; [by constructor|]. apply alike_bind; [by apply worker_loop_alike|]. intros fin. by apply alike_refl.
Qed.

(** What a connection's thread logs. *)
Definition logged (log : log_of) : list (Log.LogLevel * bytes) :=
  omap (fun e => match e with Ev (LogLine level msg) _ => Some (level, msg) | _ => None end) log.

Lemma logged_hide log : logged (map hide log) = logged log.
Proof.
  unfold logged. induction log as [|[A c a] log IH]; [done|]. cbn. rewrite IH. by destruct c.
Qed.

(** ** Properties *)

(** C16: paho's handle is used as its documentation asks.  However Paho, the waits and the
    other threads behave ([connected_] being only lowered by others): every call
    finds the handle in a state that allows it (created before anything, callbacks before
    the connect, subscribe and publish only on a connected handle, a completion awaited only
    right after a publish that was accepted above QoS 0, nothing after the
    destroy); a connection that ended or never started has destroyed what it created; one
    that still runs has read [running_] as set once per iteration, so it
    ends once that is cleared; and the k-th failed attempt in a row is followed, before
    the next attempt or any other step but a log line and a count, by a wait of
    min(30, 2^(k-1)) seconds, and nothing else is. *)
Theorem connection_protocol (cfg : Config.Config) (index : nat) (w : world call) (fuel : nat) (Hw : honest w) :
  let '(result, log) := run_log w (life cfg index fuel) [] in
  match result with
  | None | Some true => handle_after log = Some Gone
  | Some false => (handle_after log = Some Ready \/ handle_after log = Some Live) /\ running_reads log = fuel
  end /\ exists k, pace log = Some (k, false).
Proof.
  pose proof (life_log cfg index w Hw fuel) as H. destruct (run_log w (life cfg index fuel) []). by destruct H as (? & ? & _).
Qed.

(** C11: a connection does what the pool's model says.  In its whole life: it starts or not
    as [Mqtt.conn_start] decides on Paho's results; every session subscribes to exactly
    the filters of [Mqtt.subscriptions], in order, with the configured QoS; and every job it
    takes is published once with the job's own fields, awaited at most once,
    and counted and finished once with the outcome of [Mqtt.run_job]. *)
Theorem connection_refines (cfg : Config.Config) (index : nat) (w : world call) (fuel : nat) (Hw : honest w) :
  let '(result, log) := run_log w (life cfg index fuel) [] in
  (result = None <-> is_Some (Mqtt.conn_start cfg index (start_results cfg index w).1 (start_results cfg index w).2)) /\
  Forall (eq (map (fun t => (c_str t, Config.mqtt_qos cfg)) (Mqtt.subscriptions cfg index))) (sessions log) /\
  Forall turn_ok (turns log).
Proof.
  pose proof (life_log cfg index w Hw fuel) as H. destruct (run_log w (life cfg index fuel) []).
  by destruct H as (_ & _ & ? & ? & ?).
Qed.

(** ** Witnesses *)

(** A first attempt that fails, a session with one job, then the stop. *)
Definition demo_world : world call := fun log A c =>
  match c with
  | Create _ _ => 0 | SetCallbacks => 0 | Destroy => tt
  | Connect _ => match sessions log, pace log with [], Some (O, _) => 5 | _, _ => 0 end
  | Subscribe _ _ => 0 | PublishMessage _ _ _ _ => 0 | WaitForCompletion _ => 0 | Disconnect _ => tt
  | Running => (length (turns log) =? 0)%nat
  | LoadConnected => flag log
  | StoreConnected _ => tt | Backoff _ => tt
  | TakeJob => Took {| Mqtt.topic := B"t"; Mqtt.payload := B"1"; Mqtt.qos := 1; Mqtt.retain := true |}
  | FinishJob _ => tt | Count _ => tt | LogLine _ _ => tt | NotifyAll => tt
  end.

Definition demo_cfg : Config.Config :=
  Config.set_subscribe_enabled true (Config.set_subscribe_topics [B"a/#"] (Mqtt.demo_cfg 1)).

Lemma demo_honest : honest demo_world.
Proof. by intros log. Qed.

Lemma connection_protocol_witness :
  let '(result, log) := run_log demo_world (life demo_cfg 0 9) [] in
  result = Some true /\ handle_after log = Some Gone /\ length (turns log) = 1%nat.
Proof.
  pose proof (connection_protocol demo_cfg 0 demo_world 9 demo_honest) as H.
  destruct (run_log demo_world (life demo_cfg 0 9) []) as [result log] eqn:E. vm_compute in E. injection E as <- <-.
  split; [reflexivity|]. split; [exact (proj1 H)|reflexivity].
Defined.

Lemma connection_refines_witness :
  let '(result, log) := run_log demo_world (life demo_cfg 0 9) [] in
  sessions log = [[(B"a/#", Config.mqtt_qos demo_cfg)]] /\ length (turns log) = 1%nat /\ Forall turn_ok (turns log).
Proof.
  pose proof (connection_refines demo_cfg 0 demo_world 9 demo_honest) as H.
  destruct (run_log demo_world (life demo_cfg 0 9) []) as [result log] eqn:E. vm_compute in E. injection E as <- <-.
  split; [reflexivity|]. split; [reflexivity|]. exact (proj2 (proj2 H)).
Defined.

End Paho.
