(* ===== verification/Publisher.v ===== *)
(** * The interface between the HTTP server and the broker client

    [Publisher] is what server.cpp uses of [MqttClient]; [PublisherSpec] is what
    its handlers rely on.  The instance is the client of Mqtt.v together with a
    schedule: the events of the other threads while the caller waits. *)

From S2P Require Import Prelude Config Metrics Threads Mailbox Mqtt.

(** The operations. *)
Class Publisher (M : Type) := {
  pub_call : Mqtt.msg -> M -> Mqtt.PublishOutcome * M;
  pub_connected : M -> bool;
  pub_active : M -> Z;
  pub_depth : M -> Z;
  (* the process-wide counters, which the broker client and the server share *)
  pub_metrics : M -> Metrics.metrics;
  pub_count : (Metrics.metrics -> Metrics.metrics) -> M -> M;
  (* what the publisher has queued so far, in order, and the places in that list of
     the messages the MQTT library took for sending and of those beyond QoS 0 whose
     acknowledgement by the broker it reported *)
  pub_accepted : M -> list Mqtt.msg;
  pub_handed : M -> list nat;
  pub_acked : M -> list nat
}.

(** What [Ok] tells of the message at place [id]: taken for sending and, beyond QoS 0,
    acknowledged by the broker. *)
Definition pub_delivered {M : Type} `{Publisher M} (m : Mqtt.msg) (id : nat) (s : M) : Prop :=
  id ∈ pub_handed s /\ (Mqtt.qos m <> 0%Z -> id ∈ pub_acked s).

(** The counters of the HTTP side. *)
Definition http_counter (k : Metrics.counter) : bool :=
  match k with
  | Metrics.CEvent | Metrics.CMetric | Metrics.CHealth | Metrics.CMetrics | Metrics.COther
  | Metrics.C2xx | Metrics.C4xx | Metrics.C5xx => true
  | _ => false
  end.

(** The contract: a refused message is not queued; any other outcome means it
    was queued, exactly once, at the moment of the call; [Ok] means this very message was
    taken for sending and, beyond QoS 0, acknowledged by the broker, and [Failed] that it
    was not even taken; the call gives back a state in which all this holds again, and
    leaves the HTTP counters alone. *)
Class PublisherSpec (M : Type) `{Publisher M} := {
  pub_ok : M -> Prop;
  pub_call_spec m s o s' :
    pub_ok s -> pub_call m s = (o, s') ->
    pub_ok s' /\
    match o with
    | Mqtt.QueueFull => pub_accepted s' = pub_accepted s
    | _ => exists later, pub_accepted s' = pub_accepted s ++ m :: later
    end /\
    (o = Mqtt.Ok -> pub_delivered m (length (pub_accepted s)) s') /\
    (o = Mqtt.Failed -> length (pub_accepted s) ∉ pub_handed s') /\
    (forall k, http_counter k = true -> Metrics.read (pub_metrics s') k = Metrics.read (pub_metrics s) k);
  pub_count_ok f s : pub_ok s -> pub_ok (pub_count f s);
  pub_count_metrics f s : pub_metrics (pub_count f s) = f (pub_metrics s);
  pub_count_accepted f s : pub_accepted (pub_count f s) = pub_accepted s;
  pub_count_handed f s : pub_handed (pub_count f s) = pub_handed s;
  pub_count_acked f s : pub_acked (pub_count f s) = pub_acked s
}.

Module PublisherImpl.
Import Mqtt.

Section Impl.
Context (cfg : Config.Config).

(** The wait in [publish], while the given events happen; when they are used up
    the time-out expires. *)
Fixpoint wait_for (id : nat) (sched : list event) (s : client) : PublishOutcome * (client * list event) :=
  match publish_result id false s with
  | Some o => (o, (default s (publish_return id false s), sched))
  | None =>
      match sched with
      | [] => (default Timeout (publish_result id true s), (default s (publish_return id true s), []))
      | e :: rest =>
          match e with
          | Return id' true =>
              if decide (id' = id)
              then (default Timeout (publish_result id true s), (default s (publish_return id true s), rest))
              else wait_for id rest (default s (exec cfg e s))
          | _ => wait_for id rest (default s (exec cfg e s))
          end
      end
  end.

(** [MqttClient::publish]. *)
Definition publish (m : msg) (st : client * list event) : PublishOutcome * (client * list event) :=
  match publish_enqueue cfg m st.1 with
  | (None, s') => (QueueFull, (s', st.2))
  | (Some id, s') => wait_for id st.2 s'
  end.

Definition requests (s : client) : list msg := map request (jobs s).

#[export] Instance mqtt_publisher : Publisher (client * list event) := {
  pub_call := publish;
  pub_connected st := pool_connected st.1;
  pub_active st := connections_active st.1;
  pub_depth st := queue_depth st.1;
  pub_metrics st := metrics st.1;
  pub_count f st := (set_metrics (f (metrics st.1)) st.1, st.2);
  pub_accepted st := requests st.1;
  pub_handed st := handed st.1;
  pub_acked st := acked st.1
}.

(** ** Lemmas *)

Lemma map_request_insert (js : list job) id j o :
  js !! id = Some j -> map request (<[id := finish_job o j]> js) = map request js.
Proof.
  intros H. change (map request (<[id:=finish_job o j]> js)) with (request <$> (<[id:=finish_job o j]> js)).
  rewrite list_fmap_insert. apply list_insert_id. by rewrite list_lookup_fmap, H.
Qed.

Lemma fail_jobs_requests js q : map request (fail_jobs js q) = map request js.
Proof.
  revert js. induction q as [|x q IH]; intros js; [done|]. unfold fail_jobs in *. cbn [fold_left]. rewrite IH.
  destruct (js !! x) eqn:E; [|done]. by apply map_request_insert.
Qed.

(** No step removes or rewrites a request. *)
Lemma exec_requests e s s' : exec cfg e s = Some s' -> exists later, requests s' = requests s ++ later.
Proof.
  intros H. unfold requests.
  assert (Hsame : jobs s' = jobs s -> exists later, map request (jobs s') = map request (jobs s) ++ later)
    by (intros ->; exists []; by rewrite app_nil_r).
  destruct e as [m|n t|i|i ok|i|i|i a b|i|m|e| | | | |]; cbn [exec] in H.
  - injection H as <-. unfold publish_enqueue. case_match; [exists []; by rewrite app_nil_r|]. exists [m]. simpl. by rewrite map_app.
  - unfold publish_return in H. destruct (publish_result n t s); [|done]. injection H as <-. by apply Hsame.
  - destruct (at_pc i CTop s); [|done]. injection H as <-. by apply Hsame.
  - destruct (at_pc i CConnect s); [|done]. injection H as <-. apply Hsame. by destruct ok.
  - destruct (at_pc i CBackoff s); [|done]. injection H as <-. by apply Hsame.
  - destruct (at_pc i CWait s); [|done]. injection H as <-. apply Hsame.
    unfold conn_take. destruct (running s); [|done]. by destruct (queue s).
  - destruct (conns s !! i) as [c|]; [|done]. cbn [mbind option_bind] in H.
    destruct (pc c) as [| | | |id'|]; try done. unfold conn_run in H.
    destruct (jobs s !! id') as [j|] eqn:Ej; [|done]. cbn [mbind option_bind] in H.
    destruct (run_job (qos (request j)) a b) as [[o k] tr]. injection H as <-.
    exists []. rewrite app_nil_r. cbn [jobs]. by apply map_request_insert.
  - destruct (conns s !! i); [|done]. injection H as <-. by apply Hsame.
  - destruct (_ && _); [|done]. injection H as <-. apply Hsame.
    unfold message_arrived. by destruct (Mailbox.offer _ _ _) as [[] b].
  - apply Hsame. by apply (exec_inbox cfg e) in H as (b & _ & -> & _).
  - destruct (running s); injection H as <-; by apply Hsame.
  - case_decide; [|done]. injection H as <-. by apply Hsame.
  - case_decide; [|done]. destruct (forallb _ _); [|done]. injection H as <-. by apply Hsame.
  - case_decide; [|done]. destruct (Mailbox.worker _); try done. injection H as <-. by apply Hsame.
  - case_decide; [|done]. injection H as <-. exists []. rewrite app_nil_r. apply fail_jobs_requests.
Qed.

Lemma default_exec_inv e s : client_inv cfg s -> client_inv cfg (default s (exec cfg e s)).
Proof. intros H. destruct (exec cfg e s) eqn:E; [|done]. by eapply mqtt_exec_inv. Qed.

Lemma default_exec_requests e s : exists later, requests (default s (exec cfg e s)) = requests s ++ later.
Proof.
  destruct (exec cfg e s) eqn:E; [by eapply exec_requests|]. exists []. by rewrite app_nil_r.
Qed.

Lemma default_return_inv id t s :
  client_inv cfg s ->
  client_inv cfg (default s (publish_return id t s)) /\
  requests (default s (publish_return id t s)) = requests s /\
  (forall x, delivered (default s (publish_return id t s)) x <-> delivered s x) /\
  handed (default s (publish_return id t s)) = handed s.
Proof.
  intros H. destruct (publish_return id t s) eqn:E; [|done]. simpl.
  split; [by eapply return_inv|]. unfold publish_return in E.
  destruct (publish_result id t s); [|done]. injection E as <-. done.
Qed.

(** The client only counts its own events. *)
Definition http_same (s s' : client) : Prop :=
  forall k, http_counter k = true -> Metrics.read (metrics s') k = Metrics.read (metrics s) k.

Lemma inc_http c k m : http_counter c = false -> http_counter k = true ->
  Metrics.read (Metrics.inc c m) k = Metrics.read m k.
Proof. intros Hc Hk. rewrite Metrics.read_inc. case_decide; [congruence|done]. Qed.

Lemma publish_enqueue_http m s : http_same s (publish_enqueue cfg m s).2.
Proof. intros k Hk. unfold publish_enqueue. case_match; [|done]. by apply inc_http. Qed.

Lemma exec_http e s s' : exec cfg e s = Some s' -> http_same s s'.
Proof.
  intros H. assert (Hsame : metrics s' = metrics s -> http_same s s') by (intros E k _; by rewrite E).
  assert (Hinc : forall c, http_counter c = false -> metrics s' = Metrics.inc c (metrics s) -> http_same s s')
    by (intros c Hc E k Hk; rewrite E; by apply inc_http).
  destruct e as [m|n t|i|i ok|i|i|i a b|i|m|e| | | | |]; cbn [exec] in H.
  - injection H as <-. apply publish_enqueue_http.
  - unfold publish_return in H. destruct (publish_result n t s); [|done]. injection H as <-. by apply Hsame.
  - destruct (at_pc i CTop s); [|done]. injection H as <-. by apply Hsame.
  - destruct (at_pc i CConnect s); [|done]. injection H as <-.
    destruct ok; [by apply Hsame|by apply (Hinc Metrics.CReconnects)].
  - destruct (at_pc i CBackoff s); [|done]. injection H as <-. by apply Hsame.
  - destruct (at_pc i CWait s); [|done]. injection H as <-. apply Hsame.
    unfold conn_take. destruct (running s); [|done]. by destruct (queue s).
  - destruct (conns s !! i) as [c|]; [|done]. cbn [mbind option_bind] in H.
    destruct (pc c) as [| | | |id'|]; try done. unfold conn_run in H.
    destruct (jobs s !! id') as [j|]; [|done]. cbn [mbind option_bind] in H.
    destruct (run_job (qos (request j)) a b) as [[o k] tr] eqn:Er. injection H as <-.
    apply (Hinc k); [|done]. unfold run_job in Er. repeat case_match; by simplify_eq.
  - destruct (conns s !! i); [|done]. injection H as <-. by apply Hsame.
  - destruct (_ && _); [|done]. injection H as <-. unfold message_arrived.
    destruct (Mailbox.offer _ _ _) as [[] b]; intros k Hk; simpl; rewrite ?inc_http; done.
  - apply Hsame. by apply (exec_inbox cfg e) in H as (b & _ & -> & _).
  - destruct (running s); injection H as <-; by apply Hsame.
  - case_decide; [|done]. injection H as <-. by apply Hsame.
  - case_decide; [|done]. destruct (forallb _ _); [|done]. injection H as <-. by apply Hsame.
  - case_decide; [|done]. destruct (Mailbox.worker _); try done. injection H as <-. by apply Hsame.
  - case_decide; [|done]. injection H as <-. by apply Hsame.
Qed.

Lemma return_http id t s : http_same s (default s (publish_return id t s)).
Proof.
  unfold publish_return. by destruct (publish_result id t s).
Qed.

Lemma wait_for_http id sched s : http_same s (wait_for id sched s).2.1.
Proof.
  revert s. induction sched as [|e sched IH]; intros s; cbn [wait_for];
    destruct (publish_result id false s); try apply return_http.
  assert (Hstep : http_same s (wait_for id sched (default s (exec cfg e s))).2.1).
  { intros k Hk. rewrite IH by done. destruct (exec cfg e s) eqn:E; [|done]. by apply (exec_http _ _ _ E). }
  destruct e as [| id' [] | | | | | | | | | | | | |]; try apply Hstep.
  case_decide; [apply return_http|apply Hstep].
Qed.

Lemma publish_http m st : http_same st.1 (publish m st).2.1.
Proof.
  unfold publish. pose proof (publish_enqueue_http m st.1) as H.
  destruct (publish_enqueue cfg m st.1) as [[id|] s']; [|done].
  intros k Hk. rewrite wait_for_http by done. by apply H.
Qed.

(** What a result tells. *)
Lemma result_ok_delivered id t s :
  client_inv cfg s -> default Timeout (publish_result id t s) = Ok -> delivered s id.
Proof.
  intros Hinv H. apply (mi_ok _ _ Hinv). unfold publish_result, result_of in *.
  destruct (jobs s !! id) as [j|]; [|done]. destruct (result j); [by simplify_eq/=|]. by destruct t.
Qed.

Lemma result_failed_handed id t s :
  client_inv cfg s -> default Timeout (publish_result id t s) = Failed -> id ∉ handed s.
Proof.
  intros Hinv H Hin. apply (mi_handed _ _ Hinv) in Hin. unfold publish_result, result_of in *.
  destruct (jobs s !! id) as [j|]; [|by destruct Hin]. destruct (result j); [|by destruct t]. destruct Hin; by simplify_eq/=.
Qed.

Lemma result_not_full id t s : client_inv cfg s -> default Timeout (publish_result id t s) <> QueueFull.
Proof.
  intros Hinv. pose proof (mi_results _ _ Hinv id) as H. unfold publish_result, result_of in *.
  destruct (jobs s !! id) as [j|]; [|done]. destruct (result j); [simpl; congruence|by destruct t].
Qed.

Lemma publish_result_Some id s o : publish_result id false s = Some o -> default Timeout (publish_result id false s) = o.
Proof. by intros ->. Qed.

(** What the caller of [publish] is told of its job. *)
Definition told (id : nat) (o : PublishOutcome) (s : client) : Prop :=
  (o = Ok -> delivered s id) /\ (o = Failed -> id ∉ handed s).

Lemma wait_for_spec id sched s o st' :
  client_inv cfg s -> wait_for id sched s = (o, st') ->
  client_inv cfg st'.1 /\ o <> QueueFull /\ (exists later, requests st'.1 = requests s ++ later) /\
  told id o st'.1.
Proof.
  assert (Hend : forall t s rest, client_inv cfg s ->
    let o := default Timeout (publish_result id t s) in
    let st := (default s (publish_return id t s), rest : list event) in
    client_inv cfg st.1 /\ o <> QueueFull /\ (exists later, requests st.1 = requests s ++ later) /\ told id o st.1).
  { intros t s0 rest Hinv. destruct (default_return_inv id t s0 Hinv) as (H1 & H2 & H3 & H4). cbn [fst].
    split; [done|]. split; [by apply result_not_full|]. split; [exists []; by rewrite app_nil_r|].
    split; intros Ho; [apply H3; by eapply result_ok_delivered|rewrite H4; by eapply result_failed_handed]. }
  revert s. induction sched as [|e sched IH]; intros s Hinv H; cbn [wait_for] in H;
    destruct (publish_result id false s) as [o1|] eqn:E.
  - injection H as <- <-. pose proof (Hend false s [] Hinv) as Hx. cbv zeta in Hx. by rewrite E in Hx.
  - injection H as <- <-. by apply (Hend true).
  - injection H as <- <-. pose proof (Hend false s (e :: sched) Hinv) as Hx. cbv zeta in Hx. by rewrite E in Hx.
  - assert (Hgo : wait_for id sched (default s (exec cfg e s)) = (o, st') ->
      client_inv cfg st'.1 /\ o <> QueueFull /\ (exists later, requests st'.1 = requests s ++ later) /\ told id o st'.1).
    { intros Hw. destruct (default_exec_requests e s) as [l1 Hl1].
      destruct (IH (default s (exec cfg e s))) as (I1 & I2 & [l2 Hl2] & I4); [by apply default_exec_inv|done|].
      split_and!; try done. exists (l1 ++ l2). by rewrite Hl2, Hl1, <- app_assoc. }
    destruct e as [| id' [] | | | | | | | | | | | | |]; try by apply Hgo.
    case_decide; [|by apply Hgo]. injection H as <- <-. by apply (Hend true).
Qed.

(** [delivered], of the message the job was made of. *)
Lemma delivered_request s m pre later :
  delivered s (length pre) -> requests s = pre ++ m :: later ->
  length pre ∈ handed s /\ (qos m <> 0%Z -> length pre ∈ acked s).
Proof.
  intros [Hh Hq] Hr. split; [done|]. intros Hm.
  assert (E : requests s !! length pre = Some m) by (rewrite Hr; by apply list_lookup_middle).
  unfold requests in E. apply list_lookup_fmap_Some in E as (j & -> & Ej). by destruct (Hq j Ej).
Qed.

Lemma publish_outcome_spec m st o st' :
  client_inv cfg st.1 -> publish m st = (o, st') ->
  client_inv cfg st'.1 /\
  match o with
  | QueueFull => requests st'.1 = requests st.1
  | _ => exists later, requests st'.1 = requests st.1 ++ m :: later
  end /\
  (o = Ok -> pub_delivered m (length (requests st.1)) st') /\
  (o = Failed -> length (requests st.1) ∉ handed st'.1).
Proof.
  intros Hinv H. unfold publish in H. pose proof (publish_inv cfg m st.1 Hinv) as Hinv'.
  unfold publish_enqueue in *. case_match; [by injection H as <- <-|]. cbn [snd] in Hinv'.
  match type of H with wait_for _ _ ?s1 = _ => set (s1' := s1) in * end.
  assert (Hreq : requests s1' = requests st.1 ++ [m]) by (unfold requests; simpl; by rewrite map_app).
  destruct (wait_for_spec (length (jobs st.1)) st.2 s1' o st' Hinv' H) as (H1 & H2 & [l Hl] & H4 & H5).
  rewrite Hreq, <- app_assoc in Hl. cbn in Hl. assert (El : length (requests st.1) = length (jobs st.1)) by (unfold requests; by rewrite length_map).
  rewrite <- El in H4, H5. split; [done|]. split; [destruct o; try done; by exists l|]. split; [|done].
  intros Ho. apply (delivered_request _ m _ l); [by apply H4|done].
Qed.

Lemma publish_call_spec m st o st' :
  client_inv cfg st.1 -> publish m st = (o, st') ->
  client_inv cfg st'.1 /\
  match o with
  | QueueFull => requests st'.1 = requests st.1
  | _ => exists later, requests st'.1 = requests st.1 ++ m :: later
  end /\
  (o = Ok -> pub_delivered m (length (requests st.1)) st') /\
  (o = Failed -> length (requests st.1) ∉ handed st'.1) /\ http_same st.1 st'.1.
Proof.
  intros Hinv H. destruct (publish_outcome_spec m st o st' Hinv H) as (H1 & H2 & H3 & H4). split_and!; try done.
  pose proof (publish_http m st) as Hh. by rewrite H in Hh.
Qed.

#[export, program] Instance mqtt_publisher_spec : PublisherSpec (client * list event) := {
  pub_ok st := client_inv cfg st.1;
  pub_call_spec := publish_call_spec;
  pub_count_ok f st := set_metrics_inv cfg _ _
}.
Next Obligation. done. Qed.
Next Obligation. done. Qed.
Next Obligation. done. Qed.
Next Obligation. done. Qed.

End Impl.

(** C10: the broker client honours the contract the HTTP server relies on.  In
    any reachable state and under any schedule of the other threads, a call of
    [publish] that reports [QueueFull] has queued nothing; one that reports
    anything else has queued exactly its message, once, behind what was there;
    one that reports [Ok] had that very message taken by Paho's publish call and, for
    QoS 1 and 2, its completion (the broker's acknowledgement) reported by Paho; and one
    that reports [Failed] never had it taken. *)
Theorem publish_contract (cfg : Config.Config) (m0 : Metrics.metrics) (m : msg) (s : client)
    (sched : list event) (o : PublishOutcome) (st' : client * list event)
    (Hr : reachable cfg m0 s) (H : publish cfg m (s, sched) = (o, st')) :
  match o with
  | QueueFull => requests st'.1 = requests s
  | _ => exists later, requests st'.1 = requests s ++ m :: later
  end /\
  (o = Ok -> length (requests s) ∈ handed st'.1 /\ (qos m <> 0%Z -> length (requests s) ∈ acked st'.1)) /\
  (o = Failed -> length (requests s) ∉ handed st'.1).
Proof.
  destruct (publish_outcome_spec cfg m (s, sched) o st') as (_ & H1); [|done|done].
  simpl. by eapply mqtt_reachable_inv.
Qed.

Lemma publish_contract_witness :
  let s := start (demo_cfg 1) Metrics.zero_metrics in
  let r := publish (demo_cfg 1) demo_msg (s, drop 1 ok_schedule) in
  r.1 = Ok /\ acked r.2.1 = [0] /\ 0 ∈ handed r.2.1 /\ 0 ∈ acked r.2.1.
Proof.
  intros s r. split; [vm_compute; reflexivity|]. split; [vm_compute; reflexivity|].
  edestruct (publish_contract (demo_cfg 1) Metrics.zero_metrics demo_msg s (drop 1 ok_schedule) Ok r.2) as (_ & Hk & _);
    [apply rtc_refl|vm_compute; reflexivity|]. destruct (Hk eq_refl) as [H1 H2]. split; [exact H1|]. apply H2. discriminate.
Defined.

End PublisherImpl.
