(* ===== verification/Server.v ===== *)
(** * server.cpp: request handling

    The handlers are programs over the atomic operations the code performs on
    what it shares with the other threads: the store and its mutex, the broker
    client, the counters, the state file, and the connection's own socket.  [run]
    executes one program alone; [many_step] interleaves the programs of several
    HTTP workers, one operation at a time.  The broker client is any
    implementation of [Publisher]. *)

From S2P Require Import Prelude CLib Double TextUtil JsonUtil Config Placeholders State Metrics Http Webhook Mqtt Log Publisher Threads Prog.

Module Server.

(** ** The environment of one connection *)

(** Outcome of one [send]. *)
Inductive send_result := Sent (n : nat) | SendIntr | SendError.

(** The clock at the head and the body read, what [poll], [recv] and [send] will
    return, the bytes handed to the kernel so far and the number of [close]
    calls. *)
Record sock := {
  head_start : Z; body_start : Z; events : list Http.io_event; sends : list send_result;
  sent : bytes; closed : nat
}.

(** [write_all]: the success flag, the bytes sent by it and the results left;
    [None] while the given results do not yet end the loop.  [send] takes at most
    what it is given. *)
Fixpoint write_all (data : bytes) (results : list send_result) {struct results} :
    option (bool * bytes * list send_result) :=
  if decide (data = []) then Some (true, [], results)
  else match results with
       | [] => None
       | SendIntr :: rest => write_all data rest
       | SendError :: rest => Some (false, [], rest)
       | Sent n :: rest =>
           '(ok, more, unused) ← write_all (drop n data) rest;
           Some (ok, take n data ++ more, unused)
       end.

(** ** Programs *)

Inductive op : Type -> Type :=
| ReadHead (max_bytes : nat) (timeout_seconds : Z) : op (Http.ReadResult * bytes)
| ReadBody (need : nat) (timeout_seconds : Z) (body : bytes) : op (Http.ReadResult * bytes)
| WriteAll (data : bytes) : op bool
| Close : op unit
| RecordRequest (path : bytes) : op unit
| RecordResponse (status : Z) : op unit
| StateSet (name : bytes) (value : double) : op unit
| StateRemove (name : bytes) : op bool
| StateSnapshot : op (list (bytes * double))
| StateSize : op Z
| StateSave (path : bytes) : op (bool * bytes)                            (* the answer and [err] *)
| WriteTextfile (path text : bytes) : op (StateStore.save_event * bytes)   (* and [errno_str()] *)
| Publish (m : Mqtt.msg) : op Mqtt.PublishOutcome
| Connected : op bool
| ConnectionsActive : op Z
| QueueDepth : op Z
| Counters : op Metrics.metrics
| WebhookDepth : op Z
| Uptime : op double
| World : op Placeholders.world
| Enqueue (j : Webhook.Job) : op unit
| LogLine (level : Log.LogLevel) (msg : bytes) : op unit.

Abbreviation prog := (Prog.prog op).

(** Operations that change neither the store, nor the state file, nor what is
    published. *)
Definition reads {A : Type} (o : op A) : bool :=
  match o with StateSet _ _ | StateRemove _ | StateSave _ | Publish _ => false | _ => true end.

Abbreviation quiet := (all_ops (@reads)).

(** Operations that change neither the store nor the state file nor the log. *)
Definition keeps_state {A : Type} (o : op A) : bool :=
  match o with StateSet _ _ | StateRemove _ | StateSave _ | LogLine _ _ => false | _ => true end.

(** Both. *)
Definition looks {A : Type} (o : op A) : bool := reads o && keeps_state o.

Abbreviation stateless := (all_ops (@keeps_state)).

(** An operation on the socket took effect: drop the cases in which it blocks. *)
Ltac io_cases E :=
  repeat (destruct (Http.read_http_head _ _ _ _) || destruct (Http.read_http_body _ _ _ _ _)
          || destruct (write_all _ _) as [[[??]?]|]);
  cbn [mbind option_bind] in E; try done.

(** ** The shared state and the operations *)

Section Server.
Context {M : Type} `{Publisher M}.

(** [file] and [textfile] are the contents of the state file and of the Prometheus
    textfile; [saves] and [textfile_saves] are what the file system will do to the
    coming attempts to replace them (nothing wrong when used up), for the textfile with
    the text of [errno].  The broker
    client [pub] also holds the counters.  [offered]: the jobs handed to the
    webhook client so far (Webhook.v models what becomes of them).  [logged]: the calls
    of the logger so far, in the order they took its mutex (Log.v has what it prints). *)
Record server := {
  values : StateStore.store; file : option bytes; saves : list StateStore.save_event; pub : M;
  uptime : double; webhook_depth : Z; world : Placeholders.world;
  offered : list Webhook.Job; textfile : option bytes; textfile_saves : list (StateStore.save_event * bytes);
  logged : list (Log.LogLevel * bytes)
}.

Definition set_values (v : StateStore.store) (s : server) : server :=
  Build_server v (file s) (saves s) (pub s) (uptime s) (webhook_depth s) (world s) (offered s)
    (textfile s) (textfile_saves s) (logged s).
Definition set_file (f : option bytes) (l : list StateStore.save_event) (s : server) : server :=
  Build_server (values s) f l (pub s) (uptime s) (webhook_depth s) (world s) (offered s)
    (textfile s) (textfile_saves s) (logged s).
Definition set_pub (p : M) (s : server) : server :=
  Build_server (values s) (file s) (saves s) p (uptime s) (webhook_depth s) (world s) (offered s)
    (textfile s) (textfile_saves s) (logged s).

Definition add_logged (l : list (Log.LogLevel * bytes)) (s : server) : server :=
  Build_server (values s) (file s) (saves s) (pub s) (uptime s) (webhook_depth s) (world s) (offered s)
    (textfile s) (textfile_saves s) (logged s ++ l).

Definition after_read (k : sock) (r : Http.ReadResult * bytes * list Http.io_event) : (Http.ReadResult * bytes) * sock :=
  (r.1, Build_sock (head_start k) (body_start k) r.2 (sends k) (sent k) (closed k)).

(** One operation; [None] while it blocks. *)
Definition exec {A : Type} (o : op A) (k : sock) (s : server) : option (A * sock * server) :=
  match o with
  | ReadHead max_bytes timeout =>
      r ← Http.read_http_head max_bytes timeout (head_start k) (events k);
      Some (after_read k r, s)
  | ReadBody need timeout body =>
      r ← Http.read_http_body need timeout (body_start k) body (events k);
      Some (after_read k r, s)
  | WriteAll data =>
      '(ok, out, unused) ← write_all data (sends k);
      Some (ok, Build_sock (head_start k) (body_start k) (events k) unused (sent k ++ out) (closed k), s)
  | Close => Some (tt, Build_sock (head_start k) (body_start k) (events k) (sends k) (sent k) (S (closed k)), s)
  | RecordRequest path => Some (tt, k, set_pub (pub_count (Metrics.record_request path) (pub s)) s)
  | RecordResponse status => Some (tt, k, set_pub (pub_count (Metrics.record_response status) (pub s)) s)
  | StateSet name value => Some (tt, k, set_values (StateStore.set (values s) name value) s)
  | StateRemove name =>
      let '(existed, v) := StateStore.remove (values s) name in Some (existed, k, set_values v s)
  | StateSnapshot => Some (StateStore.snapshot (values s), k, s)
  | StateSize => Some (Z.of_nat (StateStore.size (values s)), k, s)
  | StateSave path =>
      let '(ok, err, f) := StateStore.save (hd StateStore.SaveOk (saves s)) path (values s) (file s) in
      Some ((ok, err), k, set_file f (tl (saves s)) s)
  | WriteTextfile _ text =>
      let e := hd (StateStore.SaveOk, []) (textfile_saves s) in
      let f := match e.1 with StateStore.SaveOk => Some text | _ => textfile s end in
      Some (e, k, Build_server (values s) (file s) (saves s) (pub s) (uptime s) (webhook_depth s) (world s) (offered s)
                    f (tl (textfile_saves s)) (logged s))
  | Publish m => let '(o, p) := pub_call m (pub s) in Some (o, k, set_pub p s)
  | Connected => Some (pub_connected (pub s), k, s)
  | ConnectionsActive => Some (pub_active (pub s), k, s)
  | QueueDepth => Some (pub_depth (pub s), k, s)
  | Counters => Some (pub_metrics (pub s), k, s)
  | WebhookDepth => Some (webhook_depth s, k, s)
  | Uptime => Some (uptime s, k, s)
  | World => Some (world s, k, s)
  | Enqueue j =>
      Some (tt, k, Build_server (values s) (file s) (saves s) (pub s) (uptime s) (webhook_depth s) (world s)
                     (offered s ++ [j]) (textfile s) (textfile_saves s) (logged s))
  | LogLine level msg => Some (tt, k, add_logged [(level, msg)] s)
  end.

(** Sequential execution, and one step of one program. *)
Fixpoint run {R : Type} (p : prog R) (k : sock) (s : server) : option (R * sock * server) :=
  match p with
  | Ret r => Some (r, k, s)
  | Do o rest => '(a, k', s') ← exec o k s; run (rest a) k' s'
  end.

Definition step_prog {R : Type} (p : prog R) (k : sock) (s : server) : option (prog R * sock * server) :=
  match p with
  | Ret _ => None
  | Do o rest => '(a, k', s') ← exec o k s; Some (rest a, k', s')
  end.

(** Thread [i] performs its next operation. *)
Definition many_exec {R : Type} (i : nat) (st : list (prog R * sock) * server) :
    option (list (prog R * sock) * server) :=
  pk ← st.1 !! i; '(p, k, s) ← step_prog pk.1 pk.2 st.2; Some (<[i := (p, k)]> st.1, s).

(** ** Handlers *)

Context (cfg : Config.Config).
(* NSHMQTT_VERSION, which the build defines *)
Context (version : bytes).

Definition content_type_is_json (content_type : bytes) : bool :=
  contains (B"application/json") (map tolower content_type).

Definition is_authorized (req : Http.HttpRequest) : bool :=
  match Config.http_auth_tokens cfg with
  | [] => true
  | tokens => existsb (fun token => constant_time_equals (Http.auth_token req) token) tokens
  end.

Definition json_error (st : Z) (message : bytes) : Http.HttpResponse :=
  Http.make_error_response st message Http.Json.

(** [make_error_response(405, ...)] and [r.headers.push_back({"Allow", ...})]. *)
Definition not_allowed (allow : bytes) : Http.HttpResponse :=
  let r := json_error 405 (B"method not allowed") in
  {| Http.status := Http.status r; Http.format := Http.format r;
     Http.headers := Http.headers r ++ [(B"Allow", allow)]; Http.resp_body := Http.resp_body r |}.

Definition json_ok (text : bytes) : Http.HttpResponse :=
  {| Http.status := 200; Http.format := Http.Json; Http.headers := []; Http.resp_body := text |}.

Definition event_outcome_response (topic : bytes) (payload_bytes : nat) (qos : Z) (retain : bool)
    (outcome : Mqtt.PublishOutcome) : Http.HttpResponse :=
  match outcome with
  | Mqtt.Ok =>
      json_ok (B"{" ++ Metrics.jkey (B"topic") ++ [c_quote] ++ json_escape topic ++ [c_quote]
               ++ B"," ++ Metrics.jkey (B"payload_bytes") ++ to_string (Z.of_nat payload_bytes)
               ++ B"," ++ Metrics.jkey (B"qos") ++ to_string qos
               ++ B"," ++ Metrics.jkey (B"retain") ++ Metrics.bool_text retain
               ++ B"," ++ Metrics.jkey (B"published") ++ B"true}")
  | Mqtt.QueueFull => json_error 503 (B"mqtt publish queue full")
  | Mqtt.Timeout => json_error 504 (B"mqtt publish timed out")
  | Mqtt.Failed => json_error 502 (B"mqtt publish failed")
  end.

(** A header, or else the query parameter: present or not, and the text. *)
Definition header_or_param (header : bytes) (req : Http.HttpRequest) (key : bytes) : option bytes :=
  if decide (header = []) then Http.find_query_param req key else Some header.

Definition event_qos (req : Http.HttpRequest) : option Z :=
  match header_or_param (Http.qos_header req) req (B"qos") with
  | None => Some (Config.mqtt_qos cfg)
  | Some text =>
      unwrap parsed := parse_int text else None in
      if (parsed <? 0)%Z || (2 <? parsed)%Z then None else Some parsed
  end.

Definition event_retain (req : Http.HttpRequest) : option bool :=
  match header_or_param (Http.retain_header req) req (B"retain") with
  | None => Some false
  | Some text => parse_bool text
  end.

(** The payload as sent, or the response that refuses the request. *)
Definition event_payload (req : Http.HttpRequest) : bytes + Http.HttpResponse :=
  if decide (Http.method req = B"POST") then inl (Http.body req)
  else if bool_decide (Http.method req = B"GET") && Config.simple_get cfg then
    unwrap value := Http.find_query_param req (B"value")
      else inr (json_error 400 (B"missing value parameter")) in
    inl value
  else inr (not_allowed (if Config.simple_get cfg then B"POST, GET" else B"POST")).

Definition bad_qos : Http.HttpResponse := json_error 400 (B"invalid qos (expected 0, 1, or 2)").
Definition bad_retain : Http.HttpResponse :=
  json_error 400 (B"invalid retain (expected true/false, 1/0, yes/no, or on/off)").

(** What is published, once the placeholders are filled in. *)
Definition publish_event (req : Http.HttpRequest) (topic payload : bytes) : prog Http.HttpResponse :=
  unwrap qos := event_qos req else Ret bad_qos in
  unwrap retain := event_retain req else Ret bad_retain in
  let! outcome := Publish {| Mqtt.topic := topic; Mqtt.payload := payload; Mqtt.qos := qos; Mqtt.retain := retain |} in
  Ret (event_outcome_response topic (length payload) qos retain outcome).

Definition handle_event (req : Http.HttpRequest) : prog Http.HttpResponse :=
  let prefix := B"/event/" in
  ensure (length prefix <? length (Http.path req)) && starts_with prefix (Http.path req)
    else Ret (json_error 400 (B"missing topic")) in
  let topic := drop (length prefix) (Http.path req) in
  ensure negb (bool_decide (topic = [])) else Ret (json_error 400 (B"missing topic")) in
  match event_payload req with
  | inr refused => Ret refused
  | inl payload =>
      if Config.event_placeholders_enabled cfg then
        let! w := World in publish_event req topic (Placeholders.substitute_event_placeholders w payload)
      else publish_event req topic payload
  end.

Definition state_message (name payload : bytes) : Mqtt.msg :=
  {| Mqtt.topic := name; Mqtt.payload := payload; Mqtt.qos := Config.mqtt_qos cfg; Mqtt.retain := true |}.

(** A failure is logged, and the request goes on. *)
Definition log_unless {R : Type} (ok : bool) (level : Log.LogLevel) (msg : bytes) (p : prog R) : prog R :=
  if ok then p else let! _ := LogLine level msg in p.

Definition persist_error (err : bytes) : bytes := B"failed to persist state file: " ++ err.

(** The tail common to both state handlers: persist, mirror, answer. *)
Definition persist {R : Type} (p : prog R) : prog R :=
  if Config.state_enabled cfg then
    let! r := StateSave (Config.state_file cfg) in log_unless r.1 Log.Error (persist_error r.2) p
  else p.

Definition is_ok (outcome : Mqtt.PublishOutcome) : bool :=
  match outcome with Mqtt.Ok => true | _ => false end.

Definition write_warning (name : bytes) : bytes :=
  B"metric '" ++ name ++ B"' stored locally but MQTT publish did not succeed".

Definition delete_warning (name : bytes) : bytes :=
  B"metric '" ++ name ++ B"' deleted locally but clearing MQTT retained state did not succeed".

Definition metric_written (name : bytes) (value : double) (published : bool) : Http.HttpResponse :=
  json_ok (B"{" ++ Metrics.jkey (B"name") ++ [c_quote] ++ json_escape name ++ [c_quote]
           ++ B"," ++ Metrics.jkey (B"value") ++ format_double value
           ++ B"," ++ Metrics.jkey (B"mqtt_published") ++ Metrics.bool_text published ++ B"}").

Definition metric_deleted (name : bytes) (cleared : bool) : Http.HttpResponse :=
  json_ok (B"{" ++ Metrics.jkey (B"name") ++ [c_quote] ++ json_escape name ++ [c_quote]
           ++ B"," ++ Metrics.jkey (B"deleted") ++ B"true"
           ++ B"," ++ Metrics.jkey (B"mqtt_cleared") ++ Metrics.bool_text cleared ++ B"}").

Definition handle_metric_write (name : bytes) (value : double) : prog Http.HttpResponse :=
  let! _ := StateSet name value in
  persist (
    let! outcome := Publish (state_message name (format_double value)) in
    log_unless (is_ok outcome) Log.Warn (write_warning name)
      (Ret (metric_written name value (is_ok outcome)))).

Definition handle_metric_delete (name : bytes) : prog Http.HttpResponse :=
  let! existed := StateRemove name in
  if negb existed then Ret (json_error 404 (B"not found"))
  else persist (
    let! outcome := Publish (state_message name []) in
    log_unless (is_ok outcome) Log.Warn (delete_warning name)
      (Ret (metric_deleted name (is_ok outcome)))).

Definition bad_metric_value : Http.HttpResponse := json_error 400 (B"invalid metric value").

Definition metric_value (req : Http.HttpRequest) : option double :=
  if content_type_is_json (Http.content_type req)
  then JsonUtil.extract_json_number_field (Http.body req) (B"value") else parse_double (Http.body req).

Definition handle_metric (req : Http.HttpRequest) : prog Http.HttpResponse :=
  let prefix := B"/metric/" in
  ensure (length prefix <? length (Http.path req)) && starts_with prefix (Http.path req)
    else Ret (json_error 400 (B"missing metric name")) in
  let name := drop (length prefix) (Http.path req) in
  ensure negb (bool_decide (name = [])) else Ret (json_error 400 (B"missing metric name")) in
  if decide (Http.method req = B"DELETE") then handle_metric_delete name
  else if decide (Http.method req = B"PUT") then
    unwrap value := metric_value req else Ret bad_metric_value in
    handle_metric_write name value
  else if bool_decide (Http.method req = B"GET") && Config.simple_get cfg then
    unwrap value_text := Http.find_query_param req (B"value")
      else Ret (json_error 400 (B"missing value parameter")) in
    unwrap value := parse_double value_text else Ret bad_metric_value in
    handle_metric_write name value
  else Ret (not_allowed (if Config.simple_get cfg then B"PUT, DELETE, GET" else B"PUT, DELETE")).

(** ** Read-only routes *)

Definition normalized_state (snapshot : list (bytes * double)) : Metrics.NormalizedMetrics :=
  Metrics.normalize_all (Config.prometheus_mqtt_state_prefix cfg) snapshot (Config.state_topic_prefix cfg).

(** The service metrics, with the reads they are made of. *)
Definition service_metrics (nm : Metrics.NormalizedMetrics) : prog bytes :=
  let! up := Uptime in let! connected := Connected in let! active := ConnectionsActive in
  let! depth := QueueDepth in let! entries := StateSize in let! hooks := WebhookDepth in
  let! m := Counters in
  Ret (Metrics.render_prometheus_service_metrics (Config.prometheus_prefix cfg) m up connected active
         (Config.mqtt_pool_size cfg) depth entries (Z.of_nat (length (Metrics.nm_collisions nm))) hooks).

Definition prometheus (text : bytes) : Http.HttpResponse :=
  {| Http.status := 200; Http.format := Http.Prometheus; Http.headers := []; Http.resp_body := text |}.

Definition handle_metrics (service : bool) : prog Http.HttpResponse :=
  if Config.prometheus_http cfg then
    let! snapshot := StateSnapshot in
    let nm := normalized_state snapshot in
    if service then do text := service_metrics nm in Ret (prometheus text)
    else Ret (prometheus (Metrics.render_prometheus_state_metrics (Metrics.nm_metrics nm)))
  else Ret (json_error 404 (B"not found")).

Definition health_text (connected : bool) (active : Z) : Http.HttpResponse :=
  {| Http.status := 200; Http.format := Http.Text; Http.headers := [];
     Http.resp_body := B"status=ok" ++ Metrics.nl
       ++ B"mqtt_connected=" ++ Metrics.bool_text connected ++ Metrics.nl
       ++ B"mqtt_connections_active=" ++ to_string active ++ B"/"
       ++ to_string (Config.mqtt_pool_size cfg) ++ Metrics.nl |}.

Definition handle_health (req : Http.HttpRequest) : prog Http.HttpResponse :=
  if Http.accept_wants_json (Http.accept req) then
    let! up := Uptime in let! connected := Connected in let! active := ConnectionsActive in
    let! entries := StateSize in
    Ret (json_ok (Metrics.render_health_json version up connected active (Config.mqtt_pool_size cfg) entries))
  else
    let! connected := Connected in let! active := ConnectionsActive in
    Ret (health_text connected active).

(** ** Routing *)

Definition is_event (path : bytes) : bool := bool_decide (path = B"/event") || starts_with (B"/event/") path.
Definition is_metric (path : bytes) : bool := bool_decide (path = B"/metric") || starts_with (B"/metric/") path.
Definition needs_auth (path : bytes) : bool :=
  is_event path || is_metric path || bool_decide (path = B"/metrics-state").

Definition get_or_head (req : Http.HttpRequest) : bool :=
  bool_decide (Http.method req = B"GET" \/ Http.method req = B"HEAD").

Definition unauthorized : Http.HttpResponse := json_error 401 (B"unauthorized").

Definition route (req : Http.HttpRequest) : prog Http.HttpResponse :=
  let path := Http.path req in
  if needs_auth path && negb (is_authorized req) then Ret unauthorized
  else if is_event path then handle_event req
  else if is_metric path then handle_metric req
  else if decide (path = B"/metrics" \/ path = B"/metrics-state") then
    ensure get_or_head req else Ret (not_allowed (B"GET, HEAD")) in
    handle_metrics (bool_decide (path = B"/metrics"))
  else if decide (path = B"/health") then
    ensure get_or_head req else Ret (not_allowed (B"GET, HEAD")) in
    handle_health req
  else Ret (json_error 404 (B"not found")).

(** ** One connection *)

Definition kTimeoutSeconds : Z := 10.

(** Count, write, close. *)
Definition answer (resp : Http.HttpResponse) (include_body : bool) : prog unit :=
  let! _ := RecordResponse (Http.status resp) in
  let! _ := WriteAll (Http.build_http_response resp include_body) in
  let! _ := Close in Ret tt.

Definition hang_up : prog unit := let! _ := Close in Ret tt.

Definition is_head (req : Http.HttpRequest) : bool := bool_decide (Http.method req = B"HEAD").

Definition respond (req : Http.HttpRequest) (resp : Http.HttpResponse) : prog unit :=
  answer resp (negb (is_head req)).

(** The body: what came with the head, cut or completed. *)
Definition with_body (req : Http.HttpRequest) (leftover_body : bytes) (cont : Http.HttpRequest -> prog unit) : prog unit :=
  if (0 <? Http.content_length req)%Z then
    let need := Z.to_nat (Http.content_length req) in
    let body := take need leftover_body in
    if length body <? need then
      let! br := ReadBody (need - length body) kTimeoutSeconds body in
      match br.1 with
      | Http.Ok => cont (Http.set_body br.2 req)
      | _ => hang_up
      end
    else cont (Http.set_body body req)
  else cont req.

Definition handle_request (req : Http.HttpRequest) (leftover_body : bytes) : prog unit :=
  let! _ := RecordRequest (Http.path req) in
  if Http.chunked req then respond req (json_error 411 (B"chunked request bodies are not supported"))
  else if (0 <? Http.content_length req)%Z && (Config.max_body_bytes cfg <? Http.content_length req)%Z
  then respond req (json_error 413 (B"request body too large"))
  else with_body req leftover_body (fun req => do resp := route req in respond req resp).

Definition reject (message : bytes) : prog unit :=
  let! _ := RecordRequest [] in answer (json_error 400 message) true.

Definition handle_connection : prog unit :=
  let! rr := ReadHead (Z.to_nat (Config.max_request_bytes cfg)) kTimeoutSeconds in
  match rr.1 with
  | Http.Ok =>
      match Http.parse_http_request rr.2 with
      | None => let! _ := LogLine Log.Warn (B"rejected malformed HTTP request") in reject (B"malformed HTTP request")
      | Some (req, leftover_body) => handle_request req leftover_body
      end
  | Http.TooLarge => reject (B"request headers too large")
  | _ => hang_up
  end.

(** ** Lemmas: programs *)

Lemma run_bind {R T : Type} (p : prog R) (f : R -> prog T) k s :
  run (bind p f) k s = ('(r, k', s') ← run p k s; run (f r) k' s').
Proof.
  revert k s. induction p as [r|A o rest IH]; intros k s; cbn [bind run]; [done|].
  destruct (exec o k s) as [[[a k'] s']|]; [|done]. cbn [mbind option_bind]. apply IH.
Qed.

(** Running alone is one schedule of the interleaved semantics. *)
Lemma run_steps {R : Type} (p : prog R) k s r k' s' :
  run p k s = Some (r, k', s') ->
  rtc (step_by many_exec (fun _ => True)) ([(p, k)], s) ([(Ret r, k')], s').
Proof.
  revert k s. induction p as [r0|A o rest IH]; intros k s H1; cbn [run] in H1.
  - injection H1 as -> -> ->. apply rtc_refl.
  - destruct (exec o k s) as [[[a k1] s1]|] eqn:E; [|done]. cbn [mbind option_bind] in H1.
    eapply rtc_l; [|by apply IH]. exists 0. split; [done|]. unfold many_exec. cbn [fst snd lookup].
    cbn. by rewrite E.
Qed.

Definition same_data (s s' : server) : Prop :=
  values s' = values s /\ file s' = file s /\ pub_accepted (pub s') = pub_accepted (pub s).

Lemma same_data_refl s : same_data s s.
Proof. done. Qed.

Lemma same_data_trans s1 s2 s3 : same_data s1 s2 -> same_data s2 s3 -> same_data s1 s3.
Proof. intros (H1 & H2 & H3) (H4 & H5 & H6). unfold same_data. by rewrite H4, H5, H6. Qed.

Context `{!PublisherSpec M}.

Lemma exec_reads {A : Type} (o : op A) k s a k' s' :
  reads o = true -> exec o k s = Some (a, k', s') -> same_data s s'.
Proof.
  intros Ho H1. destruct o; try done; cbn [exec] in H1; io_cases H1; injection H1; intros; subst; try done;
    unfold same_data; cbn; by rewrite pub_count_accepted.
Qed.

Lemma step_quiet {R : Type} (p : prog R) k s p' k' s' :
  quiet p -> step_prog p k s = Some (p', k', s') -> quiet p' /\ same_data s s'.
Proof.
  destruct p as [r|A o rest]; cbn [all_ops step_prog]; [done|]. intros [Ho Hr] H1.
  destruct (exec o k s) as [[[a k1] s1]|] eqn:E; [|done]. cbn [mbind option_bind] in H1.
  injection H1 as <- <- <-. split; [apply Hr|by eapply exec_reads].
Qed.

(** ** Lemmas: authorization *)

Definition authorized (req : Http.HttpRequest) : Prop :=
  Config.http_auth_tokens cfg = [] \/ Http.auth_token req ∈ Config.http_auth_tokens cfg.

Lemma is_authorized_spec req : is_authorized req = true <-> authorized req.
Proof.
  unfold is_authorized, authorized. destruct (Config.http_auth_tokens cfg) as [|t ts]; [by split; auto|].
  rewrite existsb_exists. setoid_rewrite constant_time_equals_spec. split.
  - intros (x & Hx & ->). right. by apply list_elem_of_In.
  - intros [|Hin]; [done|]. exists (Http.auth_token req). split; [by apply list_elem_of_In|done].
Qed.

(** The requests that may change something. *)
Definition may_write (req : Http.HttpRequest) : Prop :=
  authorized req /\ is_event (Http.path req) || is_metric (Http.path req) = true.

Lemma route_looks req : ~ may_write req -> all_ops (@looks) (route req).
Proof.
  intros Hw. unfold may_write in Hw. rewrite <- is_authorized_spec in Hw. unfold route, needs_auth.
  destruct (is_event (Http.path req)), (is_metric (Http.path req)), (is_authorized req); cbn [orb andb negb] in *;
    try (destruct Hw; by split); try done; destruct (bool_decide (Http.path req = _)); try done;
    repeat case_match; try done; unfold handle_metrics, handle_health; repeat case_match; try done;
    by repeat split.
Qed.

Lemma looks_quiet {R : Type} (p : prog R) : all_ops (@looks) p -> quiet p.
Proof. apply all_ops_weaken. by intros A o [Ho _]%andb_true_iff. Qed.

Lemma looks_stateless {R : Type} (p : prog R) : all_ops (@looks) p -> stateless p.
Proof. apply all_ops_weaken. by intros A o [_ Ho]%andb_true_iff. Qed.

Lemma route_quiet req : ~ may_write req -> quiet (route req).
Proof. intros Hw. by apply looks_quiet, route_looks. Qed.

(** ** Lemmas: handlers *)

Lemma add_logged_nil s : add_logged [] s = s.
Proof. destruct s. unfold add_logged. cbn. by rewrite app_nil_r. Qed.

Lemma run_log_unless {R : Type} ok level msg (p : prog R) k s :
  run (log_unless ok level msg p) k s = run p k (add_logged (if ok then [] else [(level, msg)]) s).
Proof. destruct ok; cbn; [by rewrite add_logged_nil|done]. Qed.

Lemma returns_log_unless {R : Type} (P : R -> Prop) ok level msg (p : prog R) :
  returns P p -> returns P (log_unless ok level msg p).
Proof. intros Hp. destruct ok; [exact Hp|by intros u]. Qed.

Lemma returns_persist {R : Type} (P : R -> Prop) (p : prog R) : returns P p -> returns P (persist p).
Proof.
  intros Hp. unfold persist. destruct (Config.state_enabled cfg); [|done]. intros r. by apply returns_log_unless.
Qed.

Lemma run_returns {R : Type} (P : R -> Prop) (p : prog R) k s r k' s' :
  returns P p -> run p k s = Some (r, k', s') -> P r.
Proof.
  revert k s. induction p as [r0|A o rest IH]; intros k s; cbn [returns run]; [by intros Hp [= <- _ _]|].
  intros Hp H1. destruct (exec o k s) as [[[a k1] s1]|]; [|done]. cbn [mbind option_bind] in H1. by eapply IH.
Qed.

Lemma publish_spec m s o p :
  pub_ok (pub s) -> pub_call m (pub s) = (o, p) ->
  pub_ok p /\
  ((o = Mqtt.QueueFull /\ pub_accepted p = pub_accepted (pub s)) \/
   (o <> Mqtt.QueueFull /\ exists later, pub_accepted p = pub_accepted (pub s) ++ m :: later)) /\
  (o = Mqtt.Ok -> pub_delivered m (length (pub_accepted (pub s))) p) /\
  (o = Mqtt.Failed -> length (pub_accepted (pub s)) ∉ pub_handed p).
Proof.
  intros Hok H1. destruct (pub_call_spec _ _ _ _ Hok H1) as (H2 & H3 & H4 & H5 & _).
  split_and!; [done| |done|done]. destruct o; [right|left|right|right]; done.
Qed.

Lemma event_path req :
  (length (B"/event/") <? length (Http.path req)) && starts_with (B"/event/") (Http.path req) = true ->
  Http.path req = B"/event/" ++ drop (length (B"/event/")) (Http.path req) /\
  drop (length (B"/event/")) (Http.path req) <> [].
Proof.
  intros [Hl Hs]%andb_true_iff. apply starts_with_spec in Hs as [t Ht]. rewrite Ht.
  split; [done|]. intros E. apply Nat.ltb_lt in Hl. rewrite Ht, length_app in Hl.
  change (drop (length (B"/event/")) (B"/event/" ++ t)) with t in E. subst t. simpl in Hl. lia.
Qed.

(** *** JSON bodies *)

(** The body is one flat object with these members. *)
Definition json_body (resp : Http.HttpResponse) (pairs : list (bytes * bytes)) : Prop :=
  JsonUtil.tokenize_flat_object (Http.resp_body resp) = Some pairs.

Lemma json_body_text resp pairs :
  Http.resp_body resp = JsonUtil.object_text pairs ->
  Forall (fun kv : bytes * bytes => JsonUtil.value_text kv.2) pairs -> json_body resp pairs.
Proof.
  intros E Hv. unfold json_body. rewrite E, <- (app_nil_r (JsonUtil.object_text _)).
  by apply JsonUtil.tokenize_object.
Qed.

Lemma value_double v : JsonUtil.value_text (format_double v).
Proof. apply JsonUtil.value_token, StateStore.format_double_token. Qed.

Lemma value_bool_text b : JsonUtil.value_text (Metrics.bool_text b).
Proof. apply JsonUtil.value_bool. Qed.

Ltac json_tac :=
  apply json_body_text;
  [ unfold JsonUtil.object_text, JsonUtil.commas, JsonUtil.pair_text, JsonUtil.quoted, Metrics.jkey, B;
    cbn -[format_double to_string Metrics.bool_text];
    repeat (rewrite <- app_assoc; cbn -[format_double to_string Metrics.bool_text]); reflexivity
  | repeat (apply list.Forall_cons_2; cbn [snd];
      [first [ apply JsonUtil.value_quoted | apply JsonUtil.value_to_string | apply value_double
             | apply value_bool_text | by apply JsonUtil.value_token ]|]); apply list.Forall_nil; exact I ].

Lemma json_error_body st msg : json_body (json_error st msg) [(B"error", JsonUtil.quoted msg)].
Proof. unfold json_error, Http.make_error_response. json_tac. Qed.

Lemma not_allowed_body allow : json_body (not_allowed allow) [(B"error", JsonUtil.quoted (B"method not allowed"))].
Proof. exact (json_error_body 405 (B"method not allowed")). Qed.

Definition event_fields (topic : bytes) (n : nat) (qos : Z) (retain : bool) : list (bytes * bytes) :=
  [(B"topic", JsonUtil.quoted topic); (B"payload_bytes", to_string (Z.of_nat n)); (B"qos", to_string qos);
   (B"retain", Metrics.bool_text retain); (B"published", B"true")].

Lemma event_ok_body topic n qos retain :
  json_body (event_outcome_response topic n qos retain Mqtt.Ok) (event_fields topic n qos retain).
Proof. unfold event_outcome_response, json_ok, event_fields. json_tac. Qed.

Lemma metric_written_body name v b :
  json_body (metric_written name v b)
    [(B"name", JsonUtil.quoted name); (B"value", format_double v); (B"mqtt_published", Metrics.bool_text b)].
Proof. unfold metric_written, json_ok. json_tac. Qed.

Lemma metric_deleted_body name b :
  json_body (metric_deleted name b)
    [(B"name", JsonUtil.quoted name); (B"deleted", B"true"); (B"mqtt_cleared", Metrics.bool_text b)].
Proof. unfold metric_deleted, json_ok. json_tac. Qed.

Lemma health_body up c a n entries :
  json_body (json_ok (Metrics.render_health_json version up c a n entries))
    [(B"status", JsonUtil.quoted (B"ok")); (B"version", JsonUtil.quoted version); (B"uptime_seconds", format_double up);
     (B"mqtt_connected", Metrics.bool_text c); (B"mqtt_connections_active", to_string a);
     (B"mqtt_pool_size", to_string n); (B"state_entries", to_string entries)].
Proof. unfold json_ok, Metrics.render_health_json. json_tac. Qed.

(** A JSON reply is an object; an error reply has exactly one member, [error]. *)
Definition good_reply (resp : Http.HttpResponse) : Prop :=
  Http.format resp = Http.Json ->
  exists pairs, json_body resp pairs /\
    (Http.status resp <> 200%Z -> exists msg, pairs = [(B"error", JsonUtil.quoted msg)]).

Lemma error_reply st msg : good_reply (json_error st msg).
Proof. intros _. eexists. split; [apply json_error_body|eauto]. Qed.

Lemma not_allowed_reply allow : good_reply (not_allowed allow).
Proof. intros _. eexists. split; [apply not_allowed_body|eauto]. Qed.

Lemma ok_reply resp pairs : json_body resp pairs -> Http.status resp = 200%Z -> good_reply resp.
Proof. intros H1 H2 _. by exists pairs. Qed.

Lemma outcome_reply topic n qos retain o : good_reply (event_outcome_response topic n qos retain o).
Proof. destruct o; [by eapply ok_reply; [apply event_ok_body|]|apply error_reply..]. Qed.

Lemma write_reply name v : returns good_reply (handle_metric_write name v).
Proof.
  intros []. apply returns_persist. intros o. apply returns_log_unless.
  by eapply ok_reply; [apply metric_written_body|].
Qed.

Lemma delete_reply name : returns good_reply (handle_metric_delete name).
Proof.
  intros []; [|apply error_reply]. apply returns_persist. intros o. apply returns_log_unless.
  by eapply ok_reply; [apply metric_deleted_body|].
Qed.

Lemma publish_event_reply req topic payload : returns good_reply (publish_event req topic payload).
Proof.
  unfold publish_event, bad_qos, bad_retain. repeat case_match; cbn [returns]; intros; apply error_reply || apply outcome_reply.
Qed.

Lemma handle_event_reply req : returns good_reply (handle_event req).
Proof.
  unfold handle_event, event_payload.
  repeat case_match; simplify_eq; cbn [returns]; intros;
    try apply error_reply; try apply not_allowed_reply; apply publish_event_reply.
Qed.

Lemma handle_metric_reply req : returns good_reply (handle_metric req).
Proof.
  unfold handle_metric, bad_metric_value. repeat case_match; cbn [returns];
    try apply error_reply; try apply not_allowed_reply; try apply write_reply; apply delete_reply.
Qed.

Lemma handle_metrics_reply service : returns good_reply (handle_metrics service).
Proof.
  unfold handle_metrics. destruct (Config.prometheus_http cfg); [|apply error_reply].
  destruct service; cbn [returns]; intros; [|done]. by apply returns_bind.
Qed.

Lemma handle_health_reply req : returns good_reply (handle_health req).
Proof.
  unfold handle_health. destruct (Http.accept_wants_json _); cbn [returns]; intros; [|done].
  by eapply ok_reply; [apply health_body|].
Qed.

Lemma route_reply req : returns good_reply (route req).
Proof.
  unfold route. destruct (_ && _); [apply error_reply|].
  destruct (is_event _); [apply handle_event_reply|]. destruct (is_metric _); [apply handle_metric_reply|].
  destruct (decide _); [destruct (get_or_head req); [apply handle_metrics_reply|apply not_allowed_reply]|].
  destruct (decide _); [destruct (get_or_head req); [apply handle_health_reply|apply not_allowed_reply]|].
  apply error_reply.
Qed.

(** *** Effects *)

(** What the reply to a publish of [m] promises. *)
Definition told (m : Mqtt.msg) (st : Z) (s s' : server) : Prop :=
  (exists later, pub_accepted (pub s') = pub_accepted (pub s) ++ m :: later) /\ st ∈ [200; 502; 504]%Z /\
  (st = 200%Z -> pub_delivered m (length (pub_accepted (pub s))) (pub s')) /\
  (st = 502%Z -> length (pub_accepted (pub s)) ∉ pub_handed (pub s')).

Definition event_args (req : Http.HttpRequest) (m : Mqtt.msg) : Prop :=
  match header_or_param (Http.qos_header req) req (B"qos") with
  | Some text => parse_int text = Some (Mqtt.qos m) /\ (0 <= Mqtt.qos m <= 2)%Z
  | None => Mqtt.qos m = Config.mqtt_qos cfg
  end /\
  match header_or_param (Http.retain_header req) req (B"retain") with
  | Some text => parse_bool text = Some (Mqtt.retain m)
  | None => Mqtt.retain m = false
  end.

Lemma event_args_intro req topic payload qos retain :
  event_qos req = Some qos -> event_retain req = Some retain ->
  event_args req {| Mqtt.topic := topic; Mqtt.payload := payload; Mqtt.qos := qos; Mqtt.retain := retain |}.
Proof.
  unfold event_qos, event_retain, event_args. cbn [Mqtt.qos Mqtt.retain]. intros Hq Hr. split.
  - clear Hr. destruct (header_or_param _ _ _) as [text|]; [|by injection Hq].
    destruct (parse_int text) as [v|]; [|done]. destruct (_ || _) eqn:E; [done|]. simplify_eq.
    apply orb_false_iff in E. split; [done|]. lia.
  - clear Hq. destruct (header_or_param _ _ _); [done|by injection Hr].
Qed.

Lemma publish_event_run req topic payload k s resp k' s' :
  pub_ok (pub s) -> run (publish_event req topic payload) k s = Some (resp, k', s') ->
  values s' = values s /\ file s' = file s /\
  ((pub_accepted (pub s') = pub_accepted (pub s) /\ Http.status resp ∈ [400; 405; 503]%Z) \/
   exists m, Mqtt.topic m = topic /\ Mqtt.payload m = payload /\ event_args req m /\ told m (Http.status resp) s s').
Proof.
  intros Hok. unfold publish_event. destruct (event_qos req) as [q|] eqn:Eq.
  2:{ intros [= <- <- <-]. split_and!; try done. left. split; [done|set_solver]. }
  destruct (event_retain req) as [rt|] eqn:Er.
  2:{ intros [= <- <- <-]. split_and!; try done. left. split; [done|set_solver]. }
  cbn [run exec]. set (m := Mqtt.Build_msg _ _ _ _). destruct (pub_call m (pub s)) as [o p] eqn:Ec.
  cbn [mbind option_bind run]. intros [= <- <- <-]. split_and!; try done.
  destruct (publish_spec _ _ _ _ Hok Ec) as (_ & [[-> Ha]|[Ho Ha]] & Hack & Hfail).
  - left. split; [done|set_solver].
  - right. exists m. split_and!; try done; [by apply event_args_intro|].
    split_and!; [done|destruct o; set_solver|..]; destruct o; try done; intros _; auto.
Qed.

(** *** The current state *)

(** What a request asks of the store. *)
Inductive change := Put (name : bytes) (value : double) | Del (name : bytes).

Definition change_of (req : Http.HttpRequest) : option change :=
  if negb (is_authorized req) then None
  else
    match Http.path req with
    | p =>
        if starts_with (B"/metric/") p && bool_decide (drop 8 p <> []) then
          let name := drop 8 p in
          if decide (Http.method req = B"DELETE") then Some (Del name)
          else if decide (Http.method req = B"PUT") then Put name <$> metric_value req
          else if bool_decide (Http.method req = B"GET") && Config.simple_get cfg
          then Put name <$> (Http.find_query_param req (B"value") ≫= parse_double)
          else None
        else None
    end.

Definition apply_change (c : change) (st : StateStore.store) : StateStore.store :=
  match c with Put name v => <[name := v]> st | Del name => delete name st end.

(** The retained message that mirrors the change; an empty payload clears it. *)
Definition mirror (c : change) : Mqtt.msg :=
  match c with
  | Put name v => state_message name (format_double v)
  | Del name => state_message name []
  end.

(** The file after a [save] of [st]. *)
Definition saved (s : server) (st : StateStore.store) : option bytes :=
  match hd StateStore.SaveOk (saves s) with
  | StateStore.SaveOk => Some (StateStore.save_text st)
  | _ => file s
  end.

Definition file_after (s : server) (st : StateStore.store) : option bytes :=
  if Config.state_enabled cfg then saved s st else file s.

(** The outcome of the mirroring publish, in the reply. *)
Definition mirrored (m : Mqtt.msg) (published : bool) (s s' : server) : Prop :=
  (pub_accepted (pub s') = pub_accepted (pub s) \/
   exists later, pub_accepted (pub s') = pub_accepted (pub s) ++ m :: later) /\
  (published = true ->
   (exists later, pub_accepted (pub s') = pub_accepted (pub s) ++ m :: later) /\
   pub_delivered m (length (pub_accepted (pub s))) (pub s')).

Definition change_reply (c : change) (published : bool) : Http.HttpResponse :=
  match c with Put name v => metric_written name v published | Del name => metric_deleted name published end.

(** What the save adds to the log. *)
Definition save_log (s : server) : list (Log.LogLevel * bytes) :=
  if Config.state_enabled cfg then
    match hd StateStore.SaveOk (saves s) with
    | StateStore.SaveOk => []
    | e => [(Log.Error, persist_error (StateStore.save_error (Config.state_file cfg) e))]
    end
  else [].

(** What the whole change adds: nothing unless something failed. *)
Definition change_log (c : change) (published : bool) (s : server) : list (Log.LogLevel * bytes) :=
  save_log s ++
  if published then [] else [(Log.Warn, match c with Put name _ => write_warning name | Del name => delete_warning name end)].

Lemma run_persist {R : Type} (p : prog R) k s :
  exists s1, run (persist p) k s = run p k s1 /\ values s1 = values s /\ file s1 = file_after s (values s) /\
    pub s1 = pub s /\ offered s1 = offered s /\ logged s1 = logged s ++ save_log s /\
    saves s1 = if Config.state_enabled cfg then tl (saves s) else saves s.
Proof.
  unfold persist, file_after, saved, save_log. destruct (Config.state_enabled cfg).
  2:{ exists s. by rewrite app_nil_r. }
  cbn [run exec]. destruct (hd _ _); cbn [StateStore.save mbind option_bind fst snd]; rewrite run_log_unless;
    (eexists; split; [reflexivity|by split_and!]).
Qed.

Lemma run_mirror m warning (f : bool -> Http.HttpResponse) k s resp k' s' :
  pub_ok (pub s) ->
  run (persist (let! outcome := Publish m in log_unless (is_ok outcome) Log.Warn warning (Ret (f (is_ok outcome))))) k s
  = Some (resp, k', s') ->
  values s' = values s /\ file s' = file_after s (values s) /\
  exists published, resp = f published /\ mirrored m published s s' /\
    logged s' = logged s ++ save_log s ++ if published then [] else [(Log.Warn, warning)].
Proof.
  intros Hok Hrun. destruct (run_persist (let! outcome := Publish m in
    log_unless (is_ok outcome) Log.Warn warning (Ret (f (is_ok outcome)))) k s) as (s1 & E & Hv & Hf & Hp & _ & Hl & _).
  rewrite E in Hrun. cbn [run exec] in Hrun. rewrite Hp in Hrun.
  destruct (pub_call m (pub s)) as [o p] eqn:Ec. cbn [mbind option_bind] in Hrun.
  rewrite run_log_unless in Hrun. injection Hrun as <- <- <-. split_and!; [done|done|]. exists (is_ok o). split; [done|].
  split; [|cbn; by rewrite Hl, <- app_assoc].
  destruct (publish_spec _ _ _ _ Hok Ec) as (_ & [[-> Ha]|[Ho Ha]] & Hack & _); (split; [auto|]); [done|].
  intros Hi. split; [done|]. apply Hack. by destruct o.
Qed.

Lemma drop_prefix p : starts_with (B"/metric/") p = true -> p = B"/metric/" ++ drop 8 p.
Proof. intros Hs. apply starts_with_spec in Hs as [t ->]. done. Qed.

Lemma metric_guard p :
  (length (B"/metric/") <? length p) && starts_with (B"/metric/") p = starts_with (B"/metric/") p && bool_decide (drop 8 p <> []).
Proof.
  destruct (starts_with (B"/metric/") p) eqn:E; [|by rewrite andb_false_r]. rewrite andb_true_r. cbn [andb].
  apply starts_with_spec in E as [t ->]. rewrite length_app. change (drop 8 (B"/metric/" ++ t)) with t.
  destruct t; [done|]. rewrite bool_decide_true by done. apply Nat.ltb_lt. simpl. lia.
Qed.

Definition perform (c : change) : prog Http.HttpResponse :=
  match c with Put name v => handle_metric_write name v | Del name => handle_metric_delete name end.

Lemma handle_metric_change req :
  is_authorized req = true ->
  match change_of req with
  | Some c => handle_metric req = perform c
  | None => exists r, handle_metric req = Ret r
  end.
Proof.
  intros Ha. unfold change_of, handle_metric. rewrite Ha, metric_guard. cbn [negb].
  destruct (starts_with (B"/metric/") (Http.path req)) eqn:Es; cbn [andb]; [|by eexists].
  case_bool_decide as Hd; [|by eexists].
  change (length (B"/metric/")) with 8. rewrite (bool_decide_false (drop 8 _ = [])) by done. cbn [negb].
  case_decide; [done|]. case_decide.
  { destruct (metric_value req); [done|by eexists]. }
  destruct (_ && _); [|by eexists].
  destruct (Http.find_query_param req (B"value")) as [t|]; cbn [mbind option_bind]; [|by eexists].
  destruct (parse_double t); [done|by eexists].
Qed.

Lemma change_is_metric req c :
  change_of req = Some c -> is_authorized req = true /\ is_event (Http.path req) = false /\ is_metric (Http.path req) = true.
Proof.
  unfold change_of. destruct (is_authorized req); [|done]. cbn [negb].
  destruct (starts_with (B"/metric/") (Http.path req)) eqn:Es; [|done]. intros _.
  apply starts_with_spec in Es as [t ->]. split_and!; [done| |].
  - unfold is_event. rewrite bool_decide_false by done. done.
  - unfold is_metric. by rewrite starts_with_app, orb_true_r.
Qed.

Lemma run_stateless {R : Type} (p : prog R) k s r k' s' :
  stateless p -> run p k s = Some (r, k', s') -> values s' = values s /\ file s' = file s /\ logged s' = logged s.
Proof.
  revert k s. induction p as [r0|A o rest IH]; intros k s; cbn [all_ops run]; [by intros _ [= _ _ <-]|].
  intros [Ho Hp] H1. destruct (exec o k s) as [[[a k1] s1]|] eqn:E; [|done]. cbn [mbind option_bind] in H1.
  apply IH in H1 as (-> & -> & ->); [|done]. clear IH. destruct o; try done; cbn [exec] in E; io_cases E;
    try (destruct (pub_call _ _)); by injection E as _ _ <-.
Qed.

Lemma handle_event_stateless req : stateless (handle_event req).
Proof.
  unfold handle_event. destruct (_ && _); [|done]. destruct (negb _); [|done].
  assert (Hp : forall t pl, stateless (publish_event req t pl)).
  { intros t pl. unfold publish_event. by repeat case_match. }
  destruct (event_payload req); [|done]. by destruct (Config.event_placeholders_enabled cfg).
Qed.

Lemma run_change_none req k s resp k' s' :
  change_of req = None -> run (route req) k s = Some (resp, k', s') ->
  values s' = values s /\ file s' = file s /\ logged s' = logged s.
Proof.
  intros Hc Hrun. destruct (is_authorized req) eqn:Ea.
  2:{ apply (run_stateless (route req) k s resp k'); [|done]. apply looks_stateless, route_looks.
      intros [Hw _]. apply is_authorized_spec in Hw. congruence. }
  destruct (is_event (Http.path req)) eqn:Ee; [|destruct (is_metric (Http.path req)) eqn:Em].
  - unfold route in Hrun. rewrite Ea, Ee, andb_false_r in Hrun.
    apply (run_stateless _ _ _ _ _ _ (handle_event_stateless req) Hrun).
  - pose proof (handle_metric_change req Ea) as Hm. rewrite Hc in Hm. destruct Hm as [r Hm].
    unfold route in Hrun. rewrite Ea, Ee, Em, andb_false_r, Hm in Hrun. by injection Hrun as _ _ <-.
  - apply (run_stateless (route req) k s resp k'); [|done]. apply looks_stateless, route_looks.
    unfold may_write. rewrite Ee, Em. by intros [_ Hw].
Qed.

Lemma run_perform c k s resp k' s' :
  pub_ok (pub s) -> run (perform c) k s = Some (resp, k', s') ->
  values s' = apply_change c (values s) /\
  if match c with Put _ _ => true | Del name => bool_decide (is_Some (values s !! name)) end
  then file s' = file_after s (values s') /\
       exists published, resp = change_reply c published /\ mirrored (mirror c) published s s' /\
         logged s' = logged s ++ change_log c published s
  else resp = json_error 404 (B"not found") /\ file s' = file s /\ pub s' = pub s /\ logged s' = logged s.
Proof.
  intros Hok. destruct c as [name v|name]; cbn [perform].
  - unfold handle_metric_write. cbn [run exec mbind option_bind]. intros Hrun.
    destruct (run_mirror (state_message name (format_double v)) (write_warning name) (metric_written name v)
                k (set_values (StateStore.set (values s) name v) s) resp k' s' Hok Hrun) as (H1 & H2 & H3).
    rewrite H1. by split_and!.
  - unfold handle_metric_delete. cbn [run exec StateStore.remove mbind option_bind]. intros Hrun.
    case_bool_decide as Hex; cbn [negb] in Hrun.
    + destruct (run_mirror (state_message name []) (delete_warning name) (metric_deleted name)
                  k (set_values (delete name (values s)) s) resp k' s' Hok Hrun) as (H1 & H2 & H3).
      rewrite H1. by split_and!.
    + injection Hrun as <- _ <-. by split_and!.
Qed.

(** A metric name that forges a line: the end of the warning's own line, the line, and the
    start of another warning. *)
Definition forging_name (now t : Z) (level : Log.LogLevel) (msg : bytes) : bytes :=
  Log.break now t level Log.Warn msg (B"metric '") (B"x") (B"y") (B"' stored locally but MQTT publish did not succeed").

Lemma forging_name_spec now t level msg :
  c_nul ∉ msg ->
  c_nul ∉ forging_name now t level msg /\ forging_name now t level msg <> [] /\
  Log.line now Log.Warn (write_warning (forging_name now t level msg))
  = Log.line now Log.Warn (write_warning (B"x")) ++ Log.line t level msg ++ Log.line now Log.Warn (write_warning (B"y")).
Proof.
  intros Hm. unfold forging_name.
  assert (Hc : c_nul ∉ B"metric '" ++ B"x" ++ B"y" ++ B"' stored locally but MQTT publish did not succeed" ++ msg)
    by (rewrite !not_elem_of_app; split_and!; try done; clear; not_in).
  split; [by apply Log.break_no_nul|]. split; [done|]. by apply Log.line_break.
Qed.

(** ** Properties *)

(** C40: every JSON reply parses.  Whatever the request, the store and the broker
    do, a reply marked as JSON is one flat object that this program's own
    tokenizer reads; a reply that is not 200 has the single member [error]. *)
Theorem json_replies_parse (req : Http.HttpRequest) (k k' : sock) (s s' : server) (resp : Http.HttpResponse)
    (Hrun : run (route req) k s = Some (resp, k', s')) (Hj : Http.format resp = Http.Json) :
  exists pairs,
    JsonUtil.tokenize_flat_object (Http.resp_body resp) = Some pairs /\
    (Http.status resp <> 200%Z -> exists msg, pairs = [(B"error", JsonUtil.quoted msg)]).
Proof. apply (run_returns good_reply _ _ _ _ _ _ (route_reply req)) in Hrun. by apply Hrun. Qed.

(** C9: an event reply tells the truth.  Handling an event leaves the store and
    the state file alone.  Either the reply is 400, 405 or 503 and nothing was
    queued for the broker; or exactly one message was queued, with the topic of
    the path, the payload sent (placeholders filled in when configured), the QoS
    and retain flag of the header, else of the query, else the default, and the
    reply is 200, 502 or 504: 200 only if the MQTT library took that very message for
    sending and, when its QoS is 1 or 2, the broker acknowledged it (at QoS 0 there is
    nothing to acknowledge), 502 only if it was never taken. *)
Theorem event_truthful (req : Http.HttpRequest) (k k' : sock) (s s' : server) (resp : Http.HttpResponse)
    (Hok : pub_ok (pub s)) (Hrun : run (handle_event req) k s = Some (resp, k', s')) :
  values s' = values s /\ file s' = file s /\
  ((pub_accepted (pub s') = pub_accepted (pub s) /\ Http.status resp ∈ [400; 405; 503]%Z) \/
   exists m later sent,
     pub_accepted (pub s') = pub_accepted (pub s) ++ m :: later /\
     Http.path req = B"/event/" ++ Mqtt.topic m /\ Mqtt.topic m <> [] /\
     event_payload req = inl sent /\
     Mqtt.payload m = (if Config.event_placeholders_enabled cfg
                       then Placeholders.substitute_event_placeholders (world s) sent else sent) /\
     match header_or_param (Http.qos_header req) req (B"qos") with
     | Some text => parse_int text = Some (Mqtt.qos m) /\ (0 <= Mqtt.qos m <= 2)%Z
     | None => Mqtt.qos m = Config.mqtt_qos cfg
     end /\
     match header_or_param (Http.retain_header req) req (B"retain") with
     | Some text => parse_bool text = Some (Mqtt.retain m)
     | None => Mqtt.retain m = false
     end /\
     Http.status resp ∈ [200; 502; 504]%Z /\
     (Http.status resp = 200%Z ->
      length (pub_accepted (pub s)) ∈ pub_handed (pub s') /\
      (Mqtt.qos m <> 0%Z -> length (pub_accepted (pub s)) ∈ pub_acked (pub s'))) /\
     (Http.status resp = 502%Z -> length (pub_accepted (pub s)) ∉ pub_handed (pub s'))).
Proof.
  unfold handle_event in Hrun. destruct (_ && _) eqn:Eg.
  2:{ injection Hrun as <- <- <-. split_and!; try done. left. split; [done|set_solver]. }
  apply event_path in Eg as [Hp Hne]. rewrite bool_decide_false in Hrun by done. cbn [negb] in Hrun.
  destruct (event_payload req) as [sent|refused] eqn:Ep.
  2:{ injection Hrun as <- <- <-. split_and!; try done. left. split; [done|].
      unfold event_payload in Ep. repeat case_match; simplify_eq; set_solver. }
  assert (Hpe : run (publish_event req (drop (length (B"/event/")) (Http.path req))
      (if Config.event_placeholders_enabled cfg
       then Placeholders.substitute_event_placeholders (world s) sent else sent)) k s = Some (resp, k', s'))
    by (by destruct (Config.event_placeholders_enabled cfg)).
  apply publish_event_run in Hpe as (H1 & H2 & [H3|(m & Ht & Hl & [Hq Hr] & [later Ha] & Hst & Hack & Hfail)]); [| |done];
    (split_and!; [done|done|]); [by left|]. right. exists m, later, sent. rewrite Ht. by split_and!.
Qed.

(** C2: what a request does to the current state.  For any request, in any
    state: the stored map afterwards is the one before with the change the request
    asks for (a value for one name, or one name removed; nothing unless the
    request is authorized, well formed and on a metric path).  The state file
    holds the text of the new map if persistence is on and the save succeeds, and
    its old content otherwise.  An accepted change is answered with 200 (404 for a
    name that is not there), and the reply claims that the retained message was
    published or cleared only if that very message was queued, taken by the MQTT library
    for sending and, with mqtt_qos 1 or 2, acknowledged by the broker.  The log tells of
    the request exactly what failed: the save, then the publish. *)
Theorem route_changes_state (req : Http.HttpRequest) (k k' : sock) (s s' : server) (resp : Http.HttpResponse)
    (Hok : pub_ok (pub s)) (Hrun : run (route req) k s = Some (resp, k', s')) :
  match change_of req with
  | Some c =>
      values s' = apply_change c (values s) /\
      if match c with Put _ _ => true | Del name => bool_decide (is_Some (values s !! name)) end
      then file s' = file_after s (values s') /\
           exists published, resp = change_reply c published /\ mirrored (mirror c) published s s' /\
             logged s' = logged s ++ change_log c published s
      else resp = json_error 404 (B"not found") /\ file s' = file s /\ pub s' = pub s /\ logged s' = logged s
  | None => values s' = values s /\ file s' = file s /\ logged s' = logged s
  end.
Proof.
  destruct (change_of req) as [c|] eqn:Ec; [|by eapply run_change_none].
  apply (run_perform c k s resp k' s' Hok). destruct (change_is_metric _ _ Ec) as (Ha & He & Hm).
  pose proof (handle_metric_change req Ha) as Hp. rewrite Ec in Hp.
  unfold route in Hrun. by rewrite Ha, He, Hm, andb_false_r, Hp in Hrun.
Qed.

(** C30: log lines can be forged.  For any time and any line a reader could expect on
    stderr, take the metric name [forging_name], which an ordinary PUT request carries.  A run
    of that request's handler in which the save works and the broker does not makes one call of
    the logger, which prints the same as three genuine ones, the middle one being that line:
    messages are written without escaping line feeds. *)
Theorem log_lines_can_be_forged (l : Log.Logger) (now t : Z) (level : Log.LogLevel) (msg payload : bytes) (v : double)
    (req : Http.HttpRequest) (k k' : sock) (s s' : server) (resp : Http.HttpResponse) (rest : bytes)
    (Hl : Log.on_stderr (Log.debug_enabled l) (t, level, msg) = true) (Hm : c_nul ∉ msg)
    (Hv : parse_double payload = Some v) (Hok : pub_ok (pub s)) (Hs : hd StateStore.SaveOk (saves s) = StateStore.SaveOk)
    (Hreq : Http.parse_http_request (Http.print_request (B"PUT") (B"/metric/" ++ forging_name now t level msg) [] [] payload)
            = Some (req, rest))
    (Hrun : run (handle_metric (Http.set_body rest req)) k s = Some (resp, k', s'))
    (Hresp : resp <> metric_written (forging_name now t level msg) v true) :
  exists warning, logged s' = logged s ++ [(Log.Warn, warning)] /\
    Log.log now Log.Warn warning l =
    Log.log now Log.Warn (write_warning (B"y")) (Log.log t level msg (Log.log now Log.Warn (write_warning (B"x")) l)).
Proof.
  destruct (forging_name_spec now t level msg Hm) as (Hn & Hname & Hline). set (name := forging_name _ _ _ _) in *.
  rewrite Http.parse_printed in Hreq; [|done|done|done| |done..].
  2:{ rewrite not_elem_of_app. split; [clear; not_in|done]. }
  assert (Hq : req = Http.set_target (B"/metric/" ++ name) [] (Http.new_request (B"PUT")) /\ rest = payload)
    by (by injection Hreq as <- <-).
  destruct Hq as [-> ->].
  assert (E : handle_metric (Http.set_body payload (Http.set_target (B"/metric/" ++ name) [] (Http.new_request (B"PUT"))))
              = handle_metric_write name v).
  { unfold handle_metric, metric_value. cbn. rewrite (bool_decide_false (name = [])), Hv by done.
    by destruct name. }
  rewrite E in Hrun. destruct (run_perform (Put name v) k s resp k' s' Hok Hrun) as (_ & _ & published & -> & _ & Hlog).
  exists (write_warning name). split.
  - destruct published; [done|]. rewrite Hlog. unfold change_log, save_log. rewrite Hs. by destruct (Config.state_enabled cfg).
  - rewrite !Log.log_stderr, Hline; cbn [Log.debug_enabled Log.stdout Log.stderr]; rewrite ?Log.log_stderr; try done.
    by rewrite <- !app_assoc.
Qed.

End Server.

(** ** Witnesses

    One broker connection that comes up and acknowledges whatever it is given. *)
Definition demo_cfg : Config.Config :=
  Config.set_http_auth_tokens [B"s3cret"] (Config.set_mqtt_queue_size 4 (Mqtt.demo_cfg 1)).

Definition demo_schedule : list Mqtt.event :=
  [Mqtt.Top 0; Mqtt.Connected 0 true; Mqtt.Top 0; Mqtt.WaitOver 0; Mqtt.RunJob 0 true true;
   Mqtt.Top 0; Mqtt.WaitOver 0; Mqtt.RunJob 0 true true].

Definition demo_server : server (M := Mqtt.client * list Mqtt.event) :=
  {| values := ∅; file := None; saves := []; pub := (Mqtt.start demo_cfg Metrics.zero_metrics, demo_schedule);
     uptime := Fin false 0 0; webhook_depth := 0;
     world := {| Placeholders.draws := fun _ _ => 0%N; Placeholders.now_ns := fun _ => 0%Z |}; offered := [];
     textfile := None; textfile_saves := []; logged := [] |}.

Definition demo_sock : sock :=
  {| head_start := 0; body_start := 0; events := []; sends := []; sent := []; closed := 0 |}.

Definition demo_publisher : Publisher (Mqtt.client * list Mqtt.event) := PublisherImpl.mqtt_publisher demo_cfg.
#[local] Existing Instance demo_publisher.
#[local] Instance demo_publisher_spec : PublisherSpec (Mqtt.client * list Mqtt.event) :=
  PublisherImpl.mqtt_publisher_spec demo_cfg.

Lemma demo_ok : pub_ok (pub demo_server).
Proof. apply Mqtt.mqtt_start_inv. Qed.

Definition demo_request (m p b : bytes) (token : bytes) : Http.HttpRequest :=
  {| Http.method := m; Http.path := p; Http.query := [(B"retain", B"yes")]; Http.accept := []; Http.content_type := [];
     Http.content_length := Z.of_nat (length b); Http.chunked := false; Http.auth_token := token;
     Http.qos_header := B"1"; Http.retain_header := []; Http.body := b |}.

Lemma json_replies_parse_witness :
  exists resp k' s',
    run (route demo_cfg (B"1.0") (demo_request (B"POST") (B"/event/a") (B"x") (B"wrong"))) demo_sock demo_server
    = Some (resp, k', s') /\ Http.status resp = 401%Z /\
    exists pairs, JsonUtil.tokenize_flat_object (Http.resp_body resp) = Some pairs.
Proof.
  do 3 eexists. split; [vm_compute; reflexivity|]. split; [reflexivity|].
  edestruct (json_replies_parse demo_cfg (B"1.0") (demo_request (B"POST") (B"/event/a") (B"x") (B"wrong"))
               demo_sock demo_sock demo_server demo_server) as (pairs & H1 & _);
    [vm_compute; reflexivity|reflexivity|]. exists pairs. exact H1.
Defined.

Lemma event_truthful_witness :
  exists resp k' s',
    run (handle_event demo_cfg (demo_request (B"POST") (B"/event/a/b") (B"hi") (B"s3cret"))) demo_sock demo_server
    = Some (resp, k', s') /\ Http.status resp = 200%Z /\ pub_acked (pub s') = [0] /\
    values s' = values demo_server.
Proof.
  do 3 eexists. split; [vm_compute; reflexivity|]. split; [reflexivity|]. split; [reflexivity|].
  eapply (event_truthful demo_cfg (demo_request (B"POST") (B"/event/a/b") (B"hi") (B"s3cret")) demo_sock);
    [apply demo_ok|vm_compute; reflexivity].
Defined.

Lemma route_changes_state_witness :
  exists resp k' s',
    run (route demo_cfg (B"1.0") (demo_request (B"PUT") (B"/metric/t") (B"20.5") (B"s3cret"))) demo_sock demo_server
    = Some (resp, k', s') /\ file s' = Some (StateStore.save_text (values s')) /\
    exists acked, resp = metric_written (B"t") (Fin false 5770237022568448 (-48)) acked.
Proof.
  do 3 eexists. split; [vm_compute; reflexivity|]. split; [vm_compute; reflexivity|].
  edestruct (route_changes_state demo_cfg (B"1.0") (demo_request (B"PUT") (B"/metric/t") (B"20.5") (B"s3cret")) demo_sock
               demo_sock demo_server) as (_ & _ & acked & Hr & _); [apply demo_ok|vm_compute; reflexivity|].
  exists acked. exact Hr.
Defined.

Definition d_one : double := Fin false 4503599627370496 (-52).
Definition d_two : double := Fin false 4503599627370496 (-51).

(** The broker connection never comes up. *)
Definition no_broker : server (M := Mqtt.client * list Mqtt.event) :=
  set_pub (Mqtt.start demo_cfg Metrics.zero_metrics, []) demo_server.

Lemma log_lines_can_be_forged_witness :
  let name := forging_name 0 0 Log.Fatal (B"startup failed: disk") in
  exists req k' s' warning,
    run (handle_metric demo_cfg (Http.set_body (B"1") req)) demo_sock no_broker
    = Some (metric_written name d_one false, k', s') /\ logged s' = [(Log.Warn, warning)] /\
    Log.log 0 Log.Warn warning (Log.Build_Logger false [] []) =
    Log.log 0 Log.Warn (write_warning (B"y"))
      (Log.log 0 Log.Fatal (B"startup failed: disk") (Log.log 0 Log.Warn (write_warning (B"x")) (Log.Build_Logger false [] []))).
Proof.
  intros name. set (req := Http.set_target (B"/metric/" ++ name) [] (Http.new_request (B"PUT"))).
  assert (Hr : fst <$> (fst <$> run (handle_metric demo_cfg (Http.set_body (B"1") req)) demo_sock no_broker)
               = Some (metric_written name d_one false)) by (vm_compute; reflexivity).
  destruct (run (handle_metric _ _) _ _) as [[[resp k'] s']|] eqn:E; [|discriminate Hr]. injection Hr as ->.
  destruct (log_lines_can_be_forged demo_cfg (Log.Build_Logger false [] []) 0 0 Log.Fatal (B"startup failed: disk") (B"1") d_one
    req demo_sock k' no_broker s' (metric_written name d_one false) (B"1")) as (warning & H1 & H2).
  - reflexivity.
  - not_in.
  - vm_compute. reflexivity.
  - apply demo_ok.
  - reflexivity.
  - vm_compute. reflexivity.
  - exact E.
  - vm_compute. discriminate.
  - exists req, k', s', warning. split; [exact E|]. split; [exact H1|exact H2].
Defined.

(** Concurrent writes leave store and broker different.  Two workers write
    the same name, each stores, saves and publishes, but nothing orders the
    publishes as the stores: in this schedule both requests are answered with
    mqtt_published true, both messages are acknowledged, the store and the state file
    hold 2, and the last retained message, the one the broker keeps, says 1. *)
Theorem concurrent_writes_diverge :
  exists k1 k2 s',
    rtc (step_by many_exec (fun _ => True))
      ([(handle_metric_write demo_cfg (B"t") d_one, demo_sock);
        (handle_metric_write demo_cfg (B"t") d_two, demo_sock)], demo_server)
      ([(Ret (metric_written (B"t") d_one true), k1);
        (Ret (metric_written (B"t") d_two true), k2)], s') /\
    values s' = {[ B"t" := d_two ]} /\ file s' = Some (StateStore.save_text (values s')) /\
    map Mqtt.payload (pub_accepted (pub s')) = [B"2"; B"1"] /\ pub_acked (pub s') = [0; 1].
Proof.
  do 3 eexists. split.
  - apply (run_rtc_True many_exec [0; 0; 1; 1; 1; 0]). vm_compute. reflexivity.
  - split; [vm_compute; reflexivity|]. split; [vm_compute; reflexivity|]. split; vm_compute; reflexivity.
Qed.

End Server.
