(* ===== verification/Connection.v ===== *)
(** * server.cpp: one connection, and many of them

    [Server.handle_connection] from the first byte to the close, alone and
    interleaved with the connections of the other workers. *)

From S2P Require Import Prelude CLib Double TextUtil JsonUtil Config Placeholders State Metrics Http Mqtt Log Publisher Threads Prog Server.

Module Connection.
Import Server.

Section Connection.
Context {M : Type} `{!Publisher M} `{!PublisherSpec M}.
Context (cfg : Config.Config) (version : bytes).

Local Abbreviation may_write := (may_write cfg).
Local Abbreviation route := (route cfg version).
Local Abbreviation handle_request := (handle_request cfg version).
Local Abbreviation handle_connection := (handle_connection cfg version).
Local Abbreviation handle_event := (handle_event cfg).
Local Abbreviation handle_metric := (handle_metric cfg).
Local Abbreviation perform := (perform cfg).
Local Abbreviation persist := (persist cfg).

(** Operations that read nothing another request left behind. *)
Definition own {A : Type} (o : op A) : bool :=
  match o with
  | ReadHead _ _ | ReadBody _ _ _ | WriteAll _ | Close | RecordRequest _ | RecordResponse _ | LogLine _ _ => true
  | _ => false
  end.

Lemma answer_quiet resp ib : quiet (answer resp ib).
Proof. by repeat split. Qed.

Lemma with_body_quiet req lo cont : (forall b, quiet (cont (Http.set_body b req))) -> quiet (cont req) -> quiet (with_body req lo cont).
Proof.
  intros Hb Hr. unfold with_body, hang_up. repeat case_match; try done; try apply Hb.
  split; [done|]. intros [[] out]; cbn; try apply Hb; by repeat split.
Qed.

Lemma handle_request_quiet req lo : ~ may_write req -> quiet (handle_request req lo).
Proof.
  intros Hw. split; [done|]. intros _. unfold respond.
  repeat case_match; try apply answer_quiet.
  apply with_body_quiet; intros; (apply all_ops_bind; [by apply route_quiet|intros; apply answer_quiet]).
Qed.

(** What connection [k] will turn out to carry. *)
Definition delivers (k : sock) (req : Http.HttpRequest) (leftover : bytes) : Prop :=
  exists raw rest,
    Http.read_http_head (Z.to_nat (Config.max_request_bytes cfg)) kTimeoutSeconds (head_start k) (events k)
    = Some (Http.Ok, raw, rest) /\
    Http.parse_http_request raw = Some (req, leftover).

Lemma after_head_quiet k s a k' s' :
  (forall req lo, delivers k req lo -> ~ may_write req) ->
  exec (ReadHead (Z.to_nat (Config.max_request_bytes cfg)) kTimeoutSeconds) k s = Some (a, k', s') ->
  same_data s s' /\
  quiet match a.1 with
        | Http.Ok =>
            match Http.parse_http_request a.2 with
            | None => let! _ := LogLine Log.Warn (B"rejected malformed HTTP request") in reject (B"malformed HTTP request")
            | Some (req, leftover_body) => handle_request req leftover_body
            end
        | Http.TooLarge => reject (B"request headers too large")
        | _ => hang_up
        end.
Proof.
  intros Hk H1. cbn [exec] in H1. destruct (Http.read_http_head _ _ _ _) as [[[res raw] rest]|] eqn:E; [|done].
  injection H1 as <- <- <-. split; [done|]. cbn [after_read fst snd].
  destruct res; try by repeat split.
  destruct (Http.parse_http_request raw) as [[req lo]|] eqn:Ep; [|by repeat split].
  apply handle_request_quiet, (Hk req lo). by exists raw, rest.
Qed.

Lemma many_exec_spec {R : Type} i (ts : list (prog R * sock)) s st' :
  many_exec i (ts, s) = Some st' ->
  exists p k p' k' s', ts !! i = Some (p, k) /\ step_prog p k s = Some (p', k', s') /\
    st' = (<[i := (p', k')]> ts, s').
Proof.
  unfold many_exec. cbn [fst snd]. destruct (ts !! i) as [[p k]|]; [|done]. cbn [mbind option_bind fst snd].
  destruct (step_prog p k s) as [[[p' k'] s']|] eqn:E; [|done]. intros [= <-]. by exists p, k, p', k', s'.
Qed.

(** ** Lemmas: the connection *)

Definition send_size (r : send_result) : nat := match r with Sent n => n | _ => 0 end.

(** [write_all] returns with all of the data sent, or at the first send that fails. *)
Lemma write_all_spec data rs :
  match write_all data rs with
  | Some (ok, out, unused) =>
      exists t used, data = out ++ t /\ rs = used ++ unused /\
        (t = [] /\ Forall (fun r => r <> SendError) used \/ exists fine, used = fine ++ [SendError])
  | None => Forall (fun r => r <> SendError) rs /\ sum_list (map send_size rs) < length data
  end.
Proof.
  revert data. induction rs as [|r rs IH]; intros data; cbn [write_all];
    (case_decide; [exists [], []; subst; split_and!; try done; left; split; [done|by apply list.Forall_nil]|]).
  - split; [by apply list.Forall_nil|]. destruct data; [done|]. simpl. lia.
  - destruct r as [n| |].
    + specialize (IH (drop n data)). destruct (write_all (drop n data) rs) as [[[ok out] un]|]; cbn [mbind option_bind].
      * destruct IH as (t & used & Ht & -> & Hok). exists t, (Sent n :: used). split; [by rewrite <- app_assoc, <- Ht, take_drop|].
        split; [done|]. destruct Hok as [[-> HF]|[fine ->]]; [left; split; [done|by apply list.Forall_cons_2]|right; by exists (Sent n :: fine)].
      * destruct IH as [HF Hs]. split; [by apply list.Forall_cons_2|]. rewrite length_drop in Hs. simpl. lia.
    + specialize (IH data). destruct (write_all data rs) as [[[ok out] un]|].
      * destruct IH as (t & used & Ht & -> & Hok). exists t, (SendIntr :: used). split_and!; [done..|].
        destruct Hok as [[-> HF]|[fine ->]]; [left; split; [done|by apply list.Forall_cons_2]|right; by exists (SendIntr :: fine)].
      * destruct IH as [HF Hs]. split; [by apply list.Forall_cons_2|]. done.
    + exists data, [SendError]. split_and!; [done..|]. right. by exists [].
Qed.

(** The state as the HTTP counters see it. *)
Definition counted (f : Metrics.metrics -> Metrics.metrics) (s s' : server) : Prop :=
  forall c, http_counter c = true ->
    Metrics.read (pub_metrics (pub s')) c = Metrics.read (f (pub_metrics (pub s))) c.

(** Operations that do not touch the socket or the HTTP counters. *)
Definition inner {A : Type} (o : op A) : bool :=
  match o with
  | ReadHead _ _ | ReadBody _ _ _ | WriteAll _ | Close | RecordRequest _ | RecordResponse _ => false
  | _ => true
  end.

Abbreviation internal := (all_ops (@inner)).

(** They never block, and leave socket and counters alone. *)
Lemma exec_inner {A : Type} (o : op A) s :
  inner o = true -> pub_ok (pub s) ->
  exists a s', (forall k, exec o k s = Some (a, k, s')) /\ pub_ok (pub s') /\ counted id s s'.
Proof.
  intros Ho Hok. destruct o as [| | | | | |n v|n| | |path| |m| | | | | | | | |]; try done; cbn [exec];
    try (do 2 eexists; split; [intros k; reflexivity|by split]).
  - destruct (StateStore.save _ _ _ _) as [[ok err] f]. do 2 eexists. split; [intros k; reflexivity|by split].
  - destruct (pub_call m (pub s)) as [o p] eqn:E. destruct (pub_call_spec _ _ _ _ Hok E) as (H1 & _ & _ & _ & H4).
    do 2 eexists. split; [intros k; reflexivity|]. split; [done|]. intros c Hc. by apply H4.
Qed.

Lemma run_internal {R : Type} (p : prog R) s :
  internal p -> pub_ok (pub s) ->
  exists r s', (forall k, run p k s = Some (r, k, s')) /\ pub_ok (pub s') /\ counted id s s'.
Proof.
  revert s. induction p as [r|A o rest IH]; intros s Hp Hok; cbn [run]; [by exists r, s|].
  destruct Hp as [Ho Hp]. destruct (exec_inner o s Ho Hok) as (a & s1 & E & Hok1 & Hc1).
  destruct (IH a s1 (Hp a) Hok1) as (r & s2 & H1 & H2 & H3).
  exists r, s2. split_and!; [intros k; rewrite E; apply H1|done|]. intros c Hc. by rewrite H3, Hc1.
Qed.

Lemma persist_internal {R : Type} (p : prog R) : internal p -> internal (persist p).
Proof.
  intros Hp. unfold Server.persist, log_unless. destruct (Config.state_enabled cfg); [|done]. split; [done|]. intros [[] err]; [done|].
  by split.
Qed.

Lemma perform_internal c : internal (perform c).
Proof.
  assert (Hm : forall m warning (r : bool -> Http.HttpResponse), internal (persist (let! outcome := Publish m in
    log_unless (is_ok outcome) Log.Warn warning (Ret (r (is_ok outcome)))))).
  { intros m warning r. apply persist_internal. split; [done|]. intros []; by repeat split. }
  destruct c as [n v|n]; (split; [done|]); intros a; [exact (Hm _ _ (metric_written n v))|].
  destruct (negb a); [done|]. exact (Hm _ _ (metric_deleted n)).
Qed.

Lemma handle_metric_internal req : internal (handle_metric req).
Proof.
  unfold handle_metric. destruct (_ && _); [|done]. destruct (negb _); [|done].
  case_decide; [apply (perform_internal (Del _))|]. case_decide.
  { destruct (metric_value req); [apply (perform_internal (Put _ _))|done]. }
  destruct (_ && _); [|done]. destruct (Http.find_query_param _ _) as [t|]; [|done].
  destruct (parse_double t); [apply (perform_internal (Put _ _))|done].
Qed.

Lemma handle_event_internal req : internal (handle_event req).
Proof.
  unfold handle_event. destruct (_ && _); [|done]. destruct (negb _); [|done].
  assert (Hp : forall t pl, internal (publish_event cfg req t pl)).
  { intros t pl. unfold publish_event. by repeat case_match. }
  destruct (event_payload cfg req); [|done]. by destruct (Config.event_placeholders_enabled cfg).
Qed.

Lemma route_internal req : internal (route req).
Proof.
  unfold route. destruct (_ && _); [done|].
  destruct (is_event _); [apply handle_event_internal|]. destruct (is_metric _); [apply handle_metric_internal|].
  case_decide; [|case_decide; [|done]]; (destruct (get_or_head req); [|done]).
  - unfold handle_metrics. destruct (Config.prometheus_http cfg); [|done]. split; [done|]. intros a.
    by destruct (bool_decide _).
  - unfold handle_health. destruct (Http.accept_wants_json _); by repeat split.
Qed.

(** The statuses the program answers with; each falls in a counted class. *)
Definition statuses : list Z := [200; 400; 401; 404; 405; 411; 413; 502; 503; 504]%Z.

Definition known_status (resp : Http.HttpResponse) : Prop := Http.status resp ∈ statuses.

Lemma change_reply_status c b : known_status (change_reply c b).
Proof. unfold known_status, statuses. destruct c; set_solver. Qed.

Lemma json_error_status st msg : bool_decide (st ∈ statuses) = true -> known_status (json_error st msg).
Proof. apply bool_decide_eq_true_1. Qed.

Lemma route_status req : returns known_status (route req).
Proof.
  assert (Hs : forall st, bool_decide (st ∈ statuses) = true -> st ∈ statuses) by (intros st; apply bool_decide_eq_true_1).
  pose proof json_error_status as He.
  assert (Hn : forall allow, known_status (not_allowed allow)) by (intros; by apply Hs).
  assert (Hp : forall c, returns known_status (perform c)).
  { intros [n v|n] a; [|destruct a; [|by apply He]; cbn [negb]]; apply returns_persist; intros o;
      apply returns_log_unless; by apply Hs. }
  unfold route. destruct (_ && _); [by apply He|]. destruct (is_event _).
  { unfold handle_event. destruct (_ && _); [|by apply He]. destruct (negb _); [|by apply He].
    assert (Hpe : forall t pl, returns known_status (publish_event cfg req t pl)).
    { intros t pl. unfold publish_event. destruct (event_qos cfg req); [|by apply He].
      destruct (event_retain req); [|by apply He]. intros []; by apply Hs. }
    destruct (event_payload cfg req) eqn:Ep;
      [destruct (Config.event_placeholders_enabled cfg); [intros w|]; apply Hpe|].
    cbn [returns]. unfold event_payload in Ep. repeat case_match; simplify_eq; apply He || apply Hn; done. }
  destruct (is_metric _).
  { unfold handle_metric. destruct (_ && _); [|by apply He]. destruct (negb _); [|by apply He].
    case_decide; [apply (Hp (Del _))|]. case_decide.
    { destruct (metric_value req); [apply (Hp (Put _ _))|by apply He]. }
    destruct (_ && _); [|apply Hn]. destruct (Http.find_query_param _ _) as [t|]; [|by apply He].
    destruct (parse_double t); [apply (Hp (Put _ _))|by apply He]. }
  case_decide; [|case_decide; [|by apply He]]; (destruct (get_or_head req); [|apply Hn]).
  - unfold handle_metrics. destruct (Config.prometheus_http cfg); [|by apply He]. intros a.
    destruct (bool_decide _); [|by apply Hs]. apply returns_bind. intros. by apply Hs.
  - unfold handle_health. destruct (Http.accept_wants_json _); cbn [returns]; intros; by apply Hs.
Qed.

(** *** What a connection is owed *)

(** What [read_http_head] makes of the connection. *)
Definition head_of (k : sock) : option (Http.ReadResult * bytes * list Http.io_event) :=
  Http.read_http_head (Z.to_nat (Config.max_request_bytes cfg)) kTimeoutSeconds (head_start k) (events k).

(** Content-Length beyond max_body_bytes. *)
Definition body_too_large (req : Http.HttpRequest) : Prop :=
  (0 < Http.content_length req)%Z /\ (Config.max_body_bytes cfg < Http.content_length req)%Z.

(** The request with its body, from the bytes that came with the head and the events
    after it; with the reader's verdict when it had to read. *)
Definition completed (k : sock) (req : Http.HttpRequest) (leftover : bytes) (rest : list Http.io_event) :
    option (Http.ReadResult * Http.HttpRequest) :=
  let need := Z.to_nat (Http.content_length req) in
  let got := take need leftover in
  if decide (0 < Http.content_length req)%Z then
    if decide (length got < need) then
      '(res, out, _) ← Http.read_http_body (need - length got) kTimeoutSeconds (body_start k) got rest;
      Some (res, Http.set_body out req)
    else Some (Http.Ok, Http.set_body got req)
  else Some (Http.Ok, req).

(** The state once the request is counted. *)
Definition count_request (path : bytes) (s : server) : server :=
  set_pub (pub_count (Metrics.record_request path) (pub s)) s.

(** The head is complete and parsed, its body is within the limits. *)
Record accepted (k : sock) (req : Http.HttpRequest) (leftover : bytes) (rest : list Http.io_event) : Prop := {
  ac_head : exists raw, head_of k = Some (Http.Ok, raw, rest) /\ Http.parse_http_request raw = Some (req, leftover);
  ac_plain : Http.chunked req = false;
  ac_small : ~ body_too_large req
}.

(** The reply due to a connection: the path it is counted under, the response, and
    whether its body is sent.  A request that is accepted and complete is owed what
    [route] returns on it. *)
Inductive due (k : sock) (s : server) : bytes -> Http.HttpResponse -> bool -> Prop :=
| DueTooLarge raw rest :
    head_of k = Some (Http.TooLarge, raw, rest) ->
    due k s [] (json_error 400 (B"request headers too large")) true
| DueMalformed raw rest :
    head_of k = Some (Http.Ok, raw, rest) -> Http.parse_http_request raw = None ->
    due k s [] (json_error 400 (B"malformed HTTP request")) true
| DueChunked req leftover :
    delivers k req leftover -> Http.chunked req = true ->
    due k s (Http.path req) (json_error 411 (B"chunked request bodies are not supported")) (negb (is_head req))
| DueBodyTooLarge req leftover :
    delivers k req leftover -> Http.chunked req = false -> body_too_large req ->
    due k s (Http.path req) (json_error 413 (B"request body too large")) (negb (is_head req))
| DueRouted req leftover rest full resp s1 :
    accepted k req leftover rest -> completed k req leftover rest = Some (Http.Ok, full) ->
    (forall k1, run (route full) k1 (count_request (Http.path req) s) = Some (resp, k1, s1)) ->
    due k s (Http.path req) resp (negb (is_head req)).

(** One reply: all of it, or a prefix when a send failed, then the connection is closed. *)
Definition replied (resp : Http.HttpResponse) (ib : bool) (k k' : sock) : Prop :=
  closed k' = S (closed k) /\
  exists out t used, sent k' = sent k ++ out /\ Http.build_http_response resp ib = out ++ t /\
    sends k = used ++ sends k' /\
    (t = [] /\ Forall (fun r => r <> SendError) used \/ exists fine, used = fine ++ [SendError]).

Lemma run_answer resp ib k s u k' s' :
  run (answer resp ib) k s = Some (u, k', s') ->
  replied resp ib k k' /\ counted (Metrics.record_response (Http.status resp)) s s'.
Proof.
  unfold answer. cbn [run exec mbind option_bind]. pose proof (write_all_spec (Http.build_http_response resp ib) (sends k)) as Hw.
  destruct (write_all _ _) as [[[ok out] un]|]; [|done]. cbn [mbind option_bind]. intros [= <- <- <-].
  destruct Hw as (t & used & Ht & Hu & Hok). split; [split; [done|]; by exists out, t, used|].
  intros c _. cbn. by rewrite pub_count_metrics.
Qed.

Definition silent (k k' : sock) : Prop := closed k' = S (closed k) /\ sent k' = sent k /\ sends k' = sends k.

(** What one finished connection did, and when. *)
Inductive served (k : sock) (s : server) (k' : sock) (s' : server) : Prop :=
| NoHead res raw rest :
    head_of k = Some (res, raw, rest) -> res ∈ [Http.ConnectionClosed; Http.Timeout; Http.IoError] ->
    silent k k' -> counted id s s' -> served k s k' s'
| NoBody req leftover rest res part :
    accepted k req leftover rest -> completed k req leftover rest = Some (res, part) -> res <> Http.Ok ->
    silent k k' -> counted (Metrics.record_request (Http.path req)) s s' -> served k s k' s'
| Answered path resp ib :
    due k s path resp ib -> replied resp ib k k' -> known_status resp ->
    counted (fun m => Metrics.record_response (Http.status resp) (Metrics.record_request path m)) s s' ->
    served k s k' s'.

Lemma read_record_response_eq st m m' c :
  Metrics.read m c = Metrics.read m' c ->
  Metrics.read (Metrics.record_response st m) c = Metrics.read (Metrics.record_response st m') c.
Proof. intros E. rewrite !Metrics.read_record_response. by rewrite E. Qed.

Lemma counted_then st s s1 s2 f :
  counted f s s1 -> counted (Metrics.record_response st) s1 s2 ->
  counted (fun m => Metrics.record_response st (f m)) s s2.
Proof. intros H1 H2 c Hc. rewrite H2 by done. by apply read_record_response_eq, H1. Qed.

Lemma count_request_counted path s : counted (Metrics.record_request path) s (count_request path s).
Proof. intros c _. cbn. by rewrite pub_count_metrics. Qed.

(** *** Where a connection ends up

    [handle_connection] is one of these programs, on the socket as it is after the
    reads: close at once, or answer with the reply due. *)
Definition same_io (k k1 : sock) : Prop := closed k1 = closed k /\ sent k1 = sent k /\ sends k1 = sends k.

Inductive outcome (k : sock) (s : server) : option (unit * sock * server) -> Prop :=
| OutNoHead res raw rest k1 :
    head_of k = Some (res, raw, rest) -> res ∈ [Http.ConnectionClosed; Http.Timeout; Http.IoError] -> same_io k k1 ->
    outcome k s (run hang_up k1 s)
| OutNoBody req leftover rest res part k1 :
    accepted k req leftover rest -> completed k req leftover rest = Some (res, part) -> res <> Http.Ok -> same_io k k1 ->
    outcome k s (run hang_up k1 (count_request (Http.path req) s))
| OutDue path resp ib k1 s1 :
    due k s path resp ib -> known_status resp -> same_io k k1 -> counted (Metrics.record_request path) s s1 ->
    outcome k s (run (answer resp ib) k1 s1)
| OutBlocked :
    head_of k = None \/
    (exists req leftover rest, accepted k req leftover rest /\ completed k req leftover rest = None) ->
    outcome k s None.

Lemma outcome_routed k s k1 req leftover rest full :
  pub_ok (pub s) -> accepted k req leftover rest -> completed k req leftover rest = Some (Http.Ok, full) -> same_io k k1 ->
  is_head full = is_head req ->
  outcome k s (run (do resp := route full in respond full resp) k1 (count_request (Http.path req) s)).
Proof.
  intros Hok Ha Hc Hk Hh. rewrite run_bind.
  assert (Hok1 : pub_ok (pub (count_request (Http.path req) s))) by by apply pub_count_ok.
  destruct (run_internal (route full) _ (route_internal full) Hok1) as (resp & s1 & E & _ & Hc1).
  rewrite E. cbn [mbind option_bind]. unfold respond. rewrite Hh. eapply OutDue; [by eapply DueRouted| |done|].
  - by apply (run_returns _ _ _ _ _ _ _ (route_status full) (E k1)).
  - intros c Hh'. rewrite Hc1 by done. by apply count_request_counted.
Qed.

Lemma outcome_body k s k1 req leftover rest :
  pub_ok (pub s) -> accepted k req leftover rest -> same_io k k1 -> events k1 = rest -> body_start k1 = body_start k ->
  outcome k s (run (with_body req leftover (fun req => do resp := route req in respond req resp)) k1
                 (count_request (Http.path req) s)).
Proof.
  intros Hok Ha Hk He Hb. unfold with_body.
  assert (Hco : completed k req leftover rest = completed k req leftover rest) by done.
  unfold completed at 2 in Hco. destruct (Z.ltb_spec 0 (Http.content_length req)).
  2:{ rewrite decide_False in Hco by lia. by eapply outcome_routed. }
  rewrite decide_True in Hco by done. set (got := take _ leftover) in *.
  destruct (Nat.ltb_spec (length got) (Z.to_nat (Http.content_length req))).
  2:{ rewrite decide_False in Hco by lia. by eapply outcome_routed. }
  rewrite decide_True in Hco by done. cbn [run exec]. rewrite He, Hb.
  destruct (Http.read_http_body _ _ _ _ _) as [[[res out] rest']|]; cbn [mbind option_bind after_read fst snd] in *.
  2:{ apply OutBlocked. right. by exists req, leftover, rest. }
  destruct res; [by eapply outcome_routed| | | |]; by eapply OutNoBody.
Qed.

Lemma handle_connection_outcome k s : pub_ok (pub s) -> outcome k s (run handle_connection k s).
Proof.
  intros Hok. unfold handle_connection. cbn [run exec]. change (Http.read_http_head _ _ _ _) with (head_of k).
  destruct (head_of k) as [[[res raw] rest]|] eqn:E; cbn [mbind option_bind after_read fst snd]; [|by apply OutBlocked; left].
  set (k1 := Build_sock _ _ rest _ _ _). assert (Hk : same_io k k1) by done.
  assert (Hrej : forall msg l, due k s [] (json_error 400 msg) true ->
    outcome k s (run (reject msg) k1 (add_logged l s))).
  { intros msg l Hd. unfold reject. cbn [run exec mbind option_bind]. eapply OutDue; [exact Hd|by apply json_error_status|done|].
    intros c _. cbn. by rewrite pub_count_metrics. }
  destruct res; try (eapply OutNoHead; [exact E|set_solver|done]).
  2:{ rewrite <- (add_logged_nil s) at 2. by eapply Hrej, DueTooLarge. }
  destruct (Http.parse_http_request raw) as [[req lo]|] eqn:Ep; [|by eapply Hrej, DueMalformed].
  assert (Hd : delivers k req lo) by by exists raw, rest.
  unfold handle_request. cbn [run exec mbind option_bind]. fold (count_request (Http.path req) s).
  destruct (Http.chunked req) eqn:Ec.
  { eapply OutDue; [by eapply DueChunked|by apply json_error_status|done|apply count_request_counted]. }
  destruct (_ && _) eqn:El.
  { eapply OutDue; [eapply DueBodyTooLarge; [exact Hd|done|unfold body_too_large; lia]|by apply json_error_status|done|
      apply count_request_counted]. }
  apply (outcome_body k s k1 req lo rest Hok); [|done..].
  split; [by exists raw|done|unfold body_too_large; lia].
Qed.

(** *** Without a token *)

(** The paths that carry callers' own data. *)
Definition protected (path : bytes) : Prop :=
  path ∈ [B"/event"; B"/metric"; B"/metrics-state"] \/
  exists t, path = B"/event/" ++ t \/ path = B"/metric/" ++ t.

Lemma protected_needs_auth path : protected path -> needs_auth path = true.
Proof.
  unfold needs_auth, is_event, is_metric.
  intros [Hin|[t [-> | ->]]]; [|by rewrite starts_with_app, orb_true_r|].
  - rewrite !elem_of_cons, elem_of_nil in Hin. by destruct Hin as [-> |[-> |[-> |[]]]].
  - by rewrite (starts_with_app (B"/metric/")), !orb_true_r.
Qed.

Lemma route_unauthorized req b :
  needs_auth (Http.path req) = true -> ~ authorized cfg req -> route (Http.set_body b req) = Ret unauthorized.
Proof.
  intros Hn Ha. unfold Server.route. cbn [Http.set_body Http.path]. rewrite Hn.
  destruct (is_authorized cfg (Http.set_body b req)) eqn:E; [|done]. by apply is_authorized_spec in E.
Qed.

Lemma set_same_body req : Http.set_body (Http.body req) req = req.
Proof. by destruct req. Qed.

(** The text comes in over the connection, in segments of at most one receive
    buffer, each before both read deadlines; calls may be interrupted. *)
Definition arrives (k : sock) (text : bytes) : Prop :=
  let head := (head_start k + 1000 * kTimeoutSeconds)%Z in
  let body := (body_start k + 1000 * kTimeoutSeconds)%Z in
  Forall (Http.arriving head) (events k) /\ Forall (Http.arriving body) (events k) /\
  Forall (fun e => length (Http.chunk_of head e) <= Http.buf_size) (events k) /\
  Http.chunks head (events k) = text.

(** After a complete head, a late last event ends the body reader too. *)
Lemma body_not_pending k early late rest raw need got :
  events k = early ++ [late] ->
  (head_start k + 1000 * kTimeoutSeconds <= Http.now late)%Z -> (body_start k + 1000 * kTimeoutSeconds <= Http.now late)%Z ->
  head_of k = Some (Http.Ok, raw, rest) ->
  Http.read_http_body need kTimeoutSeconds (body_start k) got rest <> None.
Proof.
  intros He Hh Hb Eh Eb. apply Http.read_until_pending in Eb.
  apply Http.read_until_used in Eh as (used & Heq & Hu & _). rewrite He in Heq.
  destruct rest as [|e0 rest0] using rev_ind.
  - rewrite app_nil_r in Heq. rewrite <- Heq in Hu. apply Forall_app in Hu as [_ Hu].
    apply list.Forall_cons in Hu as [Hu _]. lia.
  - rewrite app_assoc in Heq. apply app_inj_tail in Heq as [_ <-].
    apply Forall_app in Eb as [_ Eb]. apply list.Forall_cons in Eb as [Eb _]. lia.
Qed.

(** A printed request that arrives in time, in whatever segments, is handled as sent. *)
Lemma run_printed_request (k : sock) (s : server) (m p : bytes) (q hs : list (bytes * bytes)) (b : bytes)
    (r : Http.HttpRequest)
    (Hm : m <> []) (Hu : forallb isupper m = true) (Hp : starts_with (B"/") p = true) (Hn : c_nul ∉ p)
    (Hq : Forall Http.no_nul_pair q) (Hh : Forall Http.header_ok hs)
    (Hr : Http.apply_headers hs (Http.new_request m) = Some r) (Hc : Http.chunked r = false)
    (Hlen : Z.max 0 (Http.content_length r) = Z.of_nat (length b))
    (Hbody : (Z.of_nat (length b) <= Config.max_body_bytes cfg)%Z)
    (Hhead : length (Http.print_request m p q hs []) + Http.buf_size <= Z.to_nat (Config.max_request_bytes cfg))
    (Ht : arrives k (Http.print_request m p q hs b)) :
  let req := Http.set_body b (Http.set_target p q r) in
  exists k1, sends k1 = sends k /\ sent k1 = sent k /\ closed k1 = closed k /\
    run handle_connection k s
    = run (let! _ := RecordRequest p in do resp := route req in respond req resp) k1 s.
Proof.
  intros req. destruct Ht as (Ha & Ha' & Hbuf & Ht).
  destruct (Http.printed_head_read m p q hs b _ _ _ _ Hu Hh Ha Hbuf Ht Hhead) as (used & rest & b1 & He & -> & Hread).
  set (b2 := Http.chunks _ rest) in *. unfold Server.handle_connection. cbn [run exec]. rewrite Hread.
  cbn [mbind option_bind after_read fst snd]. rewrite Http.parse_printed, Hr by done. cbn [fmap option_fmap option_map].
  set (k1 := Build_sock _ _ rest _ _ _). unfold Server.handle_request. cbn [run exec mbind option_bind].
  set (s1 := set_pub _ s). cbn [Http.set_target Http.path Http.chunked Http.content_length]. rewrite Hc.
  replace ((0 <? Http.content_length r)%Z && (Config.max_body_bytes cfg <? Http.content_length r)%Z) with false by lia.
  unfold with_body. cbn [Http.content_length Http.set_target].
  assert (Hbr : Http.body r = []) by (by apply Http.apply_headers_body in Hr).
  destruct (Z.ltb_spec 0 (Http.content_length r)) as [Hpos|Hz].
  2:{ exists k1. split_and!; [done..|]. assert (Hb0 : b1 ++ b2 = []) by (apply nil_length_inv; lia).
      unfold req. rewrite Hb0. replace (Http.set_target p q r) with (Http.set_body [] (Http.set_target p q r)); [done|].
      unfold Http.set_body, Http.set_target. simpl. by rewrite Hbr. }
  replace (Z.to_nat (Http.content_length r)) with (length (b1 ++ b2)) by lia. rewrite length_app.
  rewrite (take_ge b1) by lia. destruct (Nat.ltb_spec (length b1) (length b1 + length b2)) as [Hlt|Hge].
  2:{ exists k1. split_and!; [done..|]. assert (b2 = []) as E by (apply nil_length_inv; lia).
      unfold req. by rewrite E, app_nil_r. }
  replace (length b1 + length b2 - length b1) with (length b2) by lia.
  rewrite He in Ha, Ha'. apply list.Forall_app in Ha as [_ Ha], Ha' as [_ Ha'].
  assert (Hb2 : Http.chunks (body_start k + 1000 * kTimeoutSeconds) rest = b2) by by apply Http.arriving_chunks.
  destruct (Http.body_rest_read kTimeoutSeconds (body_start k) b1 b2 rest Ha' Hb2) as [rest' Hb'];
    [intros ->; simpl in Hlt; lia|].
  cbn [run exec]. cbn [events body_start k1]. rewrite Hb'. cbn [mbind option_bind after_read fst snd].
  eexists. split_and!; [| | |reflexivity]; done.
Qed.

(** ** Properties *)

(** C1: without a valid token nothing changes, in any interleaving.  Take any
    number of connections served concurrently, none of which delivers a request
    that carries a configured token to an event or metric path (where no token is
    configured every request counts as carrying one).  Then no
    schedule of the workers, at any point, has changed the stored values or the
    state file or queued anything for the broker. *)
Theorem auth_required (ks : list sock) (s : server) (st : list (prog unit * sock) * server)
    (Hk : Forall (fun k => forall req lo, delivers k req lo -> ~ may_write req) ks)
    (Hr : rtc (step_by many_exec (fun _ => True)) (map (fun k => (handle_connection, k)) ks, s) st) :
  same_data s st.2.
Proof.
  set (ok := fun pk : prog unit * sock =>
    (pk.1 = handle_connection /\ forall req lo, delivers pk.2 req lo -> ~ may_write req) \/ quiet pk.1).
  refine (proj2 (rtc_invariant _ (fun st => Forall ok st.1 /\ same_data s st.2) _ _ _ Hr _)).
  - intros [ts s1] st' (i & _ & H1) [HF Hs]. apply many_exec_spec in H1 as (p & k & p' & k' & s' & Hi & Hst & ->).
    cbn [fst snd] in *. assert (Hx : quiet p' /\ same_data s1 s').
    { destruct (proj1 (list.Forall_lookup _ _) HF i _ Hi) as [[Hp Hd]|Hq]; [|by eapply step_quiet].
      cbn [fst snd] in Hp, Hd. subst p. unfold handle_connection in Hst. cbn [step_prog] in Hst.
      destruct (exec _ k s1) as [[[a k1] s2]|] eqn:E; [|done]. cbn [mbind option_bind] in Hst.
      injection Hst as <- <- <-. by destruct (after_head_quiet _ _ _ _ _ Hd E). }
    destruct Hx as [Hq Hs']. split; [|by eapply same_data_trans].
    apply Forall_insert; [done|by right].
  - split; [|done]. apply Forall_map. eapply list.Forall_impl; [apply Hk|]. intros k H1. by left.
Qed.

(** C5: a request is served as it was sent.  Take any request in the printed
    form (path and query percent-encoded, header lines accepted, Content-Length
    the size of the body) that fits the configured limits, arriving in any number
    of segments before the deadlines.  The connection then behaves exactly as: count
    the path, run the handler on that request with that body, count, answer and
    close.  Where the segments are cut makes no difference. *)
Theorem request_served (k : sock) (s : server) (m p : bytes) (q hs : list (bytes * bytes)) (b : bytes)
    (r : Http.HttpRequest)
    (Hm : m <> []) (Hu : forallb isupper m = true) (Hp : starts_with (B"/") p = true) (Hn : c_nul ∉ p)
    (Hq : Forall Http.no_nul_pair q) (Hh : Forall Http.header_ok hs)
    (Hr : Http.apply_headers hs (Http.new_request m) = Some r) (Hc : Http.chunked r = false)
    (Hlen : Z.max 0 (Http.content_length r) = Z.of_nat (length b))
    (Hbody : (Z.of_nat (length b) <= Config.max_body_bytes cfg)%Z)
    (Hhead : length (Http.print_request m p q hs []) + Http.buf_size <= Z.to_nat (Config.max_request_bytes cfg))
    (Ht : arrives k (Http.print_request m p q hs b)) :
  let req := Http.set_body b (Http.set_target p q r) in
  exists k1, sends k1 = sends k /\ sent k1 = sent k /\ closed k1 = closed k /\
    run handle_connection k s
    = run (let! _ := RecordRequest p in do resp := route req in respond req resp) k1 s.
Proof. exact (run_printed_request k s m p q hs b r Hm Hu Hp Hn Hq Hh Hr Hc Hlen Hbody Hhead Ht). Qed.

(** C18: every connection is accounted for.  A finished connection was closed
    exactly once, and did one of three things.  The peer closed, was too slow or
    failed before the head was complete: nothing sent, nothing counted.  The head was complete and accepted
    but the body could not be read as announced: nothing sent, one request counted under
    its path.  Otherwise one request and one response are counted and the reply due is sent: 400 for
    a head that is too large or malformed, 411 for a chunked body, 413 for one that
    is too large, else what [route] returns on the request with its body, and without
    its own body for HEAD; all of it is sent, or a prefix of it that ends with a failed
    send.  The status is one of the known ones. *)
Theorem connection_accounting (k k' : sock) (s s' : server) (u : unit)
    (Hok : pub_ok (pub s)) (Hrun : run handle_connection k s = Some (u, k', s')) :
  served k s k' s'.
Proof.
  pose proof (handle_connection_outcome k s Hok) as Ho. rewrite Hrun in Ho. remember (Some (u, k', s')) as r eqn:Er.
  destruct Ho as [res raw rest k1 Hh Hres (Hc & Hs & He)|req lo rest res part k1 Ha Hco Hres (Hc & Hs & He)
    |path resp ib k1 s1 Hd Hst (Hc & Hs & He) Hcnt|]; [| | |done].
  - cbn in Er. injection Er as <- <- <-. eapply NoHead; [exact Hh|done|unfold silent; cbn; by rewrite Hc, Hs, He|done].
  - cbn in Er. injection Er as <- <- <-. eapply NoBody; [exact Ha|exact Hco|done|unfold silent; cbn; by rewrite Hc, Hs, He|apply count_request_counted].
  - apply run_answer in Er as [[Hcl (out & t & used & H1 & H2 & H3 & H4)] Hc']. eapply Answered; [exact Hd| |done|by eapply counted_then].
    split; [by rewrite Hcl, Hc|]. exists out, t, used. by rewrite H1, <- Hs, <- He.
Qed.

(** C32: a worker can be held only by a peer that does not read.  If every event
    of the connection is used up by a late one (at or after both read
    deadlines), the connection is finished, or the program stands in the write of
    the very reply that is due (see connection_accounting), of which the peer has
    taken less than the whole, without an error. *)
Theorem worker_held_only_by_write (k : sock) (s : server) (early : list Http.io_event) (late : Http.io_event)
    (Hok : pub_ok (pub s)) (He : events k = early ++ [late])
    (Hh : (head_start k + 1000 * kTimeoutSeconds <= Http.now late)%Z)
    (Hb : (body_start k + 1000 * kTimeoutSeconds <= Http.now late)%Z) :
  is_Some (run handle_connection k s) \/
  exists path resp ib, due k s path resp ib /\
    Forall (fun r => r <> SendError) (sends k) /\
    sum_list (map send_size (sends k)) < length (Http.build_http_response resp ib).
Proof.
  destruct (handle_connection_outcome k s Hok) as [| |path resp ib k1 s1 Hd _ (_ & _ & Hs) _|Hbl]; [by left|by left| |].
  - pose proof (write_all_spec (Http.build_http_response resp ib) (sends k1)) as Hw.
    unfold answer. cbn [run exec mbind option_bind]. rewrite Hs in *.
    destruct (write_all _ _) as [[[ok out] un]|]; [by left|]. right. by exists path, resp, ib.
  - exfalso. destruct Hbl as [Eh|(req & lo & rest & [(raw & Eh & _) _ _] & Eb)].
    + unfold head_of in Eh. apply Http.read_until_pending in Eh. rewrite He in Eh. apply Forall_app in Eh as [_ Eh].
      apply list.Forall_cons in Eh as [Eh _]. lia.
    + unfold completed in Eb. case_decide; [|done]. case_decide; [|done].
      destruct (Http.read_http_body _ _ _ _ _) as [[[??]?]|] eqn:Er; [done|].
      by apply (body_not_pending k early late rest raw _ _ He Hh Hb Eh) in Er.
Qed.

End Connection.

(** ** Two servers, one observer *)

Section Observer.
Context {M : Type} `{!Publisher M}.

(** Both programs perform this same operation, on the socket, the counters or the log. *)
Definition both_own (A : Type) (o o' : op A) : Prop := o = o' /\ own o = true.

Lemma own_refl {R : Type} (p : prog R) : all_ops (@own) p -> alike both_own p p.
Proof. by apply alike_all_ops. Qed.

Lemma run_alike {R : Type} (p1 p2 : prog R) k s1 s2 : alike both_own p1 p2 -> fst <$> run p1 k s1 = fst <$> run p2 k s2.
Proof.
  intros H. revert k s1 s2. induction H as [r|A o o' f g [<- Ho] _ IH]; intros k s1 s2; cbn [run]; [done|].
  destruct o; try done; cbn [exec];
    try (destruct (Http.read_http_head _ _ _ _)); try (destruct (Http.read_http_body _ _ _ _ _));
    try (destruct (write_all _ _) as [[[??]?]|]); cbn [mbind option_bind]; try done; by apply IH.
Qed.

Lemma with_body_alike req lo f g :
  (forall b, alike both_own (f (Http.set_body b req)) (g (Http.set_body b req))) ->
  alike both_own (with_body req lo f) (with_body req lo g).
Proof.
  intros H. pose proof (H (Http.body req)) as H0. rewrite set_same_body in H0. unfold with_body, hang_up.
  destruct (0 <? _)%Z; [|done]. destruct (_ <? _); [|done].
  constructor; [done|]. intros [[] out]; cbn; try apply H; apply own_refl; by repeat split.
Qed.

(** Two configurations that differ in anything but the two size limits. *)
Definition same_limits (cfg1 cfg2 : Config.Config) : Prop :=
  Config.max_request_bytes cfg1 = Config.max_request_bytes cfg2 /\ Config.max_body_bytes cfg1 = Config.max_body_bytes cfg2.

Lemma handle_request_alike cfg1 cfg2 v1 v2 req lo :
  same_limits cfg1 cfg2 -> needs_auth (Http.path req) = true -> ~ authorized cfg1 req -> ~ authorized cfg2 req ->
  alike both_own (handle_request cfg1 v1 req lo) (handle_request cfg2 v2 req lo).
Proof.
  intros [_ Hl] Hn H1 H2. constructor; [done|]. intros _. rewrite Hl.
  destruct (Http.chunked req); [apply own_refl; by repeat split|].
  destruct (_ && _); [apply own_refl; by repeat split|]. apply with_body_alike. intros b.
  rewrite !route_unauthorized by done. apply own_refl. by repeat split.
Qed.

(** C8: an unauthenticated caller learns nothing.  Take two servers in any two states
    and with any two configurations (tokens, broker password, prefixes, what is
    enabled: everything but the two size limits) and versions, and a connection whose
    request is for a path that needs a token and carries none that either
    of them has configured.  Then everything the peer sees of the connection (the bytes, the close, how
    much was read) is the same in both: nothing stored, published, counted or
    configured reaches it. *)
Theorem no_leak_without_token (cfg1 cfg2 : Config.Config) (v1 v2 : bytes) (k : sock) (s1 s2 : server)
    (Hl : same_limits cfg1 cfg2)
    (Hk : forall req lo, delivers cfg1 k req lo ->
      protected (Http.path req) /\ ~ authorized cfg1 req /\ ~ authorized cfg2 req) :
  fst <$> run (handle_connection cfg1 v1) k s1 = fst <$> run (handle_connection cfg2 v2) k s2.
Proof.
  unfold handle_connection. cbn [run exec]. rewrite <- (proj1 Hl).
  destruct (Http.read_http_head _ _ _ _) as [[[res raw] rest]|] eqn:E; [|done].
  cbn [mbind option_bind after_read fst snd]. apply run_alike.
  destruct res; try (apply own_refl; by repeat split).
  destruct (Http.parse_http_request raw) as [[req lo]|] eqn:Ep; [|apply own_refl; by repeat split].
  destruct (Hk req lo) as (Hn & H1 & H2); [by exists raw, rest|].
  apply handle_request_alike; [done|by apply protected_needs_auth|done..].
Qed.

End Observer.

(** ** Witnesses *)

#[local] Existing Instance demo_publisher.
#[local] Existing Instance demo_publisher_spec.

Definition recv (t : Z) (data : bytes) : Http.io_event :=
  {| Http.now := t; Http.polled := Http.PollReady (Http.RecvData data) |}.

(** A PUT of a metric, in three segments. *)
Definition put_text (token : bytes) : bytes :=
  Http.print_request (B"PUT") (B"/metric/t") []
    [(B"Content-Length", B"4"); (B"X-Mqtt-Api-Key", token)] (B"20.5").

Definition put_sock (token : bytes) : sock :=
  let text := put_text token in
  {| head_start := 0; body_start := 5;
     events := [recv 1 (take 10 text); recv 2 (substr text 10 (length text - 12)); recv 6 (drop (length text - 2) text)];
     sends := [Sent 7; SendIntr; Sent 4096]; sent := []; closed := 0 |}.

Ltac no_token :=
  intros req lo (raw & rest & Hh & Hp); vm_compute in Hh; injection Hh; intros <- <-; vm_compute in Hp;
  injection Hp; intros <- <-.

Lemma wrong_token req lo : delivers demo_cfg (put_sock (B"guess")) req lo ->
  protected (Http.path req) /\ ~ authorized demo_cfg req.
Proof.
  revert req lo. no_token. split; [right; exists (B"t"); right; vm_compute; reflexivity|]. intros [H|H]; [discriminate H|].
  apply list_elem_of_In in H. vm_compute in H. intuition discriminate.
Qed.

Lemma auth_required_witness :
  exists k' s', rtc (step_by many_exec (fun _ => True))
    ([(handle_connection demo_cfg (B"1.0"), put_sock (B"guess"))], demo_server) ([(Ret tt, k')], s') /\
    closed k' = 1 /\ same_data demo_server s'.
Proof.
  do 2 eexists. split; [eapply run_steps; vm_compute; reflexivity|]. split; [reflexivity|].
  eapply (auth_required demo_cfg (B"1.0") [put_sock (B"guess")] demo_server ([(Ret tt, _)], _));
    [|eapply run_steps; vm_compute; reflexivity].
  apply list.Forall_cons_2; [|apply list.Forall_nil; exact I]. intros req lo Hd [Ha _].
  by apply wrong_token in Hd as [_ Hn].
Defined.

(** The same server with other tokens and another broker password. *)
Definition other_cfg : Config.Config :=
  Config.set_http_auth_tokens [B"t0ken"] (Config.set_mqtt_password (B"hidden") demo_cfg).

Lemma wrong_tokens req lo : delivers demo_cfg (put_sock (B"guess")) req lo ->
  protected (Http.path req) /\ ~ authorized demo_cfg req /\ ~ authorized other_cfg req.
Proof.
  intros H. destruct (wrong_token req lo H) as [H1 H2]. split; [exact H1|]. split; [exact H2|]. clear H1 H2.
  revert req lo H. no_token. intros [H|H]; [discriminate H|].
  apply list_elem_of_In in H. vm_compute in H. intuition discriminate.
Qed.

Lemma no_leak_without_token_witness :
  fst <$> run (handle_connection demo_cfg (B"1.0")) (put_sock (B"guess")) demo_server
  = fst <$> run (handle_connection other_cfg (B"2.0")) (put_sock (B"guess"))
      (set_values {[ B"t" := d_one ]} demo_server).
Proof. apply no_leak_without_token; [split; vm_compute; reflexivity|exact wrong_tokens]. Defined.

Lemma connection_accounting_witness :
  exists k' s', run (handle_connection demo_cfg (B"1.0")) (put_sock (B"s3cret")) demo_server = Some (tt, k', s') /\
    values s' = {[ B"t" := Fin false 5770237022568448 (-48) ]} /\ served demo_cfg (B"1.0") (put_sock (B"s3cret")) demo_server k' s'.
Proof.
  do 2 eexists. split; [vm_compute; reflexivity|]. split; [vm_compute; reflexivity|].
  eapply (connection_accounting demo_cfg (B"1.0")); [apply demo_ok|vm_compute; reflexivity].
Defined.

(** A peer that takes seven bytes and then neither reads nor leaves. *)
Lemma worker_held_only_by_write_witness :
  let k := {| head_start := 0; body_start := 0; events := [] ++ [recv 20000 []]; sends := [Sent 7];
              sent := []; closed := 0 |} in
  is_Some (run (handle_connection demo_cfg (B"1.0")) k demo_server) \/
  exists path resp ib, due demo_cfg (B"1.0") k demo_server path resp ib /\
    Forall (fun r => r <> SendError) (sends k) /\
    sum_list (map send_size (sends k)) < length (Http.build_http_response resp ib).
Proof.
  intros k. apply (worker_held_only_by_write demo_cfg (B"1.0") k demo_server [] (recv 20000 []));
    [apply demo_ok|reflexivity|vm_compute; discriminate..].
Defined.

Lemma request_served_witness :
  exists r k1, Http.method r = B"PUT" /\ sent k1 = [] /\
    run (handle_connection demo_cfg (B"1.0")) (put_sock (B"s3cret")) demo_server
    = run (let! _ := RecordRequest (B"/metric/t") in
           do resp := route demo_cfg (B"1.0") r in respond r resp) k1 demo_server.
Proof.
  destruct (request_served demo_cfg (B"1.0") (put_sock (B"s3cret")) demo_server (B"PUT") (B"/metric/t") []
    [(B"Content-Length", B"4"); (B"X-Mqtt-Api-Key", B"s3cret")] (B"20.5")
    (Http.Build_HttpRequest (B"PUT") [] [] [] [] 4 false (B"s3cret") [] [] []))
    as (k1 & _ & Hs & _ & Hrun).
  - discriminate.
  - vm_compute. reflexivity.
  - vm_compute. reflexivity.
  - not_in.
  - apply list.Forall_nil. exact I.
  - each (unfold Http.header_ok, Http.trimmed; split_and!; try (vm_compute; reflexivity);
        not_in).
  - vm_compute. reflexivity.
  - reflexivity.
  - vm_compute. reflexivity.
  - vm_compute. discriminate.
  - apply Nat.leb_le. vm_compute. reflexivity.
  - split; [|split; [|split; [|vm_compute; reflexivity]]].
    + each (split; [vm_compute; reflexivity|exact I]).
    + each (split; [vm_compute; reflexivity|exact I]).
    + each (apply Nat.leb_le; vm_compute; reflexivity).
  - eexists _, k1. split; [|split; [exact Hs|exact Hrun]]. reflexivity.
Defined.

End Connection.
