(* ===== verification/Messages.v ===== *)
(** * main.cpp: what an arriving MQTT message does, and how it meets the requests

    The handler [main] gives to the broker client, as a program over the same
    operations as the request handlers ([Server.v]), and theorems about requests
    and messages together: what a restart finds, and what the echo of the server's
    own publishes does to the store. *)

From S2P Require Import Prelude CLib Double TextUtil MqttTopic JsonUtil Config State Metrics Http Webhook Mqtt Log Publisher Threads Prog Server Connection.

Module Messages.
Import Server.

Section Messages.
Context {M : Type} `{!Publisher M} `{!PublisherSpec M}.
Context (cfg : Config.Config) (version : bytes).

(** ** The handler *)

Definition set_leaves (topic : bytes) (leaves : list (bytes * double)) (rest : prog unit) : prog unit :=
  foldr (fun leaf p => let! _ := StateSet (topic ++ B"/" ++ leaf.1) leaf.2 in p) rest leaves.

Definition save_state_file : prog unit :=
  if Config.state_enabled cfg then
    let! r := StateSave (Config.state_file cfg) in log_unless r.1 Log.Error (persist_error r.2) (Ret tt)
  else Ret tt.

Definition is_json_topic (topic : bytes) : bool :=
  bool_decide (topic ∈ Config.prometheus_mqtt_json_topics cfg).

Definition ignoring (kind topic : bytes) : bytes := B"ignoring " ++ kind ++ B" MQTT message on '" ++ topic ++ B"'".

(** The numeric consumer of [subscribe_topics]. *)
Definition update_state (topic payload : bytes) : prog unit :=
  if is_json_topic topic then
    match JsonUtil.flatten_json_object payload with
    | Some leaves => set_leaves topic leaves save_state_file
    | None => let! _ := LogLine Log.Debug (ignoring (B"malformed JSON") topic) in Ret tt
    end
  else
    match parse_double payload with
    | Some value => let! _ := StateSet topic value in save_state_file
    | None => let! _ := LogLine Log.Debug (ignoring (B"non-numeric") topic) in Ret tt
    end.

Definition subscribed (topic : bytes) : bool :=
  Config.subscribe_enabled cfg && MqttTopic.topic_matches_any topic (Config.subscribe_topics cfg).
Definition forwarded (topic : bytes) : bool :=
  Config.webhook_enabled cfg && MqttTopic.topic_matches_any topic (Config.webhook_topics cfg).

Definition on_message (topic payload : bytes) (retained : bool) : prog unit :=
  do _ := (if subscribed topic then update_state topic payload else Ret tt) in
  if forwarded topic then
    let! _ := Enqueue {| Webhook.job_topic := topic; Webhook.job_payload := payload; Webhook.job_retained := retained |} in
    Ret tt
  else Ret tt.

(** ** Lemmas *)

(** The store after the message; [None] when the message is not for the store. *)
Definition message_store (topic payload : bytes) (st : StateStore.store) : option StateStore.store :=
  if subscribed topic then
    if is_json_topic topic then
      leaves ← JsonUtil.flatten_json_object payload;
      Some (foldl (fun st leaf => <[topic ++ B"/" ++ leaf.1 := leaf.2]> st) st leaves)
    else value ← parse_double payload; Some (<[topic := value]> st)
  else None.

Lemma run_set_leaves topic leaves rest k (s : server) :
  run (set_leaves topic leaves rest) k s
  = run rest k (set_values (foldl (fun st leaf => <[topic ++ B"/" ++ leaf.1 := leaf.2]> st) (values s) leaves) s).
Proof. revert s. induction leaves as [|l leaves IH]; intros s; [by destruct s|]. cbn. by rewrite IH. Qed.

(** What the first consumer logs: the failed save, or that the message is not for the store. *)
Definition message_log (topic payload : bytes) (s : server (M := M)) : list (Log.LogLevel * bytes) :=
  if subscribed topic then
    match message_store topic payload (values s) with
    | Some _ => save_log cfg s
    | None => [(Log.Debug, ignoring (if is_json_topic topic then B"malformed JSON" else B"non-numeric") topic)]
    end
  else [].

Definition saves_left (s : server (M := M)) : list StateStore.save_event :=
  if Config.state_enabled cfg then tl (saves s) else saves s.

(** What the first consumer did. *)
Record stored (topic payload : bytes) (s s' : server (M := M)) : Prop := {
  st_data : match message_store topic payload (values s) with
            | Some st => values s' = st /\ file s' = file_after cfg s st /\ saves s' = saves_left s
            | None => values s' = values s /\ file s' = file s /\ saves s' = saves s
            end;
  st_logged : logged s' = logged s ++ message_log topic payload s
}.

Lemma run_save_state_file k (s : server) :
  exists s', run save_state_file k s = Some (tt, k, s') /\ values s' = values s /\
    file s' = file_after cfg s (values s) /\ offered s' = offered s /\ pub s' = pub s /\
    logged s' = logged s ++ save_log cfg s /\ saves s' = saves_left s.
Proof.
  destruct (run_persist cfg (Ret tt) k s) as (s' & E & H1 & H2 & H3 & H4 & H5 & H6). exists s'. split_and!; done.
Qed.

Lemma run_update_state topic payload k (s : server) :
  subscribed topic = true ->
  run (update_state topic payload) k s =
  match message_store topic payload (values s) with
  | Some st => run save_state_file k (set_values st s)
  | None => Some (tt, k, add_logged (message_log topic payload s) s)
  end.
Proof.
  intros Es. unfold message_log, message_store, update_state. rewrite Es. destruct (is_json_topic topic).
  - destruct (JsonUtil.flatten_json_object payload); [by rewrite run_set_leaves|done].
  - by destruct (parse_double payload).
Qed.

Lemma run_update topic payload k (s : server) :
  exists s', run (if subscribed topic then update_state topic payload else Ret tt) k s = Some (tt, k, s') /\
    stored topic payload s s' /\ offered s' = offered s /\ pub s' = pub s.
Proof.
  destruct (subscribed topic) eqn:Es.
  2:{ exists s. split; [done|]. split; [|done]. split; unfold message_store, message_log; rewrite Es; [done|by rewrite app_nil_r]. }
  rewrite run_update_state by done. destruct (message_store topic payload (values s)) as [st|] eqn:Em.
  - destruct (run_save_state_file k (set_values st s)) as (s' & -> & H1 & H2 & H3 & H4 & H5 & H6).
    exists s'. split; [done|]. split; [|done]. split; [by rewrite Em|]. unfold message_log. by rewrite Es, Em.
  - eexists. split; [reflexivity|]. split; [|done]. split; [by rewrite Em|done].
Qed.

Lemma run_on_message topic payload retained k (s : server) :
  exists s', run (on_message topic payload retained) k s = Some (tt, k, s') /\
    stored topic payload s s' /\ pub s' = pub s /\
    offered s' = offered s ++ (if forwarded topic
      then [{| Webhook.job_topic := topic; Webhook.job_payload := payload; Webhook.job_retained := retained |}] else []).
Proof.
  unfold on_message. rewrite run_bind. destruct (run_update topic payload k s) as (s1 & -> & [H1 H1'] & H2 & H3).
  cbn [mbind option_bind]. destruct (forwarded topic); cbn [run exec mbind option_bind]; eexists; (split; [reflexivity|]).
  - cbn. by rewrite H2.
  - by rewrite H2, app_nil_r.
Qed.

(** ** Histories: requests and messages, one at a time *)

Inductive input :=
| Request (req : Http.HttpRequest)
| Message (topic payload : bytes) (retained : bool).

Definition handle_input (i : input) : prog unit :=
  match i with
  | Request req => do _ := route cfg version req in Ret tt
  | Message topic payload retained => on_message topic payload retained
  end.

Definition handle_all (inputs : list input) : prog unit :=
  foldr (fun i p => do _ := handle_input i in p) (Ret tt) inputs.

(** What [load] makes of the file on the next start. *)
Definition restart (s : server (M := M)) : StateStore.store + bytes :=
  StateStore.load (match file s with Some text => StateStore.Content text | None => StateStore.NoFile end)
    (Config.state_file cfg) ∅.

(** The file holds the store, and nothing is wrong with the file system. *)
Definition file_current (s : server (M := M)) : Prop :=
  saves s = [] /\ pub_ok (pub s) /\
  (file s = Some (StateStore.save_text (values s)) \/ (file s = None /\ values s = ∅)).

Lemma run_saves_nil {R : Type} (p : prog R) k (s : server) r k' s' :
  run p k s = Some (r, k', s') -> saves s = [] -> pub_ok (pub s) -> saves s' = [] /\ pub_ok (pub s').
Proof.
  revert k s. induction p as [r0|A o rest IH]; intros k s; cbn [run]; [by intros [= _ _ <-]|].
  intros H1 Hs Hok. destruct (exec o k s) as [[[a k1] s1]|] eqn:E; [|done]. cbn [mbind option_bind] in H1.
  apply (IH a k1 s1 H1).
  - destruct o; cbn [exec] in E; io_cases E; try (destruct (pub_call _ _)); try (by injection E as _ _ <-).
    rewrite Hs in E. cbn in E. by injection E as _ _ <-.
  - destruct o; cbn [exec] in E; io_cases E; try (by injection E as _ _ <-);
      try (injection E as _ _ <-; by apply pub_count_ok).
    + rewrite Hs in E. cbn in E. by injection E as _ _ <-.
    + destruct (pub_call m (pub s)) as [oc p] eqn:Ec. injection E as _ _ <-.
      by destruct (pub_call_spec _ _ _ _ Hok Ec).
Qed.

Lemma input_file_current i k (s : server) k' s' :
  Config.state_enabled cfg = true -> file_current s ->
  run (handle_input i) k s = Some (tt, k', s') -> file_current s'.
Proof.
  intros Hen (Hs & Hok & Hf) Hrun. destruct (run_saves_nil _ _ _ _ _ _ Hrun Hs Hok) as [Hs' Hok']. split_and!; [done|done|].
  destruct i as [req|topic payload retained]; cbn [handle_input] in Hrun.
  - rewrite run_bind in Hrun. destruct (run (route cfg version req) k s) as [[[resp k1] s1]|] eqn:E; [|done].
    injection Hrun as <- <-. destruct (change_of cfg req) as [c|] eqn:Ec.
    2:{ destruct (run_change_none cfg version req k s resp k1 s1 Ec E) as (-> & -> & _). done. }
    destruct (change_is_metric _ _ _ Ec) as (Ha & He & Hm). pose proof (handle_metric_change cfg req Ha) as Hp.
    rewrite Ec in Hp. unfold route in E. rewrite Ha, He, Hm, andb_false_r, Hp in E.
    destruct (run_perform cfg c k s resp k1 s1 Hok E) as [Hv Hr].
    assert (Hsaved : file s1 = file_after cfg s (values s1) -> file s1 = Some (StateStore.save_text (values s1))).
    { unfold file_after, saved. by rewrite Hen, Hs. }
    destruct c as [n v|n]; cbn [apply_change] in Hv; [left; by apply Hsaved, Hr|].
    case_bool_decide as Hex; [left; by apply Hsaved, Hr|]. destruct Hr as (_ & Hfile & _).
    rewrite Hfile, Hv. apply eq_None_not_Some in Hex. by rewrite delete_id.
  - destruct (run_on_message topic payload retained k s) as (s1 & E & Hst & _). rewrite E in Hrun.
    injection Hrun as <- <-. destruct Hst as [Hst _]. destruct (message_store _ _ _) as [st|].
    + left. destruct Hst as (-> & -> & _). unfold file_after, saved. by rewrite Hen, Hs.
    + by destruct Hst as (-> & -> & _).
Qed.

Lemma handle_all_current inputs k (s : server) k' s' :
  Config.state_enabled cfg = true -> file_current s ->
  run (handle_all inputs) k s = Some (tt, k', s') -> file_current s'.
Proof.
  intros Hen. revert k s. induction inputs as [|i inputs IH]; intros k s Hc Hrun; cbn [handle_all foldr] in Hrun.
  - by injection Hrun as <- <-.
  - rewrite run_bind in Hrun. destruct (run (handle_input i) k s) as [[[[] k1] s1]|] eqn:E; [|done].
    cbn [mbind option_bind] in Hrun. apply (IH k1 s1); [by eapply input_file_current|done].
Qed.

(** ** The echo of the server's own publishes *)

(** The retained message of a change as the subscription delivers it. *)
Definition echo (c : change) : prog unit :=
  on_message (Mqtt.topic (mirror cfg c)) (Mqtt.payload (mirror cfg c)) false.

Definition perform_all (cs : list change) : prog (list Http.HttpResponse) :=
  foldr (fun c p => do r := perform cfg c in do rs := p in Ret (r :: rs)) (Ret []) cs.

Lemma run_perform_all cs k (s : server) :
  pub_ok (pub s) ->
  exists rs s', run (perform_all cs) k s = Some (rs, k, s') /\ pub_ok (pub s') /\
    values s' = foldl (fun st c => apply_change c st) (values s) cs.
Proof.
  revert s. induction cs as [|c cs IH]; intros s Hok; cbn [perform_all foldr foldl]; [by exists [], s|].
  rewrite run_bind.
  destruct (Connection.run_internal (perform cfg c) s (Connection.perform_internal cfg c) Hok) as (r & s1 & E & Hok1 & _).
  rewrite E. cbn [mbind option_bind]. rewrite run_bind. destruct (IH s1 Hok1) as (rs & s2 & E2 & Hok2 & Hv).
  unfold perform_all in E2. rewrite E2. cbn [mbind option_bind run]. exists (r :: rs), s2. split_and!; [done|done|].
  rewrite Hv. by destruct (run_perform cfg c k s r k s1 Hok (E k)) as [-> _].
Qed.

(** ** Lemmas: JSON payloads *)

(** The value a list of leaves gives to a name: the last one counts. *)
Definition leaf_value (topic : bytes) (leaves : list (bytes * double)) (name : bytes) : option double :=
  snd <$> last (filter (fun leaf => topic ++ B"/" ++ leaf.1 = name) leaves).

Lemma lookup_leaves (topic : bytes) (leaves : list (bytes * double)) (st : StateStore.store) (name : bytes) :
  foldl (fun st leaf => <[topic ++ B"/" ++ leaf.1 := leaf.2]> st) st leaves !! name
  = match leaf_value topic leaves name with Some v => Some v | None => st !! name end.
Proof.
  unfold leaf_value. induction leaves as [|[n v] leaves IH] using rev_ind; [done|].
  rewrite foldl_app, filter_app. cbn [foldl fst snd]. destruct (decide (topic ++ B"/" ++ n = name)) as [<-|Hne].
  - rewrite lookup_insert_eq, filter_cons_True by done. rewrite filter_nil, last_snoc. done.
  - rewrite lookup_insert_ne, filter_cons_False, filter_nil, app_nil_r by done. exact IH.
Qed.

(** ** Properties *)

(** C17: what a message does.  The handler always finishes, whatever the topic and
    the payload.  A subscribed topic stores its number under the topic, or, for a
    configured JSON topic, every leaf of the object under topic/leaf (the last of
    equal names counts), and saves the state file; a payload that is no number or no
    object changes nothing.  Independently, a topic of the webhook list is handed
    to the webhook client with its payload, exactly once.  Nothing is published.  The log
    says when the save failed, and (at Debug) that a payload was ignored. *)
Theorem message_effect (topic payload : bytes) (retained : bool) (k : sock) (s : server) :
  exists s',
    run (on_message topic payload retained) k s = Some (tt, k, s') /\
    (if subscribed topic && negb (is_json_topic topic) then
       match parse_double payload with
       | Some v => values s' = <[topic := v]> (values s) /\ file s' = file_after cfg s (values s')
       | None => values s' = values s /\ file s' = file s
       end
     else if subscribed topic then
       match JsonUtil.flatten_json_object payload with
       | Some leaves =>
           (forall name, values s' !! name
              = match leaf_value topic leaves name with Some v => Some v | None => values s !! name end) /\
           file s' = file_after cfg s (values s')
       | None => values s' = values s /\ file s' = file s
       end
     else values s' = values s /\ file s' = file s) /\
    pub s' = pub s /\
    offered s' = offered s ++
      (if Config.webhook_enabled cfg && MqttTopic.topic_matches_any topic (Config.webhook_topics cfg)
       then [{| Webhook.job_topic := topic; Webhook.job_payload := payload; Webhook.job_retained := retained |}] else []) /\
    logged s' = logged s ++ message_log topic payload s.
Proof.
  destruct (run_on_message topic payload retained k s) as (s' & H1 & H2 & H3 & H4). exists s'.
  split_and!; [done| |done|done| by destruct H2]. destruct H2 as [H2 _]. unfold message_store in H2.
  destruct (subscribed topic); [|by destruct H2 as (? & ? & _)]. destruct (is_json_topic topic); cbn [andb negb].
  - destruct (JsonUtil.flatten_json_object payload) as [leaves|]; cbn [mbind option_bind] in H2;
      [|by destruct H2 as (? & ? & _)]. destruct H2 as (-> & -> & _). split; [|done]. intros name. apply lookup_leaves.
  - destruct (parse_double payload) as [v|]; cbn [mbind option_bind] in H2; [|by destruct H2 as (? & ? & _)].
    destruct H2 as (-> & -> & _). done.
Qed.

(** C3: a restart finds the current state.  Persistence on, no failing save, one
    request or message at a time: after any sequence of requests and messages the
    state file, read by the program's own [load], gives every stored name and no
    other, each value as its nine digits read back; it fails only if some value's
    digits do not read back at all. *)
Theorem restart_recovers (inputs : list input) (k k' : sock) (s s' : server)
    (Hen : Config.state_enabled cfg = true) (Hs : file_current s)
    (Hrun : run (handle_all inputs) k s = Some (tt, k', s')) :
  restart s' = if decide (StateStore.reloadable (values s')) then inl (omap StateStore.reload (values s'))
               else inr (StateStore.load_shape_error (Config.state_file cfg)).
Proof.
  destruct (handle_all_current _ _ _ _ _ Hen Hs Hrun) as (_ & _ & [Hf|[Hf Hv]]); unfold restart; rewrite Hf.
  - case_decide; [by apply StateStore.load_saved_text|by apply StateStore.load_saved_text_fails].
  - rewrite Hv, decide_True; [|by apply map_Forall_empty]. done.
Qed.

(** C29: a late echo undoes later requests.  With a subscription that covers the
    name, a PUT is answered, then any further changes are performed and answered (a
    DELETE of the name, a newer value, nothing at all); when the subscription then
    delivers the retained message of the PUT, the name holds the nine digits of the
    old value again. *)
Theorem late_echo_wins (name : bytes) (v w : double) (later : list change) (k : sock) (s : server)
    (Hok : pub_ok (pub s)) (Hsub : subscribed name = true) (Hjson : is_json_topic name = false)
    (Hw : StateStore.reload v = Some w) :
  exists rs s2 s3,
    run (perform_all (Put name v :: later)) k s = Some (rs, k, s2) /\
    values s2 = foldl (fun st c => apply_change c st) (<[name := v]> (values s)) later /\
    run (echo (Put name v)) k s2 = Some (tt, k, s3) /\
    values s3 = <[name := w]> (values s2).
Proof.
  destruct (run_perform_all (Put name v :: later) k s Hok) as (rs & s2 & E & Hok2 & Hv).
  destruct (run_on_message name (format_double v) false k s2) as (s3 & E3 & Hst & _).
  exists rs, s2, s3. split_and!; [done|done|done|]. destruct Hst as [Hst _]. unfold message_store in Hst.
  rewrite Hsub, Hjson in Hst. fold (StateStore.reload v) in Hst. rewrite Hw in Hst. by destruct Hst as (-> & _).
Qed.

End Messages.

(** ** Witnesses *)

#[local] Existing Instance demo_publisher.
#[local] Existing Instance demo_publisher_spec.

(** The demo configuration, subscribed to everything. *)
Definition echo_cfg : Config.Config :=
  Config.set_subscribe_enabled true (Config.set_subscribe_topics [B"#"] demo_cfg).

Definition demo_inputs : list input :=
  [Request (demo_request (B"PUT") (B"/metric/t") (B"20.5") (B"s3cret")); Message (B"a") (B"1e3") true;
   Message (B"b") (B"on") false; Request (demo_request (B"DELETE") (B"/metric/t") [] (B"s3cret"))].

Lemma restart_recovers_witness :
  exists k' s', run (handle_all echo_cfg (B"1.0") demo_inputs) demo_sock demo_server = Some (tt, k', s') /\
    restart echo_cfg s' = inl {[ B"a" := Fin false 8796093022208000 (-43) ]}.
Proof.
  do 2 eexists. split; [vm_compute; reflexivity|].
  etransitivity; [eapply (restart_recovers echo_cfg (B"1.0") demo_inputs demo_sock _ demo_server)|].
  - vm_compute. reflexivity.
  - split; [reflexivity|]. split; [apply demo_ok|]. right. split; reflexivity.
  - vm_compute. reflexivity.
  - vm_compute. reflexivity.
Defined.

(** 1/3 comes back as 0.333333333, after the DELETE. *)
Definition third : double := Fin false 6004799503160661 (-54).

Lemma late_echo_wins_witness :
  exists w s2 s3,
    StateStore.reload third = Some w /\ w <> third /\
    run (echo echo_cfg (Put (B"t") third)) demo_sock s2 = Some (tt, demo_sock, s3) /\
    values s2 !! B"t" = None /\ values s3 !! B"t" = Some w.
Proof.
  destruct (StateStore.reload third) as [w|] eqn:E; [|vm_compute in E; discriminate E].
  destruct (late_echo_wins echo_cfg (B"t") third w [Del (B"t")] demo_sock demo_server) as (rs & s2 & s3 & H1 & H2 & H3 & H4);
    [apply demo_ok|vm_compute; reflexivity|vm_compute; reflexivity|exact E|].
  exists w, s2, s3. split; [reflexivity|]. split; [intros ->; vm_compute in E; discriminate E|]. split; [exact H3|]. split.
  - rewrite H2. apply lookup_delete_eq.
  - rewrite H4. apply lookup_insert_eq.
Defined.

End Messages.
