(* ===== verification/Pipeline.v ===== *)
(** * From the broker to the webhook: the components together

    The receiving side of the broker client (Mqtt.v with its mailbox), the
    message handler (Messages.v) run by the subscribe worker one operation at a
    time, the operations of the HTTP threads on the shared state in between,
    and the webhook client (Webhook.v), as one system.  The counters of the
    parts are their own here; the theorems are about the messages, from
    what the broker sent ([Mqtt.arrived]) to what was POSTed. *)

From Stdlib Require Import Relation_Operators Wellfounded.
From S2P Require Import Prelude CLib Double TextUtil JsonUtil Config State Metrics Threads Mailbox Prog HttpClient Webhook Mqtt Publisher Server Messages.

Module Pipeline.

Section Pipeline.
Context {M : Type} `{!Publisher M}.
Context (cfg : Config.Config).

(** ** State *)

(** [handler]: what is left of the message handler while the subscribe worker runs it. *)
Record pipeline := {
  broker : Mqtt.client;
  handler : option (Server.prog unit);
  shared : Server.server (M := M);
  hook : Webhook.client
}.

Definition start (m : Metrics.metrics) (s : Server.server) : pipeline :=
  {| broker := Mqtt.start cfg m; handler := None; shared := s; hook := Webhook.start cfg m |}.

Definition on_incoming (m : Mqtt.incoming) : Server.prog unit :=
  Messages.on_message cfg (Mqtt.in_topic m) (Mqtt.in_payload m) (Mqtt.in_retained m).

(** The job an operation hands to the webhook client. *)
Definition enqueue_of {A : Type} (o : Server.op A) : option Webhook.Job :=
  match o with Server.Enqueue j => Some j | _ => None end.

(** The handler has no connection of its own. *)
Definition no_sock : Server.sock :=
  {| Server.head_start := 0; Server.body_start := 0; Server.events := []; Server.sends := [];
     Server.sent := []; Server.closed := 0 |}.

(** ** Steps *)

Inductive event :=
| Broker (e : Mqtt.event)                  (* every step of the broker client *)
| Handle                                   (* the next operation of the message handler *)
| Other (A : Type) (o : Server.op A) (k : Server.sock)   (* one of an HTTP thread *)
| Hook (e : Webhook.event).                (* every step of the webhook client but [enqueue]'s test *)

(** A program step; an [Enqueue] makes [enqueue]'s test of the flag, whose push is a
    step of its own. *)
Definition handle (st : pipeline) : option pipeline :=
  match handler st with
  | Some (Do o rest) =>
      if decide (Webhook.checked (hook st) = None) then
        '(a, _, s) ← Server.exec o no_sock (shared st);
        Some {| broker := broker st; handler := Some (rest a); shared := s;
                hook := match enqueue_of o with Some j => Webhook.enqueue_check j (hook st) | None => hook st end |}
      else None
  | _ => None
  end.

Definition handler_returned (st : pipeline) : bool :=
  match handler st with Some (Ret _) => bool_decide (Webhook.checked (hook st) = None) | _ => false end.

Definition exec (e : event) (st : pipeline) : option pipeline :=
  match e with
  | Broker (Mqtt.Inbox Mailbox.HandlerDone) =>
      ensure handler_returned st else None in
      b ← Mqtt.exec cfg (Mqtt.Inbox Mailbox.HandlerDone) (broker st);
      Some {| broker := b; handler := None; shared := shared st; hook := hook st |}
  | Broker e =>
      b ← Mqtt.exec cfg e (broker st);
      Some {| broker := b;
              handler := match e, Mailbox.worker (Mqtt.inbox b) with
                         | Mqtt.Inbox Mailbox.Turn, Mailbox.PBusy m => Some (on_incoming m)
                         | _, _ => handler st
                         end;
              shared := shared st; hook := hook st |}
  | Handle => handle st
  | Other A o k =>
      match enqueue_of o with
      | Some _ => None
      | None =>
          '(_, _, s) ← Server.exec o k (shared st);
          Some {| broker := broker st; handler := handler st; shared := s; hook := hook st |}
      end
  | Hook (Webhook.Enqueue _) => None
  | Hook e =>
      h ← Webhook.exec cfg e (hook st);
      Some {| broker := broker st; handler := handler st; shared := shared st; hook := h |}
  end.

Definition reachable (m : Metrics.metrics) (s : Server.server) (st : pipeline) : Prop :=
  rtc (step_by exec (fun _ => True)) (start m s) st.

(** ** What the webhook should get *)

Definition job_of (m : Mqtt.incoming) : Webhook.Job :=
  {| Webhook.job_topic := Mqtt.in_topic m; Webhook.job_payload := Mqtt.in_payload m;
     Webhook.job_retained := Mqtt.in_retained m |}.

Definition jobs_of (ms : list Mqtt.incoming) : list Webhook.Job :=
  concat (map (fun m => if Messages.forwarded cfg (Mqtt.in_topic m) then [job_of m] else []) ms).

Lemma jobs_of_app ms ms' : jobs_of (ms ++ ms') = jobs_of ms ++ jobs_of ms'.
Proof. unfold jobs_of. by rewrite map_app, concat_app. Qed.

(** ** Lemmas *)

(** The program hands over exactly [l], in this order, whatever it is answered. *)
Fixpoint enqueues (p : Server.prog unit) (l : list Webhook.Job) : Prop :=
  match p with
  | Ret _ => l = []
  | Do o rest =>
      match enqueue_of o with
      | Some j => exists l', l = j :: l' /\ forall a, enqueues (rest a) l'
      | None => forall a, enqueues (rest a) l
      end
  end.

Lemma enqueues_bind p f l l' :
  enqueues p l -> (forall u, enqueues (f u) l') -> enqueues (bind p f) (l ++ l').
Proof.
  intros Hp Hf. revert l Hp. induction p as [u|A o rest IH]; intros l Hp; cbn in *; [by subst|].
  destruct (enqueue_of o) as [j|]; [|by intros a; apply IH].
  destruct Hp as (l0 & -> & Hp). exists (l0 ++ l'). split; [done|]. intros a. by apply IH.
Qed.

Lemma save_state_file_enqueues : enqueues (Messages.save_state_file cfg) [].
Proof. unfold Messages.save_state_file. destruct (Config.state_enabled cfg); [|done]. by intros [[] err]. Qed.

Lemma update_state_enqueues topic payload : enqueues (Messages.update_state cfg topic payload) [].
Proof.
  unfold Messages.update_state. pose proof save_state_file_enqueues.
  destruct (Messages.is_json_topic cfg topic).
  - destruct (JsonUtil.flatten_json_object payload) as [leaves|]; [|done].
    induction leaves as [|leaf leaves IH]; cbn; [done|]. by intros _.
  - destruct (parse_double payload); [|done]. cbn. by intros _.
Qed.

Lemma on_incoming_enqueues m : enqueues (on_incoming m) (jobs_of [m]).
Proof.
  unfold on_incoming, Messages.on_message, jobs_of. cbn [map concat]. rewrite app_nil_r.
  apply (enqueues_bind _ _ []); [destruct (Messages.subscribed _ _); [apply update_state_enqueues|done]|].
  intros _. destruct (Messages.forwarded _ _); [|done]. cbn. by exists [].
Qed.

(** What a step of the broker client does to its mailbox, short of the handler's return:
    nothing to the message in the worker's hands, or the worker takes the next one. *)
Definition kept (b b' : Mailbox.box Mqtt.incoming) : Prop :=
  Mailbox.busy (Mailbox.worker b') = Mailbox.busy (Mailbox.worker b) /\ Mailbox.popped b' = Mailbox.popped b /\
  (Mailbox.pushed b = Mailbox.popped b ++ Mailbox.items b -> Mailbox.pushed b' = Mailbox.popped b' ++ Mailbox.items b').

Definition took (m : Mqtt.incoming) (b b' : Mailbox.box Mqtt.incoming) : Prop :=
  Mailbox.busy (Mailbox.worker b) = [] /\ Mailbox.worker b' = Mailbox.PBusy m /\
  Mailbox.popped b' = Mailbox.popped b ++ [m] /\
  (Mailbox.pushed b = Mailbox.popped b ++ Mailbox.items b -> Mailbox.pushed b' = Mailbox.popped b' ++ Mailbox.items b').

Lemma turn_step b b' :
  Mailbox.worker_turn b = Some b' ->
  (kept b b' /\ Mailbox.busy (Mailbox.worker b') = []) \/ exists m, took m b b'.
Proof.
  unfold Mailbox.worker_turn, kept, took. destruct (Mailbox.worker b) eqn:Ew; try done.
  - intros [= <-]. left. cbn. by destruct (Mailbox.running b).
  - destruct (Mailbox.items b) as [|m rest] eqn:Ei; intros [= <-].
    + left. cbn. rewrite Ei. by destruct (Mailbox.running b).
    + right. exists m. cbn. split_and!; try done. intros ->. by rewrite <- app_assoc.
  - intros [= <-]. by left.
Qed.

Lemma wake_busy (w : Mailbox.wpc Mqtt.incoming) : Mailbox.busy (Mailbox.wake w) = Mailbox.busy w.
Proof. by destruct w. Qed.

Lemma kept_refl b : kept b b.
Proof. done. Qed.

Lemma broker_step e (s s' : Mqtt.client) :
  Mqtt.exec cfg e s = Some s' -> e <> Mqtt.Inbox Mailbox.HandlerDone ->
  (kept (Mqtt.inbox s) (Mqtt.inbox s') /\
   (e = Mqtt.Inbox Mailbox.Turn -> Mailbox.busy (Mailbox.worker (Mqtt.inbox s')) = [])) \/
  exists m, e = Mqtt.Inbox Mailbox.Turn /\ took m (Mqtt.inbox s) (Mqtt.inbox s').
Proof.
  intros H He. destruct e as [m|n t|i|i ok|i|i|i a b|i|m|e| | | | |].
  10: { apply Mqtt.exec_inbox in H as (b & Eb & -> & Hok). destruct e; try done; cbn in Eb |- *.
        - left. split; [|done]. case_decide; [|done]. injection Eb as <-. unfold kept. cbn. by rewrite wake_busy.
        - destruct (turn_step _ _ Eb) as [[Hk Hb]|[m Hm]]; [left|right; by exists m]. done.
        - left. split; [|done]. destruct (Mailbox.worker (Mqtt.inbox s)) eqn:Ew; try done. injection Eb as <-.
          unfold kept. cbn. by rewrite Ew. }
  all: left; split; [|done].
  all: try (apply Mqtt.exec_inbox_same in H as [-> _]; [done|exact I]); cbn [Mqtt.exec] in H.
  - destruct (_ && _); [|done]. injection H as <-. unfold Mqtt.message_arrived, Mailbox.offer.
    destruct (_ <=? _)%Z; [done|]. unfold kept. cbn. split_and!; try done. intros ->. by rewrite app_assoc.
  - destruct (Mqtt.running s); injection H as <-; [|done]. unfold kept. cbn. unfold Mailbox.clear_running.
    by destruct (Mailbox.running _).
  - case_decide; [|done]. injection H as <-. unfold kept. cbn. by rewrite wake_busy.
  - case_decide; [|done]. destruct (forallb _ _); [|done]. by injection H as <-.
  - case_decide; [|done]. destruct (Mailbox.worker _); try done. by injection H as <-.
  - case_decide; [|done]. by injection H as <-.
Qed.

(** A step of the webhook client other than an [enqueue]. *)
Lemma hook_step e (h h' : Webhook.client) :
  Webhook.exec cfg e h = Some h' -> (forall j, e <> Webhook.Enqueue j) ->
  (exists j, Webhook.checked h = Some j /\ Webhook.checked h' = None /\
     Mailbox.running (Webhook.queue h') = Mailbox.running (Webhook.queue h) /\
     (Mailbox.pushed (Webhook.queue h') = Mailbox.pushed (Webhook.queue h) ++ [j] /\ Webhook.dropped h' = Webhook.dropped h \/
      Mailbox.pushed (Webhook.queue h') = Mailbox.pushed (Webhook.queue h) /\
      exists depth, Webhook.dropped h' = Webhook.dropped h ++ [(j, depth)])) \/
  (Webhook.checked h' = Webhook.checked h /\ Mailbox.pushed (Webhook.queue h') = Mailbox.pushed (Webhook.queue h) /\
   Webhook.dropped h' = Webhook.dropped h /\
   (Mailbox.running (Webhook.queue h') = true -> Mailbox.running (Webhook.queue h) = true)).
Proof.
  intros H He. destruct e as [j| |epoch curl|e]; cbn [Webhook.exec] in H; [by destruct (He j)|..].
  - left. destruct (Webhook.checked h) as [j|]; [|done]. destruct (Mailbox.lock_free _); [|done]. injection H as <-.
    exists j. unfold Webhook.enqueue_push, Mailbox.offer. destruct (_ <=? _)%Z; cbn; split_and!; auto.
    right. split; [done|]. by eexists.
  - right. destruct (Mailbox.worker (Webhook.queue h)) eqn:Ew; try done. unfold Mailbox.worker_done in H.
    rewrite Ew in H. injection H as <-. done.
  - right. apply (Webhook.exec_internal cfg e) in H as (b & Hb & -> & Hok). cbn. split; [done|]. split; [|split; [done|]].
    + by destruct (Webhook.internal_step _ _ _ _ Hb Hok).
    + intros Hr. destruct (Mailbox.running (Webhook.queue h)) eqn:E; [done|].
      assert (Hst : e = Mailbox.Stop \/ e <> Mailbox.Stop) by (destruct e; (by left) || by right).
      destruct Hst as [->|Hst]; [|by rewrite (Mailbox.exec_running _ _ _ _ Hst Hb), E in Hr].
      cbn in Hb. case_decide; [|done]. injection Hb as <-. unfold Mailbox.clear_running in Hr. by rewrite E, ?E in Hr.
Qed.

(** ** Invariant *)

(** The jobs of the messages taken so far: settled (accepted by the webhook client, or
    refused by its full queue, or ignored because it was stopped), in [enqueue], and
    still to be handed over by the handler. *)
Record ledger (st : pipeline) (settled ignored rest : list Webhook.Job) : Prop := {
  le_jobs : jobs_of (Mailbox.popped (Mqtt.inbox (broker st)))
            = settled ++ option_list (Webhook.checked (hook st)) ++ rest;
  le_merge : merges settled (Mailbox.pushed (Webhook.queue (hook st))) (map fst (Webhook.dropped (hook st)) ++ ignored);
  le_ignored : Mailbox.running (Webhook.queue (hook st)) = true \/ is_Some (Webhook.checked (hook st)) -> ignored = [];
  le_rest : match handler st with
            | Some p => enqueues p rest
            | None => rest = [] /\ Webhook.checked (hook st) = None
            end
}.

Record pipeline_inv (m0 : Metrics.metrics) (st : pipeline) : Prop := {
  pi_fifo : Mailbox.pushed (Mqtt.inbox (broker st))
            = Mailbox.popped (Mqtt.inbox (broker st)) ++ Mailbox.items (Mqtt.inbox (broker st));
  pi_hook : Webhook.client_inv cfg m0 (hook st);
  pi_busy : Mailbox.busy (Mailbox.worker (Mqtt.inbox (broker st))) = [] -> handler st = None;
  pi_ledger : exists settled ignored rest, ledger st settled ignored rest
}.

Lemma pipeline_start_inv m0 s0 : Webhook.counters_ok m0 -> pipeline_inv m0 (start m0 s0).
Proof.
  intros Hm. split; [|by apply Webhook.webhook_start_inv|done|].
  - cbn. by destruct (Mqtt.needs_subscribe_worker cfg).
  - exists [], [], []. split; cbn; try done.
    + by destruct (Mqtt.needs_subscribe_worker cfg).
    + destruct (Config.webhook_enabled cfg); constructor.
Qed.

Lemma exec_broker e st :
  e <> Mqtt.Inbox Mailbox.HandlerDone ->
  exec (Broker e) st =
  b ← Mqtt.exec cfg e (broker st);
  Some {| broker := b;
          handler := match e, Mailbox.worker (Mqtt.inbox b) with
                     | Mqtt.Inbox Mailbox.Turn, Mailbox.PBusy m => Some (on_incoming m) | _, _ => handler st end;
          shared := shared st; hook := hook st |}.
Proof. by destruct e as [| | | | | | | | |[]| | | | |]. Qed.

Definition handler_done (e : Mqtt.event) : Prop :=
  match e with Mqtt.Inbox Mailbox.HandlerDone => True | _ => False end.
#[local] Instance handler_done_dec e : Decision (handler_done e).
Proof. by destruct e as [| | | | | | | | |[]| | | | |]; first [left; exact I|right; intros []]. Defined.

(** A step of the broker client is one of its own; the webhook client stays. *)
Lemma exec_broker_parts e st st' :
  exec (Broker e) st = Some st' -> Mqtt.exec cfg e (broker st) = Some (broker st') /\ hook st' = hook st.
Proof.
  destruct (decide (handler_done e)) as [Hd|Hd].
  - destruct e as [| | | | | | | | |[]| | | | |]; try done. cbn [exec]. destruct (handler_returned st); [|done].
    destruct (Mqtt.exec cfg _ (broker st)) as [b|]; [|done]. by intros [= <-].
  - rewrite exec_broker by (by intros ->; apply Hd). destruct (Mqtt.exec cfg e (broker st)) as [b|]; [|done]. by intros [= <-].
Qed.

(** What it does to the message in the worker's hands and the handler: the handler has
    returned, or nothing, or the worker has taken a message. *)
Lemma exec_broker_cases e st st' :
  exec (Broker e) st = Some st' ->
  shared st' = shared st /\ hook st' = hook st /\
  let b := Mqtt.inbox (broker st) in
  let b' := Mqtt.inbox (broker st') in
  (handler st = Some (Ret tt) /\ Webhook.checked (hook st) = None /\ handler st' = None /\
   b' = Mailbox.set_worker Mailbox.PLoop b) \/
  (handler st' = handler st /\ kept b b') \/
  (exists m, handler st' = Some (on_incoming m) /\ took m b b').
Proof.
  intros H. destruct (decide (handler_done e)) as [Hd|Hd].
  - destruct e as [| | | | | | | | |[]| | | | |]; try done. cbn [exec] in H. destruct (handler_returned st) eqn:Er; [|done].
    unfold handler_returned in Er. destruct (handler st) as [[[]|]|]; try done. apply bool_decide_eq_true in Er.
    cbn [Mqtt.exec Mailbox.exec] in H. unfold Mailbox.worker_done in H.
    destruct (Mailbox.worker (Mqtt.inbox (broker st))); try done. injection H as <-. split; [done|]. split; [done|]. by left.
  - assert (Hne : e <> Mqtt.Inbox Mailbox.HandlerDone) by (by intros ->; apply Hd).
    rewrite exec_broker in H by done. destruct (Mqtt.exec cfg e (broker st)) as [b|] eqn:He; [|done]. injection H as <-.
    split; [done|]. split; [done|]. cbn [broker handler].
    destruct (broker_step _ _ _ He Hne) as [[Hkept Hturn]|(m & -> & Htook)]; right; [left|right].
    + split; [|done]. destruct e as [| | | | | | | | |[]| | | | |]; try done. specialize (Hturn eq_refl).
      by destruct (Mailbox.worker (Mqtt.inbox b)).
    + exists m. split; [|done]. by destruct Htook as (_ & -> & _).
Qed.

Lemma broker_inv m0 e st st' : pipeline_inv m0 st -> exec (Broker e) st = Some st' -> pipeline_inv m0 st'.
Proof.
  intros [Hf Hh Hb (settled & ignored & rest & [Hj Hm Hi Hr])] H.
  apply exec_broker_cases in H as (_ & Hhook & [(E & Hck & E' & Eb)|[[E (Hbusy & Hpop & Hfifo)]|(m & E & Hbusy & Hw & Hpop & Hfifo)]]).
  - rewrite E in Hr. cbn in Hr. subst rest. split; rewrite ?Hhook, ?Eb; [done..|].
    exists settled, ignored, []. split; rewrite ?Hhook, ?Eb; try done. by rewrite E'.
  - split; rewrite ?Hhook, ?E; [by apply Hfifo|done|by rewrite Hbusy|].
    exists settled, ignored, rest. split; rewrite ?Hhook, ?Hpop, ?E; done.
  - specialize (Hb Hbusy). rewrite Hb in Hr. destruct Hr as [-> Hc].
    split; rewrite ?Hhook, ?E, ?Hw; [by apply Hfifo|done|done|].
    exists settled, ignored, (jobs_of [m]). split; rewrite ?Hhook, ?E; [|done|done|apply on_incoming_enqueues].
    by rewrite Hpop, jobs_of_app, Hj, Hc, app_nil_r.
Qed.

(** A step of the webhook client is one of its own, but no [enqueue]; nothing else moves. *)
Lemma exec_hook e st st' :
  exec (Hook e) st = Some st' ->
  exists h, Webhook.exec cfg e (hook st) = Some h /\ (forall j, e <> Webhook.Enqueue j) /\
    st' = {| broker := broker st; handler := handler st; shared := shared st; hook := h |}.
Proof.
  cbn [exec]. intros H. destruct e; try done;
    (match type of H with context [?x ≫= _] => destruct x as [h|] eqn:Eb; [|done] end); injection H as <-; by exists h.
Qed.

(** A step of the handler: one operation, and the test of the flag if it is an [Enqueue]. *)
Lemma exec_handle st st' :
  exec Handle st = Some st' ->
  exists A (o : Server.op A) rest a k s,
    handler st = Some (Do o rest) /\ Webhook.checked (hook st) = None /\ Server.exec o no_sock (shared st) = Some (a, k, s) /\
    st' = {| broker := broker st; handler := Some (rest a); shared := s;
             hook := match enqueue_of o with Some j => Webhook.enqueue_check j (hook st) | None => hook st end |}.
Proof.
  cbn [exec]. unfold handle. destruct (handler st) as [[|A o rest]|]; try done. case_decide; [|done].
  destruct (Server.exec o no_sock (shared st)) as [[[a k] s]|] eqn:E; [|done]. intros [= <-]. by exists A, o, rest, a, k, s.
Qed.

(** An operation of an HTTP thread. *)
Lemma exec_other A (o : Server.op A) k st st' :
  exec (Other A o k) st = Some st' ->
  exists s, st' = {| broker := broker st; handler := handler st; shared := s; hook := hook st |}.
Proof.
  cbn [exec]. destruct (enqueue_of o); [done|]. destruct (Server.exec o k (shared st)) as [[[??]s]|]; [|done].
  intros [= <-]. by exists s.
Qed.

Lemma handle_inv m0 st st' : pipeline_inv m0 st -> exec Handle st = Some st' -> pipeline_inv m0 st'.
Proof.
  intros [Hf Hh Hb (settled & ignored & rest & [Hj Hm Hi Hr])] H.
  apply exec_handle in H as (A & o & k & a & k' & s & Eh & Hc & _ & ->). rewrite Eh in Hr, Hb. cbn in Hr.
  rewrite Hc in Hj. cbn [option_list app] in Hj. destruct (enqueue_of o) as [j|].
  - destruct Hr as (l & -> & Hr).
    assert (Hh' : Webhook.client_inv cfg m0 (Webhook.enqueue_check j (hook st))).
    { eapply (Webhook.webhook_exec_inv cfg m0 (Webhook.Enqueue j)); [exact Hh|]. cbn. by rewrite decide_True. }
    split; cbn [broker handler shared hook]; [done|done|by intros E; specialize (Hb E)|].
    unfold Webhook.enqueue_check in *. destruct (Mailbox.running (Webhook.queue (hook st))) eqn:Er.
    + exists settled, ignored, l. split; cbn; [done|done| |by apply Hr]. intros _. apply Hi. by left.
    + exists (settled ++ [j]), (ignored ++ [j]), l. split; cbn [broker handler shared hook].
      * rewrite Hc. cbn. by rewrite <- app_assoc.
      * rewrite app_assoc. by apply merges_app_right.
      * rewrite Er, Hc. by intros [?|[??]].
      * by apply Hr.
  - split; cbn [broker handler shared hook]; [done|done|by intros E; specialize (Hb E)|].
    exists settled, ignored, rest. split; cbn [broker handler shared hook]; [by rewrite Hc|done|done|by apply Hr].
Qed.

Lemma hook_inv m0 e st st' : pipeline_inv m0 st -> exec (Hook e) st = Some st' -> pipeline_inv m0 st'.
Proof.
  intros [Hf Hh Hb (settled & ignored & rest & [Hj Hm Hi Hr])] H.
  apply exec_hook in H as (h & He & Hne & ->). pose proof (Webhook.webhook_exec_inv _ _ _ _ _ Hh He) as Hh'.
  split; cbn [broker handler shared hook]; [done..|].
  destruct (hook_step _ _ _ He Hne) as [(j & Hc & Hc' & Hrun & Hcase)|(Hc & Hp & Hd & Hrun)].
  - rewrite Hc in Hj. assert (ignored = []) as -> by (apply Hi; right; rewrite Hc; by eexists).
    destruct (handler st) as [p|] eqn:Eh; [|destruct Hr as [_ Hr]; congruence].
    exists (settled ++ [j]), [], rest. split; cbn [broker handler shared hook]; try done; rewrite ?Eh; try done.
    + rewrite Hj, Hc'. cbn. by rewrite <- app_assoc.
    + rewrite app_nil_r in *. destruct Hcase as [[-> ->]|[-> [depth ->]]]; [by apply merges_app_left|].
      rewrite map_app. by apply merges_app_right.
  - exists settled, ignored, rest. split; cbn [broker handler shared hook].
    + by rewrite Hc.
    + by rewrite Hp, Hd.
    + rewrite Hc. intros [?|?]; apply Hi; auto.
    + by rewrite Hc.
Qed.

Lemma pipeline_reachable_inv m0 s0 st : Webhook.counters_ok m0 -> reachable m0 s0 st -> pipeline_inv m0 st.
Proof.
  intros Hm H. eapply (rtc_invariant _ (pipeline_inv m0)); [|exact H|by apply pipeline_start_inv].
  intros a b (e & _ & He) Hi. destruct e as [e| |A o k|e].
  - by eapply broker_inv.
  - by eapply handle_inv.
  - apply exec_other in He as [s ->].
    destruct Hi as [? ? ? (settled & ignored & rest & [? ? ? ?])]. split; [done..|]. by exists settled, ignored, rest.
  - by eapply hook_inv.
Qed.

(** ** Lemmas: everything taken is settled *)

(** The operations of the handler; none of them blocks. *)
Definition handles {A : Type} (o : Server.op A) : bool :=
  match o with Server.StateSet _ _ | Server.StateSave _ | Server.LogLine _ _ | Server.Enqueue _ => true | _ => false end.

Lemma handles_exec {A : Type} (o : Server.op A) k (s : Server.server) :
  handles o = true -> exists a s', Server.exec o k s = Some (a, k, s').
Proof.
  intros Ho. destruct o; try done; cbn [Server.exec]; try (destruct (StateStore.save _ _ _ _) as [[??]?]); by do 2 eexists.
Qed.

Lemma on_incoming_handles m : all_ops (@handles) (on_incoming m).
Proof.
  unfold on_incoming, Messages.on_message. apply all_ops_bind.
  2:{ intros _. by destruct (Messages.forwarded _ _); repeat split. }
  assert (Hs : all_ops (@handles) (Messages.save_state_file cfg)).
  { unfold Messages.save_state_file. destruct (Config.state_enabled cfg); [|done]. split; [done|]. by intros [[] err]; repeat split. }
  destruct (Messages.subscribed _ _); [|done]. unfold Messages.update_state. destruct (Messages.is_json_topic _ _).
  - destruct (JsonUtil.flatten_json_object _) as [leaves|]; [|by repeat split].
    induction leaves as [|leaf leaves IH]; cbn; [done|]. by split.
  - destruct (parse_double _); [by split|by repeat split].
Qed.

Record handler_ok (st : pipeline) : Prop := {
  ho_busy : handler st = None -> Mailbox.busy (Mailbox.worker (Mqtt.inbox (broker st))) = [];
  ho_ops : match handler st with Some p => all_ops (@handles) p | None => True end
}.

Lemma handler_exec_ok e st st' : handler_ok st -> exec e st = Some st' -> handler_ok st'.
Proof.
  intros [Hb Ho] H. destruct e as [e| |A o k|e].
  - apply exec_broker_cases in H as (_ & _ & [(_ & _ & E' & Eb)|[[E (Hbusy & _)]|(m & E & _)]]).
    + split; [by rewrite Eb|by rewrite E'].
    + split; rewrite E; [by rewrite Hbusy|done].
    + split; rewrite E; [done|apply on_incoming_handles].
  - apply exec_handle in H as (A & o & rest & a & k & s & Eh & _ & _ & ->). rewrite Eh in Ho. split; [done|]. apply Ho.
  - by apply exec_other in H as [s ->].
  - by apply exec_hook in H as (h & _ & _ & ->).
Qed.

(** The parts of a reachable system are reachable on their own. *)
Lemma reachable_parts m0 s0 st :
  reachable m0 s0 st -> Mqtt.reachable cfg m0 (broker st) /\ Webhook.reachable cfg m0 (hook st) /\ handler_ok st.
Proof.
  intros H. refine (rtc_invariant _ (fun st => Mqtt.reachable cfg m0 (broker st) /\ Webhook.reachable cfg m0 (hook st) /\ handler_ok st)
    _ _ _ H _).
  2:{ split; [apply rtc_refl|split; [apply rtc_refl|]]. split; [|done]. intros _. cbn. by destruct (Mqtt.needs_subscribe_worker cfg). }
  intros a b (e & _ & He) (Hm & Hw & Ho). assert (Hk := handler_exec_ok _ _ _ Ho He).
  enough (Mqtt.reachable cfg m0 (broker b) /\ Webhook.reachable cfg m0 (hook b)) as [??] by done.
  destruct e as [e| |A o k|e].
  - apply exec_broker_parts in He as [He ->]. split; [|done]. eapply rtc_r; [exact Hm|]. by exists e.
  - apply exec_handle in He as (A & o & rest & x & k & s & _ & Hc & _ & ->). cbn [broker hook]. split; [done|].
    destruct (enqueue_of o) as [j|]; [|done]. eapply rtc_r; [exact Hw|]. exists (Webhook.Enqueue j). split; [done|].
    cbn. by rewrite decide_True.
  - by apply exec_other in He as [s ->].
  - apply exec_hook in He as (h & He & _ & ->). split; [done|]. eapply rtc_r; [exact Hw|]. by exists e.
Qed.

(** The end of the messages received: none arrives, nothing is stopped, nothing is lucky. *)
Definition delivering (e : event) : Prop :=
  match e with
  | Broker (Mqtt.Inbox e) => Mailbox.own_step e
  | Handle => True
  | Hook e => Webhook.delivering e
  | _ => False
  end.

(** What is left of the handler after one operation. *)
Definition rest_of (q p : option (Server.prog unit)) : Prop :=
  match p with Some (Do o rest) => exists a, q = Some (rest a) | _ => False end.

Lemma rest_of_wf : well_founded rest_of.
Proof.
  intros [p|]; [|by constructor]. induction p as [r|A o rest IH]; constructor; [done|]. intros q [a ->]. apply IH.
Qed.

(** The work left: of the subscribe worker, then of the handler, then of the webhook
    client, which the handler can give more to do. *)
Definition measure (st : pipeline) : nat * (option (Server.prog unit) * nat) :=
  (Mailbox.work (Mqtt.inbox (broker st)), (handler st, Webhook.todo (hook st))).

Definition order := slexprod _ _ lt (slexprod _ _ rest_of lt).

Lemma order_wf : well_founded order.
Proof. apply wf_slexprod; [exact lt_wf|]. apply wf_slexprod; [exact rest_of_wf|exact lt_wf]. Qed.

Record live (m0 : Metrics.metrics) (s0 : Server.server) (arrived : list Mqtt.incoming)
    (refused : list (Mqtt.incoming * nat)) (st : pipeline) : Prop := {
  lv_reachable : reachable m0 s0 st;
  lv_broker : Mqtt.running (broker st) = true;
  lv_hook : Mailbox.running (Webhook.queue (hook st)) = true;
  lv_arrived : Mqtt.arrived (broker st) = arrived;
  lv_refused : Mqtt.refused (broker st) = refused
}.

Lemma live_step m0 s0 arrived refused e st st' :
  live m0 s0 arrived refused st -> delivering e -> exec e st = Some st' ->
  live m0 s0 arrived refused st' /\ order (measure st') (measure st).
Proof.
  intros [Hreach Hr Hw Hp Hf] Hok H.
  assert (Hreach' : reachable m0 s0 st') by (eapply rtc_r; [exact Hreach|by exists e]).
  destruct e as [e| |A o k|e]; try done.
  - destruct e as [| | | | | | | | |e| | | | |]; try done. apply exec_broker_parts in H as [H Hh].
    apply Mqtt.exec_inbox in H as (b & Hb & E & _). destruct (Mailbox.own_step_work 0 e _ _ Hr Hok Hb) as (H1 & H2 & H3 & _).
    split.
    + split; [done|unfold Mqtt.running; by rewrite E|by rewrite Hh|by rewrite E..].
    + unfold measure. rewrite E. by apply left_slex.
  - apply exec_handle in H as (A & o & rest & a & k & s & Eh & _ & _ & ->). split.
    + split; [done..| |done|done]. cbn. destruct (enqueue_of o) as [j|]; [|done]. unfold Webhook.enqueue_check.
      by destruct (Mailbox.running (Webhook.queue (hook st))) eqn:E.
    + unfold measure. cbn [broker handler]. rewrite Eh. apply right_slex, left_slex. by exists a.
  - apply exec_hook in H as (h & Hh & _ & ->). destruct (Webhook.delivering_step cfg e _ _ Hw Hok Hh) as (H1 & H2 & _).
    split; [by split|]. by apply right_slex, right_slex.
Qed.

(** Nothing is left to do. *)
Definition idle (st : pipeline) : Prop :=
  Mailbox.drained (Mqtt.inbox (broker st)) /\ handler st = None /\
  Mailbox.drained (Webhook.queue (hook st)) /\ Webhook.checked (hook st) = None.

Lemma live_progress m0 s0 arrived refused st :
  Webhook.counters_ok m0 -> Mqtt.needs_subscribe_worker cfg = true -> live m0 s0 arrived refused st ->
  idle st \/ exists st', step_by exec delivering st st'.
Proof.
  intros Hm Hn [Hreach Hr Hw _ _]. destruct (reachable_parts m0 s0 st Hreach) as (Hrb & Hrh & [Hbusy Hops]).
  destruct (Webhook.delivering_progress cfg (hook st) (Webhook.webhook_box_inv cfg m0 _ Hrh) Hw) as [[Hd Hc]|(h & e & Hok & He)].
  2:{ right. eexists. exists (Hook e). split; [exact Hok|]. destruct e; try done; cbn [exec]; by rewrite He. }
  destruct (handler st) as [[[]|A o k]|] eqn:Eh.
  - right. pose proof (pi_busy _ _ (pipeline_reachable_inv m0 s0 st Hm Hreach)) as Hb. rewrite Eh in Hb.
    destruct (Mailbox.worker (Mqtt.inbox (broker st))) eqn:Ew; try (by specialize (Hb eq_refl)).
    eexists. exists (Broker (Mqtt.Inbox Mailbox.HandlerDone)). split; [done|]. cbn [exec]. unfold handler_returned.
    rewrite Eh, bool_decide_true by done. cbn [Mqtt.exec Mailbox.exec]. unfold Mailbox.worker_done. by rewrite Ew.
  - right. destruct Hops as [Ho _]. destruct (handles_exec o no_sock (shared st) Ho) as (a & s & E).
    eexists. exists Handle. split; [done|]. cbn [exec]. unfold handle. rewrite Eh, decide_True, E by done. done.
  - pose proof (Mqtt.inbox_reachable_inv cfg m0 (broker st) Hn Hrb Hr) as Hi.
    destruct (Mailbox.own_progress 0 _ (Mailbox.bi_awake _ _ Hi) (Mailbox.bi_exit _ _ Hi) Hr) as [Hdr|(e & b & Hok & He)];
      [by left|]. right. destruct e; try done.
    + eexists. exists (Broker (Mqtt.Inbox Mailbox.NotifyOne)). split; [done|]. rewrite exec_broker by done. cbn [Mqtt.exec]. by rewrite He.
    + eexists. exists (Broker (Mqtt.Inbox Mailbox.Turn)). split; [done|]. rewrite exec_broker by done. cbn [Mqtt.exec]. by rewrite He.
    + specialize (Hbusy eq_refl). cbn [Mailbox.exec] in He. unfold Mailbox.worker_done in He.
      by destruct (Mailbox.worker (Mqtt.inbox (broker st))).
Qed.

(** The messages the broker sent, as the jobs made of those that entered the inbox and of
    those its full queue refused. *)
Lemma arrived_jobs m0 s0 st :
  reachable m0 s0 st ->
  merges (jobs_of (Mqtt.arrived (broker st))) (jobs_of (Mailbox.pushed (Mqtt.inbox (broker st))))
    (jobs_of (map fst (Mqtt.refused (broker st)))) /\
  Forall (fun r : Mqtt.incoming * nat => (Config.mqtt_queue_size cfg <= Z.of_nat r.2)%Z) (Mqtt.refused (broker st)) /\
  (Z.of_nat (length (Mailbox.items (Mqtt.inbox (broker st)))) <= Z.max 0 (Config.mqtt_queue_size cfg))%Z.
Proof.
  intros H. destruct (reachable_parts m0 s0 st H) as (Hb & _ & _).
  destruct (Mqtt.mi_inbox _ _ (Mqtt.mqtt_reachable_inv cfg m0 _ Hb)) as (Hm & Hf & Hl). split_and!; [|done..].
  by apply merges_map.
Qed.

(** The jobs POSTed so far. *)
Definition posted (st : pipeline) : list Webhook.Job :=
  map (fun p : Webhook.Job * HttpClient.request * bool => p.1.1) (Webhook.posts (hook st)).

Lemma idle_settled m0 s0 st :
  Webhook.counters_ok m0 -> reachable m0 s0 st -> Mailbox.running (Webhook.queue (hook st)) = true -> idle st ->
  exists lost, merges (jobs_of (Mqtt.arrived (broker st))) (posted st) lost /\
    merges lost (jobs_of (map fst (Mqtt.refused (broker st)))) (map fst (Webhook.dropped (hook st))).
Proof.
  intros Hm Hreach Hw ((Hi & _ & _) & Hh & (Hj & _ & Hk) & Hc).
  destruct (pipeline_reachable_inv m0 s0 st Hm Hreach) as [Hf [Hfifo _ _ _ _ _ _ _] _ (settled & ignored & rest & [Hl Hmer Hig Hrest])].
  rewrite Hh in Hrest. destruct Hrest as [-> _]. rewrite Hc in Hl. cbn in Hl. rewrite app_nil_r in Hl.
  rewrite (Hig (or_introl Hw)), app_nil_r, Hfifo, Hj, Hk, !app_nil_r in Hmer.
  destruct (arrived_jobs m0 s0 st Hreach) as [Ha _]. eapply merges_split; [exact Ha|]. by rewrite Hf, Hi, app_nil_r, Hl.
Qed.

Lemma nothing_lost {A : Type} (l a lost r d : list A) :
  merges l a lost -> merges lost r d -> r = [] -> d = [] -> a = l.
Proof. intros H1 H2 -> ->. apply merges_complete in H2 as <-. by apply merges_complete in H1. Qed.

(** ** Properties *)

(** C6: from broker to webhook.  In every state the whole service can reach, whatever the
    interleaving of the broker client, the message handler, the HTTP threads and the
    webhook client: of all the messages the broker ever sent, the jobs of those that match
    webhook_topics split, each part in their order, into those POSTed, being POSTed,
    queued, in the handler's hands or waiting for it, and those lost.  The lost ones are
    those the incoming queue refused, those the webhook queue refused, and those ignored
    after the webhook client was stopped; the queues refused only when they held
    mqtt_queue_size and webhook_queue_size entries, and never hold more.  So each message
    is POSTed at most once and in order, with the body made of it; and while the webhook client
    runs and neither queue ever overflowed, nothing is lost. *)
Theorem webhook_end_to_end (m0 : Metrics.metrics) (s0 : Server.server) (st : pipeline)
    (Hm : Webhook.counters_ok m0) (H : reachable m0 s0 st) :
  let received := jobs_of (Mqtt.arrived (broker st)) in
  let queue := Webhook.queue (hook st) in
  let inbox := Mqtt.inbox (broker st) in
  (exists rest ignored lost,
     let safe := posted st ++ Mailbox.busy (Mailbox.worker queue) ++ Mailbox.items queue
                 ++ option_list (Webhook.checked (hook st)) ++ rest ++ jobs_of (Mailbox.items inbox) in
     merges received safe lost /\
     merges lost (jobs_of (map fst (Mqtt.refused (broker st)))) (map fst (Webhook.dropped (hook st)) ++ ignored) /\
     match handler st with Some p => enqueues p rest | None => rest = [] end /\
     (Mailbox.running queue = true ->
      ignored = [] /\ (Mqtt.refused (broker st) = [] -> Webhook.dropped (hook st) = [] -> safe = received))) /\
  Forall (fun r : Mqtt.incoming * nat => (Config.mqtt_queue_size cfg <= Z.of_nat r.2)%Z) (Mqtt.refused (broker st)) /\
  Forall (fun r : Webhook.Job * nat => (Config.webhook_queue_size cfg <= Z.of_nat r.2)%Z) (Webhook.dropped (hook st)) /\
  (Z.of_nat (length (Mailbox.items inbox)) <= Z.max 0 (Config.mqtt_queue_size cfg))%Z /\
  (Z.of_nat (length (Mailbox.items queue)) <= Z.max 0 (Config.webhook_queue_size cfg))%Z /\
  posted st `sublist_of` received /\
  Forall (fun p : Webhook.Job * HttpClient.request * bool => exists epoch, p.1.2 = Webhook.make_post cfg p.1.1 epoch)
    (Webhook.posts (hook st)).
Proof.
  cbn zeta. destruct (pipeline_reachable_inv m0 s0 st Hm H)
    as [Hf [Hfifo Hbnd Hp _ _ _ Hdr _] Hb (settled & ignored & rest & [Hj Hmer Hi Hr])].
  destruct (arrived_jobs m0 s0 st H) as (Ha & Hfull & Hlen).
  assert (Hall : merges (jobs_of (Mailbox.pushed (Mqtt.inbox (broker st))))
    (Mailbox.pushed (Webhook.queue (hook st)) ++ option_list (Webhook.checked (hook st)) ++ rest
     ++ jobs_of (Mailbox.items (Mqtt.inbox (broker st)))) (map fst (Webhook.dropped (hook st)) ++ ignored)).
  { rewrite Hf, jobs_of_app, Hj, <- !app_assoc. by apply merges_app_left. }
  rewrite Hfifo, <- !app_assoc in Hall. destruct (merges_split _ _ _ _ _ Ha Hall) as (lost & H1 & H2).
  split_and!; [|done..| |done].
  - exists rest, ignored, lost. split; [exact H1|]. split; [exact H2|]. split.
    + destruct (handler st); [exact Hr|by destruct Hr].
    + intros Hrun. assert (ignored = []) as -> by (apply Hi; by left). split; [done|]. intros Hre Hd.
      rewrite Hre, Hd in H2. by apply (nothing_lost _ _ _ _ _ H1 H2).
  - apply merges_sublist in H1. etrans; [|exact H1]. apply sublist_inserts_r. done.
Qed.

(** C7: what the broker sent is delivered.  In any reachable state of the
    service, while both clients run, once no more messages arrive: every schedule of the
    subscribe worker, the message handler, the webhook client's worker and the notifications
    still to be sent, whatever libcurl and the file system answer, gets without getting
    stuck to a state in which both queues and the handler are empty, and each message on a
    forwarded topic that the broker sent so far has been POSTed, in order, except those the
    incoming queue had refused (only when it held mqtt_queue_size messages) and those the
    webhook queue refused (only when it held webhook_queue_size); if none was refused, all
    have been POSTed. *)
Theorem messages_delivered (m0 : Metrics.metrics) (s0 : Server.server) (st : pipeline)
    (Hm : Webhook.counters_ok m0) (Hn : Mqtt.needs_subscribe_worker cfg = true) (H : reachable m0 s0 st)
    (Hr : Mqtt.running (broker st) = true) (Hw : Mailbox.running (Webhook.queue (hook st)) = true) :
  let received := jobs_of (Mqtt.arrived (broker st)) in
  let refused := Mqtt.refused (broker st) in
  Forall (fun r : Mqtt.incoming * nat => (Config.mqtt_queue_size cfg <= Z.of_nat r.2)%Z) refused /\
  eventually (step_by exec delivering)
    (fun st' =>
       let dropped := Webhook.dropped (hook st') in
       Mailbox.items (Mqtt.inbox (broker st')) = [] /\ handler st' = None /\
       Webhook.checked (hook st') = None /\ Mailbox.items (Webhook.queue (hook st')) = [] /\
       (exists lost, merges received (posted st') lost /\ merges lost (jobs_of (map fst refused)) (map fst dropped)) /\
       Forall (fun r : Webhook.Job * nat => (Config.webhook_queue_size cfg <= Z.of_nat r.2)%Z) dropped /\
       (refused = [] -> dropped = [] -> posted st' = received)) st.
Proof.
  cbn zeta. split; [by apply (arrived_jobs m0 s0 st)|].
  apply (eventually_wf _ _ (live m0 s0 (Mqtt.arrived (broker st)) (Mqtt.refused (broker st))) order measure order_wf);
    [|by split].
  intros st' Hi. destruct (live_progress m0 s0 _ _ st' Hm Hn Hi) as [Hd|Hnext]; [left|right].
  - destruct Hi as [Hreach _ Hrun <- <-]. pose proof Hd as ((Hi & _) & Hh & (Hj & _) & Hc).
    destruct (idle_settled m0 s0 st' Hm Hreach Hrun Hd) as (lost & H1 & H2). split_and!; try done.
    + by exists lost.
    + apply (pipeline_reachable_inv m0 s0 st' Hm Hreach).
    + intros Hre Hdr. rewrite Hre, Hdr in H2. by apply (nothing_lost _ _ _ _ _ H1 H2).
  - split; [done|]. intros st2 (e & Hok & He). by apply (live_step m0 s0 _ _ e).
Qed.

End Pipeline.

(** ** Witnesses *)

#[local] Existing Instance Server.demo_publisher.

Definition demo_cfg : Config.Config := Config.set_webhook_topics [B"t/#"] Webhook.demo_cfg.

(** One message on a forwarded topic and one on another, a store operation of an HTTP
    thread in between. *)
Definition demo_run : list event :=
  [Broker (Mqtt.Arrived (Mqtt.Build_incoming (B"t/1") (B"20.5") false));
   Broker (Mqtt.Arrived (Mqtt.Build_incoming (B"u") (B"on") false));
   Broker (Mqtt.Inbox Mailbox.Turn); Broker (Mqtt.Inbox Mailbox.Turn);
   Other _ (Server.StateRemove (B"t/1")) no_sock;
   Handle; Hook Webhook.Push; Broker (Mqtt.Inbox Mailbox.HandlerDone);
   Hook (Webhook.Internal Mailbox.Turn); Hook (Webhook.Internal Mailbox.Turn);
   Hook (Webhook.Post 17 (Webhook.answering 204))].

Lemma webhook_end_to_end_witness :
  exists st, run (exec demo_cfg) demo_run (start demo_cfg Metrics.zero_metrics Server.demo_server) = Some st /\
    Mailbox.running (Webhook.queue (hook st)) = true /\ Webhook.dropped (hook st) = [] /\
    length (Webhook.posts (hook st)) = 1 /\ posted st `sublist_of` jobs_of demo_cfg (Mqtt.arrived (broker st)).
Proof.
  eexists. split; [vm_compute; reflexivity|]. do 3 (split; [vm_compute; reflexivity|]).
  edestruct (webhook_end_to_end demo_cfg Metrics.zero_metrics Server.demo_server)
    as (_ & _ & _ & _ & _ & Hsub & _); [| |exact Hsub].
  - intros []; vm_compute; split; discriminate || reflexivity.
  - eapply (run_rtc _ _ demo_run); [repeat constructor|vm_compute; reflexivity].
Defined.

(** Two messages have arrived; the queues are full of work. *)
Lemma messages_delivered_witness :
  exists st, run (exec demo_cfg) (take 2 demo_run) (start demo_cfg Metrics.zero_metrics Server.demo_server) = Some st /\
    length (Mailbox.items (Mqtt.inbox (broker st))) = 2 /\
    eventually (step_by (exec demo_cfg) delivering)
      (fun st' => Mailbox.items (Mqtt.inbox (broker st')) = [] /\ handler st' = None /\
         (Webhook.dropped (hook st') = [] ->
          posted st' = [{| Webhook.job_topic := B"t/1"; Webhook.job_payload := B"20.5"; Webhook.job_retained := false |}])) st.
Proof.
  eexists. split; [vm_compute; reflexivity|]. split; [reflexivity|].
  eapply eventually_weaken; [|eapply (messages_delivered demo_cfg Metrics.zero_metrics Server.demo_server)].
  - cbn zeta. intros st' (H1 & H2 & _ & _ & _ & _ & H3). split; [exact H1|]. split; [exact H2|]. intros Hd.
    rewrite (H3 eq_refl Hd). vm_compute. reflexivity.
  - intros []; vm_compute; split; discriminate || reflexivity.
  - vm_compute. reflexivity.
  - eapply (run_rtc _ _ (take 2 demo_run)); [repeat constructor|vm_compute; reflexivity].
  - reflexivity.
  - reflexivity.
Defined.

End Pipeline.
