(* ===== verification/Listen.v ===== *)
(** * server.cpp: signals, sockets and listeners

    The set-up of [Server::init] and its undoing, as programs over the system calls
    they make.  Paths reach the kernel up to their first NUL.  A call answers with
    its return value and [errno]; the answers are the world's ([Prog.world]). *)

From S2P Require Import Prelude CLib Config Threads Prog Log.
Local Open Scope Z_scope.

Module Listen.

(** ** System calls, and the logger *)

Definition EINTR : Z := 4.
Definition ENOENT : Z := 2.
Definition EAGAIN : Z := 11.
Definition EEXIST : Z := 17.

(** Return value, [errno] and its text. *)
Record ret := { rv : Z; errno : Z; errno_str : bytes }.

Inductive file_kind := KSocket | KDirectory | KOther.
Inductive family := AF_UNIX | AF_INET | AF_INET6.
(** [Unix]: the bytes in [sun_path]; no address text: the loopback address. *)
Inductive address := Unix (sun_path : bytes) | Inet (f : family) (text : option bytes) (port : Z).

Inductive sys : Type -> Type :=
| Sigprocmask : sys ret
| Signalfd : sys ret
| Socket (f : family) : sys ret
| Setsockopt (fd : Z) (option_name : bytes) : sys ret
| Connect (fd : Z) (a : address) : sys ret
| Bind (fd : Z) (a : address) : sys ret
| ListenOn (fd : Z) : sys ret
| Close (fd : Z) : sys unit
| Mkdir (path : bytes) (mode : Z) : sys ret
| Lstat (path : bytes) : sys (ret * file_kind)
| AccessW (path : bytes) : sys ret
| Unlink (path : bytes) : sys ret
| Chmod (path : bytes) (mode : Z) : sys ret
| InetPton (f : family) (text : bytes) : sys bool
| InetNtop (a : address) : sys bytes
| PoolStart (threads : Z) : sys unit
| PoolShutdown : sys unit
| LogLine (level : Log.LogLevel) (msg : bytes) : sys unit.

(** ** The state of [Server] *)

Record fds := {
  listen_fd : Z; tcp_listen_fds : list Z; signal_fd : Z; socket_created : bool; pool : bool
}.

Definition no_fds : fds :=
  {| listen_fd := -1; tcp_listen_fds := []; signal_fd := -1; socket_created := false; pool := false |}.

Definition set_listen (fd : Z) (s : fds) : fds :=
  Build_fds fd (tcp_listen_fds s) (signal_fd s) (socket_created s) (pool s).
Definition set_tcp (l : list Z) (s : fds) : fds :=
  Build_fds (listen_fd s) l (signal_fd s) (socket_created s) (pool s).
Definition set_signal (fd : Z) (s : fds) : fds :=
  Build_fds (listen_fd s) (tcp_listen_fds s) fd (socket_created s) (pool s).
Definition set_created (b : bool) (s : fds) : fds :=
  Build_fds (listen_fd s) (tcp_listen_fds s) (signal_fd s) b (pool s).
Definition set_pool (b : bool) (s : fds) : fds :=
  Build_fds (listen_fd s) (tcp_listen_fds s) (signal_fd s) (socket_created s) b.

(** The outcome of a set-up function: [None], or the text in [err]. *)
Abbreviation status := (option bytes).

Definition failed (call : bytes) (r : ret) : status := Some (call ++ B" failed: " ++ errno_str r).

Section Listen.
Context (cfg : Config.Config).

(** ** Set-up *)

Definition setup_signals (s : fds) : prog sys (fds * status) :=
  let! r := Sigprocmask in
  if negb (rv r =? 0) then Ret (s, failed (B"sigprocmask()") r)
  else
    let! r := Signalfd in
    let s := set_signal (rv r) s in
    if rv r <? 0 then Ret (s, failed (B"signalfd()") r) else Ret (s, None).

Definition sun_path_size : nat := 108.

(** [strncpy] into [sun_path], the last byte left zero. *)
Definition sun_path (path : bytes) : bytes := take (sun_path_size - 1) (c_str path).

Definition path_has_live_listener (path : bytes) : prog sys bool :=
  let! r := Socket AF_UNIX in
  if rv r <? 0 then Ret false
  else
    let! c := Connect (rv r) (Unix (sun_path path)) in
    let! _ := Close (rv r) in
    Ret (rv c =? 0).

(** [find_last_of('/')]. *)
Definition last_slash (path : bytes) : option nat :=
  last (filter (fun i => path !! i = Some "/"%char) (seq 0 (length path))).

Definition ensure_socket_directory (socket_path : bytes) : prog sys status :=
  match last_slash socket_path with
  | None | Some O => Ret None
  | Some slash =>
      let dir := take slash socket_path in
      let! r := Mkdir (c_str dir) 493 in
      if rv r =? 0 then let! _ := LogLine Log.Info (B"created socket directory: " ++ dir) in Ret None
      else if negb (errno r =? EEXIST) then
        Ret (Some (B"failed to create socket directory '" ++ dir ++ B"': " ++ errno_str r
             ++ B" (if running under systemd, set RuntimeDirectory=nshmqtt; "
             ++ B"otherwise create it manually, e.g. 'mkdir -p " ++ dir ++ B"')"))
      else
        let! st := Lstat (c_str dir) in
        if negb (rv st.1 =? 0) then
          Ret (Some (B"failed to stat socket directory '" ++ dir ++ B"': " ++ errno_str st.1))
        else match st.2 with
        | KDirectory =>
            let! a := AccessW (c_str dir) in
            if negb (rv a =? 0) then
              Ret (Some (B"socket directory '" ++ dir ++ B"' exists but is not writable: " ++ errno_str a))
            else Ret None
        | _ => Ret (Some (B"socket directory path '" ++ dir ++ B"' exists but is not a directory"))
        end
  end.

(** The file already at the path: gone, or the reason to give up. *)
Definition remove_stale (path : bytes) : prog sys status :=
  let! st := Lstat (c_str path) in
  if rv st.1 =? 0 then
    match st.2 with
    | KSocket =>
        do live := path_has_live_listener path in
        if live : bool then
          Ret (Some (B"another process is already listening on " ++ path
               ++ B" -- refusing to remove its socket. Stop that instance "
               ++ B"first, or configure a different socket= path."))
        else
          let! u := Unlink (c_str path) in
          if negb (rv u =? 0) then Ret (Some (B"failed to remove stale socket " ++ path ++ B": " ++ errno_str u))
          else let! _ := LogLine Log.Warn (B"removed stale socket: " ++ path) in Ret None
    | _ => Ret (Some (B"refusing to remove non-socket file at " ++ path))
    end
  else if negb (errno st.1 =? ENOENT) then
    Ret (Some (B"failed to stat socket path " ++ path ++ B": " ++ errno_str st.1))
  else Ret None.

(** [snprintf] with "%04o" of the twelve mode bits. *)
Definition mode_octal (mode : Z) : bytes :=
  let m := Z.land mode 4095 in
  map digit_chr [m / 512; m / 64 mod 8; m / 8 mod 8; m mod 8].

(** [socket], [bind], [chmod] and [listen]. *)
Definition open_socket (path : bytes) (s : fds) : prog sys (fds * status) :=
  let! r := Socket AF_UNIX in
  let s := set_listen (rv r) s in
  if rv r <? 0 then Ret (s, failed (B"socket()") r)
  else if (sun_path_size <=? length path)%nat then Ret (s, Some (B"socket path too long: " ++ path))
  else
    let! b := Bind (rv r) (Unix (sun_path path)) in
    if negb (rv b =? 0) then Ret (s, failed (B"bind(" ++ path ++ B")") b)
    else
      let s := set_created true s in
      let! c := Chmod (c_str path) (Config.socket_mode cfg) in
      if negb (rv c =? 0) then Ret (s, failed (B"chmod(" ++ path ++ B")") c)
      else
        let! l := ListenOn (rv r) in
        if negb (rv l =? 0) then Ret (s, failed (B"listen()") l)
        else
          let! _ := LogLine Log.Info (B"listening on unix socket " ++ path ++ B" (mode "
                                      ++ mode_octal (Config.socket_mode cfg) ++ B")") in
          Ret (s, None).

Definition setup_socket (s : fds) : prog sys (fds * status) :=
  let path := Config.socket_path cfg in
  do dir := ensure_socket_directory path in
  match dir with
  | Some e => Ret (s, Some e)
  | None =>
      do stale := remove_stale path in
      match stale with
      | Some e => Ret (s, Some e)
      | None => open_socket path s
      end
  end.

(** The option settings of [bind_one_tcp], in order. *)
Definition tcp_options (f : family) : list bytes :=
  B"SO_REUSEADDR" :: match f with AF_INET6 => [B"IPV6_V6ONLY"] | _ => [] end.

Fixpoint set_options (fd : Z) (names : list bytes) : prog sys status :=
  match names with
  | [] => Ret None
  | name :: rest =>
      let! r := Setsockopt fd name in
      if negb (rv r =? 0) then Ret (failed (B"setsockopt(" ++ name ++ B")") r) else set_options fd rest
  end.

Definition port_of (a : address) : Z := match a with Inet _ _ port => port | Unix _ => 0 end.

Definition bind_one_tcp (f : family) (a : address) (s : fds) : prog sys (fds * status) :=
  let! r := Socket f in
  let fd := rv r in
  if fd <? 0 then Ret (s, Some (B"socket() failed for TCP listener: " ++ errno_str r))
  else
    do o := set_options fd (tcp_options f) in
    match o with
    | Some e => let! _ := Close fd in Ret (s, Some e)
    | None =>
        let! b := Bind fd a in
        if negb (rv b =? 0) then
          let! _ := Close fd in Ret (s, Some (B"bind() failed for TCP listener: " ++ errno_str b))
        else
          let! l := ListenOn fd in
          if negb (rv l =? 0) then
            let! _ := Close fd in Ret (s, Some (B"listen() failed for TCP listener: " ++ errno_str l))
          else
            let! host := InetNtop a in
            let! _ := LogLine Log.Info (B"listening on tcp " ++ host ++ B":" ++ to_string (port_of a)) in
            Ret (set_tcp (tcp_listen_fds s ++ [fd]) s, None)
    end.

Definition setup_tcp_listeners (s : fds) : prog sys (fds * status) :=
  let port := Config.tcp_port cfg mod 2 ^ 16 in (* [static_cast<uint16_t>] *)
  let text := Config.tcp_address cfg in
  if Config.tcp_port cfg =? 0 then Ret (s, None)
  else if decide (text = []) then
    do r := bind_one_tcp AF_INET (Inet AF_INET None port) s in
    match r.2 with
    | Some _ => Ret r
    | None => bind_one_tcp AF_INET6 (Inet AF_INET6 None port) r.1
    end
  else
    let! v4 := InetPton AF_INET (c_str text) in
    if v4 : bool then bind_one_tcp AF_INET (Inet AF_INET (Some text) port) s
    else
      let! v6 := InetPton AF_INET6 (c_str text) in
      if v6 : bool then bind_one_tcp AF_INET6 (Inet AF_INET6 (Some text) port) s
      else Ret (s, Some (B"invalid tcp_address: " ++ text)).

Definition init (s : fds) : prog sys (fds * status) :=
  do r1 := setup_signals s in
  match r1.2 with
  | Some _ => Ret r1
  | None =>
      do r2 := setup_socket r1.1 in
      match r2.2 with
      | Some _ => Ret r2
      | None =>
          do r3 := setup_tcp_listeners r2.1 in
          match r3.2 with
          | Some _ => Ret r3
          | None =>
              let! _ := PoolStart (Config.threads cfg) in
              let! _ := LogLine Log.Info (B"HTTP worker pool started with " ++ to_string (Config.threads cfg) ++ B" threads") in
              Ret (set_pool true r3.1, None)
          end
      end
  end.

(** ** Undoing it *)

Fixpoint close_all (l : list Z) : prog sys unit :=
  match l with [] => Ret tt | fd :: rest => let! _ := Close fd in close_all rest end.

Definition close_fd (fd : Z) : prog sys unit := if 0 <=? fd then let! _ := Close fd in Ret tt else Ret tt.

Definition closed_fd (fd : Z) : Z := if 0 <=? fd then -1 else fd.

Definition shutdown_pool (s : fds) : prog sys unit := if pool s then let! _ := PoolShutdown in Ret tt else Ret tt.

Definition remove_socket (s : fds) : prog sys unit :=
  if socket_created s then let! _ := Unlink (c_str (Config.socket_path cfg)) in Ret tt else Ret tt.

(** [~Server]. *)
Definition destroy (s : fds) : prog sys unit :=
  do _ := shutdown_pool s in do _ := close_fd (listen_fd s) in do _ := close_all (tcp_listen_fds s) in
  do _ := close_fd (signal_fd s) in remove_socket s.

Definition cleanup_socket (s : fds) : prog sys unit :=
  if socket_created s then
    let path := Config.socket_path cfg in
    let! u := Unlink (c_str path) in
    let! _ := (if negb (rv u =? 0) && negb (errno u =? ENOENT)
               then LogLine Log.Warn (B"failed to remove socket " ++ path ++ B": " ++ errno_str u)
               else LogLine Log.Info (B"removed socket " ++ path)) in
    Ret tt
  else Ret tt.

(** [cleanup], at the end of [run]. *)
Definition cleanup (s : fds) : prog sys fds :=
  let! _ := LogLine Log.Info (B"shutting down") in
  do _ := shutdown_pool s in do _ := close_fd (listen_fd s) in do _ := close_all (tcp_listen_fds s) in
  do _ := cleanup_socket s in do _ := close_fd (signal_fd s) in
  let! _ := LogLine Log.Info (B"shutdown complete") in
  Ret (Build_fds (closed_fd (listen_fd s)) [] (closed_fd (signal_fd s)) false false).

(** ** Reading a log *)

Definition fd_of (r : ret) : option Z := if 0 <=? rv r then Some (rv r) else None.

(** The descriptor a call gave, and the one it closed. *)
Definition obtained (e : event sys) : option Z :=
  match e with
  | Ev o a =>
      match o in sys A return A -> option Z with
      | Signalfd => fd_of
      | Socket _ => fd_of
      | _ => fun _ => None
      end a
  end.

Definition released (e : event sys) : option Z :=
  match e with Ev (Close fd) _ => Some fd | _ => None end.

Definition opened (log : list (event sys)) : list Z := omap obtained log.
Definition closed (log : list (event sys)) : list Z := omap released log.

Definition is_unlink (e : event sys) : bool := match e with Ev (Unlink _) _ => true | _ => false end.

Definition binds_file (e : event sys) : bool :=
  match e with
  | Ev o a =>
      match o in sys A return A -> bool with
      | Bind _ (Unix _) => fun r => rv r =? 0
      | _ => fun _ => false
      end a
  end.

(** A socket file of our own making that the process has not asked to remove. *)
Definition file_ours (log : list (event sys)) : bool :=
  fold_left (fun b e => if is_unlink e then false else binds_file e || b) log false.

(** A successful [unlink]. *)
Definition removes (e : event sys) : bool :=
  match e with
  | Ev o a => match o in sys A return A -> bool with Unlink _ => fun r => rv r =? 0 | _ => fun _ => false end a
  end.

(** A socket file that a successful [bind] made is in place: no [unlink] succeeded since. *)
Definition file_in_place (log : list (event sys)) : bool :=
  fold_left (fun b e => if removes e then false else binds_file e || b) log false.

(** The system refused to remove it, and no [bind] succeeded since. *)
Definition removal_failed (log : list (event sys)) : Prop :=
  exists before r after,
    log = before ++ Ev (Unlink (c_str (Config.socket_path cfg))) r :: after /\ rv r <> 0 /\
    file_in_place before = true /\ Forall (fun e => binds_file e = false) after.

(** The descriptors the server holds. *)
Definition held (s : fds) : list Z :=
  (if 0 <=? listen_fd s then [listen_fd s] else []) ++ tcp_listen_fds s
  ++ (if 0 <=? signal_fd s then [signal_fd s] else []).

(** The last calls found a socket that nobody answers on: [lstat] said socket, and
    the probe could not be made or did not connect. *)
Definition looked_dead (path : bytes) (log : list (event sys)) : Prop :=
  exists before st,
    rv st = 0 /\
    ((exists r, rv r < 0 /\
        log = before ++ [Ev (Lstat (c_str path)) (st, KSocket); Ev (Socket AF_UNIX) r]) \/
     (exists r c, rv c <> 0 /\
        log = before ++ [Ev (Lstat (c_str path)) (st, KSocket); Ev (Socket AF_UNIX) r;
                         Ev (Connect (rv r) (Unix (sun_path path))) c; Ev (Close (rv r)) tt])).

(** Every file removed was the configured path, and was ours or looked dead. *)
Definition unlinks_ok (log : list (event sys)) : Prop :=
  forall before p r after,
    log = before ++ Ev (Unlink p) r :: after ->
    p = c_str (Config.socket_path cfg) /\
    (file_ours before = true \/ looked_dead (Config.socket_path cfg) before).

(** ** Lemmas: the ledger

    [x]: descriptors opened, not closed, and not (yet) in the server's state. *)

Record ledger (s : fds) (x : list Z) (log : list (event sys)) : Prop := {
  l_fds : opened log ≡ₚ closed log ++ x ++ held s;
  l_file : file_ours log = socket_created s;
  l_unlinks : unlinks_ok log
}.

Definition neutral (e : event sys) : bool :=
  match obtained e, released e with None, None => negb (is_unlink e) && negb (binds_file e) | _, _ => false end.

Lemma opened_snoc log e : opened (log ++ [e]) = opened log ++ option_list (obtained e).
Proof. unfold opened. rewrite omap_app. simpl. by destruct (obtained e). Qed.

Lemma closed_snoc log e : closed (log ++ [e]) = closed log ++ option_list (released e).
Proof. unfold closed. rewrite omap_app. simpl. by destruct (released e). Qed.

Lemma file_ours_snoc log e : file_ours (log ++ [e]) = if is_unlink e then false else binds_file e || file_ours log.
Proof. unfold file_ours. by rewrite fold_left_app. Qed.

Lemma unlinks_ok_snoc log e :
  unlinks_ok log ->
  (forall p r, e = Ev (Unlink p) r -> p = c_str (Config.socket_path cfg) /\
     (file_ours log = true \/ looked_dead (Config.socket_path cfg) log)) ->
  unlinks_ok (log ++ [e]).
Proof.
  intros H He before p r after E. destruct after as [|e' after] using rev_ind.
  - apply app_inj_tail in E as [-> ->]. by eapply He.
  - clear IHafter. rewrite app_comm_cons, app_assoc in E. apply app_inj_tail in E as [E _]. by eapply H.
Qed.

Lemma ledger_neutral s x log e : neutral e = true -> ledger s x log -> ledger s x (log ++ [e]).
Proof.
  unfold neutral. intros He [H1 H2 H3]. destruct (obtained e) eqn:Eo; [done|]. destruct (released e) eqn:Er; [done|].
  apply andb_true_iff in He as [Hu Hb]. split.
  - by rewrite opened_snoc, closed_snoc, Eo, Er, !app_nil_r.
  - rewrite file_ours_snoc. by destruct (is_unlink e), (binds_file e).
  - apply unlinks_ok_snoc; [done|]. by intros p r ->.
Qed.

Lemma ledger_open s x log e fd :
  obtained e = Some fd -> ledger s x log -> ledger s (fd :: x) (log ++ [e]).
Proof.
  intros He [H1 H2 H3].
  assert (released e = None /\ is_unlink e = false /\ binds_file e = false) as (Er & Eu & Eb) by (by destruct e as [A [] a]).
  split.
  - rewrite opened_snoc, closed_snoc, He, Er, H1. simpl. solve_Permutation.
  - by rewrite file_ours_snoc, Eu, Eb.
  - apply unlinks_ok_snoc; [done|]. by intros p r ->.
Qed.

Lemma ledger_close s x log fd : ledger s (fd :: x) log -> ledger s x (log ++ [Ev (Close fd) tt]).
Proof.
  intros [H1 H2 H3]. split.
  - rewrite opened_snoc, closed_snoc, H1. simpl. solve_Permutation.
  - by rewrite file_ours_snoc.
  - apply unlinks_ok_snoc; [done|]. by intros p r.
Qed.

Lemma ledger_bind s x log fd path r :
  rv r = 0 -> ledger s x log -> ledger (set_created true s) x (log ++ [Ev (Bind fd (Unix path)) r]).
Proof.
  intros Hr [H1 H2 H3]. split.
  - by rewrite opened_snoc, closed_snoc, !app_nil_r.
  - rewrite file_ours_snoc. simpl. by rewrite Hr.
  - apply unlinks_ok_snoc; [done|]. by intros p r'.
Qed.

Lemma ledger_unlink s x log r :
  file_ours log = true \/ looked_dead (Config.socket_path cfg) log ->
  ledger s x log -> ledger (set_created false s) x (log ++ [Ev (Unlink (c_str (Config.socket_path cfg))) r]).
Proof.
  intros Hj [H1 H2 H3]. split.
  - by rewrite opened_snoc, closed_snoc, !app_nil_r.
  - by rewrite file_ours_snoc.
  - apply unlinks_ok_snoc; [done|]. intros p r' E. by simplify_eq.
Qed.

#[local] Hint Extern 1 (neutral _ = true) => reflexivity : nsh.
#[local] Hint Resolve ledger_neutral ledger_close : nsh.

(** Descriptors move into the server's state. *)
Lemma ledger_hold s s' x x' log :
  x ++ held s ≡ₚ x' ++ held s' -> socket_created s' = socket_created s -> ledger s x log -> ledger s' x' log.
Proof. intros Hp Hc [H1 H2 H3]. split; [by rewrite H1, Hp|by rewrite H2|done]. Qed.

(** ** Lemmas: the set-up functions *)

Lemma fd_of_neg r : rv r < 0 -> fd_of r = None.
Proof. intros H. unfold fd_of. by destruct (Z.leb_spec 0 (rv r)); [lia|]. Qed.
Lemma fd_of_pos r : 0 <= rv r -> fd_of r = Some (rv r).
Proof. intros H. unfold fd_of. by destruct (Z.leb_spec 0 (rv r)); [|lia]. Qed.

Lemma setup_signals_ledger s log :
  signal_fd s < 0 -> ledger s [] log ->
  triple (setup_signals s) (fun r log' => ledger r.1 [] log' /\ listen_fd r.1 = listen_fd s /\
    tcp_listen_fds r.1 = tcp_listen_fds s /\ socket_created r.1 = socket_created s /\
    (r.2 = None -> 0 <= signal_fd r.1)) log.
Proof.
  intros Hs HL. unfold setup_signals. cbn [triple]. intros a. destruct (Z.eqb_spec (rv a) 0) as [_|Hn]; cbn [negb triple].
  2:{ split_and!; [by apply ledger_neutral|done..]. }
  intros b. destruct (Z.ltb_spec (rv b) 0) as [Hb|Hb]; cbn [triple fst snd]; (split_and!; [|done..]).
  - eapply ledger_hold; [| |apply ledger_neutral; [|apply ledger_neutral, HL]]; [|done| |done].
    + unfold held. simpl. destruct (Z.leb_spec 0 (signal_fd s)), (Z.leb_spec 0 (rv b)); try lia. done.
    + unfold neutral. simpl. by rewrite fd_of_neg.
  - eapply ledger_hold; [| |eapply (ledger_open _ _ _ _ (rv b)); [|apply ledger_neutral, HL]]; [|done| |done].
    + unfold held. simpl. destruct (Z.leb_spec 0 (signal_fd s)), (Z.leb_spec 0 (rv b)); try lia. solve_Permutation.
    + simpl. by rewrite fd_of_pos.
Qed.

Lemma directory_ledger path s log :
  ledger s [] log -> triple (ensure_socket_directory path) (fun _ => ledger s []) log.
Proof.
  intros HL. unfold ensure_socket_directory. destruct (last_slash path) as [[|n]|]; try done. cbn [triple].
  intros a. destruct (_ =? 0); cbn [triple]; [intros u; auto with nsh|].
  destruct (negb _); cbn [triple]; [by apply ledger_neutral|].
  intros [st kind]. cbn [fst snd]. destruct (negb _); cbn [triple]; [auto with nsh|].
  destruct kind; cbn [triple]; try (auto with nsh).
  intros b. destruct (negb _); cbn [triple]; auto with nsh.
Qed.

Lemma remove_stale_ledger s log :
  socket_created s = false -> ledger s [] log ->
  triple (remove_stale (Config.socket_path cfg)) (fun _ => ledger s []) log.
Proof.
  intros Hc HL. unfold remove_stale. cbn [triple]. intros [st kind]. cbn [fst snd].
  destruct (Z.eqb_spec (rv st) 0) as [Hst|Hst]; [|destruct (negb _); cbn [triple]; by apply ledger_neutral].
  set (path := Config.socket_path cfg).
  assert (HL1 : forall e, neutral e = true -> ledger s [] (log ++ [e])) by (intros; by apply ledger_neutral).
  destruct kind; [|by apply HL1..]. unfold path_has_live_listener. cbn [bind triple]. intros r.
  assert (Hun : forall log', ledger s [] log' -> looked_dead path log' ->
    triple (let! u := Unlink (c_str path) in
            if negb (rv u =? 0) then Ret (Some (B"failed to remove stale socket " ++ path ++ B": " ++ errno_str u))
            else let! _ := LogLine Log.Warn (B"removed stale socket: " ++ path) in Ret None)
      (fun _ => ledger s []) log').
  { intros log' HL' Hd. cbn [triple]. intros u.
    assert (ledger s [] (log' ++ [Ev (Unlink (c_str path)) u])).
    { eapply ledger_hold; [| |apply ledger_unlink; [by right|exact HL']]; [done|by rewrite Hc]. }
    destruct (negb _); cbn [triple]; [done|]. intros u'. by apply ledger_neutral. }
  destruct (Z.ltb_spec (rv r) 0) as [Hr|Hr]; cbn [bind triple].
  - apply Hun.
    + apply ledger_neutral; [unfold neutral; simpl; by rewrite fd_of_neg|by apply HL1].
    + exists log, st. split; [done|]. left. exists r. by rewrite <- app_assoc.
  - intros c _u. destruct _u.
    assert (HL2 : ledger s [] ((((log ++ [Ev (Lstat (c_str path)) (st, KSocket)]) ++ [Ev (Socket AF_UNIX) r])
        ++ [Ev (Connect (rv r) (Unix (sun_path path))) c]) ++ [Ev (Close (rv r)) tt])).
    { apply ledger_close, ledger_neutral; [done|]. eapply ledger_open; [simpl; by apply fd_of_pos|by apply HL1]. }
    destruct (Z.eqb_spec (rv c) 0) as [Hc0|Hc0]; cbn [triple]; [done|]. apply Hun; [done|].
    exists log, st. split; [done|]. right. exists r, c. split; [done|]. by rewrite <- !app_assoc.
Qed.

Lemma open_socket_ledger s log :
  listen_fd s < 0 -> ledger s [] log ->
  triple (open_socket (Config.socket_path cfg) s) (fun r log' => ledger r.1 [] log' /\
    tcp_listen_fds r.1 = tcp_listen_fds s /\ signal_fd r.1 = signal_fd s /\
    (r.2 = None -> 0 <= listen_fd r.1 /\ socket_created r.1 = true)) log.
Proof.
  intros Hs HL. unfold open_socket. cbn [triple]. intros r.
  assert (HL1 : ledger (set_listen (rv r) s) [] (log ++ [Ev (Socket AF_UNIX) r])).
  { destruct (Z.ltb_spec (rv r) 0) as [Hr|Hr].
    - eapply ledger_hold; [| |apply ledger_neutral; [|exact HL]]; [|done|].
      + unfold held. simpl. destruct (Z.leb_spec 0 (listen_fd s)), (Z.leb_spec 0 (rv r)); try lia. done.
      + unfold neutral. simpl. by rewrite fd_of_neg.
    - eapply ledger_hold; [| |eapply (ledger_open _ _ _ _ (rv r)); [|exact HL]]; [|done|].
      + unfold held. simpl. destruct (Z.leb_spec 0 (listen_fd s)), (Z.leb_spec 0 (rv r)); try lia. done.
      + simpl. by rewrite fd_of_pos. }
  destruct (Z.ltb_spec (rv r) 0) as [Hr|Hr]; cbn [triple]; [by split_and!|].
  destruct (_ <=? _)%nat; cbn [triple]; [by split_and!|]. intros b.
  destruct (Z.eqb_spec (rv b) 0) as [Hb|Hb]; cbn [negb triple].
  2:{ split_and!; [|done..]. apply ledger_neutral; [|done]. unfold neutral. simpl. by destruct (Z.eqb_spec (rv b) 0). }
  intros c. assert (HL2 : ledger (set_created true (set_listen (rv r) s)) []
    (((log ++ [Ev (Socket AF_UNIX) r]) ++ [Ev (Bind (rv r) (Unix (sun_path (Config.socket_path cfg)))) b])
     ++ [Ev (Chmod (c_str (Config.socket_path cfg)) (Config.socket_mode cfg)) c])).
  { apply ledger_neutral; [done|]. by apply ledger_bind. }
  destruct (negb _); cbn [triple]; [by split_and!|]. intros l.
  destruct (negb _); cbn [triple]; [by split_and!; [apply ledger_neutral|..]|]. intros u. split_and!; [auto with nsh|done..].
Qed.

Lemma setup_socket_ledger s log :
  listen_fd s < 0 -> socket_created s = false -> ledger s [] log ->
  triple (setup_socket s) (fun r log' => ledger r.1 [] log' /\
    tcp_listen_fds r.1 = tcp_listen_fds s /\ signal_fd r.1 = signal_fd s /\
    (r.2 = None -> 0 <= listen_fd r.1 /\ socket_created r.1 = true)) log.
Proof.
  intros Hs Hc HL. unfold setup_socket. apply triple_bind.
  eapply triple_conseq; [|by apply directory_ledger]. intros [e|] log1 HL1; [by cbn; split_and!|]. apply triple_bind.
  eapply triple_conseq; [|by apply remove_stale_ledger]. intros [e|] log2 HL2; [by cbn; split_and!|].
  by apply open_socket_ledger.
Qed.

(** The fields a TCP set-up leaves alone. *)
Definition same_unix (s s' : fds) : Prop :=
  listen_fd s' = listen_fd s /\ signal_fd s' = signal_fd s /\ socket_created s' = socket_created s.

Lemma set_options_ledger fd names s x log :
  ledger s x log -> triple (set_options fd names) (fun _ => ledger s x) log.
Proof.
  revert log. induction names as [|n names IH]; intros log HL; cbn [set_options triple]; [done|].
  intros r. destruct (negb _); cbn [triple]; [by apply ledger_neutral|]. apply IH. by apply ledger_neutral.
Qed.

Lemma bind_one_tcp_ledger f g text port s log :
  ledger s [] log ->
  triple (bind_one_tcp f (Inet g text port) s) (fun r log' => ledger r.1 [] log' /\ same_unix s r.1 /\
    (r.2 = None -> length (tcp_listen_fds r.1) = S (length (tcp_listen_fds s)))) log.
Proof.
  intros HL. unfold bind_one_tcp. cbn [triple]. intros r. destruct (Z.ltb_spec (rv r) 0) as [Hr|Hr]; cbn [triple].
  { split_and!; [|by split_and!|done]. apply ledger_neutral; [|done]. unfold neutral. simpl. by rewrite fd_of_neg. }
  apply triple_bind. eapply triple_conseq; [|apply set_options_ledger, (ledger_open s [] log (Ev (Socket f) r) (rv r)); [|exact HL]].
  2:{ simpl. by apply fd_of_pos. }
  intros o log1 HL1. cbn beta in HL1.
  assert (Hclose : forall log' (e : bytes), ledger s [rv r] log' ->
    triple (let! _ := Close (rv r) in Ret (s, Some e))
      (fun r log' => ledger r.1 [] log' /\ same_unix s r.1 /\
         (r.2 = None -> length (tcp_listen_fds r.1) = S (length (tcp_listen_fds s)))) log').
  { intros log' e HL'. cbn [triple]. intros []. split_and!; [by apply ledger_close|by split_and!|done]. }
  destruct o as [e|]; [by apply Hclose|]. cbn [triple]. intros b.
  destruct (negb _); [apply Hclose; by apply ledger_neutral|]. cbn [triple]. intros l.
  assert (HL2 : ledger s [rv r] ((log1 ++ [Ev (Bind (rv r) (Inet g text port)) b]) ++ [Ev (ListenOn (rv r)) l]))
    by (auto with nsh).
  destruct (negb _); [by apply Hclose|]. cbn [triple fst snd]. intros host u. split_and!; [|by split_and!|].
  - eapply ledger_hold; [| |do 2 (apply ledger_neutral; [done|]); exact HL2]; [|done]. unfold held. simpl. solve_Permutation.
  - intros _. simpl. rewrite length_app. simpl. lia.
Qed.

(** How many TCP listeners the configuration asks for. *)
Definition tcp_listeners : nat :=
  if Config.tcp_port cfg =? 0 then 0 else if decide (Config.tcp_address cfg = []) then 2 else 1.

Lemma setup_tcp_ledger s log :
  tcp_listen_fds s = [] -> ledger s [] log ->
  triple (setup_tcp_listeners s) (fun r log' => ledger r.1 [] log' /\ same_unix s r.1 /\
    (r.2 = None -> length (tcp_listen_fds r.1) = tcp_listeners)) log.
Proof.
  intros Ht HL. unfold setup_tcp_listeners, tcp_listeners.
  assert (Hone : forall f g text port log', ledger s [] log' ->
    triple (bind_one_tcp f (Inet g text port) s) (fun r log' => ledger r.1 [] log' /\ same_unix s r.1 /\
      (r.2 = None -> length (tcp_listen_fds r.1) = 1%nat)) log').
  { intros. eapply triple_conseq; [|by apply bind_one_tcp_ledger]. intros r log1 (H1 & H2 & H3).
    split_and!; [done|done|]. rewrite Ht in H3. exact H3. }
  destruct (_ =? 0); [cbn; split_and!; [done|by split_and!|by rewrite Ht]|]. case_decide.
  - apply triple_bind. eapply triple_conseq; [|by apply Hone]. intros [s1 [e|]] log1 (H1 & H2 & H3); cbn [fst snd triple] in *; [done|].
    specialize (H3 eq_refl).
    eapply triple_conseq; [|by apply bind_one_tcp_ledger]. intros r log2 (H4 & H5 & H6). split_and!; [done| |].
    + destruct H2 as (? & ? & ?), H5 as (? & ? & ?). split_and!; congruence.
    + intros Hr. rewrite H6 by done. by rewrite H3.
  - cbn [triple]. intros []; [apply Hone; by apply ledger_neutral|]. cbn [triple].
    intros []; [apply Hone; auto with nsh|]. cbn [triple fst snd].
    split_and!; [auto with nsh|by split_and!|done].
Qed.

(** Everything asked for is in place. *)
Definition ready (s : fds) : Prop :=
  0 <= listen_fd s /\ 0 <= signal_fd s /\ socket_created s = true /\ length (tcp_listen_fds s) = tcp_listeners /\ pool s = true.

Lemma nil_ledger : ledger no_fds [] [].
Proof. split; [done|done|]. intros before p r after E. by destruct before. Qed.

Lemma init_ledger :
  triple (init no_fds) (fun r log => ledger r.1 [] log /\ (r.2 = None -> ready r.1)) [].
Proof.
  unfold init. apply triple_bind. eapply triple_conseq; [|by apply setup_signals_ledger, nil_ledger].
  intros [s1 [e|]] log1 (H1 & Hl1 & Ht1 & Hc1 & Hs1); cbn [fst snd triple] in *; [done|]. specialize (Hs1 eq_refl).
  apply triple_bind. eapply triple_conseq; [|apply setup_socket_ledger; [by rewrite Hl1|by rewrite Hc1|done]].
  intros [s2 [e|]] log2 (H2 & Ht2 & Hs2 & Hl2); cbn [fst snd triple] in *; [done|]. destruct (Hl2 eq_refl) as [Hl3 Hc3].
  apply triple_bind. eapply triple_conseq; [|apply setup_tcp_ledger; [by rewrite Ht2, Ht1|done]].
  intros [s3 [e|]] log3 (H3 & (He1 & He2 & He3) & Ht3); cbn [fst snd triple] in *; [done|].
  intros [] u. split.
  - eapply ledger_hold; [| |do 2 (apply ledger_neutral; [done|]); exact H3]; done.
  - intros _. unfold ready. cbn. rewrite He1, He2, He3, Hs2. split_and!; [done|done|done|by apply Ht3|done].
Qed.

(** ** Lemmas: undoing *)

Lemma close_all_ledger l s x log :
  ledger s (l ++ x) log -> triple (close_all l) (fun _ => ledger s x) log.
Proof.
  revert log. induction l as [|fd l IH]; intros log HL; cbn [close_all triple]; [done|]. intros []. by apply IH, ledger_close.
Qed.

Lemma close_fd_ledger fd s x log :
  ledger s ((if 0 <=? fd then [fd] else []) ++ x) log -> triple (close_fd fd) (fun _ => ledger s x) log.
Proof.
  unfold close_fd. destruct (0 <=? fd); cbn [triple app]; [|done]. intros HL []. by apply ledger_close.
Qed.

Lemma shutdown_pool_ledger s0 s x log : ledger s x log -> triple (shutdown_pool s0) (fun _ => ledger s x) log.
Proof. unfold shutdown_pool. destruct (pool s0); cbn [triple]; [|done]. intros HL []. by apply ledger_neutral. Qed.

Lemma remove_socket_ledger s0 s x log :
  socket_created s0 = socket_created s -> ledger s x log ->
  triple (remove_socket s0) (fun _ => ledger (set_created false s) x) log.
Proof.
  unfold remove_socket. intros -> HL. destruct (socket_created s) eqn:E; cbn [triple].
  - intros r. apply ledger_unlink; [|done]. left. by rewrite (l_file _ _ _ HL).
  - eapply ledger_hold; [| |exact HL]; [done|by rewrite E].
Qed.

Lemma cleanup_socket_ledger s0 s x log :
  socket_created s0 = socket_created s -> ledger s x log ->
  triple (cleanup_socket s0) (fun _ => ledger (set_created false s) x) log.
Proof.
  unfold cleanup_socket. intros -> HL. destruct (socket_created s) eqn:E; cbn [triple].
  - intros r u. assert (HL1 := ledger_unlink s x log r (or_introl (eq_trans (l_file _ _ _ HL) E)) HL).
    apply ledger_neutral; [|exact HL1]. by destruct (_ && _).
  - eapply ledger_hold; [| |exact HL]; [done|by rewrite E].
Qed.

(** Nothing is left: every descriptor closed, no socket file in place but one whose
    removal the system refused. *)
Definition clean (log : list (event sys)) : Prop :=
  opened log ≡ₚ closed log /\ (file_in_place log = true -> removal_failed log) /\ unlinks_ok log.

(** A file stays in place because nobody asked to remove it, or in vain. *)
Lemma file_stays log :
  unlinks_ok log -> file_in_place log = true -> file_ours log = true \/ removal_failed log.
Proof.
  induction log as [|e log IH] using rev_ind; [done|]. intros Hu.
  assert (Hu' : unlinks_ok log).
  { intros before p r after ->. by apply (Hu before p r (after ++ [e])); rewrite <- app_assoc. }
  rewrite file_ours_snoc. unfold file_in_place. rewrite fold_left_app. cbn [fold_left]. fold (file_in_place log).
  destruct (removes e) eqn:Er; [done|]. intros Hin. destruct (is_unlink e) eqn:Eu.
  - right. destruct e as [A [] r]; try done. destruct (Hu log path r [] eq_refl) as [-> _]. cbn in Er, Hin.
    exists log, r, []. split_and!; [done|lia|done|by apply list.Forall_nil].
  - destruct (binds_file e) eqn:Eb; [by left|]. cbn [orb] in *.
    destruct (IH Hu' Hin) as [|(before & r & after & -> & Hr & Hb & HF)]; [by left|right].
    exists before, r, (after ++ [e]). split_and!; [by rewrite <- app_assoc|done..|].
    by apply Forall_app_2, Forall_singleton.
Qed.

(** The state with its descriptors out on loan. *)
Lemma ledger_loan s log :
  ledger s [] log ->
  ledger (Build_fds (-1) [] (-1) (socket_created s) (pool s))
    ((if 0 <=? listen_fd s then [listen_fd s] else []) ++ tcp_listen_fds s
     ++ (if 0 <=? signal_fd s then [signal_fd s] else []) ++ []) log.
Proof.
  intros HL. eapply ledger_hold; [| |exact HL]; [|done]. unfold held at 1 2. cbn -[Z.leb].
  rewrite !app_nil_r. done.
Qed.

Lemma ledger_clean s log : held s = [] -> socket_created s = false -> ledger s [] log -> clean log.
Proof.
  intros Hh Hc [H1 H2 H3]. split_and!; [by rewrite H1, Hh, !app_nil_r| |done].
  intros Hin. destruct (file_stays log H3 Hin) as [Ho|]; [congruence|done].
Qed.

Lemma destroy_ledger s log : ledger s [] log -> triple (destroy s) (fun _ => clean) log.
Proof.
  intros HL%ledger_loan. unfold destroy.
  apply triple_bind. eapply triple_conseq; [|by apply shutdown_pool_ledger]. intros [] log1 H1; cbn beta in H1.
  apply triple_bind. eapply triple_conseq; [|by apply close_fd_ledger]. intros [] log2 H2; cbn beta in H2.
  apply triple_bind. eapply triple_conseq; [|by apply close_all_ledger]. intros [] log3 H3; cbn beta in H3.
  apply triple_bind. eapply triple_conseq; [|by apply close_fd_ledger]. intros [] log4 H4; cbn beta in H4.
  eapply triple_conseq; [|apply remove_socket_ledger; [|exact H4]]; [|done]. intros [] log5 H5. cbn beta in H5.
  by apply ledger_clean in H5.
Qed.

Lemma cleanup_ledger s log : ledger s [] log -> triple (cleanup s) (fun s' log' => clean log' /\ held s' = []) log.
Proof.
  intros HL%ledger_loan. unfold cleanup. cbn [triple]. intros u.
  apply (ledger_neutral _ _ _ (Ev (LogLine Log.Info (B"shutting down")) u) eq_refl) in HL.
  apply triple_bind. eapply triple_conseq; [|by apply shutdown_pool_ledger]. intros [] log1 H1; cbn beta in H1.
  apply triple_bind. eapply triple_conseq; [|by apply close_fd_ledger]. intros [] log2 H2; cbn beta in H2.
  apply triple_bind. eapply triple_conseq; [|by apply close_all_ledger]. intros [] log3 H3; cbn beta in H3.
  apply triple_bind. eapply triple_conseq; [|apply cleanup_socket_ledger; [|exact H3]]; [|done]. intros [] log4 H4; cbn beta in H4.
  apply triple_bind. eapply triple_conseq; [|by apply close_fd_ledger]. intros [] log5 H5; cbn beta in H5.
  cbn [triple]. intros u'. apply (ledger_neutral _ _ _ (Ev (LogLine Log.Info (B"shutdown complete")) u') eq_refl) in H5.
  split; [by apply ledger_clean in H5|]. unfold held, closed_fd. cbn -[Z.leb].
  destruct (Z.leb_spec 0 (listen_fd s)) as [?|?], (Z.leb_spec 0 (signal_fd s)) as [?|?]; cbn -[Z.leb];
    repeat (match goal with |- context [0 <=? ?x] => destruct (Z.leb_spec 0 x); [lia|] end); done.
Qed.

Lemma clean_destroy_nothing s : held s = [] -> tcp_listen_fds s = [] -> socket_created s = false -> pool s = false -> destroy s = Ret tt.
Proof.
  intros Hh Ht Hc Hp. unfold destroy, shutdown_pool, remove_socket, close_fd. rewrite Hp, Hc, Ht. unfold held in Hh.
  rewrite Ht in Hh. by destruct (0 <=? listen_fd s), (0 <=? signal_fd s).
Qed.

(** ** Properties *)

(** C13: nothing is left behind.  Whatever the system calls answer: after a failed or
    a successful [init], the destructor leaves every descriptor that [init] opened
    closed exactly as often as it was opened, and the socket file that [init] bound gone,
    unless the file system refused the [unlink] that was tried after the last [bind].
    A successful [init] holds the signal descriptor, the UNIX listener and as many TCP
    listeners as configured (two for the loopback default); [cleanup] after it closes
    and removes everything too, and the destructor then makes no further call. *)
Theorem init_undone (w : world sys) :
  let '((s, st), log) := run_log w (init no_fds) [] in
  clean (run_log w (destroy s) log).2 /\
  (st = None ->
     ready s /\ clean (run_log w (cleanup s) log).2 /\ destroy (run_log w (cleanup s) log).1 = Ret tt).
Proof.
  pose proof (triple_run w _ _ _ init_ledger) as [HL Hr].
  destruct (run_log w (init no_fds) []) as [[s st] log]. cbn [fst snd] in *.
  split; [exact (triple_run w _ _ _ (destroy_ledger s log HL))|]. intros Hst. split; [by apply Hr|].
  pose proof (triple_run w _ _ _ (cleanup_ledger s log HL)) as [Hc Hh]. split; [exact Hc|].
  unfold cleanup in *. cbn [run_log] in *. rewrite !run_log_bind in *. cbn [run_log fst] in *. by apply clean_destroy_nothing.
Qed.

(** C4: no file is removed by mistake.  Whatever the system calls answer, every
    [unlink] of a start-up, failed or not, and of the destructor names the configured
    socket path, and at that moment the file is one this process bound, or the last
    calls found a socket there whose probe could not be made or did not connect. *)
Theorem removes_only_dead_sockets (w : world sys) (before after : list (event sys)) (p : bytes) (r : ret)
    (Hlog : (run_log w (do r := init no_fds in destroy r.1) []).2 = before ++ Ev (Unlink p) r :: after) :
  p = c_str (Config.socket_path cfg) /\
  (file_ours before = true \/ looked_dead (Config.socket_path cfg) before).
Proof.
  assert (HT : triple (do r := init no_fds in destroy r.1) (fun _ => clean) []).
  { apply triple_bind. eapply triple_conseq; [|apply init_ledger]. intros r0 log [HL _]. by apply destroy_ledger. }
  apply (triple_run w) in HT as (_ & _ & Hu). by eapply Hu.
Qed.

End Listen.

(** ** Witness: a stale socket is in the way. *)

Definition answer (v e : Z) : ret := {| rv := v; errno := e; errno_str := B"error" |}.

Definition stale_world : world sys := fun log A o =>
  match o in sys A return A with
  | Sigprocmask => answer 0 0
  | Signalfd => answer 3 0
  | Socket _ => answer 4 0
  | Connect _ _ => answer (-1) 111
  | Mkdir _ _ => answer (-1) EEXIST
  | Lstat path => (answer 0 0, if decide (path = B"/run/nshmqtt") then KDirectory else KSocket)
  | InetPton _ _ => true
  | InetNtop _ => B"127.0.0.1"
  | Close _ | PoolStart _ | PoolShutdown | LogLine _ _ => tt
  | Setsockopt _ _ | Bind _ _ | ListenOn _ | AccessW _ | Unlink _ | Chmod _ _ => answer 0 0
  end.

Lemma removes_only_dead_sockets_witness :
  let cfg := Config.default_config 4 (fun _ => 0%N) in
  exists before r after,
    (run_log stale_world (do r := init cfg no_fds in destroy cfg r.1) []).2
    = before ++ Ev (Unlink (B"/run/nshmqtt/nshmqtt.sock")) r :: after /\
    length after = 12%nat /\
    (file_ours before = true \/ looked_dead (Config.socket_path cfg) before).
Proof.
  intros cfg. eexists (_ :: _ :: _ :: _ :: _ :: _ :: _ :: _ :: _ :: []), _, _. split; [vm_compute; reflexivity|].
  split; [vm_compute; reflexivity|].
  eapply (removes_only_dead_sockets cfg stale_world _ _ (B"/run/nshmqtt/nshmqtt.sock")).
  vm_compute. reflexivity.
Defined.

End Listen.
