(* ===== verification/Loop.v ===== *)
(** * server.cpp: the main loop and the Prometheus textfile

    [Server::run] as a function of what [poll], [accept4], the signal descriptor and
    the clock return in each round, the textfile as a program over the shared state,
    and the loop together with the worker pool. *)

From S2P Require Import Prelude CLib Double TextUtil Config State Metrics Http Mqtt Log Publisher Threads ThreadPool Prog Server Listen.
Local Open Scope Z_scope.

Module Loop.

Section Loop.
Context (cfg : Config.Config).

(** ** One round *)

Definition SIGINT : Z := 2.
Definition SIGTERM : Z := 15.

(** [listeners]: for each listener in the order of [fds], whether [poll] reported
    it and what the [accept4] calls on it answer.  [siginfo]: the signal of a complete
    read.  The clock (nanoseconds) is read before the poll, for the test of the
    textfile's time, and after writing it. *)
Record round := {
  before : Z; polled : Listen.ret; listeners : list (bool * list Listen.ret);
  signalled : bool; siginfo : option Z; after : Z; written : Z
}.

Inductive act :=
| Polled (timeout_ms : Z) | Submitted (fd : Z) | Wrote (tested finished : Z)
| Logged (level : Log.LogLevel) (msg : bytes).

(** A failed [accept4] that is neither an interruption nor the end of the queue is logged. *)
Definition accept_failed (r : Listen.ret) : list act :=
  if (Listen.errno r =? Listen.EINTR) || (Listen.errno r =? Listen.EAGAIN) then []
  else [Logged Log.Warn (B"accept() failed: " ++ Listen.errno_str r)].

(** Accept until a call fails; [None] while the answers do not say so yet. *)
Fixpoint accept_loop (answers : list Listen.ret) : option (list act) :=
  match answers with
  | [] => None
  | r :: rest =>
      if Listen.rv r <? 0 then Some (accept_failed r)
      else acts ← accept_loop rest; Some (Submitted (Listen.rv r) :: acts)
  end.

Fixpoint accept_all (ls : list (bool * list Listen.ret)) : option (list act) :=
  match ls with
  | [] => Some []
  | (pollin, answers) :: rest =>
      acts ← (if pollin then accept_loop answers else Some []);
      more ← accept_all rest; Some (acts ++ more)
  end.

Definition has_textfile : bool := bool_decide (Config.prometheus_textfile cfg <> []).

(** [static_cast<int>]. *)
Definition to_int (z : Z) : Z := (z + 2 ^ 31) mod 2 ^ 32 - 2 ^ 31.

Definition poll_timeout_ms (next_textfile_write now : Z) : Z :=
  if has_textfile then
    let remaining_ms := Z.quot (next_textfile_write - now) 1000000 in
    to_int (if 0 <? remaining_ms then remaining_ms else 0)
  else -1.

Definition stop_signal (r : round) : bool :=
  signalled r && match siginfo r with Some n => (n =? SIGTERM) || (n =? SIGINT) | None => false end.

Definition signal_log (r : round) : list act :=
  if stop_signal r then
    [Logged Log.Info (B"received signal " ++ (if bool_decide (siginfo r = Some SIGTERM) then B"SIGTERM" else B"SIGINT")
                      ++ B", shutting down")]
  else [].

Definition interval_ns : Z := Config.prometheus_textfile_interval_seconds cfg * 1000000000.

(** What the round does, the next time of the textfile, and [running] (a [break]
    ends the loop as well). *)
Definition serve_round (next : Z) (r : round) : option (list act * Z * bool) :=
  let poll := [Polled (poll_timeout_ms next (before r))] in
  if Listen.rv (polled r) <? 0 then
    if Listen.errno (polled r) =? Listen.EINTR then Some (poll, next, true)
    else Some (poll ++ [Logged Log.Error (B"poll() failed: " ++ Listen.errno_str (polled r))], next, false)
  else
    acts ← accept_all (listeners r);
    let running := negb (stop_signal r) in
    let acts := acts ++ signal_log r in
    if has_textfile && (next <=? after r)
    then Some (poll ++ acts ++ [Wrote (after r) (written r)], written r + interval_ns, running)
    else Some (poll ++ acts, next, running).

(** The loop: what it did, and the rounds it did not need. *)
Fixpoint serve (next : Z) (rounds : list round) : option (list act * list round) :=
  match rounds with
  | [] => None
  | r :: rest =>
      '(acts, next, running) ← serve_round next r;
      if running : bool then '(more, unused) ← serve next rest; Some (acts ++ more, unused)
      else Some (acts, rest)
  end.

(** [run]: the first time of the textfile is now. *)
Definition run (now : Z) (rounds : list round) : option (list act * list round) :=
  '(acts, unused) ← serve now rounds; Some (Logged Log.Info (B"nshmqtt ready") :: acts, unused).

(** ** The textfile *)

Definition textfile_warning (r : StateStore.save_event * bytes) : option bytes :=
  let tmp_path := Config.prometheus_textfile cfg ++ B".tmp" in
  match r.1 with
  | StateStore.SaveOk => None
  | StateStore.OpenFails => Some (B"failed to open prometheus textfile for writing: " ++ tmp_path)
  | StateStore.WriteFails => Some (B"failed to write prometheus textfile: " ++ tmp_path)
  | StateStore.RenameFails =>
      Some (B"failed to rename prometheus textfile into place (" ++ tmp_path ++ B" -> "
            ++ Config.prometheus_textfile cfg ++ B"): " ++ r.2)
  end.

Definition write_prometheus_textfile : prog Server.op unit :=
  if decide (Config.prometheus_textfile cfg = []) then Ret tt
  else
    let! snapshot := Server.StateSnapshot in
    let normalized := Server.normalized_state cfg snapshot in
    do service := Server.service_metrics cfg normalized in
    let! r := Server.WriteTextfile (Config.prometheus_textfile cfg)
                (service ++ Metrics.render_prometheus_state_metrics (Metrics.nm_metrics normalized)) in
    match textfile_warning r with
    | Some msg => let! _ := Server.LogLine Log.Warn msg in Ret tt
    | None => Ret tt
    end.

(** ** Lemmas *)

Definition stops (r : round) : bool :=
  if Listen.rv (polled r) <? 0 then negb (Listen.errno (polled r) =? Listen.EINTR) else stop_signal r.

Definition answered (answers : list Listen.ret) : Prop := Exists (fun r => Listen.rv r < 0) answers.

(** Every accept loop of the round comes to an end. *)
Definition completes (r : round) : Prop :=
  0 <= Listen.rv (polled r) -> Forall (fun l => l.1 = true -> answered l.2) (listeners r).

(** The descriptors before the first failing answer. *)
Fixpoint accepted (answers : list Listen.ret) : list Z :=
  match answers with
  | [] => []
  | r :: rest => if Listen.rv r <? 0 then [] else Listen.rv r :: accepted rest
  end.

(** The connections of a round: listener after listener, in the order accepted. *)
Definition connections (r : round) : list Z :=
  if Listen.rv (polled r) <? 0 then []
  else concat (map (fun l : bool * list Listen.ret => if l.1 then accepted l.2 else []) (listeners r)).

Definition submitted (acts : list act) : list Z :=
  omap (fun a => match a with Submitted fd => Some fd | _ => None end) acts.

Lemma submitted_app a b : submitted (a ++ b) = submitted a ++ submitted b.
Proof. apply omap_app. Qed.

(** Acts of an accept loop or of the signal: none is timed. *)
Definition untimed (a : act) : Prop := match a with Submitted _ | Logged _ _ => True | _ => False end.

Lemma accept_failed_untimed r : Forall untimed (accept_failed r) /\ submitted (accept_failed r) = [].
Proof. unfold accept_failed. destruct (_ || _); split; try done; each done. Qed.

Lemma signal_log_untimed r : Forall untimed (signal_log r) /\ submitted (signal_log r) = [].
Proof. unfold signal_log. destruct (stop_signal r); split; try done; each done. Qed.

Lemma accept_loop_untimed answers acts : accept_loop answers = Some acts -> Forall untimed acts.
Proof.
  revert acts. induction answers as [|r rest IH]; intros acts; cbn [accept_loop]; [done|].
  destruct (_ <? 0); [intros [= <-]; apply accept_failed_untimed|].
  destruct (accept_loop rest) as [more|]; [|done]. intros [= <-]. apply list.Forall_cons_2; [done|]. by apply IH.
Qed.

Lemma accept_all_untimed ls acts : accept_all ls = Some acts -> Forall untimed acts.
Proof.
  revert acts. induction ls as [|[pollin answers] ls IH]; intros acts; cbn [accept_all]; [by intros [= <-]|].
  destruct (if pollin then _ else _) as [mine|] eqn:E; [|done]. cbn [mbind option_bind].
  destruct (accept_all ls) as [more|]; [|done]. intros [= <-]. apply Forall_app_2; [|by apply IH].
  destruct pollin; [by eapply accept_loop_untimed|by injection E as <-].
Qed.

Lemma accept_loop_spec answers : answered answers -> exists acts, accept_loop answers = Some acts /\ submitted acts = accepted answers.
Proof.
  induction 1 as [r rest Hr|r rest _ IH]; cbn [accept_loop accepted].
  - destruct (Z.ltb_spec (Listen.rv r) 0); [|lia]. eexists. split; [done|]. apply accept_failed_untimed.
  - destruct (_ <? 0); [eexists; split; [done|]; apply accept_failed_untimed|]. destruct IH as (acts & -> & E). eexists. split; [done|]. cbn. by f_equal.
Qed.

Lemma accept_all_spec ls :
  Forall (fun l : bool * list Listen.ret => l.1 = true -> answered l.2) ls ->
  exists acts, accept_all ls = Some acts /\
    submitted acts = concat (map (fun l : bool * list Listen.ret => if l.1 then accepted l.2 else []) ls).
Proof.
  induction 1 as [|[[] answers] ls Hl _ (more & IH & Em)]; cbn [accept_all map concat fst snd]; [by exists []| |].
  - destruct (accept_loop_spec answers (Hl eq_refl)) as (acts & -> & Ea). cbn [mbind option_bind]. rewrite IH.
    exists (acts ++ more). split; [done|]. by rewrite submitted_app, Ea, Em.
  - cbn [mbind option_bind]. rewrite IH. by exists more.
Qed.

Lemma serve_round_spec next r :
  completes r ->
  exists acts next', serve_round next r = Some (acts, next', negb (stops r)) /\ submitted acts = connections r.
Proof.
  intros Hc. unfold serve_round, stops, connections. destruct (Z.ltb_spec (Listen.rv (polled r)) 0) as [Hp|Hp].
  - destruct (_ =? _); (do 2 eexists; by split).
  - destruct (accept_all_spec (listeners r) (Hc Hp)) as (acts & -> & Ea). cbn [mbind option_bind].
    destruct (signal_log_untimed r) as [_ Es].
    destruct (_ && _); (do 2 eexists; split; [reflexivity|]);
      rewrite ?submitted_app, Ea, Es; cbn; by rewrite ?app_nil_r.
Qed.

Lemma serve_spec next early r late :
  Forall completes (early ++ [r]) -> Forall (fun r => stops r = false) early -> stops r = true ->
  exists acts, serve next (early ++ r :: late) = Some (acts, late) /\
    submitted acts = concat (map connections (early ++ [r])).
Proof.
  revert next. induction early as [|r0 early IH]; intros next Hc He Hs; cbn [app] in *; cbn [serve].
  - apply list.Forall_cons in Hc as [Hc _]. destruct (serve_round_spec next r Hc) as (acts & next' & -> & Ha).
    rewrite Hs. cbn. exists acts. split; [done|]. by rewrite app_nil_r.
  - apply list.Forall_cons in Hc as [Hc0 Hc], He as [He0 He].
    destruct (serve_round_spec next r0 Hc0) as (acts & next' & -> & Ha). rewrite He0. cbn [negb mbind option_bind].
    destruct (IH next' Hc He Hs) as (more & E & Hm). rewrite E. cbn [mbind option_bind]. exists (acts ++ more).
    split; [done|]. rewrite submitted_app, Ha, Hm. done.
Qed.

Lemma run_spec next early r late :
  Forall completes (early ++ [r]) -> Forall (fun r => stops r = false) early -> stops r = true ->
  exists acts, run next (early ++ r :: late) = Some (acts, late) /\
    submitted acts = concat (map connections (early ++ [r])).
Proof.
  intros Hc He Hs. destruct (serve_spec next early r late Hc He Hs) as (acts & E & Ha).
  unfold run. rewrite E. by eexists.
Qed.

(** *** Times *)

Definition timeouts (acts : list act) : list Z :=
  omap (fun a => match a with Polled t => Some t | _ => None end) acts.
Definition writes (acts : list act) : list (Z * Z) :=
  omap (fun a => match a with Wrote t f => Some (t, f) | _ => None end) acts.

(** The clock does not go back. *)
Fixpoint steady (now : Z) (rounds : list round) : Prop :=
  match rounds with
  | [] => True
  | r :: rest => now <= before r <= after r /\ after r <= written r /\ steady (written r) rest
  end.

Fixpoint spaced (last : Z) (ws : list (Z * Z)) : Prop :=
  match ws with [] => True | (t, f) :: rest => last + interval_ns <= t <= f /\ spaced f rest end.

Lemma timeouts_app a b : timeouts (a ++ b) = timeouts a ++ timeouts b.
Proof. apply omap_app. Qed.
Lemma writes_app a b : writes (a ++ b) = writes a ++ writes b.
Proof. apply omap_app. Qed.
Lemma untimed_times acts : Forall untimed acts -> timeouts acts = [] /\ writes acts = [].
Proof. induction 1 as [|[] acts Ha _ IH]; done. Qed.

Lemma timeouts_poll t acts : timeouts (Polled t :: acts) = t :: timeouts acts.
Proof. done. Qed.
Lemma writes_poll t acts : writes (Polled t :: acts) = writes acts.
Proof. done. Qed.

Lemma to_int_small z : 0 <= z < 2 ^ 31 -> to_int z = z.
Proof. intros H. unfold to_int. rewrite Z.mod_small; lia. Qed.

(** The wait never overshoots the next write, and fits an [int]. *)
Definition timeout_ok (t : Z) : Prop :=
  if has_textfile then 0 <= t <= 1000 * Config.prometheus_textfile_interval_seconds cfg else t = -1.

Lemma poll_timeout_ok next now :
  1 <= Config.prometheus_textfile_interval_seconds cfg <= 86400 -> next <= now + interval_ns ->
  timeout_ok (poll_timeout_ms next now).
Proof.
  intros Hi Hn. unfold timeout_ok, poll_timeout_ms, interval_ns in *. destruct has_textfile; [|done].
  destruct (Z.ltb_spec 0 (Z.quot (next - now) 1000000)) as [Hq|Hq]; [|rewrite to_int_small; lia].
  assert (Z.quot (next - now) 1000000 <= 1000 * Config.prometheus_textfile_interval_seconds cfg).
  { destruct (Z.le_ge_cases 0 (next - now)) as [Hp|Hp].
    - apply Z.quot_le_upper_bound; lia.
    - assert (Z.quot (next - now) 1000000 <= 0); [|lia].
      rewrite <- (Z.opp_involutive (next - now)), Z.quot_opp_l by lia.
      assert (0 <= Z.quot (- (next - now)) 1000000) by (apply Z.quot_pos; lia). lia. }
  rewrite to_int_small; lia.
Qed.

Lemma serve_round_times next now r acts next' running :
  1 <= Config.prometheus_textfile_interval_seconds cfg <= 86400 ->
  next <= now + interval_ns -> now <= before r <= after r -> after r <= written r ->
  serve_round next r = Some (acts, next', running) ->
  Forall timeout_ok (timeouts acts) /\ next' <= written r + interval_ns /\
  ((writes acts = [] /\ next' = next) \/
   (exists t f, writes acts = [(t, f)] /\ next <= t <= f /\ next' = f + interval_ns)).
Proof.
  intros Hi Hn Hb Hw. unfold serve_round.
  assert (Ht : timeout_ok (poll_timeout_ms next (before r))) by (apply poll_timeout_ok; lia).
  generalize dependent (poll_timeout_ms next (before r)). intros t Ht. destruct (_ <? 0).
  { destruct (_ =? _); intros [= <- <- <-]; (split_and!; [by apply list.Forall_singleton|lia|by left]). }
  destruct (accept_all _) as [acts0|] eqn:Ea; [|done]. cbn [mbind option_bind].
  destruct (untimed_times (acts0 ++ signal_log r)) as [Hto Hwr].
  { apply Forall_app_2; [by eapply accept_all_untimed|apply signal_log_untimed]. }
  destruct (_ && (next <=? after r)) eqn:Ew; intros [= <- <- <-];
    rewrite timeouts_poll, writes_poll, ?(timeouts_app (acts0 ++ _)), ?(writes_app (acts0 ++ _)), Hto, Hwr; cbn -[interval_ns].
  - apply andb_true_iff in Ew as [_ Ew%Z.leb_le]. split_and!; [by apply list.Forall_singleton|lia|].
    right. by exists (after r), (written r).
  - split_and!; [by apply list.Forall_singleton|lia|by left].
Qed.

Lemma serve_times next now last rounds acts unused :
  1 <= Config.prometheus_textfile_interval_seconds cfg <= 86400 ->
  next <= now + interval_ns -> last + interval_ns <= next -> steady now rounds ->
  serve next rounds = Some (acts, unused) ->
  Forall timeout_ok (timeouts acts) /\ spaced last (writes acts).
Proof.
  intros Hi. revert next now last acts. induction rounds as [|r rest IH]; intros next now last acts Hn Hl Hs; cbn [serve]; [done|].
  destruct Hs as (Hb & Hw & Hs). destruct (serve_round next r) as [[[acts1 next1] running]|] eqn:E; [|done].
  destruct (serve_round_times _ _ _ _ _ _ Hi Hn Hb Hw E) as (Ht & Hn1 & Hcase). cbn [mbind option_bind].
  destruct running.
  - destruct (serve next1 rest) as [[more un]|] eqn:E2; [|done]. cbn [mbind option_bind]. intros [= <- <-].
    rewrite timeouts_app, writes_app.
    destruct Hcase as [[-> ->]|(t & f & -> & Htf & ->)].
    + destruct (IH next (written r) last more Hn1 Hl Hs E2) as [H1 H2]. split; [by apply Forall_app|done].
    + destruct (IH (f + interval_ns) (written r) f more Hn1 ltac:(lia) Hs E2) as [H1 H2].
      split; [by apply Forall_app|]. cbn. split; [lia|done].
  - intros [= <- <-]. split; [done|]. destruct Hcase as [[-> _]|(t & f & -> & Htf & _)]; cbn; [done|]. split; [lia|done].
Qed.

(** ** Properties *)

(** The loop takes every connection until it is told to stop.  Given rounds in
    which each accept loop comes to an end, the loop ends with the first round in which
    SIGTERM or SIGINT is read or [poll] fails other than by EINTR, uses no later round,
    and by then has submitted exactly the connections accepted in all rounds so far,
    that one included, in the order accepted. *)
Theorem loop_serves_until_stopped (next : Z) (early late : list round) (r : round)
    (Hc : Forall completes (early ++ [r])) (He : Forall (fun r => stops r = false) early) (Hs : stops r = true) :
  exists acts, run next (early ++ r :: late) = Some (acts, late) /\
    submitted acts = concat (map connections (early ++ [r])).
Proof. by apply run_spec. Qed.

(** The textfile keeps its pace.  With an interval the configuration accepts and a
    clock that does not go back, every wait is infinite exactly when no textfile is
    configured and else at most the interval, without overflowing an [int]; and from
    the end of one write to the time of the next at least the interval passes, the
    first write coming no earlier than the start. *)
Theorem textfile_paced (now : Z) (rounds unused : list round) (acts : list act)
    (Hi : 1 <= Config.prometheus_textfile_interval_seconds cfg <= 86400) (Hs : steady now rounds)
    (Hrun : run now rounds = Some (acts, unused)) :
  Forall timeout_ok (timeouts acts) /\ spaced (now - interval_ns) (writes acts).
Proof.
  unfold run in Hrun. destruct (serve now rounds) as [[acts0 un]|] eqn:E; [|done]. injection Hrun as <- <-.
  apply (serve_times now now (now - interval_ns) rounds acts0 un); [done|unfold interval_ns; lia|lia|done|done].
Qed.

(** C12: every accepted connection is handled before the process ends.  The main thread
    submits the connections of the loop to a pool of at least one worker and then shuts
    it down; in any interleaving with the workers, once [shutdown] has returned the
    handler has run exactly once for each connection accepted up to the stop, and none
    was closed unserved. *)
Theorem accepted_are_handled (n : nat) (next : Z) (early late : list round) (r : round)
    (acts : list act) (unused : list round) (es1 es2 : list ThreadPool.event) (s : ThreadPool.pool)
    (Hn : (0 < n)%nat)
    (Hc : Forall completes (early ++ [r])) (He : Forall (fun r => stops r = false) early) (Hs : stops r = true)
    (Hrun : run next (early ++ r :: late) = Some (acts, unused))
    (Hes1 : ThreadPool.submits es1 = submitted acts) (Hes2 : ThreadPool.submits es2 = [])
    (Hpool : Threads.run ThreadPool.exec (es1 ++ ThreadPool.Shutdown :: es2) (ThreadPool.create n) = Some s)
    (Hdone : ThreadPool.accept s = ThreadPool.ADone) :
  ThreadPool.handled s ≡ₚ concat (map connections (early ++ [r])) /\ ThreadPool.closed s = [].
Proof.
  destruct (run_spec next early r late Hc He Hs) as (acts' & E & Hsub). rewrite E in Hrun.
  injection Hrun as <- _. pose proof (ThreadPool.run_reachable _ _ _ Hpool) as Hreach.
  destruct (ThreadPool.done_drained n s Hn (ThreadPool.pool_reachable_inv n s Hn Hreach) Hdone) as [_ Hh].
  rewrite Threads.run_app in Hpool. destruct (Threads.run _ es1 _) as [s1|] eqn:E1; [|done].
  pose proof (ThreadPool.pool_reachable_inv n s1 Hn (ThreadPool.run_reachable _ _ _ E1)) as Hi1.
  cbn [Threads.run] in Hpool. destruct (ThreadPool.exec ThreadPool.Shutdown s1) as [s2|] eqn:E2; [|done].
  assert (Hcr : ThreadPool.open_unless_stopped (ThreadPool.create n)) by done.
  destruct (ThreadPool.run_submits _ _ _ E1 Hcr) as [Ho1 Ha1].
  assert (Hidle : ThreadPool.accept s1 = ThreadPool.AIdle) by (cbn in E2; by case_decide).
  assert (Hstop : ThreadPool.stop_ s1 = false) by (apply Hi1; by left).
  rewrite (Ho1 Hstop), app_nil_r in Ha1. cbn in Ha1.
  assert (Hc2 : ThreadPool.closed s2 = [] /\ ThreadPool.accepted s2 = ThreadPool.accepted s1).
  { cbn in E2. rewrite decide_True in E2 by done. injection E2 as <-. unfold ThreadPool.shutdown. rewrite Hstop. cbn. split; [by apply Ho1|done]. }
  destruct Hc2 as [Hc2 Ha2]. destruct (ThreadPool.run_no_submits _ _ _ Hpool Hes2) as [Ha3 Hc3].
  split; [|congruence]. by rewrite Hh, Ha3, Ha2, Ha1, Hes1, Hsub.
Qed.

(** The textfile says what the two endpoints say.  In any state, with the metrics
    endpoints enabled: if the file can be written and renamed into place, its new content
    is the body of GET /metrics followed by the body of GET /metrics-state at that moment;
    otherwise the old file stays and one warning says which step failed.  Nothing else changes. *)
Theorem textfile_content {M : Type} `{!Publisher M} (k : Server.sock) (s : Server.server (M := M))
    (Ht : Config.prometheus_textfile cfg <> []) (Hp : Config.prometheus_http cfg = true) :
  exists service state s',
    Server.run (Server.handle_metrics cfg true) k s = Some (service, k, s) /\
    Server.run (Server.handle_metrics cfg false) k s = Some (state, k, s) /\
    Server.run write_prometheus_textfile k s = Some (tt, k, s') /\
    (let r := hd (StateStore.SaveOk, []) (Server.textfile_saves s) in
     Server.textfile s' = match r.1 with
                          | StateStore.SaveOk => Some (Http.resp_body service ++ Http.resp_body state)
                          | _ => Server.textfile s
                          end /\
     Server.logged s' = Server.logged s ++ option_list (pair Log.Warn <$> textfile_warning r)) /\
    Server.values s' = Server.values s /\ Server.file s' = Server.file s /\ Server.pub s' = Server.pub s /\
    Server.offered s' = Server.offered s.
Proof.
  unfold write_prometheus_textfile, Server.handle_metrics. rewrite Hp, decide_False by done.
  destruct s as [v f sv p up wd wo off t saves lg].
  destruct saves as [|[[] err] saves]; eexists _, _, _; (split; [reflexivity|]); (split; [reflexivity|]);
    (split; [reflexivity|]); cbn; by rewrite ?app_nil_r.
Qed.

End Loop.

(** ** Witnesses *)

Definition ok (v : Z) : Listen.ret := {| Listen.rv := v; Listen.errno := 0; Listen.errno_str := [] |}.
Definition again : Listen.ret := {| Listen.rv := -1; Listen.errno := Listen.EAGAIN; Listen.errno_str := [] |}.

Definition interrupted : Listen.ret := {| Listen.rv := -1; Listen.errno := Listen.EINTR; Listen.errno_str := [] |}.

(** Two connections on the UNIX socket, one on TCP; then SIGTERM with a last one. *)
Definition demo_rounds : list round :=
  [{| before := 0; polled := ok 2; listeners := [(true, [ok 7; ok 8; again]); (true, [ok 9; again])];
      signalled := false; siginfo := None; after := 1; written := 5 |};
   {| before := 6; polled := interrupted; listeners := []; signalled := false; siginfo := None; after := 6; written := 6 |}].
Definition demo_stop : round :=
  {| before := 9; polled := ok 2; listeners := [(false, []); (true, [ok 10; again])];
     signalled := true; siginfo := Some 15; after := 60000000005; written := 60000000007 |}.

Definition demo_config : Config.Config :=
  Config.set_prometheus_textfile (B"/run/m.prom") (Config.default_config 4 (fun _ => 0%N)).

Lemma demo_completes : Forall completes (demo_rounds ++ [demo_stop]).
Proof.
  repeat (apply list.Forall_cons_2; [|]); [| | |apply list.Forall_nil; exact I]; intros Hp;
    repeat (apply list.Forall_cons_2; [intros Hl|]); try (apply list.Forall_nil; exact I); try discriminate Hl.
  - do 2 apply List.Exists_cons_tl. apply List.Exists_cons_hd. reflexivity.
  - apply List.Exists_cons_tl, List.Exists_cons_hd. reflexivity.
  - apply List.Exists_cons_tl, List.Exists_cons_hd. reflexivity.
Defined.

Lemma demo_goes_on : Forall (fun r => stops r = false) demo_rounds.
Proof. each (reflexivity). Defined.

Lemma loop_serves_until_stopped_witness :
  exists acts, run demo_config 0 (demo_rounds ++ demo_stop :: []) = Some (acts, []) /\ submitted acts = [7; 8; 9; 10].
Proof.
  exact (loop_serves_until_stopped demo_config 0 demo_rounds [] demo_stop demo_completes demo_goes_on eq_refl).
Defined.

Lemma textfile_paced_witness :
  exists acts unused, run demo_config 0 (demo_rounds ++ [demo_stop]) = Some (acts, unused) /\
    writes acts = [(1, 5); (60000000005, 60000000007)] /\ timeouts acts = [0; 59999; 59999] /\
    spaced demo_config (0 - interval_ns demo_config) (writes acts).
Proof.
  eexists _, _. split; [vm_compute; reflexivity|]. split; [reflexivity|]. split; [reflexivity|].
  eapply (textfile_paced demo_config 0 (demo_rounds ++ [demo_stop])); [cbn; lia|cbn; lia|vm_compute; reflexivity].
Defined.

Lemma accepted_are_handled_witness :
  exists acts s,
    run demo_config 0 (demo_rounds ++ demo_stop :: []) = Some (acts, []) /\
    ThreadPool.accept s = ThreadPool.ADone /\
    ThreadPool.handled s ≡ₚ [7; 8; 9; 10] /\ ThreadPool.closed s = [].
Proof.
  eexists _, _. split; [vm_compute; reflexivity|]. split.
  2:{ eapply (accepted_are_handled demo_config 1 0 demo_rounds [] demo_stop _ []
        (concat (map (fun fd => [ThreadPool.Submit fd; ThreadPool.NotifyOne None]) [7; 8; 9; 10]))
        (ThreadPool.NotifyAll :: map ThreadPool.Worker [0; 0; 0; 0; 0; 0; 0; 0; 0]%nat ++ [ThreadPool.Joined]));
      [lia|exact demo_completes|exact demo_goes_on|reflexivity|vm_compute; reflexivity|reflexivity|reflexivity
      |vm_compute; reflexivity|reflexivity]. }
  reflexivity.
Defined.

Lemma textfile_content_witness :
  exists (service state : Http.HttpResponse) s',
    Server.run (M := Mqtt.client * list Mqtt.event) (H := Server.demo_publisher)
      (write_prometheus_textfile demo_config) Server.demo_sock Server.demo_server = Some (tt, Server.demo_sock, s') /\
    Server.textfile s' = Some (Http.resp_body service ++ Http.resp_body state).
Proof.
  destruct (@textfile_content demo_config _ Server.demo_publisher Server.demo_sock Server.demo_server)
    as (service & state & s' & _ & _ & H3 & H4 & _); [discriminate|reflexivity|].
  exists service, state, s'. split; [exact H3|exact (proj1 H4)].
Defined.

End Loop.
