(* ===== verification/Main.v ===== *)
(** * main.cpp: command line, health check and start-up

    The command line as a function on the argument list, the health-check client
    as a function of what its system calls return, and the body of [main] as the
    list of the steps it takes. *)

From S2P Require Import Prelude CLib Double TextUtil Config State Metrics Http Mqtt Publisher Threads Prog Server Connection Listen Loop.

Module Main.

Definition NSHMQTT_VERSION : bytes := B"0.2.0".
Definition kDefaultConfigPath : bytes := B"/etc/nshmqtt/nshmqtt.conf".

(** ** The help table *)

Record ConfigParam := { param_key : bytes; param_env : bytes; param_desc : bytes }.

Definition param (key env desc : string) : ConfigParam :=
  {| param_key := B key; param_env := B env; param_desc := B desc |}.

Definition kParams : list ConfigParam :=
   [param "socket=" "NSHMQTT_SOCKET" "UNIX socket path";
    param "socket_mode=" "NSHMQTT_SOCKET_MODE" "UNIX socket permissions (octal)";
    param "threads=" "NSHMQTT_THREADS" "HTTP worker pool size (1-256)";
    param "max_request_bytes=" "NSHMQTT_MAX_REQUEST_BYTES" "Max request header bytes";
    param "max_body_bytes=" "NSHMQTT_MAX_BODY_BYTES" "Max request body bytes";
    param "debug_log=" "NSHMQTT_DEBUG_LOG" "Log rejected/malformed requests";
    param "tcp_port=" "NSHMQTT_TCP_PORT" "Optional TCP listener port, 0=disabled";
    param "tcp_address=" "NSHMQTT_TCP_ADDRESS" "TCP bind address, empty=loopback";
    param "simple_get=" "NSHMQTT_SIMPLE_GET" "Enable GET .../event|metric/<name>?value=...";
    param "http_auth_tokens=" "NSHMQTT_HTTP_AUTH_TOKENS" "Comma-separated X-Mqtt-Api-Key tokens, empty=disabled";
    param "mqtt_host=" "NSHMQTT_MQTT_HOST" "MQTT broker host";
    param "mqtt_port=" "NSHMQTT_MQTT_PORT" "MQTT broker port";
    param "mqtt_client_id=" "NSHMQTT_MQTT_CLIENT_ID" "MQTT client id";
    param "mqtt_qos=" "NSHMQTT_MQTT_QOS" "Default MQTT QoS (0-2)";
    param "mqtt_pool_size=" "NSHMQTT_MQTT_POOL_SIZE" "Parallel MQTT connections (1-64)";
    param "mqtt_keepalive_seconds=" "NSHMQTT_MQTT_KEEPALIVE_SECONDS" "MQTT keepalive interval";
    param "mqtt_connect_timeout_seconds=" "NSHMQTT_MQTT_CONNECT_TIMEOUT_SECONDS" "MQTT connect timeout";
    param "mqtt_publish_timeout_seconds=" "NSHMQTT_MQTT_PUBLISH_TIMEOUT_SECONDS" "MQTT publish completion timeout";
    param "mqtt_queue_size=" "NSHMQTT_MQTT_QUEUE_SIZE" "Bounded MQTT worker queue depth";
    param "mqtt_username=" "NSHMQTT_MQTT_USERNAME" "MQTT username, empty=none";
    param "mqtt_password=" "NSHMQTT_MQTT_PASSWORD" "MQTT password, empty=none";
    param "subscribe_enabled=" "NSHMQTT_SUBSCRIBE_ENABLED" "Subscribe to MQTT topics into the state store";
    param "subscribe_topics=" "NSHMQTT_SUBSCRIBE_TOPICS" "Comma-separated topic filters";
    param "webhook_enabled=" "NSHMQTT_WEBHOOK_ENABLED" "Subscribe to MQTT topics and POST them to webhook_url";
    param "webhook_url=" "NSHMQTT_WEBHOOK_URL" "Webhook HTTP(S) endpoint URL";
    param "webhook_topics=" "NSHMQTT_WEBHOOK_TOPICS" "Comma-separated topic filters, independent of subscribe_topics";
    param "webhook_auth_header=" "NSHMQTT_WEBHOOK_AUTH_HEADER" "Header name sent with each webhook POST, empty=none";
    param "webhook_auth_value=" "NSHMQTT_WEBHOOK_AUTH_VALUE" "Header value sent with each webhook POST";
    param "webhook_tls_insecure=" "NSHMQTT_WEBHOOK_TLS_INSECURE" "Skip TLS cert verification for webhook_url (testing only)";
    param "webhook_timeout_seconds=" "NSHMQTT_WEBHOOK_TIMEOUT_SECONDS" "Webhook POST timeout";
    param "webhook_queue_size=" "NSHMQTT_WEBHOOK_QUEUE_SIZE" "Bounded queue depth between MQTT subscribe and the webhook worker";
    param "state_enabled=" "NSHMQTT_STATE_ENABLED" "Persist current state to state_file";
    param "state_file=" "NSHMQTT_STATE_FILE" "Current-state JSON file path";
    param "prometheus_http=" "NSHMQTT_PROMETHEUS_HTTP" "Enable GET /metrics";
    param "prometheus_textfile=" "NSHMQTT_PROMETHEUS_TEXTFILE" "Path to periodically write Prometheus metrics to";
    param "prometheus_textfile_interval_seconds=" "NSHMQTT_PROMETHEUS_TEXTFILE_INTERVAL_SECONDS" "How often to write it";
    param "prometheus_prefix=" "NSHMQTT_PROMETHEUS_PREFIX" "Service metric name prefix (GET /metrics)";
    param "prometheus_mqtt_state_prefix=" "NSHMQTT_PROMETHEUS_MQTT_STATE_PREFIX" "State metric name prefix (GET /metrics-state)";
    param "prometheus_mqtt_json_topics=" "NSHMQTT_PROMETHEUS_MQTT_JSON_TOPICS" "Exact topics whose payload is a JSON object to flatten"].

(** ** The command line *)

Record options := {
  config_path : bytes; config_path_explicit : bool;
  health_check_requested : bool; health_check_socket : bytes; health_check_port : Z
}.

Definition default_options : options :=
  {| config_path := kDefaultConfigPath; config_path_explicit := false;
     health_check_requested := false; health_check_socket := []; health_check_port := 0 |}.

Definition with_config (path : bytes) (o : options) : options :=
  Build_options path true (health_check_requested o) (health_check_socket o) (health_check_port o).
Definition with_health_check (o : options) : options :=
  Build_options (config_path o) (config_path_explicit o) true (health_check_socket o) (health_check_port o).
Definition with_socket (path : bytes) (o : options) : options :=
  Build_options (config_path o) (config_path_explicit o) (health_check_requested o) path (health_check_port o).
Definition with_port (port : Z) (o : options) : options :=
  Build_options (config_path o) (config_path_explicit o) (health_check_requested o) (health_check_socket o) port.

(** How the loop over [argv] ends; [Usage] is exit code 2 with the message on
    standard error. *)
Inductive parsed :=
| Options (o : options)
| PrintVersion
| PrintHelp
| Usage (message : bytes).

Fixpoint parse_args (args : list bytes) (o : options) : parsed :=
  match args with
  | [] => Options o
  | arg :: rest =>
      if decide (arg = B"--version") then PrintVersion
      else if decide (arg = B"--help" \/ arg = B"-h") then PrintHelp
      else if decide (arg = B"--config") then
        match rest with
        | [] => Usage (B"--config requires a path argument")
        | path :: rest => parse_args rest (with_config path o)
        end
      else if decide (arg = B"--health-check") then parse_args rest (with_health_check o)
      else if decide (arg = B"--socket") then
        match rest with
        | [] => Usage (B"--socket requires a path argument")
        | path :: rest => parse_args rest (with_socket path o)
        end
      else if decide (arg = B"--port") then
        match rest with
        | [] => Usage (B"--port requires a value")
        | value :: rest =>
            match Config.parse_port value with
            | Some port => parse_args rest (with_port port o)
            | None => Usage (B"invalid --port value: " ++ value)
            end
        end
      else Usage (B"unknown argument: " ++ arg)
  end.

(** What [main] goes on to do. *)
Inductive command :=
| Exit (code : Z)
| HealthCheck (socket_path : bytes) (port : Z)
| Serve (path : bytes) (explicit : bool).

Definition command_line (default_socket : bytes) (args : list bytes) : command :=
  match parse_args args default_options with
  | PrintVersion | PrintHelp => Exit 0
  | Usage _ => Exit 2
  | Options o =>
      if negb (health_check_requested o) && (bool_decide (health_check_socket o <> []) || negb (health_check_port o =? 0)%Z)
      then Exit 2
      else if health_check_requested o then
        if bool_decide (health_check_socket o <> []) && negb (health_check_port o =? 0)%Z then Exit 2
        else HealthCheck (if decide (health_check_socket o = []) then default_socket else health_check_socket o)
               (health_check_port o)
      else Serve (config_path o) (config_path_explicit o)
  end.

(** ** The health check client *)

(** What the system calls return; a failure carries the text of [errno]. *)
Record hc_world := {
  hc_socket : option bytes; hc_connect : option bytes; hc_write : option bytes; hc_read : bytes + bytes
}.

Definition sun_path_size : nat := 108.

Definition kRequest : bytes :=
  B"GET /health HTTP/1.1" ++ crlf ++ B"Host: localhost" ++ crlf ++ B"Connection: close" ++ crlf ++ crlf.

(** [buf] after the read: at most 63 bytes. *)
Definition hc_buf (data : bytes) : bytes := take 63 data.

Definition check_health (socket_path : bytes) (tcp_port : Z) (w : hc_world) : bool * bytes :=
  match hc_socket w with
  | Some e => (false, B"socket() failed: " ++ e)
  | None =>
      if (tcp_port =? 0)%Z && (sun_path_size <=? length socket_path)
      then (false, B"socket path too long: " ++ socket_path)
      else
        match hc_connect w with
        | Some e =>
            (false, if (tcp_port =? 0)%Z then B"connect to " ++ socket_path ++ B" failed: " ++ e
                    else B"connect to 127.0.0.1:" ++ to_string tcp_port ++ B" failed: " ++ e)
        | None =>
            match hc_write w with
            | Some e => (false, B"write failed: " ++ e)
            | None =>
                match hc_read w with
                | inr e => (false, B"read failed: " ++ e)
                | inl [] => (false, B"connection closed with no response")
                | inl data =>
                    let line := c_str (hc_buf data) in
                    if starts_with (B"HTTP/1.1 200") line then (true, [])
                    else (false, B"unexpected response: " ++
                            match Prelude.find crlf line 0 with Some i => take i line | None => line end)
                end
            end
        end
  end.

(** The exit code of [--health-check]. *)
Definition health_check_exit (socket_path : bytes) (tcp_port : Z) (w : hc_world) : Z :=
  if (check_health socket_path tcp_port w).1 then 0 else 1.

(** ** Start-up and shutdown *)

(** What the process finds: the configuration file ([None]: [access] fails; [Some None]: it
    cannot be opened), the environment, the state file, the results of Paho, the answers
    to the server's system calls, and the rounds of its main loop. *)
Record boot := {
  b_detected : Z; b_random : nat -> N;
  b_file : option (option bytes); b_getenv : bytes -> option bytes; b_state : StateStore.read_event;
  b_mqtt : nat -> Z * Z; b_calls : world Listen.sys; b_now : Z; b_rounds : list Loop.round
}.

(** File over defaults, environment over both. *)
Definition read_config (path : bytes) (explicit : bool) (b : boot) : Config.Config + bytes :=
  let cfg := Config.default_config (b_detected b) (b_random b) in
  let loaded :=
    match b_file b with
    | Some file =>
        match Config.load_config path file cfg with
        | Config.Loaded cfg _ => inl cfg
        | Config.LoadErr err => inr (B"failed to load config: " ++ err)
        end
    | None => if explicit then inr (B"config file not found: " ++ path) else inl cfg
    end in
  match loaded with
  | inr err => inr err
  | inl cfg =>
      match Config.apply_env_overrides (b_getenv b) cfg with
      | Config.EnvOk cfg => inl cfg
      | Config.EnvErr err => inr (B"failed to apply environment variables: " ++ err)
      end
  end.

Definition read_state (cfg : Config.Config) (b : boot) : StateStore.store + bytes :=
  if Config.state_enabled cfg then StateStore.load (b_state b) (Config.state_file cfg) ∅ else inl ∅.

(** The steps of [main]; [Destroyed]: the destructor of [Server]. *)
Inductive step :=
| CurlInit | WebhookStart | MqttStart | ServerInit
| ServerRun (cfg : Config.Config) (values : StateStore.store) (acts : list Loop.act)
| MqttStop | WebhookStop | CurlCleanup | ServerDestroyed.

(** Exit code and steps; [None] while the server runs.  [WebhookClient::start] cannot
    fail; an [MqttClient] that did not start has nothing to stop. *)
Definition serve_command (path : bytes) (explicit : bool) (b : boot) : option (Z * list step) :=
  match read_config path explicit b with
  | inr _ => Some (1%Z, [])
  | inl cfg =>
      match read_state cfg b with
      | inr _ => Some (1%Z, [CurlInit])
      | inl values =>
          match Mqtt.start_checked cfg (b_mqtt b) Metrics.zero_metrics with
          | inr _ => Some (1%Z, [CurlInit; WebhookStart; WebhookStop])
          | inl _ =>
              let '((s, st), log) := run_log (b_calls b) (Listen.init cfg Listen.no_fds) [] in
              match st with
              | Some _ =>
                  Some (1%Z, [CurlInit; WebhookStart; MqttStart; ServerInit; MqttStop; WebhookStop; ServerDestroyed])
              | None =>
                  '(acts, _) ← Loop.run cfg (b_now b) (b_rounds b);
                  Some (0%Z, [CurlInit; WebhookStart; MqttStart; ServerInit; ServerRun cfg values acts;
                              MqttStop; WebhookStop; CurlCleanup; ServerDestroyed])
              end
          end
      end
  end.

(** ** Lemmas: the command line *)

(** The options, as a user writes them. *)
Inductive opt := OConfig (path : bytes) | OHealthCheck | OSocket (path : bytes) | OPort (value : bytes) (port : Z).
#[export] Instance opt_eq_dec : EqDecision opt.
Proof. solve_decision. Defined.

Definition print_opt (o : opt) : list bytes :=
  match o with
  | OConfig path => [B"--config"; path]
  | OHealthCheck => [B"--health-check"]
  | OSocket path => [B"--socket"; path]
  | OPort value _ => [B"--port"; value]
  end.

Definition opt_ok (o : opt) : Prop :=
  match o with OPort value port => Config.parse_port value = Some port | _ => True end.

Definition apply_opt (o : options) (x : opt) : options :=
  match x with
  | OConfig path => with_config path o
  | OHealthCheck => with_health_check o
  | OSocket path => with_socket path o
  | OPort _ port => with_port port o
  end.

Lemma parse_args_print opts o :
  Forall opt_ok opts -> parse_args (concat (map print_opt opts)) o = Options (fold_left apply_opt opts o).
Proof.
  intros H. revert o. induction H as [|x opts Hx _ IH]; intros o; [done|].
  destruct x as [path| |path|value port]; cbn [map concat print_opt app fold_left apply_opt]; rewrite <- IH; try done.
  unfold opt_ok in Hx. change (parse_args (B"--port" :: value :: ?r) o)
    with (match Config.parse_port value with Some port => parse_args r (with_port port o) | None => Usage (B"invalid --port value: " ++ value) end).
  by rewrite Hx.
Qed.

Lemma parse_args_options args o o' :
  parse_args args o = Options o' ->
  exists opts, args = concat (map print_opt opts) /\ Forall opt_ok opts /\ o' = fold_left apply_opt opts o.
Proof.
  assert (Hcons : forall x rest o, (exists opts, rest = concat (map print_opt opts) /\ Forall opt_ok opts /\ o' = fold_left apply_opt opts (apply_opt o x)) ->
    opt_ok x -> exists opts, print_opt x ++ rest = concat (map print_opt opts) /\ Forall opt_ok opts /\ o' = fold_left apply_opt opts o).
  { intros x rest o0 (opts & -> & Hok & Ho) Hx. exists (x :: opts). split_and!; [done|by apply list.Forall_cons_2|done]. }
  revert o. induction args as [args IH] using (induction_ltof1 _ (@length bytes)). unfold ltof in IH.
  destruct args as [|arg rest]; intros o; cbn [parse_args].
  { intros [= <-]. exists []. split_and!; [done|by apply list.Forall_nil|done]. }
  case_decide as H1; [done|]. case_decide as H2; [done|]. case_decide as H3.
  { subst arg. destruct rest as [|path rest]; [done|]. intros H. apply (Hcons (OConfig path) rest o); [apply IH; [simpl; lia|done]|done]. }
  case_decide as H4.
  { subst arg. intros H. apply (Hcons OHealthCheck rest o); [apply IH; [simpl; lia|done]|done]. }
  case_decide as H5.
  { subst arg. destruct rest as [|path rest]; [done|]. intros H. apply (Hcons (OSocket path) rest o); [apply IH; [simpl; lia|done]|done]. }
  case_decide as H6; [|done]. subst arg. destruct rest as [|value rest]; [done|].
  destruct (Config.parse_port value) as [port|] eqn:E; [|done].
  intros H. apply (Hcons (OPort value port) rest o); [apply IH; [simpl; lia|done]|done].
Qed.

(** What a list of options sets. *)
Definition configs (opts : list opt) : list bytes := omap (fun x => match x with OConfig p => Some p | _ => None end) opts.
Definition sockets (opts : list opt) : list bytes := omap (fun x => match x with OSocket p => Some p | _ => None end) opts.
Definition ports (opts : list opt) : list Z := omap (fun x => match x with OPort _ p => Some p | _ => None end) opts.

Lemma last_omap_snoc {A : Type} (f : opt -> option A) (opts : list opt) (x : opt) (d : A) :
  default d (last (omap f (opts ++ [x]))) = match f x with Some a => a | None => default d (last (omap f opts)) end.
Proof. rewrite omap_app. cbn. destruct (f x); [by rewrite last_snoc|by rewrite app_nil_r]. Qed.

Lemma fold_apply opts o :
  fold_left apply_opt opts o =
  {| config_path := default (config_path o) (last (configs opts));
     config_path_explicit := config_path_explicit o || bool_decide (configs opts <> []);
     health_check_requested := health_check_requested o || bool_decide (OHealthCheck ∈ opts);
     health_check_socket := default (health_check_socket o) (last (sockets opts));
     health_check_port := default (health_check_port o) (last (ports opts)) |}.
Proof.
  induction opts as [|x opts IH] using rev_ind; [destruct o; cbn; by rewrite !orb_false_r|].
  rewrite fold_left_app, IH. unfold configs, sockets, ports. rewrite !last_omap_snoc.
  assert (Hin : bool_decide (OHealthCheck ∈ opts ++ [x]) = bool_decide (OHealthCheck ∈ opts) || bool_decide (OHealthCheck = x)).
  { rewrite <- bool_decide_or. apply bool_decide_ext. by rewrite elem_of_app, list_elem_of_singleton. }
  assert (Hne : forall a : bytes, bool_decide (configs opts ++ [a] <> []) = true)
    by (intros a; apply bool_decide_true; by destruct (configs opts)).
  rewrite Hin, omap_app. fold (configs opts).
  destruct x; cbn; rewrite ?Hne, ?app_nil_r, ?orb_false_r, ?orb_true_r; done.
Qed.


Lemma parse_port_pos value port : Config.parse_port value = Some port -> (1 <= port <= 65535)%Z.
Proof.
  unfold Config.parse_port. case_match; [|done]. case_match eqn:E; [done|]. intros [= <-]. apply orb_false_iff in E. lia.
Qed.

Lemma ports_pos opts : Forall opt_ok opts -> Forall (fun p => (1 <= p)%Z) (ports opts).
Proof.
  induction 1 as [|x opts Hx _ IH]; [by apply list.Forall_nil|]. unfold ports in *. destruct x; cbn; try done.
  apply list.Forall_cons_2; [|done]. apply parse_port_pos in Hx. lia.
Qed.

Lemma last_port_zero opts : Forall opt_ok opts -> (default 0%Z (last (ports opts)) = 0%Z <-> ports opts = []).
Proof.
  intros H%ports_pos. destruct (ports opts) as [|p ps _] using rev_ind; [done|]. rewrite last_snoc. cbn.
  apply Forall_app in H as [_ H]. apply list.Forall_cons in H as [H _]. split; [lia|]. intros E. by destruct ps.
Qed.

(** ** Lemmas: nesting *)

(** Components are stopped in the reverse order of their start, each once. *)
Fixpoint nested (running : list step) (steps : list step) : bool :=
  match steps with
  | [] => match running with [] => true | _ => false end
  | WebhookStart :: rest => nested (WebhookStart :: running) rest
  | MqttStart :: rest => nested (MqttStart :: running) rest
  | MqttStop :: rest => match running with MqttStart :: running => nested running rest | _ => false end
  | WebhookStop :: rest => match running with WebhookStart :: running => nested running rest | _ => false end
  | ServerRun _ _ _ :: rest => match running with [MqttStart; WebhookStart] => nested running rest | _ => false end
  | _ :: rest => nested running rest
  end.

(** The steps with which something that saves the state file comes up: the broker
    client, for its message handler, and the server. *)
Definition can_save (x : step) : bool :=
  match x with MqttStart | ServerInit | ServerRun _ _ _ => true | _ => false end.

(** Membership in a list of steps that is written out. *)
Ltac in_steps H :=
  apply list_elem_of_In in H; simpl in H;
  repeat match type of H with _ \/ _ => destruct H as [H|H] end; try done; try discriminate H; simplify_eq.

Ltac destroyed_last :=
  match goal with
  | |- _ -> exists before, ?l = before ++ _ /\ _ =>
      let l' := eval cbv [removelast] in (removelast l) in
      intros Hin; first [exists l'; split; [reflexivity|intros Hin'; in_steps Hin']|in_steps Hin]
  end.

Ltac step_lists :=
  split_and!;
  [ first [by left|by right]
  | split; [intros ?; first [done|do 3 eexists; apply list_elem_of_In; simpl; eauto 12]
           |intros (? & ? & ? & Hin); first [reflexivity|in_steps Hin]]
  | intros ? ? ? Hin; in_steps Hin; (split_and!; [done|done|by eexists])
  | intros x Hin Hs; first [by do 2 eexists|in_steps Hin]
  | done
  | split; intros Hin; in_steps Hin; (apply list_elem_of_In; simpl; auto 12)
  | destroyed_last
  | split; [intros Hin; first [reflexivity|in_steps Hin]|intros Hx; first [discriminate Hx|apply list_elem_of_In; simpl; auto 12]] ].

(** The help lists the keys of the environment overlay with their variables, in order,
    except two. *)
Lemma help_table :
  map (fun p => (take (length (param_key p) - 1) (param_key p), param_env p)) kParams
  = filter (fun kv => kv.1 <> B"event_placeholders_enabled" /\ kv.1 <> B"state_topic_prefix") Config.kEnvKeys.
Proof. vm_compute. reflexivity. Qed.

(** ** Lemmas: the health check *)

Definition health_headers : list (bytes * bytes) := [(B"Host", B"localhost"); (B"Connection", B"close")].

Lemma kRequest_printed : kRequest = Http.print_request (B"GET") (B"/health") [] health_headers [].
Proof. vm_compute. reflexivity. Qed.

Section Health.
Context {M : Type} `{!Publisher M} `{!PublisherSpec M}.
Context (cfg : Config.Config) (version : bytes).

Definition health_request : Http.HttpRequest :=
  {| Http.method := B"GET"; Http.path := B"/health"; Http.query := []; Http.accept := []; Http.content_type := [];
     Http.content_length := -1; Http.chunked := false; Http.auth_token := []; Http.qos_header := [];
     Http.retain_header := []; Http.body := [] |}.

Lemma route_health :
  Server.route cfg version health_request
  = (let! connected := Server.Connected in let! active := Server.ConnectionsActive in
     Ret (Server.health_text cfg connected active)).
Proof. reflexivity. Qed.

Lemma ok_response_prefix (resp : Http.HttpResponse) ib :
  Http.status resp = 200%Z -> exists rest, Http.build_http_response resp ib = B"HTTP/1.1 200" ++ rest.
Proof.
  intros Hs. unfold Http.build_http_response, Http.response_lines. rewrite Hs. cbn [Http.crlf_lines].
  eexists. rewrite <- !app_assoc. change (to_string 200) with (B"200"). rewrite app_assoc. reflexivity.
Qed.

(** A read of at least twelve bytes of such a response passes the check. *)
Lemma check_health_prefix socket_path port (out rest : bytes) :
  (port <> 0%Z \/ length socket_path < sun_path_size) -> 12 <= length out -> out ++ rest = B"HTTP/1.1 200" ++ drop 12 (out ++ rest) ->
  check_health socket_path port {| hc_socket := None; hc_connect := None; hc_write := None; hc_read := inl out |} = (true, []).
Proof.
  intros Hp Hl He. unfold check_health. cbn [hc_socket hc_connect hc_write hc_read].
  replace ((port =? 0)%Z && (sun_path_size <=? length socket_path)) with false.
  2:{ symmetry. apply andb_false_iff. destruct Hp; [left; by apply Z.eqb_neq|right; by apply Nat.leb_gt]. }
  assert (Hout : exists t, out = B"HTTP/1.1 200" ++ t).
  { exists (drop 12 out). rewrite drop_app_le in He by lia. rewrite <- (take_drop 12 out) in He at 1.
    rewrite <- !app_assoc in He. apply app_inj_1 in He as [E _]; [by rewrite <- E, take_drop|].
    rewrite length_take. change (length (B"HTTP/1.1 200")) with 12. lia. }
  destruct Hout as [t ->]. change (B"HTTP/1.1 200" ++ t) with ("H"%char :: drop 1 (B"HTTP/1.1 200") ++ t). cbv iota.
  change ("H"%char :: drop 1 (B"HTTP/1.1 200") ++ t) with (B"HTTP/1.1 200" ++ t).
  unfold hc_buf. rewrite take_app_ge by (vm_compute; lia).
  set (t' := take _ t). change (c_str (B"HTTP/1.1 200" ++ t')) with (B"HTTP/1.1 200" ++ c_str t'). by rewrite starts_with_app.
Qed.

(** C28: the health check finds a healthy service healthy.  The client's request, in
    whatever segments it reaches the server in time, is served by [handle_connection];
    if at least twelve bytes of the reply were accepted by the peer, a client whose read
    returns at least twelve of them reports success, over TCP or a socket path that fits.
    The state of the broker connections makes no difference. *)
Theorem health_check_ok (k k' : Server.sock) (s s' : Server.server) (u : unit) (socket_path : bytes) (port : Z) (n : nat)
    (Hp : port <> 0%Z \/ length socket_path < sun_path_size)
    (Hk : Server.sent k = [])
    (Ht : Connection.arrives k kRequest)
    (Hmax : length kRequest + Http.buf_size <= Z.to_nat (Config.max_request_bytes cfg))
    (Hbody : (0 <= Config.max_body_bytes cfg)%Z)
    (Hrun : Server.run (Server.handle_connection cfg version) k s = Some (u, k', s'))
    (Hn : 12 <= n) (Hl : 12 <= length (Server.sent k')) :
  health_check_exit socket_path port
    {| hc_socket := None; hc_connect := None; hc_write := None; hc_read := inl (take n (Server.sent k')) |} = 0%Z.
Proof.
  rewrite kRequest_printed in Ht, Hmax.
  destruct (Connection.run_printed_request cfg version k s (B"GET") (B"/health") [] health_headers [] (Http.new_request (B"GET")))
    as (k1 & _ & Hs1 & _ & E); try done; try (by apply list.Forall_nil).
  { not_in. }
  { each (split_and!; try (vm_compute; reflexivity); not_in). }
  rewrite E in Hrun. clear E. change (Http.set_body [] _) with health_request in Hrun.
  cbn [Server.run Server.exec mbind option_bind] in Hrun. rewrite Server.run_bind, route_health in Hrun.
  cbn [Server.run Server.exec mbind option_bind] in Hrun. unfold Server.respond in Hrun.
  apply Connection.run_answer in Hrun as [[_ (out & t & used & Hout & Hb & _)] _].
  rewrite Hs1, Hk in Hout. cbn [app] in Hout. rewrite Hout in *.
  match type of Hb with Http.build_http_response ?r ?ib = _ => destruct (ok_response_prefix r ib eq_refl) as [rest Hpre] end.
  rewrite Hpre in Hb.
  unfold health_check_exit. rewrite (check_health_prefix _ _ (take n out) (drop n out ++ t)); [done|done| |].
  - rewrite length_take. lia.
  - rewrite app_assoc, take_drop, <- Hb. done.
Qed.

End Health.

(** ** Properties *)

(** Which command lines start the service.  The program goes on to serve exactly
    when its arguments are a sequence of options of the documented forms, in any number
    and order, with no --health-check and no --port and no --socket other than an empty
    last one; it then uses the path of the last --config, and the default path,
    which may be missing, without one.  Every other command line exits or checks health. *)
Theorem serve_command_line (default_socket path : bytes) (explicit : bool) (args : list bytes) :
  command_line default_socket args = Serve path explicit <->
  exists opts,
    args = concat (map print_opt opts) /\ Forall opt_ok opts /\
    OHealthCheck ∉ opts /\ ports opts = [] /\ default [] (last (sockets opts)) = [] /\
    path = default kDefaultConfigPath (last (configs opts)) /\ explicit = bool_decide (configs opts <> []).
Proof.
  unfold command_line. split.
  - destruct (parse_args args default_options) as [o| | |] eqn:E; try done. destruct (parse_args_options _ _ _ E) as (opts & Ha & Hok & Ho).
    rewrite Ho, fold_apply. cbn -[last]. intros H. exists opts. case_bool_decide as Hh; cbn in H.
    { destruct (_ && _); done. }
    destruct (_ || _) eqn:Eg in H; [done|]. apply orb_false_iff in Eg as [Eg1 Eg2].
    apply bool_decide_eq_false in Eg1. apply dec_stable in Eg1. apply negb_false_iff, Z.eqb_eq in Eg2.
    apply last_port_zero in Eg2; [|done]. injection H as <- <-. by split_and!.
  - intros (opts & -> & Hok & Hh & Hp & Hs & -> & ->). rewrite parse_args_print, fold_apply by done. cbn -[last].
    rewrite (bool_decide_false (OHealthCheck ∈ opts)) by done. rewrite Hs, Hp. cbn. done.
Qed.

(** C27: start-up is all or nothing.  Whatever is found at start: the exit code is 0 or
    1, and 0 exactly if the server ran; it ran only with the configuration of file and
    environment and with the store the state file gives.  The components that write the
    state file (the broker client, whose handler saves messages, and the server) are
    started only after the configuration and that file were read: a file that does not load
    ends the process before anything could overwrite it.  The two clients with threads
    of their own, webhook and broker, are stopped once each, in reverse order of
    their starts and before the process ends, and both are up while the server runs.  The server object, when there
    is one, is destroyed last; libcurl's global state is released exactly on the way
    out with exit code 0. *)
Theorem start_up_all_or_nothing (path : bytes) (explicit : bool) (b : boot) (exit_code : Z) (steps : list step)
    (H : serve_command path explicit b = Some (exit_code, steps)) :
  (exit_code = 0%Z \/ exit_code = 1%Z) /\
  (exit_code = 0%Z <-> exists cfg values acts, ServerRun cfg values acts ∈ steps) /\
  (forall cfg values acts, ServerRun cfg values acts ∈ steps ->
     read_config path explicit b = inl cfg /\ read_state cfg b = inl values /\
     exists unused, Loop.run cfg (b_now b) (b_rounds b) = Some (acts, unused)) /\
  (forall x, x ∈ steps -> can_save x = true ->
     exists cfg values, read_config path explicit b = inl cfg /\ read_state cfg b = inl values) /\
  nested [] steps = true /\
  (ServerInit ∈ steps <-> ServerDestroyed ∈ steps) /\
  (ServerDestroyed ∈ steps -> exists before, steps = before ++ [ServerDestroyed] /\ ServerDestroyed ∉ before) /\
  (CurlCleanup ∈ steps <-> exit_code = 0%Z).
Proof.
  unfold serve_command in H.
  destruct (read_config path explicit b) as [cfg|] eqn:Ec; [|injection H as <- <-; step_lists].
  destruct (read_state cfg b) as [values|] eqn:Es; [|injection H as <- <-; step_lists].
  destruct (Mqtt.start_checked cfg (b_mqtt b) Metrics.zero_metrics); [|injection H as <- <-; step_lists].
  destruct (run_log (b_calls b) _ _) as [[s [e|]] log].
  { injection H as <- <-. step_lists. }
  destruct (Loop.run cfg (b_now b) (b_rounds b)) as [[acts unused]|] eqn:El; [|done]. injection H as <- <-. step_lists.
Qed.

(** ** Witnesses *)

#[local] Existing Instance Server.demo_publisher.
#[local] Existing Instance Server.demo_publisher_spec.

(** No configuration, a state file with one value, a stale socket, then SIGTERM. *)
Definition demo_boot : boot :=
  {| b_detected := 4; b_random := fun _ => 0%N; b_file := None; b_getenv := fun _ => None;
     b_state := StateStore.Content (B"{" ++ [c_quote] ++ B"t" ++ [c_quote] ++ B":1}"); b_mqtt := fun _ => (0, 0)%Z;
     b_calls := Listen.stale_world; b_now := 0; b_rounds := Loop.demo_rounds ++ [Loop.demo_stop] |}.

Lemma start_up_all_or_nothing_witness :
  exists steps, serve_command kDefaultConfigPath false demo_boot = Some (0%Z, steps) /\
    (exists cfg values acts, ServerRun cfg values acts ∈ steps) /\ nested [] steps = true.
Proof.
  eexists. split; [vm_compute; reflexivity|].
  edestruct (start_up_all_or_nothing kDefaultConfigPath false demo_boot) as (_ & [H1 _] & _ & _ & H2 & _); [vm_compute; reflexivity|].
  split; [apply H1; reflexivity|exact H2].
Defined.

(** The request in two segments; the peer takes the reply in two parts. *)
Definition health_sock : Server.sock :=
  {| Server.head_start := 0; Server.body_start := 5;
     Server.events := [Connection.recv 1 (take 20 kRequest); Connection.recv 2 (drop 20 kRequest)];
     Server.sends := [Server.Sent 30; Server.Sent 4096]; Server.sent := []; Server.closed := 0 |}.

Lemma health_check_ok_witness :
  exists k' s', Server.run (Server.handle_connection Server.demo_cfg NSHMQTT_VERSION) health_sock Server.demo_server = Some (tt, k', s') /\
    health_check_exit (B"/run/nshmqtt/nshmqtt.sock") 0
      {| hc_socket := None; hc_connect := None; hc_write := None; hc_read := inl (take 30 (Server.sent k')) |} = 0%Z.
Proof.
  eexists _, _. split; [vm_compute; reflexivity|].
  eapply (health_check_ok Server.demo_cfg NSHMQTT_VERSION health_sock _ Server.demo_server _ tt).
  - right. apply Nat.ltb_lt. vm_compute. reflexivity.
  - reflexivity.
  - split; [|split; [|split; [|vm_compute; reflexivity]]].
    + each (split; [vm_compute; reflexivity|exact I]).
    + each (split; [vm_compute; reflexivity|exact I]).
    + each (apply Nat.leb_le; vm_compute; reflexivity).
  - apply Nat.leb_le. vm_compute. reflexivity.
  - vm_compute. discriminate.
  - vm_compute. reflexivity.
  - apply Nat.leb_le. reflexivity.
  - apply Nat.leb_le. vm_compute. reflexivity.
Defined.

End Main.
