(* ===== verification/Console.v ===== *)
(** * main.cpp: what the process prints

    The help text, the exits of the command line with what they write, and the
    log lines of a start, from the first until the server is ready or has given up. *)

From S2P Require Import Prelude CLib Double TextUtil Config State Metrics Log Prog Webhook Mqtt Paho Listen Main.

Module Console.

#[local] Existing Instance Config.key_eq_dec.

(** ** Help *)

(** [%-ns]: blanks on the right. *)
Definition pad (n : nat) (s : bytes) : bytes := s ++ replicate (n - length s) " "%char.

Definition row (key env desc : bytes) : bytes := pad 40 key ++ B" " ++ pad 45 env ++ B" " ++ desc ++ [c_lf].

Definition help_rows : bytes :=
  row (B"CONFIG KEY") (B"ENVIRONMENT VARIABLE") (B"DESCRIPTION")
  ++ concat (map (fun p => row (Main.param_key p) (Main.param_env p) (Main.param_desc p)) Main.kParams).

Definition lines (l : list bytes) : bytes := concat (map (fun s => s ++ [c_lf]) l).

Definition print_help (argv0 default_socket : bytes) : bytes :=
  lines [
    B"nshmqtt is a small HTTP-to-MQTT gateway and MQTT-to-Prometheus bridge. It";
    B"answers 'POST /event/<topic>', 'PUT /metric/<name>', 'DELETE /metric/<name>'";
    B"(and, if simple_get is enabled, the GET equivalents with a ?value=...";
    B"query parameter) over a UNIX domain socket (and, optionally, TCP). It also";
    B"always answers 'GET /health' and, unless disabled, 'GET /metrics' (service";
    B"metrics only) and 'GET /metrics-state' (current values, gated by";
    B"http_auth_tokens if configured).";
    [];
    B"Usage: " ++ argv0 ++ B" [--config PATH] | --health-check [--socket PATH | --port PORT]";
    B"                | --version | --help";
    [];
    B"  --config PATH        Path to config file (default: " ++ Main.kDefaultConfigPath ++ B")";
    B"  --health-check       Query a running instance's /health over its UNIX socket (or";
    B"                       TCP with --port) and exit 0 (HTTP 200) or 1 (anything else)";
    B"  --socket PATH        UNIX socket to check -- only with --health-check";
    B"                       (default: " ++ default_socket ++ B")";
    B"  --port PORT          Check via TCP 127.0.0.1:PORT instead of a UNIX socket --";
    B"                       only with --health-check";
    B"  --version            Print version and exit";
    B"  --help               Print this help and exit";
    [];
    B"Every config file key below also has an NSHMQTT_<KEY> environment variable";
    B"that overrides it. The config file itself is optional at the default path";
    B"(but not when --config names a path explicitly), so a container can run on";
    B"environment variables alone. Precedence: environment > config file > default.";
    []]
  ++ help_rows.

(** ** The exits of the command line *)

Record output := { out : bytes; err : bytes; exit_code : Z }.

Definition usage_error (message : bytes) : output := {| out := []; err := message ++ [c_lf]; exit_code := 2 |}.

(** An unknown argument also prints the help, on standard output. *)
Definition usage_help (argv0 default_socket message : bytes) : output :=
  {| out := if starts_with (B"unknown argument: ") message then print_help argv0 default_socket else [];
     err := message ++ [c_lf]; exit_code := 2 |}.

Definition health_output (socket_path : bytes) (port : Z) (w : Main.hc_world) : output :=
  let '(ok, hc_err) := Main.check_health socket_path port w in
  if ok then {| out := B"status=ok" ++ [c_lf]; err := []; exit_code := 0 |}
  else {| out := []; err := B"status=fail: " ++ c_str hc_err ++ [c_lf]; exit_code := 1 |}.

(** [main] up to the start of the service; [inr]: it goes on with this configuration path. *)
Definition run_command_line (argv0 default_socket : bytes) (args : list bytes) (w : Main.hc_world) : output + bytes * bool :=
  match Main.parse_args args Main.default_options with
  | Main.PrintVersion => inl {| out := B"nshmqtt " ++ Main.NSHMQTT_VERSION ++ [c_lf]; err := []; exit_code := 0 |}
  | Main.PrintHelp => inl {| out := print_help argv0 default_socket; err := []; exit_code := 0 |}
  | Main.Usage message => inl (usage_help argv0 default_socket message)
  | Main.Options o =>
      let socket_given := negb (bool_decide (Main.health_check_socket o = [])) in
      let port_given := negb (Main.health_check_port o =? 0)%Z in
      if negb (Main.health_check_requested o) && (socket_given || port_given)
      then inl (usage_error (B"--socket and --port only apply together with --health-check"))
      else if Main.health_check_requested o then
        if socket_given && port_given then inl (usage_error (B"--socket and --port are mutually exclusive"))
        else inl (health_output (if socket_given then Main.health_check_socket o else default_socket) (Main.health_check_port o) w)
      else inr (Main.config_path o, Main.config_path_explicit o)
  end.

(** ** The log of a start *)

(** The loop of [join_topics]. *)
Definition join_topics (topics : list bytes) : bytes :=
  foldl (fun out it => (if decide (it.1 = 0) then out else out ++ B", ") ++ it.2) [] (zip (seq 0 (length topics)) topics).

Definition setting (name value : bytes) : bytes := name ++ B" = " ++ value.

(** The configuration as it is logged. *)
Definition settings (cfg : Config.Config) : list bytes := [
  setting (B"socket") (Config.socket_path cfg);
  setting (B"threads") (to_string (Config.threads cfg));
  setting (B"tcp_port") (if (Config.tcp_port cfg =? 0)%Z then B"(disabled)" else to_string (Config.tcp_port cfg));
  setting (B"simple_get") (Metrics.bool_text (Config.simple_get cfg));
  setting (B"http_auth_tokens")
    (if decide (Config.http_auth_tokens cfg = []) then B"(disabled)"
     else B"enabled (" ++ to_string (Z.of_nat (length (Config.http_auth_tokens cfg))) ++ B" token(s) configured)");
  setting (B"mqtt_host:port") (Config.mqtt_host cfg ++ B":" ++ to_string (Config.mqtt_port cfg));
  setting (B"mqtt_client_id") (Config.mqtt_client_id cfg);
  setting (B"mqtt_pool_size") (to_string (Config.mqtt_pool_size cfg));
  setting (B"subscribe_enabled") (Metrics.bool_text (Config.subscribe_enabled cfg));
  setting (B"state_enabled") (Metrics.bool_text (Config.state_enabled cfg))
    ++ (if Config.state_enabled cfg then B", state_file = " ++ Config.state_file cfg else []);
  setting (B"prometheus_http") (Metrics.bool_text (Config.prometheus_http cfg));
  setting (B"prometheus_prefix") (Config.prometheus_prefix cfg);
  setting (B"prometheus_mqtt_state_prefix") (Config.prometheus_mqtt_state_prefix cfg);
  setting (B"prometheus_mqtt_json_topics")
    (if decide (Config.prometheus_mqtt_json_topics cfg = []) then B"(none)"
     else join_topics (Config.prometheus_mqtt_json_topics cfg));
  setting (B"prometheus_textfile")
    (if decide (Config.prometheus_textfile cfg = []) then B"(disabled)" else Config.prometheus_textfile cfg);
  setting (B"webhook_enabled") (Metrics.bool_text (Config.webhook_enabled cfg))
    ++ (if Config.webhook_enabled cfg then B", webhook_url = " ++ Config.webhook_url cfg else [])].

Definition info (msg : bytes) : Log.LogLevel * bytes := (Log.Info, msg).
Definition fatal (msg : bytes) : list (Log.LogLevel * bytes) := [(Log.Fatal, msg)].

(** What [main] logs before the configuration is complete, and the configuration. *)
Definition config_log (path : bytes) (explicit : bool) (b : Main.boot) :
    list (Log.LogLevel * bytes) * option Config.Config :=
  let cfg := Config.default_config (Main.b_detected b) (Main.b_random b) in
  let '(log, loaded) :=
    match Main.b_file b with
    | Some file =>
        match Config.load_config path file cfg with
        | Config.Loaded cfg warnings =>
            (info (B"using config file: " ++ path) :: map (fun w => (Log.Warn, w)) warnings, Some cfg)
        | Config.LoadErr e => (info (B"using config file: " ++ path) :: fatal (B"failed to load config: " ++ e), None)
        end
    | None =>
        if explicit then (fatal (B"config file not found: " ++ path), None)
        else ([info (B"no config file at " ++ path ++ B", using defaults and environment variables")], Some cfg)
    end in
  match loaded with
  | None => (log, None)
  | Some cfg =>
      match Config.apply_env_overrides (Main.b_getenv b) cfg with
      | Config.EnvOk cfg => (log, Some cfg)
      | Config.EnvErr e => (log ++ fatal (B"failed to apply environment variables: " ++ e), None)
      end
  end.

Definition state_log (cfg : Config.Config) (b : Main.boot) : list (Log.LogLevel * bytes) :=
  if Config.state_enabled cfg then
    match StateStore.load (Main.b_state b) (Config.state_file cfg) ∅ with
    | inl values => [info (B"loaded " ++ to_string (Z.of_nat (StateStore.size values)) ++ B" state entries from " ++ Config.state_file cfg)]
    | inr e => fatal (B"failed to load state file: " ++ e)
    end
  else [].

(** The end of [MqttClient::start]. *)
Definition pool_log (cfg : Config.Config) : list (Log.LogLevel * bytes) :=
  [info (B"MQTT pool started: " ++ to_string (Config.mqtt_pool_size cfg) ++ B" connection(s), client_id '"
         ++ Config.mqtt_client_id cfg ++ B"' (+'-N' suffix on connections beyond the first)")].

(** The calls of the logger among the calls of [Server::init]. *)
Definition init_log (calls : list (event Listen.sys)) : list (Log.LogLevel * bytes) :=
  omap (fun e => match e with Ev (Listen.LogLine level msg) _ => Some (level, msg) | _ => None end) calls.

(** The webhook client, the broker client and the server come up, or the first error ends it. *)
Definition services_log (cfg : Config.Config) (b : Main.boot) : list (Log.LogLevel * bytes) :=
  Webhook.start_log cfg ++
  match Mqtt.start_checked cfg (Main.b_mqtt b) Metrics.zero_metrics with
  | inr e => fatal (B"failed to start MQTT client: " ++ e)
  | inl _ =>
      pool_log cfg ++
      let '((_, st), calls) := run_log (Main.b_calls b) (Listen.init cfg Listen.no_fds) [] in
      init_log calls ++ match st with Some e => fatal (B"startup failed: " ++ e) | None => [] end
  end.

(** The main thread's lines, up to the first [Loop.run]; the connection threads' own lines
    are part of [Paho.life]. *)
Definition startup_log (path : bytes) (explicit : bool) (b : Main.boot) : list (Log.LogLevel * bytes) :=
  info (B"nshmqtt " ++ Main.NSHMQTT_VERSION ++ B" starting") ::
  let '(log, cfg) := config_log path explicit b in
  match cfg with
  | None => log
  | Some cfg =>
      log ++ map info (settings cfg) ++ state_log cfg b ++
      match Main.read_state cfg b with inl _ => services_log cfg b | inr _ => [] end
  end.

(** ** Secrets *)

Definition secret (k : Config.key) : bool :=
  match k with
  | Config.K_http_auth_tokens | Config.K_mqtt_username | Config.K_mqtt_password
  | Config.K_webhook_auth_header | Config.K_webhook_auth_value => true
  | _ => false
  end.

(** Two configurations that differ in nothing but secrets, of as many tokens. *)
Definition same_public (c c' : Config.Config) : Prop :=
  (forall k, secret k = false -> Config.field c k = Config.field c' k) /\
  length (Config.http_auth_tokens c) = length (Config.http_auth_tokens c').

(** Two values of a key, the same unless it is secret. *)
Definition same_value (k : Config.key) (v v' : bytes) : Prop :=
  if secret k then k = Config.K_http_auth_tokens -> length (Config.split_csv v) = length (Config.split_csv v') else v = v'.

Definition same_line (l l' : bytes) : Prop :=
  l = l' \/ exists k v v', Config.parse_line l = Some (Config.key_name k, v) /\
                           Config.parse_line l' = Some (Config.key_name k, v') /\ same_value k v v'.

Definition same_env (getenv getenv' : bytes -> option bytes) : Prop :=
  forall k, match getenv (Config.env_name k), getenv' (Config.env_name k) with
            | Some v, Some v' => same_value k v v'
            | None, None => True
            | _, _ => False
            end.

(** Two starts with files and environments that differ in nothing but secrets. *)
Definition same_boot (b b' : Main.boot) : Prop :=
  Main.b_detected b = Main.b_detected b' /\ Main.b_random b = Main.b_random b' /\ Main.b_state b = Main.b_state b' /\
  Main.b_mqtt b = Main.b_mqtt b' /\ Main.b_calls b = Main.b_calls b' /\
  same_env (Main.b_getenv b) (Main.b_getenv b') /\
  match Main.b_file b, Main.b_file b' with
  | Some (Some text), Some (Some text') => Forall2 same_line (Config.getlines text) (Config.getlines text')
  | f, f' => f = f'
  end.

(** ** Lemmas *)

#[export] Instance same_public_equiv : Equivalence same_public.
Proof.
  split; unfold same_public.
  - done.
  - intros c c' [H Ht]. split; [intros k Hk; symmetry; by apply H|done].
  - intros c1 c2 c3 [H1 T1] [H2 T2]. split; [intros k Hk; by rewrite H1, H2|congruence].
Qed.

(** Only the public part is logged. *)
#[export] Instance settings_public : Proper (same_public ==> eq) settings.
Proof.
  intros c c' [H Ht].
  assert (Hk : forall k, secret k = false -> Config.field c k = Config.field c' k) by done.
  pose proof (Hk Config.K_socket eq_refl) as [= E1]. pose proof (Hk Config.K_threads eq_refl) as [= E2].
  pose proof (Hk Config.K_tcp_port eq_refl) as [= E3]. pose proof (Hk Config.K_simple_get eq_refl) as [= E4].
  pose proof (Hk Config.K_mqtt_host eq_refl) as [= E5]. pose proof (Hk Config.K_mqtt_port eq_refl) as [= E6].
  pose proof (Hk Config.K_mqtt_client_id eq_refl) as [= E7]. pose proof (Hk Config.K_mqtt_pool_size eq_refl) as [= E8].
  pose proof (Hk Config.K_subscribe_enabled eq_refl) as [= E9]. pose proof (Hk Config.K_state_enabled eq_refl) as [= E10].
  pose proof (Hk Config.K_state_file eq_refl) as [= E11]. pose proof (Hk Config.K_prometheus_http eq_refl) as [= E12].
  pose proof (Hk Config.K_prometheus_prefix eq_refl) as [= E13].
  pose proof (Hk Config.K_prometheus_mqtt_state_prefix eq_refl) as [= E14].
  pose proof (Hk Config.K_prometheus_mqtt_json_topics eq_refl) as [= E15].
  pose proof (Hk Config.K_prometheus_textfile eq_refl) as [= E16]. pose proof (Hk Config.K_webhook_enabled eq_refl) as [= E17].
  pose proof (Hk Config.K_webhook_url eq_refl) as [= E18].
  unfold settings. rewrite E1, E2, E3, E4, E5, E6, E7, E8, E9, E10, E11, E12, E13, E14, E15, E16, E17, E18, Ht.
  by destruct (Config.http_auth_tokens c), (Config.http_auth_tokens c').
Qed.

#[export] Instance state_log_public : Proper (same_public ==> eq ==> eq) state_log.
Proof.
  intros c c' [Hf _] b _ <-. unfold state_log.
  pose proof (Hf Config.K_state_enabled eq_refl) as [= ->]. by pose proof (Hf Config.K_state_file eq_refl) as [= ->].
Qed.

(** A public configuration value, by its key. *)
Local Ltac public H k := let E := fresh "E" in pose proof (H k eq_refl) as [= E]; rewrite <- ?E; clear E.

#[export] Instance init_public : Proper (same_public ==> eq) Listen.init.
Proof.
  intros c c' [Hf _].
  unfold Listen.init, Listen.setup_socket, Listen.open_socket, Listen.setup_tcp_listeners.
  public Hf Config.K_socket. public Hf Config.K_socket_mode. public Hf Config.K_tcp_port.
  public Hf Config.K_tcp_address. public Hf Config.K_threads. done.
Qed.

#[export] Instance start_conns_public : Proper (same_public ==> eq ==> eq ==> eq ==> eq) Mqtt.start_conns.
Proof.
  intros c c' [Hf _] rcs _ <- first _ <- n _ <-. revert first. induction n as [|n IH]; intros first; [done|].
  cbn [Mqtt.start_conns]. rewrite IH. unfold Mqtt.conn_start, Mqtt.client_id.
  public Hf Config.K_mqtt_host. public Hf Config.K_mqtt_port. public Hf Config.K_mqtt_client_id. done.
Qed.

#[export] Instance read_state_public : Proper (same_public ==> eq ==> eq) Main.read_state.
Proof.
  intros c c' [Hf _] b _ <-. unfold Main.read_state. public Hf Config.K_state_enabled. public Hf Config.K_state_file. done.
Qed.

#[export] Instance services_log_public : Proper (same_public ==> eq ==> eq) services_log.
Proof.
  intros c c' Hp b _ <-. pose proof Hp as [Hf _]. unfold services_log, Mqtt.start_checked, pool_log, Webhook.start_log.
  rewrite <- (init_public c c' Hp), <- (start_conns_public c c' Hp _ _ eq_refl _ _ eq_refl _ _ eq_refl).
  public Hf Config.K_mqtt_pool_size. public Hf Config.K_webhook_enabled. public Hf Config.K_webhook_url.
  public Hf Config.K_mqtt_client_id. by destruct (Mqtt.start_conns _ _ _ _).
Qed.

Lemma secret_accepts c k v : secret k = true -> exists c', Config.apply_key c (Config.key_name k) v = Config.KOk c'.
Proof.
  intros Hs. pose proof (Config.apply_key_arm c k v) as Ha. unfold Config.arm_spec in Ha.
  destruct (Config.apply_key c (Config.key_name k) v) as [c'|e]; [by exists c'|]. destruct Ha as [_ Ha]. by destruct k.
Qed.

(** Applying related values keeps configurations related, and fails alike. *)
Definition same_result (r r' : Config.key_result) : Prop :=
  match r, r' with
  | Config.KOk c, Config.KOk c' => same_public c c'
  | Config.KErr e, Config.KErr e' => e = e'
  | _, _ => False
  end.

Lemma apply_key_public c c' k v v' :
  same_public c c' -> same_value k v v' ->
  same_result (Config.apply_key c (Config.key_name k) v) (Config.apply_key c' (Config.key_name k) v').
Proof.
  intros [Hf Ht] Hv. pose proof (Config.apply_key_arm c k v) as Ha. pose proof (Config.apply_key_arm c' k v') as Ha'.
  unfold same_value in Hv. unfold Config.arm_spec in Ha, Ha'. destruct (secret k) eqn:Es.
  - destruct (secret_accepts c k v Es) as [c1 E], (secret_accepts c' k v' Es) as [c1' E'].
    rewrite E in *. rewrite E' in *. clear E E'.
    destruct Ha as (fv & Hp & Hk & Ho), Ha' as (fv' & Hp' & Hk' & Ho'). split.
    + intros k0 H0. rewrite Ho, Ho' by (intros ->; congruence). by apply Hf.
    + destruct (decide (k = Config.K_http_auth_tokens)) as [->|Hne].
      * cbn in Hp, Hp'. injection Hp as <-. injection Hp' as <-. injection Hk as ->. injection Hk' as ->. by apply Hv.
      * pose proof (Ho Config.K_http_auth_tokens (not_eq_sym Hne)) as [= ->].
        by pose proof (Ho' Config.K_http_auth_tokens (not_eq_sym Hne)) as [= ->].
  - subst v'. destruct (Config.apply_key c (Config.key_name k) v) as [c1|e] eqn:E1.
    + destruct Ha as (fv & Hp & Hk & Ho). destruct (Config.apply_key c' (Config.key_name k) v) as [c1'|e'] eqn:E2.
      * destruct Ha' as (fv' & Hp' & Hk' & Ho'). split.
        -- intros k0 H0. destruct (decide (k0 = k)) as [->|Hne]; [congruence|]. rewrite Ho, Ho' by done. by apply Hf.
        -- assert (Hne : Config.K_http_auth_tokens <> k) by (by intros <-).
           pose proof (Ho _ Hne) as [= ->]. by pose proof (Ho' _ Hne) as [= ->].
      * apply (Config.apply_key_err c' c) in E2. congruence.
    + by rewrite (Config.apply_key_err c c' _ _ _ E1).
Qed.

Lemma same_value_refl k v : same_value k v v.
Proof. unfold same_value. by destruct (secret k). Qed.

Lemma apply_key_same_text c c' s v :
  same_public c c' -> same_result (Config.apply_key c s v) (Config.apply_key c' s v).
Proof.
  intros H. pose proof (Config.apply_key_cases c s v) as Ha. pose proof (Config.apply_key_cases c' s v) as Ha'.
  assert (Hk : forall k, s = Config.key_name k -> same_result (Config.apply_key c s v) (Config.apply_key c' s v)).
  { intros k ->. apply apply_key_public; [done|apply same_value_refl]. }
  destruct (Config.apply_key c s v) as [c1|[|e0 e]].
  - destruct Ha as (k & _ & E & _). by apply (Hk k).
  - destruct (Config.apply_key c' s v) as [c1'|[|e0' e']]; [|done|].
    + destruct Ha' as (k & _ & E & _). by destruct (Ha k).
    + destruct Ha' as (k & E & _). by destruct (Ha k).
  - destruct Ha as (k & E & _). by apply (Hk k).
Qed.

Definition same_load (r r' : Config.load_result) : Prop :=
  match r, r' with
  | Config.Loaded c w, Config.Loaded c' w' => same_public c c' /\ w = w'
  | Config.LoadErr e, Config.LoadErr e' => e = e'
  | _, _ => False
  end.

Lemma parse_line_some l p : Config.parse_line l = Some p -> Config.is_comment (Config.trim l) = false.
Proof. unfold Config.parse_line. by destruct (Config.is_comment _). Qed.

Lemma load_lines_public path ls ls' n c c' w :
  Forall2 same_line ls ls' -> same_public c c' ->
  same_load (Config.load_lines path ls n c w) (Config.load_lines path ls' n c' w).
Proof.
  intros H. revert n c c' w. induction H as [|l l' ls ls' Hl _ IH]; intros n c c' w Hc; [done|].
  rewrite !Config.load_lines_cons.
  assert (Hkey : forall s v v', same_result (Config.apply_key c s v) (Config.apply_key c' s v') ->
    same_load
      match Config.apply_key c s v with
      | Config.KOk c1 => Config.load_lines path ls (n + 1) c1 w
      | Config.KErr [] => Config.load_lines path ls (n + 1) c (w ++ [Config.at_line path n (B"unknown config key " ++ Config.quote ++ s ++ Config.quote)])
      | Config.KErr e => Config.LoadErr (Config.at_line path n e) end
      match Config.apply_key c' s v' with
      | Config.KOk c1 => Config.load_lines path ls' (n + 1) c1 w
      | Config.KErr [] => Config.load_lines path ls' (n + 1) c' (w ++ [Config.at_line path n (B"unknown config key " ++ Config.quote ++ s ++ Config.quote)])
      | Config.KErr e => Config.LoadErr (Config.at_line path n e) end).
  { intros s v v' Hr. destruct (Config.apply_key c s v) as [c1|e], (Config.apply_key c' s v') as [c1'|e']; try done.
    - by apply IH.
    - cbn in Hr. subst e'. destruct e; [by apply IH|done]. }
  destruct Hl as [<-|(k & v & v' & E & E' & Hv)].
  - destruct (Config.is_comment _); [by apply IH|]. destruct (Config.parse_line l) as [[s v]|]; [|done].
    by apply Hkey, apply_key_same_text.
  - rewrite (parse_line_some _ _ E), (parse_line_some _ _ E'), E, E'. by apply Hkey, apply_key_public.
Qed.

Lemma apply_env_public getenv getenv' ks c c' :
  same_env getenv getenv' -> same_public c c' ->
  match Config.apply_env getenv (map (fun k => (Config.key_name k, Config.env_name k)) ks) c,
        Config.apply_env getenv' (map (fun k => (Config.key_name k, Config.env_name k)) ks) c' with
  | Config.EnvOk c1, Config.EnvOk c1' => same_public c1 c1'
  | Config.EnvErr e, Config.EnvErr e' => e = e'
  | _, _ => False
  end.
Proof.
  intros He. revert c c'. induction ks as [|k ks IH]; intros c c' Hc; [done|]. cbn [map Config.apply_env].
  pose proof (He k) as Hk. destruct (getenv (Config.env_name k)) as [v|], (getenv' (Config.env_name k)) as [v'|]; try done; [|by apply IH].
  pose proof (apply_key_public c c' k v v' Hc Hk) as Hr.
  destruct (Config.apply_key c _ v), (Config.apply_key c' _ v'); try done; [by apply IH|]. cbn in Hr. by subst.
Qed.

Lemma config_log_public path explicit b b' :
  same_boot b b' ->
  (config_log path explicit b).1 = (config_log path explicit b').1 /\
  match (config_log path explicit b).2, (config_log path explicit b').2 with
  | Some c, Some c' => same_public c c' | None, None => True | _, _ => False end.
Proof.
  intros (Hd & Hr & _ & _ & _ & He & Hf). unfold config_log. rewrite <- Hd, <- Hr.
  set (c0 := Config.default_config _ _).
  assert (Henv : forall l c c', same_public c c' ->
    let r := match Config.apply_env_overrides (Main.b_getenv b) c with
             | Config.EnvOk cfg => (l, Some cfg)
             | Config.EnvErr e => (l ++ fatal (B"failed to apply environment variables: " ++ e), None) end in
    let r' := match Config.apply_env_overrides (Main.b_getenv b') c' with
             | Config.EnvOk cfg => (l, Some cfg)
             | Config.EnvErr e => (l ++ fatal (B"failed to apply environment variables: " ++ e), None) end in
    r.1 = r'.1 /\ match r.2, r'.2 with Some c, Some c' => same_public c c' | None, None => True | _, _ => False end).
  { intros l c c' Hc. cbn zeta. unfold Config.apply_env_overrides. rewrite Config.kEnvKeys_table.
    pose proof (apply_env_public _ _ Config.all_keys c c' He Hc) as H.
    destruct (Config.apply_env (Main.b_getenv b) _ c), (Config.apply_env (Main.b_getenv b') _ c'); try done. by subst. }
  assert (H0 : same_public c0 c0) by reflexivity.
  destruct (Main.b_file b) as [[text|]|], (Main.b_file b') as [[text'|]|]; try done; cbn [Config.load_config].
  - pose proof (load_lines_public path _ _ 1 c0 c0 [] Hf H0) as Hl.
    destruct (Config.load_lines path (Config.getlines text) 1 c0 []), (Config.load_lines path (Config.getlines text') 1 c0 []); try done.
    + destruct Hl as [Hc <-]. by apply Henv.
    + cbn in Hl. by subst.
  - destruct explicit; [done|]. by apply Henv.
Qed.

(** The log of the configuration goes with the configuration read. *)
Lemma config_log_config path explicit b :
  (config_log path explicit b).2 = match Main.read_config path explicit b with inl cfg => Some cfg | inr _ => None end.
Proof.
  unfold config_log, Main.read_config. destruct (Main.b_file b) as [file|].
  - destruct (Config.load_config path file _); [|done]. by destruct (Config.apply_env_overrides _ _).
  - destruct explicit; [done|]. by destruct (Config.apply_env_overrides _ _).
Qed.

(** What is printed goes with what [Main.command_line] decides. *)
Lemma run_command_line_exit argv0 default_socket args w :
  match run_command_line argv0 default_socket args w, Main.command_line default_socket args with
  | inl o, Main.Exit code => exit_code o = code
  | inl o, Main.HealthCheck socket port => exit_code o = Main.health_check_exit socket port w
  | inr (path, explicit), Main.Serve path' explicit' => path = path' /\ explicit = explicit'
  | _, _ => False
  end.
Proof.
  unfold run_command_line, Main.command_line. destruct (Main.parse_args args Main.default_options) as [o| | |]; try done.
  destruct (Main.health_check_requested o) eqn:Eh; destruct (Main.health_check_socket o) as [|c l];
    destruct (Main.health_check_port o =? 0)%Z; cbn; try done;
    unfold health_output, Main.health_check_exit; by destruct (Main.check_health _ _ _) as [[] ?].
Qed.

(** A connection reads nothing secret but its credentials. *)
Lemma same_public_connection c c' : same_public c c' -> Paho.same_connection c c'.
Proof.
  intros [Hf _]. unfold Paho.same_connection.
  public Hf Config.K_mqtt_host. public Hf Config.K_mqtt_port. public Hf Config.K_mqtt_client_id. public Hf Config.K_mqtt_qos.
  public Hf Config.K_mqtt_keepalive_seconds. public Hf Config.K_mqtt_connect_timeout_seconds.
  public Hf Config.K_mqtt_publish_timeout_seconds. public Hf Config.K_subscribe_enabled. public Hf Config.K_subscribe_topics.
  public Hf Config.K_webhook_enabled. public Hf Config.K_webhook_topics. done.
Qed.

(** ** Property *)

(** C26: secrets do not reach the log, neither that of a start nor that of the
    broker connections.  Take two starts whose configuration files and
    environments differ only in the values given to the authentication tokens
    (as many of them), the broker's user name and password, and the webhook's
    authentication header and value.  The main thread logs the same lines from the first
    until the server is ready or it gives up: warnings and error messages about
    the configuration included, the loaded state file, and what the webhook client, the broker
    client and the listeners say.  And every connection thread of the broker client, which uses the
    credentials, logs the same lines in its whole life, provided that the broker and the other threads answer both
    alike (a password the broker refuses is of course logged as a refusal). *)
Theorem secrets_not_logged (path : bytes) (explicit : bool) (b b' : Main.boot) (H : same_boot b b') :
  startup_log path explicit b = startup_log path explicit b' /\
  forall cfg cfg' index fuel w w',
    Main.read_config path explicit b = inl cfg -> Main.read_config path explicit b' = inl cfg' ->
    Paho.answers_alike w w' ->
    Paho.logged (run_log w (Paho.life cfg index fuel) []).2 = Paho.logged (run_log w' (Paho.life cfg' index fuel) []).2.
Proof.
  destruct (config_log_public path explicit b b' H) as [Hl Hc]. split.
  2:{ intros cfg cfg' index fuel w w' E E' Hw. rewrite !config_log_config, E, E' in Hc.
      rewrite <- !(Paho.logged_hide (run_log _ _ _).2). f_equal.
      apply Paho.run_but_credentials; [done|by apply Paho.life_alike, same_public_connection|done]. }
  destruct H as (_ & _ & Hs & Hm & Hw & _ & _).
  unfold startup_log. destruct (config_log path explicit b) as [l c], (config_log path explicit b') as [l' c']. cbn [fst snd] in *.
  subst l'. destruct c as [c|], c' as [c'|]; try done.
  assert (state_log c' b = state_log c' b') as <- by (unfold state_log; by rewrite Hs).
  assert (services_log c' b = services_log c' b') as <- by (unfold services_log; by rewrite Hm, Hw).
  assert (Main.read_state c' b = Main.read_state c' b') as <- by (unfold Main.read_state; by rewrite Hs).
  by rewrite (settings_public c c' Hc), (state_log_public c c' Hc b b eq_refl), (services_log_public c c' Hc b b eq_refl),
    (read_state_public c c' Hc b b eq_refl).
Qed.

(** One token in the file, the broker's password in the environment. *)
Definition demo_boot (token password : bytes) : Main.boot :=
  {| Main.b_detected := 4; Main.b_random := fun _ => 0%N; Main.b_file := Some (Some (B"http_auth_tokens = " ++ token));
     Main.b_getenv := fun name => if decide (name = B"NSHMQTT_MQTT_PASSWORD") then Some password else None;
     Main.b_state := StateStore.NoFile; Main.b_mqtt := fun _ => (0, 0)%Z; Main.b_calls := Main.b_calls Main.demo_boot;
     Main.b_now := 0; Main.b_rounds := [] |}.

(** A broker that lets nobody in. *)
Definition lost_broker : world Paho.call := fun _ A c =>
  match c in Paho.call A return A with
  | Paho.Create _ _ | Paho.SetCallbacks => 0%Z
  | Paho.Connect _ | Paho.Subscribe _ _ | Paho.PublishMessage _ _ _ _ | Paho.WaitForCompletion _ => 5%Z
  | Paho.Running => true | Paho.LoadConnected => false | Paho.TakeJob => Paho.NoJob
  | Paho.Destroy | Paho.Disconnect _ | Paho.StoreConnected _ | Paho.Backoff _ | Paho.FinishJob _ | Paho.Count _
  | Paho.LogLine _ _ | Paho.NotifyAll => tt
  end.

Lemma lost_broker_alike : Paho.answers_alike lost_broker lost_broker.
Proof.
  assert (Hh : forall log A (c : Paho.call A), lost_broker log A c = lost_broker [] A (Paho.hidden c)) by (by intros log A []).
  intros log log' A c c' _ H. by rewrite (Hh log), (Hh log'), H.
Qed.

Lemma secrets_not_logged_witness :
  let b := demo_boot (B"alpha") (B"one") in
  let b' := demo_boot (B"beta") (B"two") in
  startup_log (B"f") true b = startup_log (B"f") true b' /\
  length (startup_log (B"f") true b) = 23 /\ Main.read_config (B"f") true b <> Main.read_config (B"f") true b' /\
  exists cfg cfg',
    Main.read_config (B"f") true b = inl cfg /\ Main.read_config (B"f") true b' = inl cfg' /\
    length (Paho.logged (run_log lost_broker (Paho.life cfg 0 3) []).2) = 3 /\
    Paho.logged (run_log lost_broker (Paho.life cfg 0 3) []).2 = Paho.logged (run_log lost_broker (Paho.life cfg' 0 3) []).2.
Proof.
  intros b b'. destruct (secrets_not_logged (B"f") true b b') as [H1 H2].
  - do 5 (split; [reflexivity|]). split.
    + intros []; vm_compute; first [exact I|discriminate].
    + apply Forall2_cons; [|apply Forall2_nil; exact I]. right. exists Config.K_http_auth_tokens, (B"alpha"), (B"beta").
      split; [vm_compute; reflexivity|]. split; [vm_compute; reflexivity|]. intros _. vm_compute. reflexivity.
  - split; [exact H1|]. split; [vm_compute; reflexivity|]. split; [vm_compute; discriminate|].
    eexists _, _. split; [reflexivity|]. split; [reflexivity|]. split; [vm_compute; reflexivity|].
    apply H2; [reflexivity|reflexivity|exact lost_broker_alike].
Defined.

End Console.
